(* ===== verification/_CoqProject ===== *)
-Q . S2P
Prelude.v
GoStrings.v
GoNet.v
GoAddr.v
Sha1.v
Netlink.v
Kernel.v
Transient.v
Frames.v
Rpdb.v
NatClient.v
Steering.v
Fou.v
EgressNat.v
Constants.v
Corev1.v
EgressApi.v
Api.v
FakeApi.v
Crb.v
EgressController.v
Peers.v
FouPeers.v
PodWatcher.v
AgentSetup.v
Agent.v
PodSteering.v
CniPlugin.v
Agreement.v
EgressPod.v
EgressPaths.v
EgressRetries.v
Deployed.v
RoundTrip.v
Memory.v
DeepCopy.v
Manager.v
ControllerMain.v
Watch.v
ControlPlane.v
ClientPods.v
AgentMain.v
Files.v
FakeFs.v
Installer.v
Pem.v
Gencert.v
