(* ===== verification/Prelude.v ===== *)
(** * Egress gateway CNI plugin: a verification development

    The program gives pods of a Kubernetes cluster a stable source address for
    chosen destinations.  An [Egress] resource names destinations; a controller
    turns it into a deployment of egress pods and a service in front of them.  A
    pod that wants the egress carries an annotation; when it starts, the CNI
    plugin hands the call to an agent on the node, which builds a Foo-over-UDP
    tunnel to the service and routes the destinations into it.  The egress pod
    watches the pods, keeps a tunnel back to each of its clients and masquerades
    what they send.

    ** Files and what they model

    This file: Go errors ([error], [errors_Is]), outcomes of a call ([outcome]:
    value, error, panic), the effect monad [M] (a computation over a world that
    also hands back the world when it fails half-way), its total-correctness
    calculus ([wp], loop rules, [wp_steps]) and generic list lemmas.

    Language and library functions, executable:
    - [GoStrings]: strings.Split/Join/HasPrefix, strconv, %x, sort.Strings.
    - [GoNet]: package net (To4, ParseIP, ParseCIDR, Contains, Mask, String).
    - [GoAddr]: net.SplitHostPort and strconv.Atoi, for the programs' flags.
    - [Sha1]: crypto/sha1, which names IPv6 tunnels.  [Pem]: encoding/base64 and
      encoding/pem, with a reference decoder.
    - [Memory]: slices, maps and pointers as addresses; what a deep copy is.

    The host network of one namespace:
    - [Netlink]: the interface [HostOps] to netlink, iptables and sysctl with its
      laws [HostLaws] on the state [Net]; [HostReliable] adds that calls succeed,
      [Transient] that only finitely many more of them fail ([HostTransient]).
    - [Kernel]: an executable instance with injected faults, for the witnesses.
    - [Rpdb]: the kernel's policy-routing lookup, the specification of routing.
    - [Frames]: what an operation on some links leaves alone, routes included.

    Components ([pkg/founat], [runners], [controllers], [api], [cmd]):
    - [NatClient] (client.go), [Steering]: rules and tables of a client pod, and
      where its packets go.
    - [Fou] (fou.go): tunnel devices.  [EgressNat] (egress.go): masquerading and
      the routes back to the clients.
    - [AgentSetup], [Agent] (runners/agent.go): CNI ADD on the node, and the
      server with its interceptors.  [PodSteering]: from a pod's annotations to
      the device its packets leave by.  [AgentMain] (cmd/egress-gw-agent): its
      start and the socket it takes over.
    - [CniPlugin] (cmd/egress-gw-cni): the plugin binary, composed with the agent.
    - [Peers], [FouPeers], [PodWatcher] (controllers/pod_watcher.go): the watcher
      on the egress pod is proved against the interface [Peers], which [FouPeers]
      discharges with [Fou] and [EgressNat].  [Agreement]: watcher and agent read
      the annotations the same way.  [EgressPod] (cmd/egress-gw): its start.
      [EgressPaths]: the whole egress pod, start and watcher over the real tunnels.
      [EgressRetries]: the same on a host whose failures pass.  [ClientPods]: the
      egress pod next to the pods of the cluster, with the queue of pods to visit.
    - [Corev1]: the fields of Kubernetes objects the code touches, with equality.  [EgressApi]
      (api/v1beta1): the resource and its webhooks; [DeepCopy]: the generated
      copies of its types, over [Memory].  [Api]: the API server as an interface
      with laws, [FakeApi] an executable instance.  [Crb]
      (clusterrolebinding_controller.go), [EgressController]
      (egress_controller.go): the reconcilers.
    - [Manager]: controller-runtime's manager as an interface with laws.
      [ControllerMain] (cmd/egress-gw-controller): the flags, the registrations
      and the start of the controller.  [Watch]: the requests a change of the
      cluster leads to, computed from the registrations, and an API server that
      others use between any two requests of a reconciler.  [ControlPlane]: a step
      relation of the running manager in it, with its work queue.
    - [Deployed]: the egress pod's program in the container the controller wrote.
      [RoundTrip]: agent, service and egress pod put together.
    - [Files] (package os as an interface with laws), [FakeFs] (an executable
      instance), [Installer] (cmd/egress-gw-installer), [Gencert] (cmd/gencert).
      [Constants] (pkg/constants and the version string).

    A definition has the name of the Go function it translates; where one is a
    part of a function (a loop body, a closure) its comment says which.  A method
    on a pointer receiver takes the receiver's record; what it changes outside the
    record is in the world of [M].

    ** What the theorems show

    - Routing: [egress_steering] and [pod_packets] say for every destination
      address which route the kernel's lookup takes after [Init]/[AddEgress] and
      after a whole CNI ADD; [return_path] says the same for the replies on the
      egress pod after one [AddClient], [client_return_paths] in every state the
      egress pod reaches.  [egress_round_trip] joins the two: what leaves a client
      goes to the service, reaches a port the egress pod listens on, and is
      answered through a tunnel to that client, as long as the watcher has it live.
    - Keeping up: [controllers_keep_up] and [clients_keep_up] are about all
      sequences of steps of the running programs, with changes by others in
      between, failures and retries: what does not wait in the queue is served as
      it is asked for now.  The watcher's step relation ([PodWatcher.step]) is one
      constructor, any reconciliation with any answer; what a run of it cost is kept
      beside its state ([PodWatcher.past]: the keys whose deletion began and did not
      end, the addresses whose tunnel was stolen), and the theorems except exactly
      these.  That the exceptions happen is proved too: [addPod_steals_tunnel] (a
      pod that loses an address takes the tunnel of another pod with it),
      [delPeer_stuck] (a deletion that never ends), [lost_event] (a read that fails
      loses a pod's event for good), and for the controllers
      [foreign_is_not_watched] (an object the Egress does not control is not watched).
    - Termination: on a host with finitely many failures left, additions of
      clients fail only that often ([additions_fail_boundedly]), and a reconciler
      that is called again after each error ends with the client served
      ([Reconcile_retries_serve]).
    - Operations on every branch, on a host where any call may fail:
      [Init_installs], [AddEgress_routes], [AddPeer_spec], [Init_spec],
      [egress_Init_spec], [setupEgressGW_spec], [Add_spec], [cmdAdd_spec],
      [subMain_spec], [RunE_installs], [main_spec] (gencert: both files can be
      read back, or an error).  Each says what a nil error means, what may have
      changed when there is an error, and that there is no panic.
    - Starts: [controller_starts] and [agent_starts] (a manager runs with
      everything registered, or not at all), [deployed_pod_starts] (the container
      the controller writes is one its program runs in).
    - Idempotence and retries: [Init_again], [AddPeer_idempotent],
      [Reconcile_idempotent], [mutate_fixpoint]; and where a retry does not
      recover: [Init_never_recovers], [delPeer_stuck], [shared_destination_fails],
      [AddPeer_retry_incomplete], [Init_retry_duplicates].
    - Abstract specifications: [AddClient_refines] (insert-if-absent on the map the
      routing table represents), [Reconcile_converges] (the cluster an Egress asks
      for), [watcher_safety] (an invariant of all reachable states of the watcher),
      [DeepCopyObject_independent] (a copy stands for the same value and shares no
      memory with the original).
    - Agreement between components: [watcher_agent_agree], [convertError_spec]
      (the plugin reads the agent's errors back), [stored_lookup_errors] (what the
      webhooks accepted, the agent can parse), [service_selects_own_pods].

    ** Bounds and fuel

    The programs' loops are over finite lists and need no fuel.  Fuel occurs only
    inside library functions, with the bound of the code it models: 20 decimal
    digits for a 64-bit number, 4 hexadecimal digits for a 16-bit group, 8 groups
    in an IPv6 address.  The repeated calls of a reconciler in [EgressRetries] are
    bounded by the failures the host has left, which the theorem proves enough.
    Port numbers are cut to 16 bits where the code converts them ([uint16]), error
    codes to 64 ([uint]).

    ** Assumptions

    Code outside the repository appears only as the classes [HostOps]/[HostLaws]/
    [HostReliable]/[HostTransient], [ApiOps]/[ApiLaws], [FsOps]/[FsLaws],
    [MgrOps]/[MgrLaws], [AgentIO]/[AgentIOLaws], [CniLib]/[CniLibLaws],
    [AgentEnv]/[AgentEnvLaws], [PluginEnv]/[PluginLaws], and as arguments: the
    label validators, the copies of k8s.io types with [CopyLaws], RSA and X.509,
    what the kubelet puts into an environment variable.  Every class has a
    concrete instance in the development.  Methods of [pkg/founat] hold a mutex
    for their whole body, and controller-runtime runs a reconciler once at a time
    per object, so a call on the host is one step; what others do to the pod's
    network between two calls is not modelled.  In [ControlPlane] others change the
    cluster between any two requests of a reconciler, but a create-or-update is one
    request (resource versions make it so), reads are current, and the runs of the
    two controllers do not overlap each other.  Others may do anything except give
    an Egress's names to objects it does not control, or delete service accounts.
    The requests that follow a change are those controller-runtime documents for
    For, Owns and predicates.  In [ClientPods] every change of a pod puts its key
    into the queue; names may be used again, addresses be replaced and reads fail.
    The theorems about whole egress pods ask that no two clients share a tunnel
    name: IPv4 names never collide, IPv6 names are 32 bits of a digest
    ([fouName_identifies]).  A working host takes a route only over a device it has.
    The entries of a CNI result are objects, as the CNI specification has them (a
    null one makes the agent panic: [null_entry_panics]).  Paths hold no symbolic links: the
    file of a path is that of its clean form ([Files]).  The kernel drops the routes over a link that is
    deleted; the theorems about a whole pod therefore start from a namespace
    without routes over the devices the tunnel component replaces ([pod_ok]).  In
    [RoundTrip] kube-proxy's delivery from the service to its pods and the
    kernel's decapsulation are not computed: the theorem gives the port the
    service forwards to and the socket that is open there.

    ** Not modelled, and why

    - The main functions, which only call [Execute], and the parsing of flags by
      cobra and viper: the flags and their defaults are.  Signal handling, metrics
      other than the watcher's gauge, logging, health probes, and the goroutine
      that stops the gRPC server: wiring of libraries without logic of its own.
    - The registration of the types with a scheme, and the generated protobuf
      code: the error enum of cni.proto is in [Agent].
    - What [mgr.Start] of the egress pod does besides running reconciliations: it is
      a parameter of [EgressPod.subMain]; the runs themselves are [PodWatcher.step].
    - The timing of [RunE]'s final sleep, and the closing of files.
    - Tests, e2e programs and manifests. *)
From stdpp Require Export sorting numbers strings gmap fin_maps list.

Global Set Default Proof Using "Type".
Global Open Scope Z_scope.

(** ** Error values

    Every Go value of type [error] the program creates or inspects.  Errors
    made outside the repository (errno values, API-server failures, ...) are
    [ErrExternal]; the program looks at them only through the predicates below. *)
Inductive grpc_code :=
| InvalidArgument | NotFound | Internal | FailedPrecondition | OtherCode (n : Z).

Global Instance grpc_code_eq_dec : EqDecision grpc_code.
Proof. solve_decision. Defined.

(** The [CNIError] message of [pkg/cnirpc/cni.proto] (its enum as a number). *)
Record CNIError := mkCNIError { Code : Z; Msg : string; Details : string }.

Global Instance CNIError_eq_dec : EqDecision CNIError.
Proof. solve_decision. Defined.

(** A detail of a gRPC status: a [CNIError], or another protobuf message. *)
Inductive detail := DetailCNI (c : CNIError) | DetailOther (type_url : string).

Global Instance detail_eq_dec : EqDecision detail.
Proof. solve_decision. Defined.

Inductive error :=
| ErrIPFamilyMismatch                                     (* founat/errors.go *)
| LinkNotFoundError (name : string)                       (* netlink's type *)
| ErrAPINotFound (msg : string)                           (* apierrors.IsNotFound holds *)
| ErrExternal (msg : string)                              (* any other foreign error *)
| ErrNew (msg : string)                                   (* errors.New, Errorf without %w *)
| Errorf (msg : string) (e : error)                       (* fmt.Errorf("... %w", e) *)
| ErrStatus (c : grpc_code) (msg : string) (ds : list detail)  (* a gRPC status *)
| ErrCNI (code : Z) (msg : string) (details : string).    (* containernetworking types.Error *)

Global Instance error_eq_dec : EqDecision error.
Proof. solve_decision. Defined.

(** [errors.Is]: compare the error and everything it wraps with a sentinel. *)
Fixpoint errors_Is (e target : error) : bool :=
  bool_decide (e = target) ||
  match e with Errorf _ e' => errors_Is e' target | _ => false end.

(** The type assertion [_, ok := err.(netlink.LinkNotFoundError)]: the dynamic
    type of the value itself, so a wrapped one does not count. *)
Definition is_link_not_found (e : error) : bool :=
  match e with LinkNotFoundError _ => true | _ => false end.

(** [apierrors.IsNotFound] on the errors the API client returns. *)
Definition apierrors_IsNotFound (e : error) : bool :=
  match e with ErrAPINotFound _ => true | _ => false end.

(** ** Outcomes and the effect monad

    A Go call returns a value or a non-nil error, or panics. *)
Inductive outcome (A : Type) :=
| Ok (a : A)
| Err (e : error)
| Panicked (msg : string).
Arguments Ok {_} _.
Arguments Err {_} _.
Arguments Panicked {_} _.

Global Instance outcome_eq_dec `{EqDecision A} : EqDecision (outcome A).
Proof. solve_decision. Defined.

Global Instance outcome_ret : MRet outcome := @Ok.
Global Instance outcome_bind : MBind outcome := λ A B f o,
  match o with Ok a => f a | Err e => Err e | Panicked s => Panicked s end.
Global Instance outcome_fmap : FMap outcome := λ A B f o,
  match o with Ok a => Ok (f a) | Err e => Err e | Panicked s => Panicked s end.

Definition wrap_err {A} (msg : string) (o : outcome A) : outcome A :=
  match o with Err e => Err (Errorf msg e) | o => o end.

Lemma wrap_err_Ok {A} msg (o : outcome A) a : wrap_err msg o = Ok a ↔ o = Ok a.
Proof. by destruct o. Qed.

Definition no_panic {A} (o : outcome A) : Prop := match o with Panicked _ => False | _ => True end.

(** [done_or_same same P o]: success with [P], or an error that left things as
    [same] says; never a panic. *)
Definition done_or_same {A} (same : Prop) (P : A → Prop) (o : outcome A) : Prop :=
  match o with Ok a => P a | Err _ => same | Panicked _ => False end.

Lemma done_or_same_wrap {A} msg same (P : A → Prop) o :
  done_or_same same P (wrap_err msg o) = done_or_same same P o.
Proof. by destruct o. Qed.

Lemma done_or_same_mono {A} (same same' : Prop) (P P' : A → Prop) o :
  done_or_same same P o → (same → same') → (∀ a, P a → P' a) → done_or_same same' P' o.
Proof. destruct o; simpl; auto. Qed.

(** Computations over a world [W]: they always hand back the world they leave
    behind, also when they fail half-way. *)
Definition M (W A : Type) : Type := W → outcome A * W.

Global Instance M_ret {W} : MRet (M W) := λ A a w, (Ok a, w).
Global Instance M_bind {W} : MBind (M W) := λ A B f m w,
  match m w with
  | (Ok a, w') => f a w'
  | (Err e, w') => (Err e, w')
  | (Panicked s, w') => (Panicked s, w')
  end.

Section monad.
Context {W : Type}.

Definition throw {A} (e : error) : M W A := λ w, (Err e, w).
Definition panic {A} (s : string) : M W A := λ w, (Panicked s, w).
Definition get_world : M W W := λ w, (Ok w, w).
Definition put_world (w : W) : M W unit := λ _, (Ok tt, w).
Definition lift_outcome {A} (o : outcome A) : M W A := λ w, (o, w).

(** [x, err := m()]: the error becomes a value the caller inspects; a panic
    still unwinds. *)
Definition attempt {A} (m : M W A) : M W (A + error) := λ w,
  match m w with
  | (Ok a, w') => (Ok (inl a), w')
  | (Err e, w') => (Ok (inr e), w')
  | (Panicked s, w') => (Panicked s, w')
  end.

(** [if err != nil { return fmt.Errorf(msg + ": %w", err) }]. *)
Definition wrapping {A} (msg : string) (m : M W A) : M W A := λ w,
  let (o, w') := m w in (wrap_err msg o, w').

(** [for _, x := range l { if err := f(x); err != nil { return err } }]. *)
Fixpoint for_each {A} (f : A → M W unit) (l : list A) : M W unit :=
  match l with
  | [] => mret tt
  | x :: l' => _ ← f x; for_each f l'
  end.

(** The same with the index, counted from [i]. *)
Fixpoint for_each_i {A} (f : nat → A → M W unit) (i : nat) (l : list A) : M W unit :=
  match l with
  | [] => mret tt
  | x :: l' => _ ← f i x; for_each_i f (S i) l'
  end.
End monad.

(** ** Weakest preconditions

    [wp m Q w]: running [m] from [w] ends in an outcome and a world that
    satisfy [Q].  All functions are total, so this is total correctness. *)
Definition wp {W A} (m : M W A) (Q : outcome A → W → Prop) (w : W) : Prop :=
  Q (m w).1 (m w).2.

(** How a continuation is reached: only through [Ok]. *)
Definition on_ok {A B W} (K : A → W → Prop) (Q : outcome B → W → Prop)
    (o : outcome A) (w : W) : Prop :=
  match o with
  | Ok a => K a w
  | Err e => Q (Err e) w
  | Panicked s => Q (Panicked s) w
  end.

Section wp.
Context {W : Type}.
Implicit Types (w : W).

Lemma wp_run {A} (m : M W A) Q w r w' : m w = (r, w') → wp m Q w → Q r w'.
Proof. unfold wp. by intros ->. Qed.

Lemma wp_intro {A} (m : M W A) (Q : outcome A → W → Prop) w :
  (∀ r w', m w = (r, w') → Q r w') → wp m Q w.
Proof. intros H. unfold wp. apply H. by destruct (m w). Qed.

Lemma wp_mono {A} (m : M W A) (Q Q' : outcome A → W → Prop) w :
  wp m Q w → (∀ r w', Q r w' → Q' r w') → wp m Q' w.
Proof. unfold wp. auto. Qed.

Lemma wp_and {A} (m : M W A) (Q Q' : outcome A → W → Prop) w :
  wp m Q w → wp m Q' w → wp m (λ r w', Q r w' ∧ Q' r w') w.
Proof. unfold wp. auto. Qed.

Lemma wp_ret {A} (a : A) (Q : outcome A → W → Prop) w :
  Q (Ok a) w → wp (mret a) Q w.
Proof. done. Qed.

Lemma wp_throw {A} e (Q : outcome A → W → Prop) w :
  Q (Err e) w → wp (throw e) Q w.
Proof. done. Qed.

Lemma wp_panic {A} s (Q : outcome A → W → Prop) w :
  Q (Panicked s) w → wp (panic s) Q w.
Proof. done. Qed.

Lemma wp_lift_outcome {A} (o : outcome A) (Q : outcome A → W → Prop) w :
  Q o w → wp (lift_outcome o) Q w.
Proof. done. Qed.

Lemma wp_bind {A B} (m : M W A) (f : A → M W B) (Q : outcome B → W → Prop) w :
  wp m (on_ok (λ a, wp (f a) Q) Q) w → wp (m ≫= f) Q w.
Proof.
  unfold wp, on_ok, mbind, M_bind. by destruct (m w) as [[a|e|s] w'].
Qed.

Lemma wp_attempt {A} (m : M W A) (Q : outcome (A + error) → W → Prop) w :
  wp m (λ r w', match r with
                | Ok a => Q (Ok (inl a)) w'
                | Err e => Q (Ok (inr e)) w'
                | Panicked s => Q (Panicked s) w'
                end) w → wp (attempt m) Q w.
Proof. unfold wp, attempt. by destruct (m w) as [[a|e|s] w']. Qed.

Lemma wp_wrapping {A} msg (m : M W A) (Q : outcome A → W → Prop) w :
  wp m (λ r w', Q (wrap_err msg r) w') w → wp (wrapping msg m) Q w.
Proof. unfold wp, wrapping. by destruct (m w). Qed.

(** Loop rule: an invariant on the elements still to visit; every failure of
    the body must already give the post-condition. *)
Lemma wp_for_each {A} (f : A → M W unit) (I : list A → W → Prop)
    (Q : outcome unit → W → Prop) l w :
  I l w →
  (∀ x l' w0, I (x :: l') w0 → wp (f x) (on_ok (λ _, I l') Q) w0) →
  (∀ w0, I [] w0 → Q (Ok tt) w0) →
  wp (for_each f l) Q w.
Proof.
  intros HI Hstep Hend. revert w HI.
  induction l as [|x l IH]; intros w HI; simpl.
  - apply wp_ret. auto.
  - apply wp_bind. eapply wp_mono; [by apply Hstep|].
    intros [?|?|?] w'; simpl; auto.
Qed.

Lemma wp_for_each_i {A} (f : nat → A → M W unit) (I : nat → list A → W → Prop)
    (Q : outcome unit → W → Prop) i l w :
  I i l w →
  (∀ j x l' w0, I j (x :: l') w0 → wp (f j x) (on_ok (λ _, I (S j) l') Q) w0) →
  (∀ j w0, I j [] w0 → Q (Ok tt) w0) →
  wp (for_each_i f i l) Q w.
Proof.
  intros HI Hstep Hend. revert i w HI.
  induction l as [|x l IH]; intros i w HI; simpl.
  - apply wp_ret. eauto.
  - apply wp_bind. eapply wp_mono; [by apply Hstep|].
    intros [?|?|?] w'; simpl; auto.
Qed.
End wp.

(** ** Automation

    [wp_step] opens the head of a computation; [wp_call spec] uses the
    specification of an operation. *)
Create HintDb s2p discriminated.

Ltac wp_step :=
  match goal with
  | |- wp (mbind _ _) _ _ => apply wp_bind
  | |- wp (mret _) _ _ => apply wp_ret
  | |- wp (throw _) _ _ => apply wp_throw
  | |- wp (panic _) _ _ => apply wp_panic
  | |- wp (lift_outcome _) _ _ => apply wp_lift_outcome
  | |- wp (attempt _) _ _ => apply wp_attempt
  | |- wp (wrapping _ _) _ _ => apply wp_wrapping
  | |- wp (if ?b then _ else _) _ _ => destruct b eqn:?
  | |- on_ok _ _ _ _ => simpl
  end.

Ltac wp_steps := repeat (wp_step; simpl).

Tactic Notation "wp_call" uconstr(spec) "as" simple_intropattern(p) :=
  eapply wp_mono; [eapply spec | simpl; intros p].

(** ** Lists *)
Lemma filter_idemp {A} (P : A → Prop) `{∀ x, Decision (P x)} (l : list A) :
  filter P (filter P l) = filter P l.
Proof. induction l as [|x l IH]; [done|]. rewrite !filter_cons. case_decide; [|done].
  rewrite filter_cons_True by done. by rewrite IH. Qed.

Lemma filter_none {A} (P : A → Prop) `{∀ x, Decision (P x)} (l : list A) :
  filter P l = [] → filter (λ x, ¬ P x) l = l.
Proof.
  induction l as [|x l IH]; [done|]. rewrite !filter_cons.
  destruct (decide (P x)); [done|]. intros HF. rewrite decide_True by done. by rewrite IH.
Qed.

Lemma filter_none_intro {A} (P : A → Prop) `{∀ x, Decision (P x)} (l : list A) :
  (∀ x, x ∈ l → ¬ P x) → filter P l = [].
Proof.
  induction l as [|x l IH]; [done|]. intros Hl.
  rewrite filter_cons_False by (apply Hl; left). apply IH. intros y Hy. apply Hl. by right.
Qed.

Lemma StronglySorted_filter {A} (R : relation A) (P : A → Prop) `{∀ x, Decision (P x)} l :
  StronglySorted R l → StronglySorted R (filter P l).
Proof.
  induction 1 as [|x l Hs IH Hx]; [constructor|]. rewrite filter_cons. case_decide; [|done].
  constructor; [done|]. rewrite Forall_forall in *. intros y [_ Hy]%list_elem_of_filter. auto.
Qed.
