(* ===== verification/GoStrings.v ===== *)
(** * Go's strings, strconv and fmt, as far as the program uses them

    Strings are byte strings.  [Split]/[Join] take a one-byte separator (the
    program only splits on a comma or a dot), [Itoa] prints non-negative
    integers in decimal, [hex_bytes] is the verb [%x] on a byte slice, and
    [sort_Strings] is [sort.Strings]. *)
From S2P Require Import Prelude.
From Stdlib Require Import Ascii.

Local Open Scope Z_scope.

(** [len(s)] and [s[n:]] (the callers keep [n <= len(s)]). *)
Fixpoint str_drop (n : nat) (s : string) : string :=
  match n, s with
  | O, _ => s
  | S n', String _ s' => str_drop n' s'
  | S _, EmptyString => EmptyString
  end.

(** [strings.HasPrefix]. *)
Fixpoint HasPrefix (s prefix : string) {struct prefix} : bool :=
  match prefix, s with
  | EmptyString, _ => true
  | String c p', String d s' => bool_decide (c = d) && HasPrefix s' p'
  | String _ _, EmptyString => false
  end.

(** [strings.Split(s, sep)]: never the empty list. *)
Fixpoint Split (s : string) (sep : ascii) : list string :=
  match s with
  | EmptyString => [EmptyString]
  | String c s' =>
      if bool_decide (c = sep) then EmptyString :: Split s' sep
      else match Split s' sep with
           | [] => [String c EmptyString]
           | x :: l => String c x :: l
           end
  end.

(** [strings.Join(l, sep)]. *)
Fixpoint Join (l : list string) (sep : ascii) : string :=
  match l with
  | [] => ""
  | [x] => x
  | x :: l' => x +:+ String sep (Join l' sep)
  end.

(** ** Decimal and hexadecimal digits *)
Definition dec_digit (d : Z) : ascii := ascii_of_nat (48 + Z.to_nat d).
Definition hex_digit (d : Z) : ascii :=
  if d <? 10 then ascii_of_nat (48 + Z.to_nat d) else ascii_of_nat (87 + Z.to_nat d).

(** Digits of [n] in base [b], most significant first; [fuel] bounds their
    number. *)
Fixpoint digits_go (b : Z) (dig : Z → ascii) (fuel : nat) (n : Z) (acc : string) : string :=
  match fuel with
  | O => acc
  | S f =>
      let acc' := String (dig (n mod b)) acc in
      if n <? b then acc' else digits_go b dig f (n / b) acc'
  end.

(** [strconv.Itoa] on non-negative 64-bit values (20 digits are enough). *)
Definition Itoa (n : Z) : string := digits_go 10 dec_digit 20 n "".

(** Lower-case hexadecimal without leading zeros, of a 16-bit group. *)
Definition hex16 (n : Z) : string := digits_go 16 hex_digit 4 n "".

(** The verb [%x] on one byte and on a byte slice. *)
Definition hex_byte (b : Z) : string :=
  String (hex_digit (b / 16)) (String (hex_digit (b mod 16)) EmptyString).
Fixpoint hex_bytes (bs : list Z) : string :=
  match bs with
  | [] => ""
  | b :: bs' => hex_byte b +:+ hex_bytes bs'
  end.

(** ** [sort.Strings]: byte-wise lexicographic order *)
Definition sort_Strings (l : list string) : list string :=
  merge_sort (λ s1 s2 : string, String.le s1 s2) l.

(** ** Lemmas *)
Lemma str_app_nil_l s : "" +:+ s = s.
Proof. done. Qed.

Lemma str_app_cons c s t : String c s +:+ t = String c (s +:+ t).
Proof. done. Qed.

Lemma str_app_nil_r s : s +:+ "" = s.
Proof. induction s as [|c s IH]; [done|]. rewrite str_app_cons. by f_equal. Qed.

Lemma str_app_assoc s1 s2 s3 : s1 +:+ (s2 +:+ s3) = (s1 +:+ s2) +:+ s3.
Proof. induction s1 as [|c s IH]; [done|]. rewrite !str_app_cons. by f_equal. Qed.

Lemma length_str_app s t : String.length (s +:+ t) = (String.length s + String.length t)%nat.
Proof. induction s as [|c s IH]; [done|]. rewrite str_app_cons. simpl. by f_equal. Qed.

Lemma list_ascii_app a b : String.list_ascii_of_string (a +:+ b) = String.list_ascii_of_string a ++ String.list_ascii_of_string b.
Proof. induction a; simpl; by f_equal. Qed.

(** [HasPrefix] is the prefix order, and cutting the prefix gives the rest. *)
Lemma HasPrefix_spec s p : HasPrefix s p = true ↔ ∃ t, s = p +:+ t.
Proof.
  revert s. induction p as [|c p IH]; intros s; simpl.
  - split; [intros _; by exists s|done].
  - destruct s as [|d s]; [split; [done|intros [? H]; rewrite str_app_cons in H; done]|].
    rewrite andb_true_iff, bool_decide_eq_true, IH. split.
    + intros [-> [t ->]]. by exists t.
    + intros [t H]. rewrite str_app_cons in H. simplify_eq. eauto.
Qed.

Lemma str_drop_app p t : str_drop (String.length p) (p +:+ t) = t.
Proof. induction p as [|c p IH]; [done|]. rewrite str_app_cons. done. Qed.

Lemma Split_cons s sep : ∃ x l, Split s sep = x :: l.
Proof.
  destruct s as [|c s]; simpl; [by eauto|].
  case_bool_decide; [by eauto|]. destruct (Split s sep); eauto.
Qed.

Lemma Split_not_nil s sep : Split s sep ≠ [].
Proof. destruct (Split_cons s sep) as (?&?&->). done. Qed.

(** Splitting and joining on the same byte gives the string back. *)
Lemma Join_Split s sep : Join (Split s sep) sep = s.
Proof.
  induction s as [|c s IH]; [done|]. simpl.
  destruct (Split_cons s sep) as (x&l&Hs). rewrite Hs in *.
  case_bool_decide as Hc; subst.
  - simpl in *. rewrite str_app_nil_l. by f_equal.
  - destruct l as [|y l]; simpl in *.
    + by f_equal.
    + rewrite str_app_cons. f_equal.
Qed.

(** A string is [x] itself exactly when it has no separator. *)
Lemma Split_no_sep s sep : sep ∉ String.list_ascii_of_string s → Split s sep = [s].
Proof.
  induction s as [|c s IH]; [done|]. simpl. intros Hn.
  rewrite bool_decide_eq_false_2 by set_solver. rewrite IH by set_solver. done.
Qed.

(** And joining what has no separator inside is undone by splitting. *)
Lemma Split_app x r sep : sep ∉ String.list_ascii_of_string x → Split (x +:+ String sep r) sep = x :: Split r sep.
Proof.
  induction x as [|c x IH]; intros Hn; [simpl; by rewrite bool_decide_eq_true_2|].
  rewrite str_app_cons. simpl in *. rewrite bool_decide_eq_false_2 by set_solver. by rewrite IH by set_solver.
Qed.

Lemma Split_Join l sep : l ≠ [] → Forall (λ x, sep ∉ String.list_ascii_of_string x) l → Split (Join l sep) sep = l.
Proof.
  induction l as [|x [|y l] IH]; intros Hne HF; [done| |]; apply Forall_cons in HF as [Hx HF].
  - by apply Split_no_sep.
  - cbn [Join]. rewrite Split_app by done. f_equal. by apply IH.
Qed.

Lemma sort_Strings_perm l : sort_Strings l ≡ₚ l.
Proof. apply merge_sort_Permutation. Qed.

Lemma sort_Strings_sorted l : Sorted String.le (sort_Strings l).
Proof. apply Sorted_merge_sort. apply _. Qed.

(** The result depends only on the multiset of the input: the order a Go map
    was ranged over does not matter. *)
Lemma sort_Strings_ext l1 l2 : l1 ≡ₚ l2 → sort_Strings l1 = sort_Strings l2.
Proof.
  intros H. eapply (Sorted_unique String.le).
  - apply sort_Strings_sorted.
  - apply sort_Strings_sorted.
  - by rewrite !sort_Strings_perm.
Qed.

(** ** Injectivity of the digit printers *)
Lemma hex_digit_inj d1 d2 :
  0 ≤ d1 < 16 → 0 ≤ d2 < 16 → hex_digit d1 = hex_digit d2 → d1 = d2.
Proof.
  intros H1 H2 He.
  assert (∀ d, 0 ≤ d < 16 → nat_of_ascii (hex_digit d) =
            (if (d <? 10)%Z then 48 + Z.to_nat d else 87 + Z.to_nat d)%nat) as Hn.
  { intros d Hd. unfold hex_digit. destruct (d <? 10);
      rewrite nat_ascii_embedding; lia. }
  apply (f_equal nat_of_ascii) in He. rewrite !Hn in He by lia.
  destruct (Z.ltb_spec d1 10), (Z.ltb_spec d2 10); lia.
Qed.

Definition is_byte (b : Z) : Prop := 0 ≤ b < 256.
Global Instance is_byte_dec b : Decision (is_byte b).
Proof. unfold is_byte. apply _. Defined.

Lemma hex_byte_inj b1 b2 : is_byte b1 → is_byte b2 → hex_byte b1 = hex_byte b2 → b1 = b2.
Proof.
  unfold is_byte, hex_byte. intros H1 H2 He. injection He as Hhi Hlo.
  apply hex_digit_inj in Hhi; [|Z.div_mod_to_equations; lia..].
  apply hex_digit_inj in Hlo; [|Z.div_mod_to_equations; lia..].
  Z.div_mod_to_equations. lia.
Qed.

Lemma length_hex_bytes bs : String.length (hex_bytes bs) = (2 * length bs)%nat.
Proof. induction bs as [|b bs IH]; [done|]. simpl. rewrite length_str_app, IH. simpl. lia. Qed.

Lemma hex_bytes_inj bs1 bs2 :
  Forall is_byte bs1 → Forall is_byte bs2 → hex_bytes bs1 = hex_bytes bs2 → bs1 = bs2.
Proof.
  intros H1. revert bs2. induction H1 as [|b1 bs1 Hb1 _ IH]; intros bs2 H2 He.
  - destruct bs2; [done|]. simpl in He. done.
  - destruct H2 as [|b2 bs2 Hb2 H2]; [done|]. simpl in He.
    assert (hex_byte b1 = hex_byte b2 ∧ hex_bytes bs1 = hex_bytes bs2) as [Hx Hy].
    { unfold hex_byte in *. rewrite !str_app_cons, !str_app_nil_l in He. injection He as -> -> ->. done. }
    f_equal; [by apply hex_byte_inj|auto].
Qed.
