(* ===== verification/GoNet.v ===== *)
(** * Go's package net, as far as the program uses it

    Addresses ([net.IP]) are byte lists; the nil slice and the empty slice are
    one value, which is faithful here because every address of the program is
    nil or comes from [ParseIP], [To4] or a CNI result and is then 4 or 16 bytes
    long.  The functions follow Go 1.20, the version [go.mod] names. *)
From S2P Require Import Prelude GoStrings.
From Stdlib Require Import Ascii.

Local Open Scope Z_scope.

Abbreviation IP := (list Z).

Definition zeros (n : nat) : list Z := replicate n 0.
Definition v4InV6Prefix : list Z := zeros 10 ++ [255; 255].

(** [ip.To4()]: the 4-byte form, or nil. *)
Definition To4 (ip : IP) : IP :=
  if bool_decide (length ip = 4%nat) then ip
  else if bool_decide (length ip = 16%nat ∧ take 12 ip = v4InV6Prefix) then drop 12 ip
  else [].

(** [ip.Equal(x)]: an IPv4 address equals its IPv4-mapped IPv6 form. *)
Definition IP_Equal (ip x : IP) : bool :=
  if bool_decide (length ip = length x) then bool_decide (ip = x)
  else if bool_decide (length ip = 4%nat ∧ length x = 16%nat)
  then bool_decide (take 12 x = v4InV6Prefix ∧ ip = drop 12 x)
  else if bool_decide (length ip = 16%nat ∧ length x = 4%nat)
  then bool_decide (take 12 ip = v4InV6Prefix ∧ drop 12 ip = x)
  else false.

(** ** Networks *)
Record IPNet := mkIPNet { net_IP : IP; net_Mask : list Z }.

Global Instance IPNet_eq_dec : EqDecision IPNet.
Proof. solve_decision. Defined.

(** One byte of a mask with [n] leading ones, [0 <= n <= 8]. *)
Definition mask_byte (n : Z) : Z := 255 - Z.shiftr 255 n.

Fixpoint mask_bytes (len : nat) (ones : Z) : list Z :=
  match len with
  | O => []
  | S l => if 8 <=? ones then 255 :: mask_bytes l (ones - 8)
           else mask_byte ones :: mask_bytes l 0
  end.

(** [net.CIDRMask(ones, bits)]. *)
Definition CIDRMask (ones bits : Z) : list Z :=
  if negb ((bits =? 32) || (bits =? 128)) then []
  else if (ones <? 0) || (bits <? ones) then []
  else mask_bytes (Z.to_nat (bits / 8)) ones.

(** Leading ones of one byte, when it is a run of ones followed by zeros. *)
Definition byte_ones (b : Z) : option Z :=
  if b =? 0 then Some 0 else if b =? 128 then Some 1 else if b =? 192 then Some 2
  else if b =? 224 then Some 3 else if b =? 240 then Some 4 else if b =? 248 then Some 5
  else if b =? 252 then Some 6 else if b =? 254 then Some 7 else if b =? 255 then Some 8
  else None.

Fixpoint simpleMaskLength (m : list Z) : option Z :=
  match m with
  | [] => Some 0
  | b :: m' =>
      if b =? 255 then (λ n, 8 + n) <$> simpleMaskLength m'
      else if forallb (Z.eqb 0) m' then byte_ones b else None
  end.

(** [mask.Size()] = (ones, bits); (0, 0) for a mask that is not canonical. *)
Definition Mask_Size (m : list Z) : Z * Z :=
  match simpleMaskLength m with
  | Some ones => (ones, 8 * Z.of_nat (length m))
  | None => (0, 0)
  end.

Definition and_bytes (a b : list Z) : list Z := zip_with Z.land a b.

(** [ip.Mask(m)]. *)
Definition IP_Mask (ip : IP) (m : list Z) : IP :=
  let m := if bool_decide (length m = 16%nat ∧ length ip = 4%nat ∧ take 12 m = replicate 12 255)
           then drop 12 m else m in
  let ip := if bool_decide (length m = 4%nat ∧ length ip = 16%nat ∧ take 12 ip = v4InV6Prefix)
            then drop 12 ip else ip in
  if bool_decide (length ip = length m) then and_bytes ip m else [].

(** [networkNumberAndMask]. *)
Definition networkNumberAndMask (n : IPNet) : IP * list Z :=
  let ip4 := To4 (net_IP n) in
  let ip := if bool_decide (ip4 = []) then net_IP n else ip4 in
  if bool_decide (ip4 = [] ∧ length (net_IP n) ≠ 16%nat) then ([], [])
  else if bool_decide (length (net_Mask n) = 4%nat)
  then if bool_decide (length ip = 4%nat) then (ip, net_Mask n) else ([], [])
  else if bool_decide (length (net_Mask n) = 16%nat)
  then if bool_decide (length ip = 4%nat) then (ip, drop 12 (net_Mask n)) else (ip, net_Mask n)
  else ([], []).

(** [n.Contains(ip)]. *)
Definition Contains (n : IPNet) (ip : IP) : bool :=
  let '(nn, m) := networkNumberAndMask n in
  let ip4 := To4 ip in
  let ip := if bool_decide (ip4 = []) then ip else ip4 in
  if bool_decide (length ip = length nn)
  then bool_decide (and_bytes nn m = and_bytes ip m)
  else false.

(** ** Printing *)
Fixpoint groups16 (bs : list Z) : list Z :=
  match bs with
  | a :: b :: bs' => a * 256 + b :: groups16 bs'
  | _ => []
  end.

Fixpoint zero_run (l : list Z) : nat :=
  match l with
  | z :: l' => if z =? 0 then S (zero_run l') else O
  | [] => O
  end.

(** The first longest run of zero groups: (start, length). *)
Definition best_zero_run (g : list Z) : nat * nat :=
  foldl (λ best i, let r := zero_run (drop i g) in
                   if (snd best <? r)%nat then (i, r) else best) (0%nat, 0%nat) (seq 0 8).

Definition colon : ascii := ":"%char.
Definition dot : ascii := "."%char.

Definition string_v6 (ip : IP) : string :=
  let g := groups16 ip in
  let '(e0, len) := best_zero_run g in
  if (len <=? 1)%nat then Join (hex16 <$> g) colon
  else Join (hex16 <$> take e0 g) colon +:+ "::" +:+ Join (hex16 <$> drop (e0 + len) g) colon.

(** [ip.String()]. *)
Definition IP_String (ip : IP) : string :=
  if bool_decide (ip = []) then "<nil>"
  else if bool_decide (length ip ≠ 4%nat ∧ length ip ≠ 16%nat) then "?" +:+ hex_bytes ip
  else if bool_decide (length (To4 ip) = 4%nat) then Join (Itoa <$> To4 ip) dot
  else string_v6 ip.

(** [n.String()]. *)
Definition IPNet_String (n : IPNet) : string :=
  let '(nn, m) := networkNumberAndMask n in
  if bool_decide (nn = [] ∨ m = []) then "<nil>"
  else match simpleMaskLength m with
       | Some l => IP_String nn +:+ "/" +:+ Itoa l
       | None => IP_String nn +:+ "/" +:+ hex_bytes m
       end.

(** ** Parsing *)
Definition dec_val (c : ascii) : option Z :=
  let n := Z.of_nat (nat_of_ascii c) in
  if (48 <=? n) && (n <=? 57) then Some (n - 48) else None.
Definition hex_val (c : ascii) : option Z :=
  let n := Z.of_nat (nat_of_ascii c) in
  if (48 <=? n) && (n <=? 57) then Some (n - 48)
  else if (97 <=? n) && (n <=? 102) then Some (n - 87)
  else if (65 <=? n) && (n <=? 70) then Some (n - 55) else None.

(** [dtoi]/[xtoi]: value, digits consumed and the rest of the string; [None]
    where Go reports [ok = false].  [big] is 0xFFFFFF. *)
Fixpoint digits (val : ascii → option Z) (b : Z) (s : string) (n : Z) (i : nat)
    : option (Z * nat * string) :=
  let stop := if (i =? 0)%nat then None else Some (n, i, s) in
  match s with
  | EmptyString => stop
  | String c s' =>
      match val c with
      | Some d => let n' := n * b + d in
                  if 16777215 <=? n' then None else digits val b s' n' (S i)
      | None => stop
      end
  end.
Definition dtoi (s : string) := digits dec_val 10 s 0 0.
Definition xtoi (s : string) := digits hex_val 16 s 0 0.

Fixpoint parse_octets (k : nat) (first : bool) (s : string) : option (list Z) :=
  match k with
  | O => if bool_decide (s = "") then Some [] else None
  | S k' =>
      let s1 := if first then Some s
                else match s with
                     | String c s' => if bool_decide (c = dot) then Some s' else None
                     | EmptyString => None
                     end in
      s1 ← s1;
      '(n, c, rest) ← dtoi s1;
      if (255 <? n) || ((1 <? c)%nat && HasPrefix s1 "0") then None
      else l ← parse_octets k' false rest; Some (n :: l)
  end.

(** [parseIPv4] gives the 16-byte form, as [net.IPv4] does. *)
Definition parseIPv4 (s : string) : option IP :=
  l ← parse_octets 4 true s; Some (v4InV6Prefix ++ l).

(** The loop of [parseIPv6]: [acc] are the bytes written so far, [ell] the
    position of the ellipsis.  Every round but the last writes two bytes, so
    the eight rounds of [fuel] are the loop condition [i < IPv6len]. *)
Fixpoint parse6_go (fuel : nat) (s : string) (acc : list Z) (ell : option nat)
    : option (string * list Z * option nat) :=
  match fuel with
  | O => Some (s, acc, ell)
  | S f =>
      '(n, _, rest) ← xtoi s;
      if 65535 <? n then None
      else if HasPrefix rest "." then
        if bool_decide (ell = None ∧ length acc ≠ 12%nat) then None
        else if (16 <? length acc + 4)%nat then None
        else ip4 ← parseIPv4 s; Some ("", acc ++ drop 12 ip4, ell)
      else
        let acc' := acc ++ [n / 256; n mod 256] in
        match rest with
        | EmptyString => Some ("", acc', ell)
        | String c1 rest1 =>
            if bool_decide (c1 ≠ colon ∨ rest1 = "") then None
            else match rest1 with
                 | String c2 rest2 =>
                     if bool_decide (c2 = colon) then
                       match ell with
                       | Some _ => None
                       | None =>
                           if bool_decide (rest2 = "") then Some ("", acc', Some (length acc'))
                           else parse6_go f rest2 acc' (Some (length acc'))
                       end
                     else parse6_go f rest1 acc' ell
                 | EmptyString => None
                 end
        end
  end.

Definition parse6_finish (r : string * list Z * option nat) : option IP :=
  let '(s, acc, ell) := r in
  if bool_decide (s ≠ "") then None
  else if (length acc <? 16)%nat then
    e ← ell; Some (take e acc ++ zeros (16 - length acc) ++ drop e acc)
  else match ell with Some _ => None | None => Some acc end.

Definition parseIPv6 (s : string) : option IP :=
  if HasPrefix s "::" then
    let s' := str_drop 2 s in
    if bool_decide (s' = "") then Some (zeros 16)
    else r ← parse6_go 8 s' [] (Some 0%nat); parse6_finish r
  else r ← parse6_go 8 s [] None; parse6_finish r.

(** [net.ParseIP]: nil ([[]]) when the text is not an address. *)
Fixpoint parse_kind (s : string) : option bool :=
  match s with
  | EmptyString => None
  | String c s' =>
      if bool_decide (c = dot) then Some true
      else if bool_decide (c = colon) then Some false else parse_kind s'
  end.
Definition ParseIP (s : string) : IP :=
  match parse_kind s with
  | Some true => default [] (parseIPv4 s)
  | Some false => default [] (parseIPv6 s)
  | None => []
  end.

Fixpoint cut_slash (s : string) : option (string * string) :=
  match s with
  | EmptyString => None
  | String c s' =>
      if bool_decide (c = "/"%char) then Some (EmptyString, s')
      else '(a, b) ← cut_slash s'; Some (String c a, b)
  end.

(** [_, n, err := net.ParseCIDR(s)]: the network, or [None] for an error. *)
Definition ParseCIDR (s : string) : option IPNet :=
  '(addr, mask) ← cut_slash s;
  '(iplen, ip) ← match parseIPv4 addr with
                 | Some ip => Some (4, ip)
                 | None => ip ← parseIPv6 addr; Some (16, ip)
                 end;
  '(n, _, rest) ← dtoi mask;
  if bool_decide (rest ≠ "") || (8 * iplen <? n) then None
  else let m := CIDRMask n (8 * iplen) in Some (mkIPNet (IP_Mask ip m) m).

(** ** Canonical forms

    [canonIP] is the 4-byte form of an IPv4(-mapped) address and the address
    itself otherwise; [IP_Equal] is equality of canonical forms. *)
Definition canonIP (ip : IP) : IP := match To4 ip with [] => ip | v4 => v4 end.

(** The lengths of the addresses of the program. *)
Definition ip_len (ip : IP) : Prop :=
  length ip = 0%nat ∨ length ip = 4%nat ∨ length ip = 16%nat.

Global Instance ip_len_dec ip : Decision (ip_len ip).
Proof. unfold ip_len. apply _. Defined.

(** Smoke tests against the documented behaviour of package net. *)
Example ParseIP_ex1 : ParseIP "10.1.2.3" = v4InV6Prefix ++ [10; 1; 2; 3].
Proof. reflexivity. Qed.
Example ParseIP_ex2 : ParseIP "fd02::1" = [253; 2] ++ zeros 13 ++ [1].
Proof. reflexivity. Qed.
Example ParseIP_ex3 : ParseIP "127.0.0.1/20" = [] ∧ ParseIP "01.2.3.4" = [] ∧ ParseIP "" = []
  ∧ ParseIP "1::2::3" = [] ∧ ParseIP "::ffff:1.2.3.4" = v4InV6Prefix ++ [1; 2; 3; 4].
Proof. repeat split; reflexivity. Qed.
Example IP_String_ex : IP_String (ParseIP "10.1.20.255") = "10.1.20.255"
  ∧ IP_String (ParseIP "fd02:0:0:1:0:0:0:1") = "fd02:0:0:1::1"
  ∧ IP_String (ParseIP "::") = "::" ∧ IP_String [] = "<nil>"
  ∧ IP_String (ParseIP "2001:db8::a:0:b") = "2001:db8::a:0:b".
Proof. repeat split; reflexivity. Qed.
Example ParseCIDR_ex : ParseCIDR "10.1.2.3/16" = Some (mkIPNet [10; 1; 0; 0] [255; 255; 0; 0])
  ∧ ParseCIDR "127.0.0.1" = None ∧ ParseCIDR "a.b.c.d/20" = None ∧ ParseCIDR "10.0.0.0/33" = None
  ∧ (IPNet_String <$> ParseCIDR "fd02::/120") = Some "fd02::/120".
Proof. repeat split; reflexivity. Qed.

(** ** Lemmas on addresses *)
Lemma To4_cases ip :
  (To4 ip = [] ∧ length ip ≠ 4%nat) ∨ (length ip = 4%nat ∧ To4 ip = ip) ∨
  (ip = v4InV6Prefix ++ To4 ip ∧ length (To4 ip) = 4%nat).
Proof.
  unfold To4. case_bool_decide as H4; [right; by left|].
  case_bool_decide as H16; [right; right|by left].
  destruct H16 as [Hl Hp]. split.
  - rewrite <-(take_drop 12 ip) at 1. by rewrite Hp.
  - rewrite length_drop. lia.
Qed.

Lemma To4_length ip : To4 ip = [] ∨ length (To4 ip) = 4%nat.
Proof. destruct (To4_cases ip) as [[? _]|[[H ->]|[_ ?]]]; auto. Qed.

Lemma To4_v4 ip : length ip = 4%nat → To4 ip = ip.
Proof. intros H. unfold To4. by rewrite bool_decide_eq_true_2. Qed.

Lemma To4_mapped l : length l = 4%nat → To4 (v4InV6Prefix ++ l) = l.
Proof.
  intros H. unfold To4. rewrite bool_decide_eq_false_2 by (rewrite length_app, H; done).
  rewrite bool_decide_eq_true_2; [done|]. by rewrite length_app, H.
Qed.

Lemma To4_To4 ip : To4 (To4 ip) = To4 ip.
Proof. destruct (To4_length ip) as [->|?]; [done|by apply To4_v4]. Qed.

Lemma canonIP_v4 ip : To4 ip ≠ [] → canonIP ip = To4 ip.
Proof. unfold canonIP. by destruct (To4 ip). Qed.

Lemma canonIP_v6 ip : To4 ip = [] → canonIP ip = ip.
Proof. unfold canonIP. by intros ->. Qed.

Lemma To4_canonIP ip : To4 (canonIP ip) = To4 ip.
Proof.
  destruct (decide (To4 ip = [])) as [H|H].
  - by rewrite canonIP_v6.
  - by rewrite canonIP_v4, To4_To4.
Qed.

Lemma canonIP_idemp ip : canonIP (canonIP ip) = canonIP ip.
Proof. unfold canonIP at 1. rewrite To4_canonIP. unfold canonIP. by destruct (To4 ip). Qed.

Lemma canonIP_To4 ip : To4 ip ≠ [] → canonIP (To4 ip) = canonIP ip.
Proof. intros H. rewrite !canonIP_v4; [|done|by rewrite To4_To4]. apply To4_To4. Qed.

Lemma IP_Equal_refl ip : IP_Equal ip ip = true.
Proof. unfold IP_Equal. by rewrite !bool_decide_eq_true_2. Qed.

(** A 4-byte address equals a 16-byte one only if the latter is mapped. *)
Lemma mapped_iff a b :
  length a = 4%nat → length b = 16%nat →
  (take 12 b = v4InV6Prefix ∧ a = drop 12 b) ↔ a = canonIP b.
Proof.
  intros Ha Hb. destruct (To4_cases b) as [[H4 _]|[[H _]|[H H4]]]; [|lia|].
  - rewrite canonIP_v6 by done. split; [|intros ->; lia].
    intros [Hp Hd]. exfalso. unfold To4 in H4. rewrite bool_decide_eq_false_2 in H4 by lia.
    rewrite bool_decide_eq_true_2 in H4 by done. subst. rewrite H4 in Ha. done.
  - rewrite canonIP_v4 by (intros H0; rewrite H0 in H4; done).
    rewrite H at 1 2. split; [by intros [_ ->]|]. intros ->. split; done.
Qed.

(** [Equal] is equality of canonical forms. *)
Lemma IP_Equal_canon a b : ip_len a → ip_len b →
  IP_Equal a b = true ↔ canonIP a = canonIP b.
Proof.
  intros Ha Hb. unfold IP_Equal.
  assert (Hlen : ∀ x, ip_len x → length (canonIP x) = length x ∨
            (length x = 16%nat ∧ length (canonIP x) = 4%nat ∧ x = v4InV6Prefix ++ canonIP x)).
  { intros x Hx. destruct (To4_cases x) as [[H _]|[[H H4]|[H H4]]].
    - rewrite canonIP_v6 by done. auto.
    - unfold canonIP. rewrite H4. left. by destruct x.
    - rewrite canonIP_v4 by (intros H0; rewrite H0 in H4; done). right.
      repeat split; [|done..]. rewrite H, length_app, H4. done. }
  case_bool_decide as Heq.
  - rewrite bool_decide_eq_true. split; [by intros ->|]. intros Hc.
    destruct (Hlen a Ha) as [La|(La&Lc&Hma)], (Hlen b Hb) as [Lb|(Lb&Ld&Hmb)].
    + assert (To4 a = To4 b) as Ht by (by rewrite <-(To4_canonIP a), Hc, To4_canonIP).
      destruct (decide (To4 a = [])) as [Ta|Ta]; [rewrite !canonIP_v6 in Hc; congruence|].
      destruct (To4_cases a) as [[? _]|[[_ H1]|[H1 _]]]; [done| |];
        destruct (To4_cases b) as [[? _]|[[_ H2]|[H2 H3]]]; try congruence.
      * rewrite Ht in H1. rewrite H2, length_app, H3, <-H1, H3 in Heq. done.
      * rewrite H1, length_app, Ht, H2 in Heq. simpl in Heq. lia.
    + rewrite Hc in La. lia.
    + rewrite <-Hc in Lb. lia.
    + rewrite Hma, Hmb, Hc. done.
  - case_bool_decide as H1; [|case_bool_decide as H2].
    + destruct H1 as [H1 H1']. rewrite bool_decide_eq_true, mapped_iff by done.
      rewrite (canonIP_v4 a) by (rewrite To4_v4 by done; by destruct a). by rewrite To4_v4.
    + destruct H2 as [H2 H2']. rewrite bool_decide_eq_true.
      assert (canonIP b = b) as ->.
      { rewrite (canonIP_v4 b) by (rewrite To4_v4 by done; by destruct b). by apply To4_v4. }
      rewrite (symmetry_iff (=) (drop 12 a)), (symmetry_iff (=) (canonIP a)).
      by apply mapped_iff.
    + split; [done|]. intros Hc.
      unfold ip_len in Ha, Hb.
      destruct (Hlen a Ha) as [La|(La&Lc&Hma)], (Hlen b Hb) as [Lb|(Lb&Ld&Hmb)];
        rewrite Hc in *; exfalso; lia.
Qed.

Lemma IP_Equal_sym a b : IP_Equal a b = IP_Equal b a.
Proof.
  unfold IP_Equal.
  destruct (decide (length a = length b)) as [E|E].
  - rewrite !(bool_decide_eq_true_2 (length _ = length _)) by done.
    by apply bool_decide_ext.
  - rewrite !(bool_decide_eq_false_2 (length _ = length _)) by congruence.
    repeat case_bool_decide; try done; exfalso; intuition congruence.
Qed.

(** Text and lengths of equal addresses agree. *)
Lemma ip_len_canonIP ip : ip_len ip → ip_len (canonIP ip).
Proof.
  unfold ip_len. intros H. destruct (To4_cases ip) as [[H4 _]|[[H4 E]|[_ H4]]].
  - by rewrite canonIP_v6.
  - unfold canonIP. rewrite E. destruct ip; [done|]. auto.
  - rewrite canonIP_v4 by (intros H0; rewrite H0 in H4; done). auto.
Qed.

Lemma IP_String_canonIP ip : IP_String (canonIP ip) = IP_String ip.
Proof.
  destruct (decide (To4 ip = [])) as [H|H]; [by rewrite canonIP_v6|].
  rewrite canonIP_v4 by done. unfold IP_String.
  rewrite (bool_decide_eq_false_2 (To4 ip = [])) by done.
  assert (length (To4 ip) = 4%nat) as Hl by (destruct (To4_length ip); done).
  rewrite (bool_decide_eq_false_2 (ip = [])) by (intros ->; done).
  rewrite To4_To4, Hl. simpl.
  rewrite (bool_decide_eq_false_2 (length ip ≠ 4%nat ∧ _)); [done|].
  destruct (To4_cases ip) as [[? _]|[[? _]|[E _]]]; [done|lia|].
  intros [_ H16]. apply H16. by rewrite E, length_app, Hl.
Qed.

Lemma IP_String_Equal a b : ip_len a → ip_len b →
  IP_Equal a b = true → IP_String a = IP_String b.
Proof.
  intros Ha Hb H. apply IP_Equal_canon in H; [|done..].
  by rewrite <-(IP_String_canonIP a), H, IP_String_canonIP.
Qed.

(** ** What the parsers return *)
Definition wf_ip (ip : IP) : Prop := ip_len ip ∧ Forall is_byte ip.

Lemma is_byte_prefix : Forall is_byte v4InV6Prefix.
Proof. repeat constructor; done. Qed.

Lemma wf_ip_To4 ip : wf_ip ip → wf_ip (To4 ip).
Proof.
  intros [Hl Hb]. destruct (To4_cases ip) as [[-> _]|[[? ->]|[E H4]]].
  - split; [by left|constructor].
  - done.
  - split; [by right; left|]. rewrite E in Hb. by apply Forall_app in Hb as [_ ?].
Qed.

Lemma wf_ip_canonIP ip : wf_ip ip → wf_ip (canonIP ip).
Proof.
  intros H. destruct (decide (To4 ip = [])); [by rewrite canonIP_v6|].
  rewrite canonIP_v4 by done. by apply wf_ip_To4.
Qed.

Lemma dec_val_nonneg c d : dec_val c = Some d → 0 ≤ d.
Proof. unfold dec_val. destruct (_ && _) eqn:E; intros; simplify_eq. lia. Qed.
Lemma hex_val_nonneg c d : hex_val c = Some d → 0 ≤ d.
Proof.
  unfold hex_val. cbv zeta. intros H.
  repeat case_match; simplify_eq; repeat (case_match || simplify_eq); try done;
    repeat match goal with
    | E : (_ && _)%bool = true |- _ => apply andb_true_iff in E as [?%Z.leb_le ?]
    end; lia.
Qed.

Lemma digits_nonneg val b s n i v c rest :
  (∀ ch d, val ch = Some d → 0 ≤ d) → 0 ≤ b → 0 ≤ n →
  digits val b s n i = Some (v, c, rest) → 0 ≤ v.
Proof.
  intros Hval Hb. revert n i. induction s as [|ch s IH]; intros n i Hn; simpl.
  - destruct (i =? 0)%nat; intros; simplify_eq; done.
  - destruct (val ch) as [d|] eqn:Hd.
    + apply Hval in Hd. destruct (16777215 <=? n * b + d); [done|]. apply IH. nia.
    + destruct (i =? 0)%nat; intros; simplify_eq; done.
Qed.

Lemma dtoi_nonneg s v c rest : dtoi s = Some (v, c, rest) → 0 ≤ v.
Proof. apply digits_nonneg; [apply dec_val_nonneg|done..]. Qed.
Lemma xtoi_nonneg s v c rest : xtoi s = Some (v, c, rest) → 0 ≤ v.
Proof. apply digits_nonneg; [apply hex_val_nonneg|done..]. Qed.

Lemma parse_octets_wf k first s l :
  parse_octets k first s = Some l → length l = k ∧ Forall is_byte l.
Proof.
  revert first s l. induction k as [|k IH]; intros first s l; cbn [parse_octets].
  - case_bool_decide; intros; simplify_eq. done.
  - intros H. apply bind_Some in H as (s1 & _ & H).
    apply bind_Some in H as ([[n c] rest] & Hd & H).
    destruct (_ || _) eqn:Hg; [done|]. apply orb_false_iff in Hg as [Hn _].
    apply bind_Some in H as (l' & Hl & H). simplify_eq.
    apply IH in Hl as [<- Hb]. apply dtoi_nonneg in Hd.
    split; [done|]. constructor; [unfold is_byte; lia|done].
Qed.

Lemma parseIPv4_wf s ip : parseIPv4 s = Some ip →
  length ip = 16%nat ∧ Forall is_byte ip ∧ length (To4 ip) = 4%nat.
Proof.
  unfold parseIPv4. intros (l & Hl & ?)%bind_Some. simplify_eq.
  apply parse_octets_wf in Hl as [Hl Hb].
  rewrite To4_mapped by done. rewrite length_app, Hl.
  split; [done|]. split; [|done]. apply Forall_app; auto using is_byte_prefix.
Qed.

Definition parse6_inv (r : string * list Z * option nat) : Prop :=
  let '(_, acc, ell) := r in
  (length acc ≤ 16)%nat ∧ Forall is_byte acc ∧ (∀ e, ell = Some e → (e ≤ length acc)%nat).

Lemma parse6_go_wf fuel s acc ell r :
  (length acc + 2 * fuel = 16)%nat → parse6_inv (s, acc, ell) →
  parse6_go fuel s acc ell = Some r → parse6_inv r.
Proof.
  revert s acc ell. induction fuel as [|fuel IH]; intros s acc ell Hlen Hinv; cbn [parse6_go].
  { intros; by simplify_eq. }
  destruct Hinv as (Hl & Hb & He).
  intros ([[n c] rest] & Hx & H)%bind_Some. apply xtoi_nonneg in Hx.
  destruct (Z.ltb_spec 65535 n); [done|].
  destruct (HasPrefix rest ".") eqn:Hdot.
  { case_bool_decide; [done|]. destruct (Nat.ltb_spec 16 (length acc + 4)); [done|].
    apply bind_Some in H as (ip4 & Hip & H). simplify_eq.
    apply parseIPv4_wf in Hip as (Hl4 & Hb4 & _). split; [|split].
    - rewrite length_app, length_drop. lia.
    - apply Forall_app; auto using Forall_drop.
    - intros e ->. rewrite length_app. specialize (He e eq_refl). lia. }
  assert (Hinv' : ∀ s' ell', (∀ e, ell' = Some e → (e ≤ length acc + 2)%nat) →
            parse6_inv (s', acc ++ [n / 256; n mod 256], ell')).
  { intros s' ell' He'. split; [|split].
    - rewrite length_app. simpl. lia.
    - apply Forall_app; split; [done|].
      repeat constructor; unfold is_byte; Z.div_mod_to_equations; lia.
    - rewrite length_app. done. }
  assert (Hl' : (length (acc ++ [n / 256; n mod 256]%Z) + 2 * fuel = 16)%nat).
  { rewrite length_app. simpl. lia. }
  assert (He2 : ∀ e, ell = Some e → (e ≤ length acc + 2)%nat).
  { intros e Hs. specialize (He e Hs). lia. }
  assert (He3 : ∀ e, Some (length (acc ++ [n / 256; n mod 256])) = Some e →
            (e ≤ length acc + 2)%nat).
  { intros e [= <-]. rewrite length_app. done. }
  destruct rest as [|c1 rest1]; [simplify_eq; by apply Hinv'|].
  case_bool_decide; [done|]. destruct rest1 as [|c2 rest2]; [done|].
  case_bool_decide; [|by eapply IH; [..|apply H]; auto].
  destruct ell; [done|].
  case_bool_decide; [simplify_eq; by apply Hinv'|by eapply IH; [..|apply H]; auto].
Qed.

Lemma parseIPv6_wf s ip : parseIPv6 s = Some ip → length ip = 16%nat ∧ Forall is_byte ip.
Proof.
  assert (Hfin : ∀ r, parse6_inv r → parse6_finish r = Some ip →
            length ip = 16%nat ∧ Forall is_byte ip).
  { intros [[s' acc] ell] (Hl & Hb & He). unfold parse6_finish.
    case_bool_decide; [done|]. destruct (Nat.ltb_spec (length acc) 16).
    - intros (e & -> & ?)%bind_Some. simplify_eq. specialize (He e eq_refl). split.
      + rewrite !length_app. unfold zeros. rewrite length_take, length_drop, length_replicate. lia.
      + rewrite !Forall_app. repeat split; auto using Forall_take, Forall_drop.
        by apply Forall_replicate.
    - destruct ell; [done|]. intros ?; simplify_eq. split; [lia|done]. }
  unfold parseIPv6. destruct (HasPrefix s "::").
  - case_bool_decide.
    + intros; simplify_eq. split; [done|]. by apply Forall_replicate.
    + intros (r & Hr & Hf)%bind_Some. eapply Hfin; [|done].
      eapply parse6_go_wf; [|..|done]; [done|]. split; [simpl; lia|split; [done|naive_solver lia]].
  - intros (r & Hr & Hf)%bind_Some. eapply Hfin; [|done].
    eapply parse6_go_wf; [|..|done]; [done|]. split; [simpl; lia|done].
Qed.

Lemma ParseIP_wf s : ParseIP s = [] ∨ (length (ParseIP s) = 16%nat ∧ Forall is_byte (ParseIP s)).
Proof.
  unfold ParseIP. destruct (parse_kind s) as [[]|]; [..|by left].
  - destruct (parseIPv4 s) eqn:H; [|by left]. apply parseIPv4_wf in H. naive_solver.
  - destruct (parseIPv6 s) eqn:H; [|by left]. apply parseIPv6_wf in H. auto.
Qed.

(** Addresses that were parsed are equal to [Equal] only if they are the same. *)
Lemma ParseIP_Equal s t : IP_Equal (ParseIP s) (ParseIP t) = true → ParseIP s = ParseIP t.
Proof.
  unfold IP_Equal. destruct (ParseIP_wf s) as [->|[-> _]], (ParseIP_wf t) as [->|[-> _]]; simpl; try done.
  intros H. by apply bool_decide_eq_true in H.
Qed.

Lemma ParseIP_wf_ip s : wf_ip (ParseIP s).
Proof.
  destruct (ParseIP_wf s) as [->|[Hl Hb]]; [split; [by left|done]|].
  split; [by right; right|done].
Qed.

(** ** What an address is written with *)
Definition all_chars (P : ascii → Prop) (s : string) : Prop := Forall P (String.list_ascii_of_string s).
Definition addr_char (c : ascii) : Prop := is_Some (hex_val c) ∨ c = dot ∨ c = colon.

Lemma digits_chars (val : ascii → option Z) b s n i v c rest : (∀ c, is_Some (val c) → addr_char c) →
  digits val b s n i = Some (v, c, rest) → all_chars addr_char rest → all_chars addr_char s.
Proof.
  intros Hval. revert n i. induction s as [|ch s IH]; intros n i; simpl.
  - destruct (i =? 0)%nat; intros; by simplify_eq.
  - destruct (val ch) as [d|] eqn:E.
    + destruct (16777215 <=? n * b + d); [done|]. intros H Hr. constructor; [apply Hval; by rewrite E|by eapply IH].
    + destruct (i =? 0)%nat; intros; by simplify_eq.
Qed.

Lemma dec_addr_char c : is_Some (dec_val c) → addr_char c.
Proof. unfold addr_char, dec_val, hex_val. left. destruct (_ && _); [done|by destruct H]. Qed.
Lemma hex_addr_char c : is_Some (hex_val c) → addr_char c.
Proof. by left. Qed.

Lemma parse_octets_chars k first s l : parse_octets k first s = Some l → all_chars addr_char s.
Proof.
  revert first s l. induction k as [|k IH]; intros first s l; cbn [parse_octets].
  - case_bool_decide as E; [|done]. intros _. rewrite E. constructor.
  - intros (s1 & H1 & ([[n c] rest] & Hd & H)%bind_Some)%bind_Some.
    destruct (_ || _); [done|]. apply bind_Some in H as (l' & Hl & _). apply IH in Hl.
    eapply digits_chars in Hl; [|apply dec_addr_char|exact Hd].
    destruct first; [by simplify_eq|]. destruct s as [|ch s]; [done|]. case_bool_decide; [|done].
    simplify_eq. constructor; [|done]. right. by left.
Qed.
Lemma parseIPv4_chars s ip : parseIPv4 s = Some ip → all_chars addr_char s.
Proof. unfold parseIPv4. intros (l & Hl & _)%bind_Some. by eapply parse_octets_chars. Qed.

Lemma parse6_go_chars fuel s acc ell s' acc' ell' : parse6_go fuel s acc ell = Some (s', acc', ell') →
  all_chars addr_char s' → all_chars addr_char s.
Proof.
  assert (Hcolon : addr_char colon) by (right; by right).
  revert s acc ell. induction fuel as [|fuel IH]; intros s acc ell; cbn [parse6_go]; [intros; by simplify_eq|].
  intros ([[n c] rest] & Hx & H)%bind_Some Hs'.
  destruct (65535 <? n); [done|]. destruct (HasPrefix rest ".").
  { case_bool_decide; [done|]. destruct (_ <? _)%nat; [done|]. apply bind_Some in H as (ip4 & Hip & _). by eapply parseIPv4_chars. }
  eapply digits_chars; [apply hex_addr_char|exact Hx|]. destruct rest as [|c1 rest1]; [constructor|].
  case_bool_decide as E1; [done|]. assert (c1 = colon) as -> by (destruct (decide (c1 = colon)); [done|destruct E1; by left]).
  constructor; [done|]. destruct rest1 as [|c2 rest2]; [done|]. case_bool_decide as E2; [|exact (IH _ _ _ H Hs')].
  subst c2. constructor; [done|]. destruct ell; [done|]. case_bool_decide as E3; [by rewrite E3; constructor|exact (IH _ _ _ H Hs')].
Qed.

Lemma parseIPv6_chars s ip : parseIPv6 s = Some ip → all_chars addr_char s.
Proof.
  assert (Hfin : ∀ s ell r, parse6_go 8 s [] ell = Some r → parse6_finish r = Some ip → all_chars addr_char s).
  { intros s' ell [[s1 acc] ell'] Hr Hf. eapply parse6_go_chars; [exact Hr|]. unfold parse6_finish in Hf.
    case_bool_decide as E; [done|]. subst s1. constructor. }
  unfold parseIPv6. destruct (HasPrefix s "::") eqn:Hp.
  - apply HasPrefix_spec in Hp as [t ->]. change (str_drop 2 ("::" +:+ t)) with t. intros H.
    assert (all_chars addr_char t) as Ht.
    { case_bool_decide as E; [subst t; constructor|]. apply bind_Some in H as (r & Hr & Hf). by eapply Hfin. }
    do 2 (constructor; [right; by right|]). exact Ht.
  - intros (r & Hr & Hf)%bind_Some. by eapply Hfin.
Qed.

Lemma ParseIP_chars s : ParseIP s ≠ [] → all_chars addr_char s.
Proof.
  unfold ParseIP. destruct (parse_kind s) as [[]|]; [..|done].
  - destruct (parseIPv4 s) eqn:E; [|done]. intros _. by eapply parseIPv4_chars.
  - destruct (parseIPv6 s) eqn:E; [|done]. intros _. by eapply parseIPv6_chars.
Qed.
Lemma ParseIP_no_comma s : ParseIP s ≠ [] → ","%char ∉ String.list_ascii_of_string s.
Proof.
  intros H%ParseIP_chars. unfold all_chars in H. rewrite Forall_forall in H. intros Hin%H. destruct Hin as [[]|[]]; done.
Qed.

Lemma length_mask_bytes len ones : length (mask_bytes len ones) = len.
Proof. revert ones. induction len; intros; simpl; [done|]. destruct (8 <=? ones); simpl; auto. Qed.

Lemma and_bytes_wf a b : Forall is_byte a → Forall is_byte (and_bytes a b).
Proof.
  intros Ha. unfold and_bytes. revert b. induction Ha as [|x a Hx Ha IH]; intros [|y b]; simpl; [done..|].
  constructor; [|apply IH]. unfold is_byte in *.
  assert (0 ≤ Z.land x y) by (apply Z.land_nonneg; lia).
  split; [done|]. destruct (decide (Z.land x y = 0)); [lia|].
  change 256 with (2 ^ 8). apply Z.log2_lt_pow2; [lia|].
  destruct (decide (x = 0)) as [->|]; [done|].
  destruct (Z.le_gt_cases 0 y) as [Hy|Hy].
  - pose proof (Z.log2_land x y ltac:(lia) Hy).
    assert (Z.log2 x < 8) by (apply Z.log2_lt_pow2; simpl; lia). lia.
  - assert (Z.log2 (Z.land x y) ≤ Z.log2 x).
    { apply Z.log2_le_mono. apply Z.ldiff_le; [lia|].
      apply Z.bits_inj'. intros k Hk. rewrite Z.ldiff_spec, Z.land_spec, Z.bits_0.
      destruct (Z.testbit x k), (Z.testbit y k); done. }
    assert (Z.log2 x < 8) by (apply Z.log2_lt_pow2; simpl; lia). lia.
Qed.

(** ** Masks *)
Lemma byte_ones_range b n : byte_ones b = Some n → 0 ≤ n ≤ 8.
Proof. unfold byte_ones. intros H. repeat case_match; simplify_eq; lia. Qed.

Lemma simpleMaskLength_range m n : simpleMaskLength m = Some n → 0 ≤ n ≤ 8 * Z.of_nat (length m).
Proof.
  revert n. induction m as [|b m IH]; intros n; cbn [simpleMaskLength length].
  - intros [= <-]. lia.
  - destruct (b =? 255).
    + intros (k & Hk & ->)%fmap_Some. specialize (IH k Hk). lia.
    + destruct (forallb _ _); [|done]. intros H%byte_ones_range. lia.
Qed.

(** [CIDRMask] and [Size] are inverse. *)
Lemma Mask_Size_CIDRMask n bits :
  bits = 32 ∨ bits = 128 → 0 ≤ n ≤ bits → Mask_Size (CIDRMask n bits) = (n, bits).
Proof.
  assert (Hall : forallb (λ i, bool_decide (Mask_Size (CIDRMask (Z.of_nat i) 32) = (Z.of_nat i, 32)))
            (seq 0 33) = true) by (vm_compute; reflexivity).
  assert (Hall6 : forallb (λ i, bool_decide (Mask_Size (CIDRMask (Z.of_nat i) 128) = (Z.of_nat i, 128)))
            (seq 0 129) = true) by (vm_compute; reflexivity).
  rewrite forallb_forall in Hall, Hall6.
  intros [->| ->] Hn; rewrite <-(Z2Nat.id n) by lia.
  - apply (bool_decide_eq_true _), Hall. apply in_seq. lia.
  - apply (bool_decide_eq_true _), Hall6. apply in_seq. lia.
Qed.

(** A contiguous mask is determined by its length and its ones. *)
Lemma mask_bytes_zero len : mask_bytes len 0 = replicate len 0.
Proof. induction len as [|len IH]; [done|]. simpl. by rewrite IH. Qed.

Lemma mask_bytes_simple m n : simpleMaskLength m = Some n → mask_bytes (length m) n = m.
Proof.
  revert n. induction m as [|b m IH]; intros n; cbn [simpleMaskLength length mask_bytes]; [done|].
  destruct (Z.eqb_spec b 255) as [->|Hb].
  - intros (k & Hk & ->)%fmap_Some. pose proof (simpleMaskLength_range _ _ Hk).
    destruct (Z.leb_spec 8 (8 + k)); [|lia]. replace (8 + k - 8) with k by lia. by rewrite IH.
  - destruct (forallb _ _) eqn:Hz; [|done]. intros Hn.
    assert (mask_byte n = b ∧ n < 8) as [Hm Hlt].
    { unfold byte_ones in Hn. repeat case_match; simplify_eq; try lia;
        rewrite ?Z.eqb_eq in *; subst; by split. }
    destruct (Z.leb_spec 8 n); [lia|]. rewrite Hm, mask_bytes_zero. f_equal.
    clear -Hz. induction m as [|x m IH]; [done|]. cbn [forallb] in Hz.
    apply andb_true_iff in Hz as [Hx%Z.eqb_eq Hz]. simpl. by rewrite <-Hx, IH.
Qed.

Lemma length_canonIP ip : ip_len ip → ip ≠ [] →
  length (canonIP ip) = 4%nat ∨ length (canonIP ip) = 16%nat.
Proof.
  intros Hl Hn. destruct (ip_len_canonIP ip Hl) as [H|H]; [|done]. exfalso. apply Hn.
  destruct (decide (To4 ip = [])) as [E|E].
  - rewrite canonIP_v6 in H by done. by destruct ip.
  - rewrite canonIP_v4 in H by done. by destruct (To4 ip).
Qed.
