(* ===== verification/GoAddr.v ===== *)
(** * Listening addresses: [net.SplitHostPort] and [strconv.Atoi]

    Executable, with what they read back: a host and a port joined as
    [net.JoinHostPort] does it, and a number printed by [strconv.Itoa]. *)
From Stdlib Require Import Ascii.
From S2P Require Import Prelude GoStrings.

(** ** Positions in a string *)
Fixpoint IndexByte (s : string) (c : ascii) : option nat :=
  match s with
  | EmptyString => None
  | String d s => if bool_decide (d = c) then Some 0%nat else S <$> IndexByte s c
  end.
Fixpoint LastIndexByte (s : string) (c : ascii) : option nat :=
  match s with
  | EmptyString => None
  | String d s => match LastIndexByte s c with
                  | Some i => Some (S i)
                  | None => if bool_decide (d = c) then Some 0%nat else None
                  end
  end.
Fixpoint str_take (n : nat) (s : string) : string :=
  match n, s with
  | S n, String c s => String c (str_take n s)
  | _, _ => ""
  end.

Definition addrErr {A} (msg : string) : outcome A := Err (ErrNew msg).

(** The last colon separates the port; a host in brackets may contain others. *)
Definition SplitHostPort (hostport : string) : outcome (string * string) :=
  match LastIndexByte hostport ":"%char with
  | None => addrErr "missing port in address"
  | Some i =>
      r ← (if HasPrefix hostport "[" then
             match IndexByte hostport "]"%char with
             | None => addrErr "missing ']' in address"
             | Some e =>
                 if bool_decide (S e = String.length hostport) then addrErr "missing port in address"
                 else if bool_decide (S e = i) then Ok (str_take (e - 1) (str_drop 1 hostport), 1%nat, S e)
                 else if HasPrefix (str_drop (S e) hostport) ":" then addrErr "too many colons in address"
                 else addrErr "missing port in address"
             end
           else
             let host := str_take i hostport in
             match IndexByte host ":"%char with
             | Some _ => addrErr "too many colons in address"
             | None => Ok (host, 0%nat, 0%nat)
             end);
      let '(host, j, k) := r in
      match IndexByte (str_drop j hostport) "["%char, IndexByte (str_drop k hostport) "]"%char with
      | Some _, _ => addrErr "unexpected '[' in address"
      | _, Some _ => addrErr "unexpected ']' in address"
      | None, None => Ok (host, str_drop (S i) hostport)
      end
  end.

Definition JoinHostPort (host port : string) : string :=
  match IndexByte host ":"%char with
  | Some _ => "[" +:+ host +:+ "]:" +:+ port
  | None => host +:+ ":" +:+ port
  end.

(** ** Numbers *)
Definition digit_val (c : ascii) : option Z :=
  let n := Z.of_nat (nat_of_ascii c) in if (48 <=? n) && (n <=? 57) then Some (n - 48) else None.
Fixpoint digits_val (s : string) (acc : Z) : option Z :=
  match s with
  | EmptyString => Some acc
  | String c s => d ← digit_val c; digits_val s (10 * acc + d)
  end.
(** A number of 64 bits with an optional sign. *)
Definition Atoi (s : string) : outcome Z :=
  let '(neg, ds) := match s with
    | String "+" s' => (false, s')
    | String "-" s' => (true, s')
    | _ => (false, s)
    end in
  match ds, digits_val ds 0 with
  | EmptyString, _ | _, None => Err (ErrNew "invalid syntax")
  | _, Some n => let v := if neg then - n else n in
                 if (-(2 ^ 63) <=? v) && (v <? 2 ^ 63) then Ok v else Err (ErrNew "value out of range")
  end.

(** ** Lemmas *)
Definition has (c : ascii) (s : string) : Prop := c ∈ String.list_ascii_of_string s.

Lemma IndexByte_None s c : IndexByte s c = None ↔ ¬ has c s.
Proof.
  unfold has. induction s as [|d s IH]; simpl; [split; [intros _; apply not_elem_of_nil|done]|].
  rewrite not_elem_of_cons. case_bool_decide as H; [naive_solver|].
  destruct (IndexByte s c); simpl; naive_solver.
Qed.
Lemma IndexByte_app s c t : ¬ has c s → IndexByte (s +:+ String c t) c = Some (String.length s).
Proof.
  unfold has. induction s as [|d s IH]; intros Hs; [simpl; by rewrite bool_decide_eq_true_2|].
  simpl in Hs. rewrite not_elem_of_cons in Hs. rewrite str_app_cons. simpl.
  rewrite bool_decide_eq_false_2 by naive_solver. by rewrite IH by naive_solver.
Qed.
Lemma LastIndexByte_None s c : ¬ has c s → LastIndexByte s c = None.
Proof.
  unfold has. induction s as [|d s IH]; intros Hs; [done|]. simpl in *. rewrite not_elem_of_cons in Hs.
  rewrite IH by naive_solver. by rewrite bool_decide_eq_false_2 by naive_solver.
Qed.
Lemma LastIndexByte_app s c t : ¬ has c t → LastIndexByte (s +:+ String c t) c = Some (String.length s).
Proof.
  intros Ht. induction s as [|d s IH]; [simpl; by rewrite LastIndexByte_None, bool_decide_eq_true_2|].
  rewrite str_app_cons. simpl. by rewrite IH.
Qed.
Lemma str_take_app s t : str_take (String.length s) (s +:+ t) = s.
Proof. induction s as [|c s IH]; [by destruct t|]. rewrite str_app_cons. simpl. by rewrite IH. Qed.
Lemma str_drop_more s c t : str_drop (S (String.length s)) (s +:+ String c t) = t.
Proof. induction s as [|d s IH]; [by destruct t|]. rewrite str_app_cons. simpl in *. by rewrite IH. Qed.
Lemma has_app c s t : has c (s +:+ t) ↔ has c s ∨ has c t.
Proof. unfold has. induction s as [|d s IH]; [simpl; set_solver|]. rewrite str_app_cons. simpl. set_solver. Qed.

(** Brackets and colons in their places: what is joined is split again. *)
Lemma SplitHostPort_Join host port : ¬ has "["%char host → ¬ has "]"%char host →
  ¬ has ":"%char port → ¬ has "["%char port → ¬ has "]"%char port →
  SplitHostPort (JoinHostPort host port) = Ok (host, port).
Proof.
  intros H1 H2 H3 H4 H5. unfold JoinHostPort, SplitHostPort. destruct (IndexByte host ":"%char) eqn:Ec.
  - assert (E : "[" +:+ host +:+ "]:" +:+ port = ("[" +:+ host +:+ "]") +:+ String ":" port) by by rewrite <-!str_app_assoc.
    rewrite E, LastIndexByte_app by done. rewrite <-E.
    assert (E' : "[" +:+ host +:+ "]:" +:+ port = ("[" +:+ host) +:+ String "]" (":" +:+ port)) by by rewrite <-!str_app_assoc.
    rewrite (proj2 (HasPrefix_spec _ _)) by by eexists. rewrite E', IndexByte_app.
    2:{ rewrite has_app. intros [Hb|Hb]; [|done]. unfold has in Hb. apply list_elem_of_singleton in Hb. done. }
    rewrite <-E', !length_str_app. rewrite bool_decide_eq_false_2 by (simpl; lia). rewrite bool_decide_eq_true_2 by (simpl; lia).
    assert (Hh : str_take (String.length "[" + String.length host - 1) (str_drop 1 ("[" +:+ host +:+ "]:" +:+ port)) = host).
    { replace (String.length "[" + String.length host - 1)%nat with (String.length host) by (simpl; lia).
      change (str_drop 1 ("[" +:+ host +:+ "]:" +:+ port)) with (str_drop 0 (host +:+ "]:" +:+ port)).
      replace (str_drop 0 (host +:+ "]:" +:+ port)) with (host +:+ "]:" +:+ port) by by destruct (host +:+ "]:" +:+ port).
      apply str_take_app. }
    rewrite Hh. cbn [mbind outcome_bind].
    assert (Hr : str_drop 1 ("[" +:+ host +:+ "]:" +:+ port) = host +:+ "]:" +:+ port) by by destruct (host +:+ "]:" +:+ port).
    rewrite Hr, (proj2 (IndexByte_None _ _)).
    2:{ rewrite !has_app. intros [?|[Hb|?]]; [done| |done]. unfold has in Hb. simpl in Hb. set_solver. }
    replace (S (String.length "[" + String.length host)) with (S (String.length ("[" +:+ host))) by by rewrite length_str_app.
    rewrite E' at 1. rewrite str_drop_more, (proj2 (IndexByte_None _ _)).
    2:{ rewrite has_app. intros [Hb|?]; [|done]. unfold has in Hb. simpl in Hb. set_solver. }
    replace (String.length "[" + (String.length host + String.length "]"))%nat with (String.length ("[" +:+ host +:+ "]")) by by rewrite !length_str_app.
    by rewrite E, str_drop_more.
  - apply IndexByte_None in Ec. change (":" +:+ port) with (String ":" port). rewrite LastIndexByte_app by done.
    assert (HasPrefix (host +:+ String ":" port) "[" = false) as ->.
    { apply not_true_iff_false. intros [u Hu]%HasPrefix_spec. destruct host as [|c host]; [done|].
      rewrite str_app_cons in Hu. injection Hu as -> _. apply H1. by left. }
    rewrite str_take_app, (proj2 (IndexByte_None _ _)) by done. cbn [mbind outcome_bind].
    replace (str_drop 0 (host +:+ String ":" port)) with (host +:+ String ":" port) by by destruct (host +:+ String ":" port).
    rewrite !(proj2 (IndexByte_None _ _)).
    + by rewrite str_drop_more.
    + rewrite has_app. intros [?|Hb]; [done|]. unfold has in Hb. simpl in Hb. apply elem_of_cons in Hb as [?|?]; done.
    + rewrite has_app. intros [?|Hb]; [done|]. unfold has in Hb. simpl in Hb. apply elem_of_cons in Hb as [?|?]; done.
Qed.

Lemma Atoi_digits s n : s ≠ "" → digits_val s 0 = Some n → -(2 ^ 63) <= n < 2 ^ 63 → Atoi s = Ok n.
Proof.
  intros Hs Hd Hn. assert (Hr : (-(2 ^ 63) <=? n) && (n <? 2 ^ 63) = true) by (apply andb_true_iff; rewrite Z.leb_le, Z.ltb_lt; lia).
  destruct s as [|c s]; [done|]. unfold Atoi.
  assert (c ≠ "+"%char ∧ c ≠ "-"%char) as [Hp Hm] by (split; intros ->; simpl in Hd; done).
  destruct c as [[] [] [] [] [] [] [] []]; try done; by rewrite Hd, Hr.
Qed.

Lemma digit_val_dec d : 0 <= d < 10 → digit_val (dec_digit d) = Some d.
Proof.
  intros Hd. unfold digit_val, dec_digit. rewrite nat_ascii_embedding by lia.
  rewrite (proj2 (andb_true_iff _ _)) by (rewrite !Z.leb_le; lia). f_equal. lia.
Qed.

Lemma digits_val_go fuel n acc : 0 <= n < 10 ^ Z.of_nat fuel → (0 < fuel)%nat →
  digits_val (digits_go 10 dec_digit fuel n acc) 0 = digits_val acc n.
Proof.
  revert n acc. induction fuel as [|f IH]; intros n acc Hn Hf; [lia|]. cbn [digits_go].
  assert (Hstep : ∀ m, digits_val (String (dec_digit (n mod 10)) acc) m = digits_val acc (10 * m + n mod 10)).
  { intros m. cbn [digits_val]. rewrite digit_val_dec; [done|]. pose proof (Z.mod_pos_bound n 10). lia. }
  destruct (Z.ltb_spec n 10).
  - rewrite Hstep. f_equal. rewrite Z.mod_small by lia. lia.
  - rewrite Nat2Z.inj_succ, Z.pow_succ_r in Hn by lia. rewrite IH.
    + rewrite Hstep. f_equal. pose proof (Z.div_mod n 10). lia.
    + split; [apply Z.div_pos; lia|apply Z.div_lt_upper_bound; lia].
    + destruct f; [simpl in Hn; lia|lia].
Qed.

Lemma digits_go_nonempty b dig fuel n acc : (0 < fuel)%nat ∨ acc ≠ "" → digits_go b dig fuel n acc ≠ "".
Proof.
  revert n acc. induction fuel as [|f IH]; intros n acc H; simpl; [destruct H; [lia|done]|].
  destruct (n <? b); [done|]. apply IH. by right.
Qed.

(** What [strconv.Itoa] prints, [strconv.Atoi] reads. *)
Lemma Atoi_Itoa n : 0 <= n < 2 ^ 63 → Atoi (Itoa n) = Ok n.
Proof.
  intros Hn. apply Atoi_digits; [apply digits_go_nonempty; left; lia| |lia]. unfold Itoa. rewrite digits_val_go; [done| |lia].
  split; [lia|]. etransitivity; [apply Hn|]. by vm_compute.
Qed.

Lemma digits_go_digits fuel n acc c : 0 <= n → has c (digits_go 10 dec_digit fuel n acc) →
  has c acc ∨ ∃ d, 0 <= d < 10 ∧ c = dec_digit d.
Proof.
  revert n acc. induction fuel as [|f IH]; intros n acc Hn H; [by left|]. cbn [digits_go] in H.
  assert (Hstep : has c (String (dec_digit (n mod 10)) acc) → has c acc ∨ ∃ d, 0 <= d < 10 ∧ c = dec_digit d).
  { unfold has. simpl. intros [->|?]%elem_of_cons; [right|by left]. exists (n mod 10). split; [|done]. by apply Z.mod_pos_bound. }
  destruct (n <? 10); [by apply Hstep|]. apply IH in H as [H|H]; [by apply Hstep|by right|by apply Z.div_pos].
Qed.

Lemma Itoa_plain n c : 0 <= n → (∀ d, 0 <= d < 10 → c ≠ dec_digit d) → ¬ has c (Itoa n).
Proof.
  intros Hn Hc H. apply digits_go_digits in H as [H|(d & Hd & ->)]; [by apply elem_of_nil in H|by apply (Hc d)|done].
Qed.

(** A host and a port number, joined, are read back. *)
Lemma SplitHostPort_port host n : ¬ has "["%char host → ¬ has "]"%char host → 0 <= n < 2 ^ 63 →
  ∃ s, SplitHostPort (JoinHostPort host (Itoa n)) = Ok (host, s) ∧ Atoi s = Ok n.
Proof.
  intros H1 H2 Hn. assert (Hp : ∀ c, (∀ d, 0 <= d < 10 → c ≠ dec_digit d) → ¬ has c (Itoa n)) by (intros c; apply Itoa_plain; lia).
  assert (Hd : ∀ c, forallb (λ k, negb (Ascii.eqb c (dec_digit (Z.of_nat k)))) (seq 0 10) = true → ∀ d, 0 <= d < 10 → c ≠ dec_digit d).
  { intros c Hf d Hdr ->. rewrite forallb_forall in Hf. specialize (Hf (Z.to_nat d)). rewrite Z2Nat.id, Ascii.eqb_refl in Hf by lia.
    by specialize (Hf ltac:(apply in_seq; lia)). }
  exists (Itoa n). split; [|by apply Atoi_Itoa]. apply SplitHostPort_Join; try done; by apply Hp, Hd.
Qed.

Lemma SplitHostPort_no_panic s : no_panic (SplitHostPort s).
Proof.
  unfold SplitHostPort, addrErr, mbind, outcome_bind. repeat (case_match; simplify_eq; try done).
Qed.
Lemma Atoi_no_panic s : no_panic (Atoi s).
Proof. unfold Atoi. repeat (case_match; try done). Qed.

Example SplitHostPort_ex : SplitHostPort ":9443" = Ok ("", "9443") ∧ SplitHostPort "[::1]:9443" = Ok ("::1", "9443") ∧
  SplitHostPort "::1:9443" = Err (ErrNew "too many colons in address") ∧ SplitHostPort "9443" = Err (ErrNew "missing port in address").
Proof. by vm_compute. Qed.
Example Atoi_ex : Atoi "9443" = Ok 9443 ∧ Atoi "-1" = Ok (-1) ∧ Atoi "9443x" = Err (ErrNew "invalid syntax") ∧
  Atoi "9223372036854775808" = Err (ErrNew "value out of range").
Proof. by vm_compute. Qed.
