(* ===== verification/Sha1.v ===== *)
(** * Go's crypto/sha1 (FIPS 180-1)

    [fouName] names IPv6 tunnels after the first four bytes of a SHA-1 digest.
    The hash is executable, so that names are computed and not assumed. *)
From S2P Require Import Prelude GoStrings.

Definition w32 (z : Z) : Z := z mod 2 ^ 32.
Definition rotl (n x : Z) : Z := Z.lor (w32 (Z.shiftl x n)) (Z.shiftr x (32 - n)).
Definition not32 (x : Z) : Z := 4294967295 - x.

(** Big-endian words. *)
Fixpoint be_words (bs : list Z) : list Z :=
  match bs with
  | a :: b :: c :: d :: bs' => (((a * 256 + b) * 256 + c) * 256 + d) :: be_words bs'
  | _ => []
  end.
Definition word_bytes (x : Z) : list Z :=
  [x / 2 ^ 24; (x / 2 ^ 16) mod 256; (x / 2 ^ 8) mod 256; x mod 256].

(** Padding: 0x80, zeros, the bit length on 64 bits. *)
Definition sha1_pad (m : list Z) : list Z :=
  let l := Z.of_nat (length m) in
  m ++ [128] ++ replicate (Z.to_nat ((55 - l) mod 64)) 0
    ++ word_bytes (8 * l / 2 ^ 32) ++ word_bytes (w32 (8 * l)).

(** The message schedule, newest word first. *)
Fixpoint schedule (k : nat) (w : list Z) : list Z :=
  match k with
  | O => w
  | S k' =>
      let at_ i := nth i w 0 in
      schedule k' (rotl 1 (Z.lxor (Z.lxor (at_ 2%nat) (at_ 7%nat)) (Z.lxor (at_ 13%nat) (at_ 15%nat))) :: w)
  end.

Record regs := mkRegs { ra : Z; rb : Z; rc : Z; rd : Z; re : Z }.

Definition round_f (t : nat) (b c d : Z) : Z * Z :=
  if (t <? 20)%nat then (Z.lor (Z.land b c) (Z.land (not32 b) d), 1518500249)
  else if (t <? 40)%nat then (Z.lxor (Z.lxor b c) d, 1859775393)
  else if (t <? 60)%nat then (Z.lor (Z.lor (Z.land b c) (Z.land b d)) (Z.land c d), 2400959708)
  else (Z.lxor (Z.lxor b c) d, 3395469782).

Fixpoint rounds (t : nat) (ws : list Z) (r : regs) : regs :=
  match ws with
  | [] => r
  | w :: ws' =>
      let '(f, k) := round_f t (rb r) (rc r) (rd r) in
      rounds (S t) ws'
        (mkRegs (w32 (rotl 5 (ra r) + f + re r + k + w)) (ra r) (rotl 30 (rb r)) (rc r) (rd r))
  end.

Definition sha1_block (h : regs) (block : list Z) : regs :=
  let r := rounds 0 (rev (schedule 64 (rev (be_words block)))) h in
  mkRegs (w32 (ra h + ra r)) (w32 (rb h + rb r)) (w32 (rc h + rc r))
         (w32 (rd h + rd r)) (w32 (re h + re r)).

Fixpoint sha1_blocks (n : nat) (m : list Z) (h : regs) : regs :=
  match n with
  | O => h
  | S n' => sha1_blocks n' (drop 64 m) (sha1_block h (take 64 m))
  end.

(** [sha1.Sum(m)]: 20 bytes. *)
Definition sha1_Sum (m : list Z) : list Z :=
  let p := sha1_pad m in
  let h := sha1_blocks (length p / 64) p
             (mkRegs 1732584193 4023233417 2562383102 271733878 3285377520) in
  word_bytes (ra h) ++ word_bytes (rb h) ++ word_bytes (rc h)
    ++ word_bytes (rd h) ++ word_bytes (re h).

(** The standard test vectors for the empty message and "abc". *)
Example sha1_empty :
  hex_bytes (sha1_Sum []) = "da39a3ee5e6b4b0d3255bfef95601890afd80709".
Proof. vm_compute. reflexivity. Qed.
Example sha1_abc :
  hex_bytes (sha1_Sum [97; 98; 99]) = "a9993e364706816aba3e25717850c26c9cd0d89d".
Proof. vm_compute. reflexivity. Qed.

Lemma w32_range z : 0 ≤ w32 z < 2 ^ 32.
Proof. apply Z.mod_pos_bound. done. Qed.

Lemma word_bytes_wf x : 0 ≤ x < 2 ^ 32 → length (word_bytes x) = 4%nat ∧ Forall is_byte (word_bytes x).
Proof.
  intros Hx. split; [done|]. unfold word_bytes.
  repeat constructor; unfold is_byte; Z.div_mod_to_equations; lia.
Qed.

Lemma sha1_block_range h b : 0 ≤ ra (sha1_block h b) < 2 ^ 32.
Proof. apply w32_range. Qed.

Lemma sha1_blocks_range n m h : 0 ≤ ra h < 2 ^ 32 → 0 ≤ ra (sha1_blocks n m h) < 2 ^ 32.
Proof.
  revert m h. induction n as [|n IH]; intros m h Hh; cbn [sha1_blocks]; [done|].
  apply IH, sha1_block_range.
Qed.

(** The four bytes the tunnel names use are bytes. *)
Lemma sha1_Sum_take4 m : length (take 4 (sha1_Sum m)) = 4%nat ∧ Forall is_byte (take 4 (sha1_Sum m)).
Proof.
  unfold sha1_Sum. cbv zeta. rewrite take_app_length' by done.
  apply word_bytes_wf, sha1_blocks_range. done.
Qed.
