(* ===== verification/Netlink.v ===== *)
(** * The host network stack, as an interface

    [pkg/founat] drives the Linux network stack of one network namespace
    through third-party packages (vishvananda/netlink, go-iptables, the CNI
    plugins' sysctl helpers).  That code is not part of the repository, so it is
    a parameter here: the class [HostOps] has one operation per library call the
    program makes, and the class [HostLaws] states the documented effect of each
    call on an abstract network state [Net].  Any call may fail at any time; a
    failed call leaves [Net] alone.  [Kernel.v] gives an executable instance.
    Routes are those of unicast destinations: the link-local routes the kernel
    adds by itself when an interface comes up are left out of [Net]. *)
From S2P Require Import Prelude GoStrings GoNet.

(** ** Data of the libraries, as far as the program sets or reads it *)
Inductive family := V4 | V6.
Global Instance family_eq_dec : EqDecision family.
Proof. solve_decision. Defined.

Record Rule := mkRule {
  r_Family : family; r_Table : Z; r_Priority : Z; r_Dst : option IPNet; r_IifName : string }.

Record Route := mkRoute {
  rt_Dst : option IPNet; rt_LinkIndex : Z; rt_Table : Z; rt_Protocol : Z }.

Record tunnel := mkTunnel {
  Ttl : Z; EncapDirect : bool; EncapDport : Z; EncapSport : Z;
  Remote : IP; Local : IP; FlowBased : bool }.

Inductive link_kind :=
| Dummy | Iptun (t : tunnel) | Ip6tnl (t : tunnel) | OtherLink (type : string).

Record Link := mkLink { Name : string; Index : Z; FlagUp : bool; Kind : link_kind }.

Record Fou := mkFou {
  fou_Family : family; fou_Protocol : Z; fou_Port : Z; fou_EncapDirect : bool }.

Global Instance tunnel_eq_dec : EqDecision tunnel.
Proof. solve_decision. Defined.
Global Instance link_kind_eq_dec : EqDecision link_kind.
Proof. solve_decision. Defined.
Global Instance Link_eq_dec : EqDecision Link.
Proof. solve_decision. Defined.

(** ** The abstract network state

    Rules and routes are kept in canonical form: a zero-length destination is
    no destination, and IPv4 addresses are 4 bytes long. *)
Record krule := mkKrule {
  kr_Table : Z; kr_Priority : Z; kr_Dst : option (IP * Z); kr_Iif : string }.
Record kroute := mkKroute {
  kt_Dst : option (IP * Z); kt_LinkIndex : Z; kt_Table : Z; kt_Protocol : Z }.

Global Instance krule_eq_dec : EqDecision krule.
Proof. solve_decision. Defined.
Global Instance kroute_eq_dec : EqDecision kroute.
Proof. solve_decision. Defined.

(** One value per address family. *)
Record PerFam (A : Type) := mkPF { pf4 : A; pf6 : A }.
Arguments mkPF {_} _ _.
Arguments pf4 {_} _.
Arguments pf6 {_} _.

Definition pf_get {A} (f : family) (p : PerFam A) : A :=
  match f with V4 => pf4 p | V6 => pf6 p end.
Definition pf_set {A} (f : family) (a : A) (p : PerFam A) : PerFam A :=
  match f with V4 => mkPF a (pf6 p) | V6 => mkPF (pf4 p) a end.

Record Net := mkNet {
  links : gmap string Link;
  rules : PerFam (list krule);
  routes : PerFam (list kroute);
  chains : PerFam (gmap (string * string) (list (list string)));
  fous : list Fou;
  sysctls : gmap string string;
  forwarding : PerFam bool }.

Definition set_links (l : gmap string Link) (n : Net) : Net :=
  mkNet l (rules n) (routes n) (chains n) (fous n) (sysctls n) (forwarding n).
Definition set_rules (f : family) (l : list krule) (n : Net) : Net :=
  mkNet (links n) (pf_set f l (rules n)) (routes n) (chains n) (fous n) (sysctls n) (forwarding n).
Definition set_routes (f : family) (l : list kroute) (n : Net) : Net :=
  mkNet (links n) (rules n) (pf_set f l (routes n)) (chains n) (fous n) (sysctls n) (forwarding n).
Definition set_chain (f : family) (k : string * string) (l : list (list string)) (n : Net) : Net :=
  mkNet (links n) (rules n) (routes n)
    (pf_set f (<[k := l]> (pf_get f (chains n))) (chains n)) (fous n) (sysctls n) (forwarding n).
Definition set_fous (l : list Fou) (n : Net) : Net :=
  mkNet (links n) (rules n) (routes n) (chains n) l (sysctls n) (forwarding n).
Definition set_sysctl (k v : string) (n : Net) : Net :=
  mkNet (links n) (rules n) (routes n) (chains n) (fous n) (<[k := v]> (sysctls n)) (forwarding n).
Definition set_forwarding (f : family) (n : Net) : Net :=
  mkNet (links n) (rules n) (routes n) (chains n) (fous n) (sysctls n)
    (pf_set f true (forwarding n)).

Definition chain_of (f : family) (k : string * string) (n : Net) : list (list string) :=
  default [] (pf_get f (chains n) !! k).

(** Canonical forms. *)
Definition net_family (n : IPNet) : family :=
  if bool_decide (To4 (net_IP n) = []) then V6 else V4.
Definition canon_dst (d : option IPNet) : option (IP * Z) :=
  match d with
  | None => None
  | Some n => if (Mask_Size (net_Mask n)).1 =? 0 then None
              else Some (canonIP (net_IP n), (Mask_Size (net_Mask n)).1)
  end.
(** A destination the kernel accepts: a contiguous mask of the length of the
    (canonical) address. *)
Definition net_ok (n : IPNet) : Prop :=
  ip_len (net_IP n) ∧ net_IP n ≠ [] ∧ length (net_Mask n) = length (canonIP (net_IP n)) ∧
  is_Some (simpleMaskLength (net_Mask n)).
Definition dst_ok (f : family) (d : option IPNet) : Prop :=
  match d with None => True | Some n => net_ok n ∧ net_family n = f end.
Global Instance net_ok_dec n : Decision (net_ok n).
Proof. unfold net_ok. apply _. Defined.
Global Instance dst_ok_dec f d : Decision (dst_ok f d).
Proof. destruct d; apply _. Defined.
Definition canon_rule (r : Rule) : krule :=
  mkKrule (r_Table r) (r_Priority r) (canon_dst (r_Dst r)) (r_IifName r).
Definition canon_route (r : Route) : kroute :=
  mkKroute (canon_dst (rt_Dst r)) (rt_LinkIndex r) (rt_Table r) (rt_Protocol r).

Definition canon_kind (k : link_kind) : link_kind :=
  let canon t := mkTunnel (Ttl t) (EncapDirect t) (EncapDport t) (EncapSport t)
                   (canonIP (Remote t)) (canonIP (Local t)) (FlowBased t) in
  match k with Iptun t => Iptun (canon t) | Ip6tnl t => Ip6tnl (canon t) | k => k end.

(** What the kernel makes of a link the program adds. *)
Definition new_link (idx : Z) (l : Link) : Link :=
  mkLink (Name l) idx (FlagUp l) (canon_kind (Kind l)).
Definition link_up (l : Link) : Link := mkLink (Name l) (Index l) true (Kind l).
Definition link_named (n : string) (l : Link) : Link := mkLink n (Index l) (FlagUp l) (Kind l).

(** A rule goes behind those of smaller or equal priority number. *)
Fixpoint rule_insert (r : krule) (l : list krule) : list krule :=
  match l with
  | [] => [r]
  | x :: l' => if kr_Priority r <? kr_Priority x then r :: l else x :: rule_insert r l'
  end.

(** Deleting a rule removes the first one that agrees with every selector
    given. *)
Definition rule_matches (sel k : krule) : bool :=
  (kr_Table sel =? kr_Table k) && (kr_Priority sel =? kr_Priority k) &&
  bool_decide (kr_Dst sel = None ∨ kr_Dst sel = kr_Dst k) &&
  bool_decide (kr_Iif sel = "" ∨ kr_Iif sel = kr_Iif k).
Fixpoint remove_match {A} (p : A → bool) (l : list A) : option (list A) :=
  match l with
  | [] => None
  | x :: l' => if p x then Some l' else cons x <$> remove_match p l'
  end.

(** A destination as the library lists it: a network of the family; a default
    route is listed without one. *)
Definition dst_listed (f : family) (d : option IPNet) : Prop :=
  match d with
  | None => True
  | Some n => net_family n = f ∧ ip_len (net_IP n) ∧
              canon_dst (Some n) = Some (canonIP (net_IP n), (Mask_Size (net_Mask n)).1)
  end.

(** Deleting a link takes the routes over it with it. *)
Definition flush (gone : gset Z) (n : Net) : Net :=
  let keep l := filter (λ r, kt_LinkIndex r ∉ gone) l in
  set_routes V4 (keep (pf_get V4 (routes n))) (set_routes V6 (keep (pf_get V6 (routes n))) n).
Definition del_link (k : string) (n : Net) : Net :=
  set_links (delete k (links n)) (flush (match links n !! k with Some l => {[Index l]} | None => ∅ end) n).

(** Indices: no two links share one, and a new link gets one that nothing uses. *)
Definition uniq (ls : gmap string Link) : Prop := ∀ k k' l l',
  ls !! k = Some l → ls !! k' = Some l' → Index l = Index l' → k = k'.
Definition fresh_index (n : Net) (i : Z) : Prop :=
  (∀ k l, links n !! k = Some l → Index l ≠ i) ∧ ∀ f, Forall (λ r, kt_LinkIndex r ≠ i) (pf_get f (routes n)).

(** Loading a tunnel module brings up its fallback device, once: the kernel has
    one fallback device per module, under whatever name. *)
Definition fallback_devices : list (string * string) := [("tunl0", "ipip"); ("ip6tnl0", "ip6tnl")].
Definition fallback_only (n : Net) (fb : gmap string Link) : Prop :=
  (∀ k l, fb !! k = Some l → ∃ d, (k, d) ∈ fallback_devices ∧ Kind l = OtherLink d ∧ Name l = k ∧
    (∀ m l', links n !! m = Some l' → Kind l' ≠ OtherLink d) ∧ fresh_index n (Index l)) ∧ uniq fb.

Definition fou_key (f : Fou) : family * Z := (fou_Family f, fou_Port f).

(** ** The library calls *)
Class HostOps (W : Type) := {
  LinkByName : string → M W Link;
  LinkAdd : Link → M W unit;
  LinkDel : Link → M W unit;
  LinkSetUp : Link → M W unit;
  LinkSetName : Link → string → M W unit;
  RuleList : family → M W (list Rule);
  RuleAdd : Rule → M W unit;
  RuleDel : Rule → M W unit;
  RouteListFiltered : family → Z → M W (list Route);   (* filter: RT_FILTER_TABLE *)
  RouteAdd : Route → M W unit;
  RouteDel : Route → M W unit;
  FouAdd : Fou → M W unit;
  exec_modprobe : string → M W unit;      (* exec.Command("/sbin/modprobe", m).CombinedOutput() *)
  Sysctl : string → string → M W unit;    (* sysctl.Sysctl(key, value) *)
  EnableIPForward : family → M W unit;    (* ip.EnableIP4Forward, ip.EnableIP6Forward *)
  iptables_New : family → M W unit;       (* iptables.NewWithProtocol *)
  iptables_Insert : family → string → string → Z → list string → M W unit;
  iptables_Append : family → string → string → list string → M W unit;
  NewIPNet : IP → IPNet;                  (* netlink.NewIPNet *)
}.

(** The library's errors do not wrap the program's sentinel. *)
Definition foreign {A} (o : outcome A) : Prop :=
  match o with Err e => errors_Is e ErrIPFamilyMismatch = false | _ => True end.

(** ** Their documented effect

    Most laws read: the call either succeeded with its effect, or returned an
    error and left the state alone; it did not panic ([done_or_same]). *)

Class HostLaws (W : Type) `{!HostOps W} := {
  view : W → Net;

  law_LinkByName n w :
    wp (LinkByName n) (λ r w', view w' = view w ∧
      match r with
      | Ok l => links (view w) !! n = Some l ∧ Name l = n
      | Err e => is_link_not_found e = true → links (view w) !! n = None
      | Panicked _ => False
      end) w;
  law_LinkAdd l w :
    wp (LinkAdd l) (λ r w', ∃ fb, fallback_only (view w) fb ∧
      done_or_same (view w' = set_links (links (view w) ∪ fb) (view w))
        (λ _, links (view w) !! Name l = None ∧ ∃ idx, fresh_index (set_links (links (view w) ∪ fb) (view w)) idx ∧
           view w' = set_links (<[Name l := new_link idx l]> (links (view w) ∪ fb)) (view w)) r) w;
  law_LinkDel l w :
    links (view w) !! Name l = Some l →
    wp (LinkDel l) (λ r w', done_or_same (view w' = view w)
      (λ _, view w' = del_link (Name l) (view w)) r) w;
  law_LinkSetUp l w :
    links (view w) !! Name l = Some l →
    wp (LinkSetUp l) (λ r w', done_or_same (view w' = view w)
      (λ _, view w' = set_links (<[Name l := link_up l]> (links (view w))) (view w)) r) w;
  law_LinkSetName l to w :
    links (view w) !! Name l = Some l →
    wp (LinkSetName l to) (λ r w', done_or_same (view w' = view w)
      (λ _, links (view w) !! to = None ∧
        view w' = set_links (<[to := link_named to l]> (delete (Name l) (links (view w)))) (view w)) r) w;

  foreign_LinkByName n w : wp (LinkByName n) (λ o _, foreign o) w;
  foreign_LinkAdd l w : wp (LinkAdd l) (λ o _, foreign o) w;
  foreign_LinkDel l w : wp (LinkDel l) (λ o _, foreign o) w;
  foreign_LinkSetUp l w : wp (LinkSetUp l) (λ o _, foreign o) w;
  foreign_LinkSetName l to w : wp (LinkSetName l to) (λ o _, foreign o) w;

  law_RuleList f w :
    wp (RuleList f) (λ r w', view w' = view w ∧ done_or_same True
      (λ l, canon_rule <$> l = pf_get f (rules (view w)) ∧ Forall (λ r, r_Family r = f) l) r) w;
  law_RuleAdd r w :
    wp (RuleAdd r) (λ o w', done_or_same (view w' = view w)
      (λ _, view w' = set_rules (r_Family r)
         (rule_insert (canon_rule r) (pf_get (r_Family r) (rules (view w)))) (view w)) o) w;
  law_RuleDel r w :
    wp (RuleDel r) (λ o w', done_or_same (view w' = view w)
      (λ _, ∃ l', remove_match (rule_matches (canon_rule r)) (pf_get (r_Family r) (rules (view w))) = Some l'
         ∧ view w' = set_rules (r_Family r) l' (view w)) o) w;

  law_RouteListFiltered f t w :
    wp (RouteListFiltered f t) (λ r w', view w' = view w ∧ done_or_same True
      (λ l, canon_route <$> l = filter (λ k, kt_Table k = t) (pf_get f (routes (view w))) ∧
         Forall (λ r, dst_listed f (rt_Dst r)) l) r) w;
  law_RouteAdd r n w :
    rt_Dst r = Some n →
    wp (RouteAdd r) (λ o w', done_or_same (view w' = view w)
      (λ _, view w' = set_routes (net_family n)
         (pf_get (net_family n) (routes (view w)) ++ [canon_route r]) (view w)) o) w;
  law_RouteDel r n w :
    rt_Dst r = Some n →
    wp (RouteDel r) (λ o w', done_or_same (view w' = view w)
      (λ _, ∃ l', remove_match (λ k, bool_decide (canon_route r = k))
                    (pf_get (net_family n) (routes (view w))) = Some l'
         ∧ view w' = set_routes (net_family n) l' (view w)) o) w;

  law_FouAdd f w :     (* a port carries one socket per family *)
    wp (FouAdd f) (λ o w', done_or_same (view w' = view w)
      (λ _, fou_key f ∉ fou_key <$> fous (view w) ∧
        view w' = set_fous (fous (view w) ++ [f]) (view w)) o) w;
  law_exec_modprobe m w :
    wp (exec_modprobe m) (λ o w', ∃ fb, fallback_only (view w) fb ∧
      view w' = set_links (links (view w) ∪ fb) (view w) ∧ done_or_same True (λ _, True) o) w;
  law_Sysctl k v w :
    wp (Sysctl k v) (λ o w', done_or_same (view w' = view w)
      (λ _, view w' = set_sysctl k v (view w)) o) w;
  law_EnableIPForward f w :
    wp (EnableIPForward f) (λ o w', done_or_same (view w' = view w)
      (λ _, view w' = set_forwarding f (view w)) o) w;
  law_iptables_New f w :
    wp (iptables_New f) (λ o w', view w' = view w ∧ done_or_same True (λ _, True) o) w;
  law_iptables_Insert f t c spec w :
    wp (iptables_Insert f t c 1 spec) (λ o w', done_or_same (view w' = view w)
      (λ _, view w' = set_chain f (t, c) (spec :: chain_of f (t, c) (view w)) (view w)) o) w;
  law_iptables_Append f t c spec w :
    wp (iptables_Append f t c spec) (λ o w', done_or_same (view w' = view w)
      (λ _, view w' = set_chain f (t, c) (chain_of f (t, c) (view w) ++ [spec]) (view w)) o) w;
  law_NewIPNet ip :
    NewIPNet ip = mkIPNet ip (if bool_decide (To4 ip = []) then CIDRMask 128 128 else CIDRMask 32 32);
}.

(** ** When calls do succeed

    A host that is [healthy] and stays so performs every call whose
    preconditions hold: nothing is added twice, only what exists is deleted,
    a deletion names its destination, and a route has a device. *)
Definition has_device (idx : Z) (n : Net) : Prop := ∃ name l, links n !! name = Some l ∧ Index l = idx.
Definition ifname_ok (n : string) : Prop := (0 < String.length n ≤ 15)%nat.   (* IFNAMSIZ - 1 *)

Class HostReliable (W : Type) `{!HostOps W, !HostLaws W} := {
  healthy : W → Prop;
  rel_RuleList f w : healthy w →
    wp (RuleList f) (λ o w', (∃ l, o = Ok l) ∧ healthy w') w;
  rel_RuleAdd r w : healthy w → dst_ok (r_Family r) (r_Dst r) →
    Forall (λ k, kr_Priority k ≠ r_Priority r) (pf_get (r_Family r) (rules (view w))) →
    wp (RuleAdd r) (λ o w', o = Ok tt ∧ healthy w') w;
  rel_RuleDel r w : healthy w → r_Dst r ≠ None →
    is_Some (remove_match (rule_matches (canon_rule r)) (pf_get (r_Family r) (rules (view w)))) →
    wp (RuleDel r) (λ o w', o = Ok tt ∧ healthy w') w;
  rel_RouteListFiltered f t w : healthy w →
    wp (RouteListFiltered f t) (λ o w', (∃ l, o = Ok l) ∧ healthy w') w;
  rel_RouteAdd r n w : healthy w → rt_Dst r = Some n → net_ok n → has_device (rt_LinkIndex r) (view w) →
    Forall (λ k, kt_Table k = rt_Table r → kt_Dst k ≠ canon_dst (Some n))
      (pf_get (net_family n) (routes (view w))) →
    wp (RouteAdd r) (λ o w', o = Ok tt ∧ healthy w') w;
  rel_RouteDel r n w : healthy w → rt_Dst r = Some n →
    canon_route r ∈ pf_get (net_family n) (routes (view w)) →
    wp (RouteDel r) (λ o w', o = Ok tt ∧ healthy w') w;
  rel_LinkByName n w : healthy w →
    wp (LinkByName n) (λ o w', match links (view w) !! n with
                               | Some l => o = Ok l
                               | None => ∃ e, o = Err e ∧ is_link_not_found e = true
                               end ∧ healthy w') w;
  rel_LinkAdd l w : healthy w → links (view w) !! Name l = None → ifname_ok (Name l) →
    wp (LinkAdd l) (λ o w', o = Ok tt ∧ healthy w') w;
  rel_LinkDel l w : healthy w → links (view w) !! Name l = Some l →
    wp (LinkDel l) (λ o w', o = Ok tt ∧ healthy w') w;
  rel_LinkSetUp l w : healthy w → links (view w) !! Name l = Some l →
    wp (LinkSetUp l) (λ o w', o = Ok tt ∧ healthy w') w;
  rel_LinkSetName l to w : healthy w → links (view w) !! Name l = Some l →
    links (view w) !! to = None → ifname_ok to →
    wp (LinkSetName l to) (λ o w', o = Ok tt ∧ healthy w') w;
  rel_FouAdd f w : healthy w → fou_key f ∉ fou_key <$> fous (view w) →
    wp (FouAdd f) (λ o w', o = Ok tt ∧ healthy w') w;
  rel_exec_modprobe m w : healthy w → wp (exec_modprobe m) (λ o w', o = Ok tt ∧ healthy w') w;
  rel_Sysctl k v w : healthy w → wp (Sysctl k v) (λ o w', o = Ok tt ∧ healthy w') w;
  rel_EnableIPForward f w : healthy w → wp (EnableIPForward f) (λ o w', o = Ok tt ∧ healthy w') w;
  rel_iptables_New f w : healthy w → wp (iptables_New f) (λ o w', o = Ok tt ∧ healthy w') w;
  rel_iptables_Insert f t c spec w : healthy w →
    wp (iptables_Insert f t c 1 spec) (λ o w', o = Ok tt ∧ healthy w') w;
  rel_iptables_Append f t c spec w : healthy w →
    wp (iptables_Append f t c spec) (λ o w', o = Ok tt ∧ healthy w') w;
}.

(** ** Lemmas on the abstract state *)
Lemma pf_get_set_eq {A} f (a : A) p : pf_get f (pf_set f a p) = a.
Proof. by destruct f. Qed.
Lemma pf_get_set_ne {A} f g (a : A) p : f ≠ g → pf_get g (pf_set f a p) = pf_get g p.
Proof. by destruct f, g. Qed.
Lemma pf_set_set {A} f (a b : A) p : pf_set f b (pf_set f a p) = pf_set f b p.
Proof. by destruct f. Qed.
Lemma pf_set_get {A} f (p : PerFam A) : pf_set f (pf_get f p) p = p.
Proof. by destruct f, p. Qed.
Lemma set_rules_id f n : set_rules f (pf_get f (rules n)) n = n.
Proof. unfold set_rules. rewrite pf_set_get. by destruct n. Qed.
Lemma set_routes_id f n : set_routes f (pf_get f (routes n)) n = n.
Proof. unfold set_routes. rewrite pf_set_get. by destruct n. Qed.
Lemma set_links_id n : set_links (links n) n = n.
Proof. by destruct n. Qed.
Lemma set_rules_set f a b n : set_rules f b (set_rules f a n) = set_rules f b n.
Proof. unfold set_rules. simpl. by rewrite pf_set_set. Qed.
Lemma set_routes_set f a b n : set_routes f b (set_routes f a n) = set_routes f b n.
Proof. unfold set_routes. simpl. by rewrite pf_set_set. Qed.

Create Rewrite HintDb net.
#[export] Hint Rewrite @pf_get_set_eq @pf_set_set @pf_set_get set_rules_id set_routes_id
  set_links_id set_rules_set set_routes_set : net.

Lemma rules_set_routes f rt n : rules (set_routes f rt n) = rules n.
Proof. done. Qed.
Lemma routes_set_rules f rl n : routes (set_rules f rl n) = routes n.
Proof. done. Qed.
Lemma rules_set_rules f rl n : rules (set_rules f rl n) = pf_set f rl (rules n).
Proof. done. Qed.
Lemma routes_set_routes f rt n : routes (set_routes f rt n) = pf_set f rt (routes n).
Proof. done. Qed.
Lemma set_rules_routes f rl rt n :
  set_rules f rl (set_routes f rt n) = set_routes f rt (set_rules f rl n).
Proof. done. Qed.
#[export] Hint Rewrite rules_set_routes routes_set_rules rules_set_rules routes_set_routes
  set_rules_routes : net.

Ltac net_simpl := autorewrite with net in *; simpl in *; autorewrite with net in *.

Lemma routes_flush f gone n : pf_get f (routes (flush gone n)) = filter (λ r, kt_LinkIndex r ∉ gone) (pf_get f (routes n)).
Proof. by destruct f. Qed.
Lemma flush_flush g1 g2 n : flush g2 (flush g1 n) = flush (g1 ∪ g2) n.
Proof.
  destruct n as [? ? [l4 l6] ? ? ? ?]. unfold flush, set_routes. simpl. f_equal. rewrite !list_filter_filter.
  f_equal; apply list_filter_iff; set_solver.
Qed.
Lemma filter_id_Forall {A} (P : A → Prop) `{∀ x, Decision (P x)} l : Forall P l → filter P l = l.
Proof. induction 1 as [|x l Hx _ IH]; [done|]. by rewrite filter_cons_True, IH. Qed.
Lemma flush_none gone n : (∀ f, Forall (λ r, kt_LinkIndex r ∉ gone) (pf_get f (routes n))) → flush gone n = n.
Proof.
  intros H. pose proof (H V4) as H4. pose proof (H V6) as H6. destruct n as [? ? [l4 l6] ? ? ? ?].
  unfold flush, set_routes. simpl in *. by rewrite !filter_id_Forall.
Qed.
Lemma flush_empty n : flush ∅ n = n.
Proof. apply flush_none. intros f. apply Forall_true. set_solver. Qed.
Lemma del_link_absent k n : links n !! k = None → del_link k n = n.
Proof. intros H. unfold del_link. by rewrite H, delete_id, flush_empty, set_links_id. Qed.
Lemma uniq_delete k ls : uniq ls → uniq (delete k ls).
Proof. intros H k1 k2 l1 l2 [_ H1]%lookup_delete_Some [_ H2]%lookup_delete_Some. by apply H. Qed.
Lemma uniq_insert k l ls : uniq ls → (∀ k' l', k' ≠ k → ls !! k' = Some l' → Index l' ≠ Index l) → uniq (<[k := l]> ls).
Proof.
  intros H Hl k1 k2 l1 l2 [[<- <-]|[? H1]]%lookup_insert_Some [[<- <-]|[? H2]]%lookup_insert_Some; try done.
  - intros He. by destruct (Hl k2 l2).
  - intros He. by destruct (Hl k1 l1).
  - by apply H.
Qed.
(** They depend on links and routes only. *)
Lemma fresh_index_ext n m i : links n = links m → routes n = routes m → fresh_index n i → fresh_index m i.
Proof. unfold fresh_index. by intros -> ->. Qed.
Lemma fallback_only_ext n m fb : links n = links m → routes n = routes m → fallback_only n fb → fallback_only m fb.
Proof. unfold fallback_only, fresh_index. by intros -> ->. Qed.
Lemma uniq_union n fb : fallback_only n fb → uniq (links n) → uniq (links n ∪ fb).
Proof.
  intros [Hfb Hu] H k1 k2 l1 l2 [H1|[_ H1]]%lookup_union_Some_raw [H2|[_ H2]]%lookup_union_Some_raw He.
  - by eapply H.
  - destruct (Hfb _ _ H2) as (_ & _ & _ & _ & _ & Hf & _). by destruct (Hf _ _ H1).
  - destruct (Hfb _ _ H1) as (_ & _ & _ & _ & _ & Hf & _). by destruct (Hf _ _ H2).
  - by eapply Hu.
Qed.


(** The first match is found, and it is the right one when nothing before it
    matches. *)
Lemma remove_match_app {A} (p : A → bool) l1 x l2 :
  Forall (λ y, p y = false) l1 → p x = true →
  remove_match p (l1 ++ x :: l2) = Some (l1 ++ l2).
Proof.
  intros H Hx. induction H as [|y l1 Hy _ IH]; simpl; [by rewrite Hx|].
  by rewrite Hy, IH.
Qed.

Lemma remove_match_Some {A} (p : A → bool) l l' :
  remove_match p l = Some l' →
  ∃ l1 x l2, l = l1 ++ x :: l2 ∧ l' = l1 ++ l2 ∧ p x = true ∧ Forall (λ y, p y = false) l1.
Proof.
  revert l'. induction l as [|x l IH]; intros l'; simpl; [done|].
  destruct (p x) eqn:Hx.
  - intros [= <-]. by exists [], x, l.
  - intros (l0 & Hl0 & ->)%fmap_Some. destruct (IH l0 Hl0) as (l1&y&l2&->&->&?&?).
    exists (x :: l1), y, l2. repeat split; auto.
Qed.

(** Deleting the first element of a class [P], when its selector stays within
    the class, takes the head off the sublist of the class and leaves the rest
    of the list alone. *)
Lemma remove_match_filter {A} (P : A → Prop) `{∀ x, Decision (P x)} (p : A → bool) l x t :
  filter P l = x :: t → p x = true → (∀ y, p y = true → P y) →
  ∃ l', remove_match p l = Some l' ∧ filter P l' = t ∧
        filter (λ y, ¬ P y) l' = filter (λ y, ¬ P y) l.
Proof.
  intros Hf Hx Hp.
  assert (∃ l1 l2, l = l1 ++ x :: l2 ∧ Forall (λ y, ¬ P y) l1 ∧ filter P l2 = t ∧ P x)
    as (l1&l2&->&H1&<-&HP).
  { induction l as [|y l IH]; [done|]. rewrite filter_cons in Hf. case_decide.
    - simplify_eq. by exists [], l.
    - destruct (IH Hf) as (l1&l2&->&?&?&?). exists (y :: l1), l2. repeat split; auto. }
  exists (l1 ++ l2). split; [|split].
  - apply remove_match_app; [|done]. eapply Forall_impl; [exact H1|].
    intros y Hy. destruct (p y) eqn:E; [|done]. by apply Hp in E.
  - rewrite filter_app. clear Hf. induction H1; [done|]. by rewrite filter_cons_False.
  - rewrite !filter_app, filter_cons. by rewrite decide_False by (intros n; by apply n).
Qed.

Lemma rule_matches_refl k : rule_matches k k = true.
Proof. unfold rule_matches. rewrite !Z.eqb_refl, !bool_decide_eq_true_2 by auto. done. Qed.

Lemma rule_matches_prio sel k : rule_matches sel k = true → kr_Priority k = kr_Priority sel.
Proof. unfold rule_matches. rewrite !andb_true_iff, !Z.eqb_eq. intuition congruence. Qed.

(** ** Laws and reliability together

    A host about which nothing is known beyond the laws is reliable in the
    trivial sense: it is never healthy.  Proving a specification once, under
    [HostReliable], therefore covers both kinds of statement. *)
Program Definition unreliable {W} `{!HostOps W, !HostLaws W} : HostReliable W :=
  {| healthy _ := False |}.
Solve Obligations with done.

Section both.
Context {W : Type} `{!HostOps W, !HostLaws W, !HostReliable W}.

Lemma use_LinkByName n w :
  wp (LinkByName n) (λ r w', (view w' = view w ∧
    match r with
    | Ok l => links (view w) !! n = Some l ∧ Name l = n
    | Err e => is_link_not_found e = true → links (view w) !! n = None
    | Panicked _ => False
    end) ∧
    (healthy w → match links (view w) !! n with
                 | Some l => r = Ok l
                 | None => ∃ e, r = Err e ∧ is_link_not_found e = true
                 end ∧ healthy w')) w.
Proof. apply wp_and; [apply law_LinkByName|]. unfold wp. apply rel_LinkByName. Qed.

Lemma use_RuleList f w :
  wp (RuleList f) (λ r w', (view w' = view w ∧ done_or_same True
    (λ l, canon_rule <$> l = pf_get f (rules (view w)) ∧ Forall (λ r, r_Family r = f) l) r) ∧
    (healthy w → (∃ l, r = Ok l) ∧ healthy w')) w.
Proof. apply wp_and; [apply law_RuleList|]. unfold wp. apply rel_RuleList. Qed.

Lemma use_RuleAdd r w :
  wp (RuleAdd r) (λ o w', done_or_same (view w' = view w)
    (λ _, view w' = set_rules (r_Family r)
       (rule_insert (canon_rule r) (pf_get (r_Family r) (rules (view w)))) (view w)) o ∧
    (healthy w → dst_ok (r_Family r) (r_Dst r) →
     Forall (λ k, kr_Priority k ≠ r_Priority r) (pf_get (r_Family r) (rules (view w))) →
     o = Ok tt ∧ healthy w')) w.
Proof. apply wp_and; [apply law_RuleAdd|]. unfold wp. intros. by apply rel_RuleAdd. Qed.

Lemma use_RuleDel r w :
  wp (RuleDel r) (λ o w', done_or_same (view w' = view w)
    (λ _, ∃ l', remove_match (rule_matches (canon_rule r)) (pf_get (r_Family r) (rules (view w))) = Some l'
       ∧ view w' = set_rules (r_Family r) l' (view w)) o ∧
    (healthy w → r_Dst r ≠ None →
     is_Some (remove_match (rule_matches (canon_rule r)) (pf_get (r_Family r) (rules (view w)))) →
     o = Ok tt ∧ healthy w')) w.
Proof. apply wp_and; [apply law_RuleDel|]. unfold wp. intros. by apply rel_RuleDel. Qed.

Lemma use_RouteListFiltered f t w :
  wp (RouteListFiltered f t) (λ r w', (view w' = view w ∧ done_or_same True
    (λ l, canon_route <$> l = filter (λ k, kt_Table k = t) (pf_get f (routes (view w))) ∧
       Forall (λ r, dst_listed f (rt_Dst r)) l) r) ∧
    (healthy w → (∃ l, r = Ok l) ∧ healthy w')) w.
Proof. apply wp_and; [apply law_RouteListFiltered|]. unfold wp. apply rel_RouteListFiltered. Qed.

Lemma use_RouteAdd r n w :
  rt_Dst r = Some n →
  wp (RouteAdd r) (λ o w', done_or_same (view w' = view w)
    (λ _, view w' = set_routes (net_family n)
       (pf_get (net_family n) (routes (view w)) ++ [canon_route r]) (view w)) o ∧
    (healthy w → net_ok n → has_device (rt_LinkIndex r) (view w) →
     Forall (λ k, kt_Table k = rt_Table r → kt_Dst k ≠ canon_dst (Some n))
       (pf_get (net_family n) (routes (view w))) → o = Ok tt ∧ healthy w')) w.
Proof.
  intros Hn. apply wp_and; [by apply law_RouteAdd|]. unfold wp. intros. by eapply rel_RouteAdd.
Qed.

Lemma use_RouteDel r n w :
  rt_Dst r = Some n →
  wp (RouteDel r) (λ o w', done_or_same (view w' = view w)
    (λ _, ∃ l', remove_match (λ k, bool_decide (canon_route r = k))
                  (pf_get (net_family n) (routes (view w))) = Some l'
       ∧ view w' = set_routes (net_family n) l' (view w)) o ∧
    (healthy w → canon_route r ∈ pf_get (net_family n) (routes (view w)) →
     o = Ok tt ∧ healthy w')) w.
Proof.
  intros Hn. apply wp_and; [by apply law_RouteDel|]. unfold wp. intros. by eapply rel_RouteDel.
Qed.
End both.

(** ** Specifications of host computations

    [spec ok S P m w]: started in [w], [m] either returns with [P] or returns an
    error in a state satisfying [S]; it does not panic; and on a healthy host,
    under the side condition [ok], it returns and leaves the host healthy. *)
Section spec.
Context {W : Type} `{!HostOps W, !HostLaws W, !HostReliable W}.

Definition spec {A} (ok : Prop) (S : Net → Prop) (P : A → Net → Prop) (m : M W A) (w : W) : Prop :=
  wp m (λ o w', done_or_same (S (view w')) (λ a, P a (view w')) o ∧
                (ok → healthy w → (∃ a, o = Ok a) ∧ healthy w')) w.

Lemma spec_mono {A} (ok ok' : Prop) (S S' : Net → Prop) (P P' : A → Net → Prop) m w :
  spec ok S P m w → (ok' → ok) → (∀ n, S n → S' n) → (∀ a n, P a n → P' a n) →
  spec ok' S' P' m w.
Proof.
  unfold spec. intros H Hok HS HP. eapply wp_mono; [exact H|]. intros o w' [Ho Hr]. split; [|auto].
  eapply done_or_same_mono; [done|auto..].
Qed.

Lemma spec_ret {A} (ok : Prop) S (P : A → Net → Prop) a w :
  P a (view w) → spec ok S P (mret a) w.
Proof. intros H. split; [done|]. intros _ Hh. split; [by eexists|done]. Qed.

Lemma spec_throw {A} (ok : Prop) (S : Net → Prop) (P : A → Net → Prop) e w :
  S (view w) → ¬ ok → spec ok S P (throw e) w.
Proof. intros H Hn. by split. Qed.

Lemma spec_bind {A B} (ok : Prop) S (P : A → Net → Prop) (Q : B → Net → Prop) m k w :
  spec ok S P m w → (∀ a w', P a (view w') → spec ok S Q (k a) w') →
  spec ok S Q (m ≫= k) w.
Proof.
  unfold spec. intros Hm Hk. apply wp_bind. eapply wp_mono; [exact Hm|].
  intros o w' [Ho Hr]. destruct o as [a|e|s]; simpl in *; [| |done].
  - eapply wp_mono; [by apply Hk|]. intros o w'' [Ho' Hr']. split; [done|].
    intros Hok Hh. apply Hr'; [done|]. by apply Hr.
  - split; [done|]. intros Hok Hh. by destruct (Hr Hok Hh) as [[? ?] _].
Qed.

Lemma spec_wrapping {A} (ok : Prop) S (P : A → Net → Prop) msg m w :
  spec ok S P m w → spec ok S P (wrapping msg m) w.
Proof.
  unfold spec. intros H. apply wp_wrapping. eapply wp_mono; [exact H|]. intros o w' [Ho Hr].
  rewrite done_or_same_wrap. split; [done|]. intros Hok Hh.
  destruct (Hr Hok Hh) as [[a ->] ?]. split; [by exists a|done].
Qed.

Lemma spec_for_each {A} (ok : Prop) S (I : list A → Net → Prop) f l w :
  I l (view w) →
  (∀ x l' w', I (x :: l') (view w') → spec ok S (λ _, I l') (f x) w') →
  spec ok S (λ _, I []) (for_each f l) w.
Proof.
  intros HI Hf. revert w HI. induction l as [|x l IH]; intros w HI; simpl.
  - by apply spec_ret.
  - eapply spec_bind; [by apply Hf|]. auto.
Qed.

Lemma spec_for_each_i {A} (ok : Prop) S (I : nat → list A → Net → Prop) f i l w :
  I i l (view w) →
  (∀ j x l' w', I j (x :: l') (view w') → spec ok S (λ _, I (Datatypes.S j) l') (f j x) w') →
  spec ok S (λ _, I (i + length l)%nat []) (for_each_i f i l) w.
Proof.
  intros HI Hf. revert i w HI. induction l as [|x l IH]; intros i w HI; simpl.
  - apply spec_ret. by rewrite Nat.add_0_r.
  - eapply spec_bind; [by apply Hf|]. intros [] w' H. rewrite Nat.add_succ_r. by apply (IH (Datatypes.S i)).
Qed.

(** An update that needs [ok] to succeed on a working host. *)
Lemma spec_update (ok : Prop) (P : Net → Prop) (m : M W unit) w :
  wp m (λ o w', done_or_same (view w' = view w) (λ _, P (view w')) o) w →
  (ok → healthy w → wp m (λ o w', o = Ok tt ∧ healthy w') w) →
  spec ok (λ n', n' = view w) (λ _, P) m w.
Proof.
  intros Hl Hr. unfold spec. apply wp_and; [exact Hl|]. unfold wp in *. intros Hok Hh.
  destruct (Hr Hok Hh) as [-> ?]. eauto.
Qed.

(** What a specification says under the laws alone. *)
Lemma spec_laws {A} ok S (P : A → Net → Prop) m w :
  spec ok S P m w → wp m (λ o w', done_or_same (S (view w')) (λ a, P a (view w')) o) w.
Proof. unfold spec. intros H. eapply wp_mono; [exact H|]. by intros o w' [Ho _]. Qed.

(** Reading a specification off a run. *)
Lemma spec_run {A} ok S (P : A → Net → Prop) m w o w' :
  m w = (o, w') → spec ok S P m w →
  done_or_same (S (view w')) (λ a, P a (view w')) o ∧
  (ok → healthy w → (∃ a, o = Ok a) ∧ healthy w').
Proof. intros Hm Hs. unfold spec, wp in Hs. by rewrite Hm in Hs. Qed.
End spec.

(** ** Runs on a working host

    [hspec P m w]: on a healthy host [m] returns with [P] and leaves the host
    healthy. *)
Section hspec.
Context {W : Type} `{!HostOps W, !HostLaws W, !HostReliable W}.
Implicit Types w : W.

Definition hspec {A} (P : A → Net → Prop) (m : M W A) (w : W) : Prop :=
  healthy w → wp m (λ o w', ∃ a, o = Ok a ∧ P a (view w') ∧ healthy w') w.

Lemma hspec_spec {A} (ok : Prop) S (P : A → Net → Prop) m w : spec ok S P m w → ok → hspec P m w.
Proof.
  unfold spec. intros Hs Hok Hh. eapply wp_mono; [exact Hs|]. intros o w' [Ho Hr].
  destruct (Hr Hok Hh) as [[a ->] ?]. eauto.
Qed.

(** A frame known from the laws, a result known from reliability. *)
Lemma hspec_and {A} (P Q : A → Net → Prop) S ok m w :
  spec ok S Q m w → hspec P m w → hspec (λ a n, Q a n ∧ P a n) m w.
Proof.
  unfold spec. intros Hs Hp Hh. eapply wp_mono; [apply (wp_and _ _ _ _ Hs (Hp Hh))|].
  intros o w' [[Ho _] (a & -> & Ha & Hh')]. exists a. done.
Qed.

Lemma hspec_mono {A} (P P' : A → Net → Prop) m w :
  hspec P m w → (∀ a n, P a n → P' a n) → hspec P' m w.
Proof. intros Hm HP Hh. eapply wp_mono; [by apply Hm|]. intros o w' (a & ? & ? & ?). eauto. Qed.

Lemma hspec_ret {A} (P : A → Net → Prop) a w : P a (view w) → hspec P (mret a) w.
Proof. intros HP Hh. apply wp_ret. eauto. Qed.

Lemma hspec_bind {A B} (P : A → Net → Prop) (Q : B → Net → Prop) m k w :
  hspec P m w → (∀ a w', P a (view w') → hspec Q (k a) w') → hspec Q (m ≫= k) w.
Proof.
  intros Hm Hk Hh. apply wp_bind. eapply wp_mono; [by apply Hm|].
  intros o w' (a & -> & Ha & Hh'). by apply Hk.
Qed.

Lemma hspec_wrapping {A} (P : A → Net → Prop) msg m w : hspec P m w → hspec P (wrapping msg m) w.
Proof.
  intros Hm Hh. apply wp_wrapping. eapply wp_mono; [by apply Hm|]. intros o w' (a & -> & ?). eauto.
Qed.

(** From a law and the reliability of a call without result. *)
Lemma hspec_update (P : Net → Prop) (m : M W unit) w S :
  wp m (λ o w', done_or_same (S w') (λ _, P (view w')) o) w →
  (healthy w → wp m (λ o w', o = Ok tt ∧ healthy w') w) → hspec (λ _, P) m w.
Proof.
  intros Hl Hr Hh. eapply wp_mono; [apply (wp_and _ _ _ _ Hl (Hr Hh))|].
  intros o w' [Ho [-> Hh']]. exists tt. done.
Qed.

Lemma hspec_attempt {A} (P : A → Net → Prop) m w :
  hspec P m w → hspec (λ r n', ∃ a, r = inl a ∧ P a n') (attempt m) w.
Proof.
  intros Hm Hh. apply wp_attempt. eapply wp_mono; [by apply Hm|]. intros o w' (a & -> & ? & ?). eauto 6.
Qed.

(** A loop whose body keeps an invariant on the elements visited. *)
Lemma hspec_for_each {A} (J : list A → Net → Prop) (f : A → M W unit) l w : J [] (view w) →
  (∀ pre x post w', l = pre ++ x :: post → J pre (view w') → hspec (λ _, J (pre ++ [x])) (f x) w') →
  hspec (λ _, J l) (for_each f l) w.
Proof.
  intros HJ Hf. enough (∀ post pre w, l = pre ++ post → J pre (view w) → hspec (λ _, J l) (for_each f post) w) as H by by eapply (H l []).
  clear HJ w. induction post as [|x post IH]; intros pre w Hl HJ; simpl.
  - apply hspec_ret. by rewrite Hl, app_nil_r.
  - eapply hspec_bind; [by eapply Hf|]. intros [] w' HJ'. apply (IH (pre ++ [x])); [by rewrite <-app_assoc|done].
Qed.

Lemma hspec_lookup k w :
  hspec (λ r n', n' = view w ∧
    match links (view w) !! k with
    | Some l => r = inl l ∧ Name l = k
    | None => ∃ e, r = inr e ∧ is_link_not_found e = true
    end) (attempt (LinkByName k)) w.
Proof.
  intros Hh. apply wp_attempt.
  eapply wp_mono; [apply (wp_and _ _ _ _ (law_LinkByName k w) (rel_LinkByName k w Hh))|].
  intros o w' [[Hv Ho] [Hr Hh']]. destruct (links (view w) !! k) as [l|].
  - subst o. exists (inl l). by destruct Ho.
  - destruct Hr as (e & -> & He). exists (inr e). split; [done|]. split; [|done]. split; [done|]. by exists e.
Qed.

Lemma hspec_LinkByName k l w : links (view w) !! k = Some l →
  hspec (λ l' n', l' = l ∧ n' = view w) (LinkByName k) w.
Proof.
  intros Hl Hh.
  eapply wp_mono; [apply (wp_and _ _ _ _ (law_LinkByName k w) (rel_LinkByName k w Hh))|].
  intros o w' [[Hv Ho] [Hr Hh']]. rewrite Hl in Hr. subst o. eauto.
Qed.

Lemma hspec_LinkAdd l w : links (view w) !! Name l = None → ifname_ok (Name l) →
  hspec (λ _ n', ∃ idx fb, fallback_only (view w) fb ∧ fresh_index (set_links (links (view w) ∪ fb) (view w)) idx ∧
      n' = set_links (<[Name l := new_link idx l]> (links (view w) ∪ fb)) (view w)) (LinkAdd l) w.
Proof.
  intros Hno Hn Hh.
  eapply wp_mono; [apply (wp_and _ _ _ _ (law_LinkAdd l w) (rel_LinkAdd l w Hh Hno Hn))|].
  intros o w' [(fb & Hfb & Ho) [-> Hh']]. exists tt. simpl in Ho. destruct Ho as (_ & idx & ? & ?). eauto 10.
Qed.
End hspec.

(** ** Computations whose errors are foreign *)
Definition foreign_op {W A} (m : M W A) : Prop := ∀ w, wp m (λ o _, foreign o) w.

Lemma foreign_ret {W A} (a : A) : foreign_op (mret a : M W A).
Proof. done. Qed.
Lemma foreign_bind {W A B} (m : M W A) (k : A → M W B) :
  foreign_op m → (∀ a, foreign_op (k a)) → foreign_op (m ≫= k).
Proof.
  intros Hm Hk w. apply wp_bind. eapply wp_mono; [apply Hm|]. intros [a|e|s] w' H; simpl; [apply Hk|done..].
Qed.
Lemma foreign_wrapping {W A} msg (m : M W A) : foreign_op m → foreign_op (wrapping msg m).
Proof. intros Hm w. apply wp_wrapping. eapply wp_mono; [apply Hm|]. by intros [a|e|s] w' H. Qed.
Lemma foreign_attempt {W A} (m : M W A) : foreign_op (attempt m).
Proof. intros w. apply wp_attempt. unfold wp. by destruct (m w).1. Qed.
Lemma foreign_if {W A} (b : bool) (m1 m2 : M W A) :
  foreign_op m1 → foreign_op m2 → foreign_op (if b then m1 else m2).
Proof. by destruct b. Qed.
#[export] Hint Resolve foreign_ret foreign_bind foreign_wrapping foreign_attempt foreign_if : s2p.

Section foreign_calls.
#[local] Set Default Proof Using "Type*".
Context {W : Type} `{!HostOps W, !HostLaws W}.
Lemma call_LinkByName n : foreign_op (LinkByName n : M W Link).
Proof. exact (foreign_LinkByName n). Qed.
Lemma call_LinkAdd l : foreign_op (LinkAdd l : M W unit).
Proof. exact (foreign_LinkAdd l). Qed.
Lemma call_LinkDel l : foreign_op (LinkDel l : M W unit).
Proof. exact (foreign_LinkDel l). Qed.
Lemma call_LinkSetUp l : foreign_op (LinkSetUp l : M W unit).
Proof. exact (foreign_LinkSetUp l). Qed.
Lemma call_LinkSetName l to : foreign_op (LinkSetName l to : M W unit).
Proof. exact (foreign_LinkSetName l to). Qed.
End foreign_calls.
#[export] Hint Resolve call_LinkByName call_LinkAdd call_LinkDel call_LinkSetUp call_LinkSetName : s2p.
