(* ===== verification/Kernel.v ===== *)
(** * An executable host

    One instance of the host interface: the abstract network state itself, with
    a script of faults ([true]: the next call fails) and link indices handed out
    in order.  It discharges the laws of [Netlink.v] and runs the witnesses. *)
From S2P Require Import Prelude GoStrings GoNet Netlink.

Record host := mkHost { h_net : Net; h_faults : list bool; h_next : Z }.

Definition with_net (n : Net) (h : host) : host := mkHost n (h_faults h) (h_next h).

Definition empty_net : Net :=
  mkNet ∅ (mkPF [] []) (mkPF [] []) (mkPF ∅ ∅) [] ∅ (mkPF false false).
Definition host_with (faults : list bool) (n : Net) : host := mkHost n faults 10.
Definition empty_host : host := host_with [] empty_net.

Definition einval : error := ErrExternal "invalid argument".

Definition guarded {A} (op : M host A) : M host A := λ h,
  match h_faults h with
  | true :: fs => (Err einval, mkHost (h_net h) fs (h_next h))
  | false :: fs => op (mkHost (h_net h) fs (h_next h))
  | [] => op h
  end.

(** A total update of the state, and one that needs its condition. *)
Definition change (g : Net → Net) : M host unit := λ h, (Ok tt, with_net (g (h_net h)) h).
Definition change_if (c : Net → bool) (g : Net → Net) : M host unit :=
  guarded (λ h, if c (h_net h) then change g h else (Err einval, h)).
Definition query {A} (q : Net → outcome A) : M host A := guarded (λ h, (q (h_net h), h)).

(** The largest link index in use. *)
Definition used_indices (n : Net) : list Z :=
  ((λ nl, Index nl.2) <$> map_to_list (links n)) ++ (kt_LinkIndex <$> pf4 (routes n)) ++ (kt_LinkIndex <$> pf6 (routes n)).
Definition max_index (n : Net) : Z := foldr Z.max 0 (used_indices n).

(** Adding a tunnel loads its module. *)
Definition fallback_for (k : link_kind) (idx : Z) : gmap string Link :=
  match k with
  | Iptun _ => {[ "tunl0" := mkLink "tunl0" idx false (OtherLink "ipip") ]}
  | Ip6tnl _ => {[ "ip6tnl0" := mkLink "ip6tnl0" idx false (OtherLink "ip6tnl") ]}
  | _ => ∅
  end.
Definition fallback (n : Net) (k : link_kind) : gmap string Link :=
  filter (λ nl, Forall (λ ml, Kind ml.2 ≠ Kind nl.2) (map_to_list (links n))) (fallback_for k (max_index n + 1)).

Definition host_LinkByName (n : string) : M host Link := query (λ net,
  match links net !! n with
  | Some l => if bool_decide (Name l = n) then Ok l else Err einval
  | None => Err (LinkNotFoundError n)
  end).
Definition host_LinkAdd (l : Link) : M host unit := guarded (λ h,
  match links (h_net h) !! Name l with
  | Some _ => (Err (ErrExternal "file exists"), h)
  | None =>
      let ls := links (h_net h) ∪ fallback (h_net h) (Kind l) in
      let idx := Z.max (h_next h) (max_index (set_links ls (h_net h)) + 1) in
      (Ok tt, mkHost (set_links (<[Name l := new_link idx l]> ls) (h_net h)) (h_faults h) (idx + 1))
  end).

(** Listing turns canonical records back into library values; a state the
    library could not represent is an error. *)
Definition bits_of (ip : IP) : Z := if bool_decide (length ip = 4%nat) then 32 else 128.
Definition list_dst (d : option (IP * Z)) : option IPNet :=
  (λ '(ip, n), mkIPNet ip (CIDRMask n (bits_of ip))) <$> d.
Definition list_rule (f : family) (k : krule) : Rule :=
  mkRule f (kr_Table k) (kr_Priority k) (list_dst (kr_Dst k)) (kr_Iif k).
Definition list_route (k : kroute) : Route :=
  mkRoute (list_dst (kt_Dst k)) (kt_LinkIndex k) (kt_Table k) (kt_Protocol k).
Definition dst_fits (f : family) (d : option (IP * Z)) : Prop :=
  canon_dst (list_dst d) = d ∧
  match d with
  | Some (ip, k) => net_family (mkIPNet ip []) = f ∧ ip_len ip
  | None => True
  end.
Global Instance dst_fits_dec f d : Decision (dst_fits f d).
Proof. unfold dst_fits. destruct d as [[ip k]|]; apply _. Defined.

Definition host_RuleList (f : family) : M host (list Rule) := query (λ net,
  if bool_decide (Forall (λ k, dst_fits f (kr_Dst k)) (pf_get f (rules net)))
  then Ok (list_rule f <$> pf_get f (rules net)) else Err einval).
Definition host_RouteList (f : family) (t : Z) : M host (list Route) := query (λ net,
  if bool_decide (Forall (λ k, dst_fits f (kt_Dst k)) (pf_get f (routes net)))
  then Ok (list_route <$> filter (λ k, kt_Table k = t) (pf_get f (routes net))) else Err einval).

Definition host_RuleAdd (r : Rule) : M host unit :=
  change_if (λ net, bool_decide (Forall (λ k, kr_Priority k ≠ r_Priority r) (pf_get (r_Family r) (rules net))
                      ∧ dst_fits (r_Family r) (canon_dst (r_Dst r))))
    (λ net, set_rules (r_Family r) (rule_insert (canon_rule r) (pf_get (r_Family r) (rules net))) net).
Definition host_RuleDel (r : Rule) : M host unit := guarded (λ h,
  match r_Dst r, remove_match (rule_matches (canon_rule r)) (pf_get (r_Family r) (rules (h_net h))) with
  | Some _, Some l => change (set_rules (r_Family r) l) h
  | _, _ => (Err (ErrExternal "no such file or directory"), h)
  end).
Definition host_RouteAdd (r : Route) : M host unit :=
  match rt_Dst r with
  | None => throw einval
  | Some n =>
      change_if (λ net, bool_decide (Forall (λ k, kt_Table k = rt_Table r → kt_Dst k ≠ canon_dst (Some n))
                                       (pf_get (net_family n) (routes net))
                          ∧ dst_fits (net_family n) (canon_dst (Some n))))
        (λ net, set_routes (net_family n) (pf_get (net_family n) (routes net) ++ [canon_route r]) net)
  end.
Definition host_RouteDel (r : Route) : M host unit := guarded (λ h,
  match rt_Dst r with
  | None => (Err einval, h)
  | Some n =>
      match remove_match (λ k, bool_decide (canon_route r = k)) (pf_get (net_family n) (routes (h_net h))) with
      | Some l => change (set_routes (net_family n) l) h
      | None => (Err (ErrExternal "no such process"), h)
      end
  end).
Definition host_link_op (l : Link) (c : Net → bool) (g : Net → Net) : M host unit :=
  change_if (λ net, bool_decide (links net !! Name l = Some l) && c net) g.
Definition always (_ : Net) : bool := true.

Global Instance host_ops : HostOps host := {|
  LinkByName := host_LinkByName;
  LinkAdd := host_LinkAdd;
  LinkDel l := host_link_op l always (del_link (Name l));
  LinkSetUp l := host_link_op l always (λ net, set_links (<[Name l := link_up l]> (links net)) net);
  LinkSetName l to := host_link_op l (λ net, bool_decide (links net !! to = None))
    (λ net, set_links (<[to := link_named to l]> (delete (Name l) (links net))) net);
  RuleList := host_RuleList;
  RuleAdd := host_RuleAdd;
  RuleDel := host_RuleDel;
  RouteListFiltered := host_RouteList;
  RouteAdd := host_RouteAdd;
  RouteDel := host_RouteDel;
  FouAdd f := change_if (λ net, bool_decide (fou_key f ∉ fou_key <$> fous net))
    (λ net, set_fous (fous net ++ [f]) net);
  exec_modprobe m := change_if always id;
  Sysctl k v := change_if always (set_sysctl k v);
  EnableIPForward f := change_if always (set_forwarding f);
  iptables_New f := change_if always id;
  iptables_Insert f t c pos spec :=
    change_if always (λ net, set_chain f (t, c) (spec :: chain_of f (t, c) net) net);
  iptables_Append f t c spec :=
    change_if always (λ net, set_chain f (t, c) (chain_of f (t, c) net ++ [spec]) net);
  NewIPNet ip := mkIPNet ip (if bool_decide (To4 ip = []) then CIDRMask 128 128 else CIDRMask 32 32);
|}.

(** ** The laws hold *)
Lemma wp_guarded {A} (op : M host A) Q h :
  (∀ h', h_net h' = h_net h → Q (Err einval) h') →
  (∀ h', h_net h' = h_net h → wp op Q h') →
  wp (guarded op) Q h.
Proof.
  unfold wp, guarded. intros He Ho. destruct (h_faults h) as [|[] fs] eqn:E; simpl; auto.
Qed.

Lemma wp_query {A} (q : Net → outcome A) (Q : outcome A → host → Prop) h :
  (∀ h', h_net h' = h_net h → Q (Err einval) h') →
  (∀ h', h_net h' = h_net h → Q (q (h_net h)) h') →
  wp (query q) Q h.
Proof.
  intros He Hq. apply wp_guarded; [done|]. intros h' Hh. unfold wp. simpl. rewrite Hh. auto.
Qed.

Lemma wp_change_if c g (Q : outcome unit → host → Prop) h :
  (∀ h', h_net h' = h_net h → Q (Err einval) h') →
  (∀ h', c (h_net h) = true → h_net h' = g (h_net h) → Q (Ok tt) h') →
  wp (change_if c g) Q h.
Proof.
  intros He Hg. apply wp_guarded; [done|]. intros h' Hh. unfold wp. rewrite Hh.
  destruct (c (h_net h)) eqn:E; simpl; [|by auto]. apply Hg; [done|]. simpl. by rewrite Hh.
Qed.

Lemma fresh_max n i : max_index n < i → fresh_index n i.
Proof.
  intros Hi. assert (Hall : ∀ j, j ∈ used_indices n → j < i).
  { unfold max_index in Hi. intros j. induction (used_indices n) as [|x l IH]; simpl in *; [by intros ?%elem_of_nil|].
    intros [->|Hj]%elem_of_cons; [lia|]. apply IH; [lia|done]. }
  unfold used_indices in Hall. split.
  - intros k l Hl. enough (Index l < i) by lia. apply Hall. rewrite !elem_of_app. left.
    apply list_elem_of_fmap. exists (k, l). split; [done|]. by apply elem_of_map_to_list.
  - intros f. apply Forall_forall. intros r Hr. enough (kt_LinkIndex r < i) by lia. apply Hall. rewrite !elem_of_app. right.
    destruct f; [left|right]; apply list_elem_of_fmap; eauto.
Qed.

Lemma fallback_is_fallback n k : fallback_only n (fallback n k).
Proof.
  split.
  - intros m l [Hl Hno]%map_lookup_filter_Some. unfold fallback_devices.
    assert (Index l = max_index n + 1 ∧ ∃ d, (m, d) ∈ fallback_devices ∧ Kind l = OtherLink d ∧ Name l = m) as (Hi & d & H1 & H2 & H3).
    { destruct k; simpl in Hl; try (by rewrite lookup_empty in Hl);
        apply lookup_singleton_Some in Hl as [<- <-]; (split; [done|]);
        [exists "ipip"|exists "ip6tnl"]; (split; [|done]); [by left|by right; left]. }
    exists d. split_and!; [done..| |apply fresh_max; lia]. intros m' l' Hm Heq.
    rewrite Forall_forall in Hno. apply (Hno (m', l')); [by apply elem_of_map_to_list|].
    simpl. congruence.
  - intros k1 k2 l1 l2 [H1 _]%map_lookup_filter_Some [H2 _]%map_lookup_filter_Some _.
    destruct k; simpl in *; try (by rewrite lookup_empty in H1);
      apply lookup_singleton_Some in H1 as [<- _]; by apply lookup_singleton_Some in H2 as [<- _].
Qed.

Lemma fallback_only_empty n : fallback_only n ∅.
Proof. split; [intros k l Hl; by rewrite lookup_empty in Hl|]. intros k k' l l' Hl. by rewrite lookup_empty in Hl. Qed.

Lemma set_links_empty net : set_links (links net ∪ ∅) net = net.
Proof. rewrite map_union_empty. apply set_links_id. Qed.

Lemma canon_list_rule f k : dst_fits f (kr_Dst k) → canon_rule (list_rule f k) = k.
Proof. intros [H _]. unfold canon_rule, list_rule. simpl. rewrite H. by destruct k. Qed.
Lemma canon_list_route f k : dst_fits f (kt_Dst k) → canon_route (list_route k) = k.
Proof. intros [H _]. unfold canon_route, list_route. simpl. rewrite H. by destruct k. Qed.

Lemma canon_list_rules f l :
  Forall (λ k, dst_fits f (kr_Dst k)) l → canon_rule <$> (list_rule f <$> l) = l.
Proof.
  induction 1 as [|k l Hk _ IH]; [done|]. simpl. f_equal; [by apply (canon_list_rule f)|done].
Qed.

Lemma canon_list_routes f l :
  Forall (λ k, dst_fits f (kt_Dst k)) l →
  canon_route <$> (list_route <$> l) = l ∧
  Forall (λ r, dst_listed f (rt_Dst r)) (list_route <$> l).
Proof.
  induction 1 as [|k l Hk _ [IH1 IH2]]; [done|]. simpl. split.
  - f_equal; [by apply (canon_list_route f)|done].
  - constructor; [|done]. unfold list_route. cbn [rt_Dst]. destruct Hk as [Hc Hk].
    destruct (kt_Dst k) as [[ip n]|]; [|done]. destruct Hk as [Hf Hip].
    split; [done|]. split; [done|]. revert Hc. unfold list_dst, dst_listed, canon_dst. simpl.
    by destruct (Z.eqb_spec (Mask_Size (CIDRMask n (bits_of ip))).1 0).
Qed.

Lemma Forall_filter {A} (P Q : A → Prop) `{∀ x, Decision (Q x)} l :
  Forall P l → Forall P (filter Q l).
Proof. induction 1; [done|]. rewrite filter_cons. case_decide; auto. Qed.

Ltac host_change :=
  apply wp_change_if;
  [ simpl; intros h' ->; simpl; try done
  | simpl; let Hc := fresh "Hc" in intros h' Hc ->; simpl; try done;
    try (apply andb_true_iff in Hc as [_ Hc]; apply bool_decide_eq_true in Hc) ].

Global Program Instance host_laws : HostLaws host := {| view := h_net |}.
Next Obligation.
  intros n h. apply wp_query; [done|]. intros h' ->. split; [done|].
  destruct (links (h_net h) !! n) as [l|] eqn:Hl; [|done]. by case_bool_decide.
Qed.
Next Obligation.
  intros l h. apply wp_guarded.
  - intros h' ->. exists ∅. rewrite set_links_empty. split; [apply fallback_only_empty|done].
  - intros h' Hh. unfold wp. rewrite Hh. destruct (links (h_net h) !! Name l) eqn:Hl; simpl.
    + exists ∅. rewrite set_links_empty. split; [apply fallback_only_empty|done].
    + exists (fallback (h_net h) (Kind l)). split; [apply fallback_is_fallback|]. split; [done|].
      eexists. split; [|done]. apply fresh_max. lia.
Qed.
Next Obligation. intros l h _. host_change. Qed.
Next Obligation. intros l h _. host_change. Qed.
Next Obligation. intros l to h _. host_change. by split. Qed.
Next Obligation.
  intros n h. apply wp_query; [done|]. intros h' _.
  destruct (links (h_net h) !! n) as [l|]; [by case_bool_decide|done].
Qed.
Next Obligation.
  intros l h. apply wp_guarded; [done|]. intros h' _. unfold wp. by destruct (links (h_net h') !! Name l).
Qed.
Next Obligation. intros l h. by apply wp_change_if. Qed.
Next Obligation. intros l h. by apply wp_change_if. Qed.
Next Obligation. intros l to h. by apply wp_change_if. Qed.
Next Obligation.
  intros f h. apply wp_query; [done|]. intros h' ->. split; [done|].
  case_bool_decide as H; simpl; [|done]. split; [by apply canon_list_rules|].
  apply Forall_fmap, Forall_true. done.
Qed.
Next Obligation. intros r h. host_change. Qed.
Next Obligation.
  intros r h. apply wp_guarded; [by intros h' ->|]. intros h' Hh. unfold wp. rewrite Hh.
  destruct (r_Dst r); [|done]. destruct (remove_match _ _) as [l'|] eqn:Hr; [|done].
  exists l'. simpl. rewrite Hh. done.
Qed.
Next Obligation.
  intros f t h. apply wp_query; [done|]. intros h' ->. split; [done|].
  case_bool_decide as H; simpl; [|done]. apply canon_list_routes. by apply Forall_filter.
Qed.
Next Obligation. intros r n h Hn. cbn. unfold host_RouteAdd. rewrite Hn. host_change. Qed.
Next Obligation.
  intros r n h Hn. apply wp_guarded; [by intros h' ->|]. intros h' Hh. unfold wp. rewrite Hn, Hh.
  destruct (remove_match _ _) as [l'|] eqn:Hr; [|done].
  exists l'. simpl. rewrite Hh. done.
Qed.
Next Obligation.
  intros f h. host_change. split; [by apply (bool_decide_eq_true_1 _)|done].
Qed.
Next Obligation.
  intros m h. host_change; exists ∅; rewrite set_links_empty; auto using fallback_only_empty.
Qed.
Next Obligation. intros k v h. host_change. Qed.
Next Obligation. intros f h. host_change. Qed.
Next Obligation. intros f h. host_change. Qed.
Next Obligation. intros f t c spec h. host_change. Qed.
Next Obligation. intros f t c spec h. host_change. Qed.
Next Obligation. done. Qed.

Lemma view_host (h : host) : view h = h_net h.
Proof. done. Qed.

(** ** A host without faults is reliable *)
Definition names_fit (ls : gmap string Link) : Prop := map_Forall (λ n l, Name l = n) ls.
Definition dsts_fit (net : Net) : Prop := ∀ f,
  Forall (λ k, dst_fits f (kr_Dst k)) (pf_get f (rules net)) ∧
  Forall (λ k, dst_fits f (kt_Dst k)) (pf_get f (routes net)).
Definition net_fits (net : Net) : Prop := names_fit (links net) ∧ dsts_fit net.

Lemma names_fit_fallback n k : names_fit (fallback n k).
Proof. intros m l Hl. by destruct (proj1 (fallback_is_fallback n k) m l Hl) as (? & ? & ? & ? & ?). Qed.
Lemma names_fit_union a b : names_fit a → names_fit b → names_fit (a ∪ b).
Proof. intros Ha Hb n l [Hl|[_ Hl]]%lookup_union_Some_raw; auto. Qed.

Lemma dst_fits_canon f d : dst_ok f d → dst_fits f (canon_dst d).
Proof.
  destruct d as [n|]; [|done]. intros [(Hl & Hne & Hm & [k Hk]) Hf].
  assert (canon_dst (Some n) = if k =? 0 then None else Some (canonIP (net_IP n), k)) as ->.
  { unfold canon_dst, Mask_Size. by rewrite Hk. }
  destruct (Z.eqb_spec k 0) as [->|Hk0]; [done|]. unfold dst_fits. simpl.
  pose proof (simpleMaskLength_range _ _ Hk) as Hr. rewrite Hm in Hr.
  assert (Mask_Size (CIDRMask k (bits_of (canonIP (net_IP n)))) = (k, bits_of (canonIP (net_IP n)))) as ->.
  { unfold bits_of. apply Mask_Size_CIDRMask; [case_bool_decide; auto|].
    destruct (length_canonIP _ Hl Hne) as [E|E]; rewrite E in *;
      [rewrite bool_decide_eq_true_2 by done|rewrite bool_decide_eq_false_2 by done]; lia. }
  simpl. destruct (Z.eqb_spec k 0); [done|]. rewrite canonIP_idemp. split; [done|].
  unfold net_family in *. simpl. rewrite To4_canonIP. split; [done|]. right.
  by apply length_canonIP.
Qed.

Lemma Forall_rule_insert P r l : P r → Forall P l → Forall P (rule_insert r l).
Proof. intros Hr. induction 1; simpl; [auto|]. destruct (_ <? _); auto. Qed.

Lemma Forall_remove_match {A} (P : A → Prop) p l l' :
  remove_match p l = Some l' → Forall P l → Forall P l'.
Proof.
  intros (l1&x&l2&->&->&_)%remove_match_Some. rewrite !Forall_app, Forall_cons. tauto.
Qed.

Lemma net_fits_set_rules f l net :
  net_fits net → Forall (λ k, dst_fits f (kr_Dst k)) l → net_fits (set_rules f l net).
Proof. intros [Hn H] Hl. split; [done|]. intros g. specialize (H g). destruct f, g; simpl in *; tauto. Qed.
Lemma net_fits_set_routes f l net :
  net_fits net → Forall (λ k, dst_fits f (kt_Dst k)) l → net_fits (set_routes f l net).
Proof. intros [Hn H] Hl. split; [done|]. intros g. specialize (H g). destruct f, g; simpl in *; tauto. Qed.

Lemma net_fits_flush gone net : net_fits net → net_fits (flush gone net).
Proof. intros [Hn H]. split; [done|]. intros f. destruct (H f). rewrite routes_flush. by split; [destruct f|apply Forall_filter]. Qed.
Lemma net_fits_set_links ls net : net_fits net → names_fit ls → net_fits (set_links ls net).
Proof. by intros [_ H] Hl. Qed.

Definition host_healthy (h : host) : Prop := h_faults h = [] ∧ net_fits (h_net h).

Lemma wp_query_ok {A} (q : Net → outcome A) (Q : outcome A → host → Prop) h :
  host_healthy h → Q (q (h_net h)) h → wp (query q) Q h.
Proof. intros [H _]. unfold wp, query, guarded. by rewrite H. Qed.

Lemma wp_change_if_ok c g (Q : outcome unit → host → Prop) h :
  host_healthy h → c (h_net h) = true →
  (∀ h', h_faults h' = [] → h_net h' = g (h_net h) → Q (Ok tt) h') → wp (change_if c g) Q h.
Proof. intros [H _] Hc HQ. unfold wp, change_if, guarded. rewrite H, Hc. by apply HQ. Qed.

Ltac host_reliable_change :=
  apply wp_change_if_ok; [done|done|];
  let Hf := fresh in let Hn := fresh in
  intros ? Hf Hn; split; [done|]; split; [done|]; rewrite Hn;
  match goal with H : host_healthy _ |- _ => apply H end.

Global Program Instance host_reliable : HostReliable host := {| healthy := host_healthy |}.
Next Obligation.
  intros f h Hh. apply wp_query_ok; [done|]. rewrite bool_decide_eq_true_2; [eauto|]. apply Hh.
Qed.
Next Obligation.
  intros r h Hh Hd Hp. apply wp_change_if_ok; [done| |].
  - apply bool_decide_eq_true. auto using dst_fits_canon.
  - intros h' Hf Hn. split; [done|]. split; [done|]. rewrite Hn.
    apply net_fits_set_rules; [apply Hh|]. apply Forall_rule_insert; [by apply dst_fits_canon|apply Hh].
Qed.
Next Obligation.
  intros r h Hh Hd [l Hl]. unfold wp. simpl. unfold host_RuleDel, guarded. simpl in Hl.
  destruct Hh as [Hf Hfit]. rewrite Hf. destruct (r_Dst r); [|done]. rewrite Hl. split; [done|].
  split; [done|]. simpl. apply net_fits_set_rules; [done|].
  eapply Forall_remove_match; [done|]. apply Hfit.
Qed.
Next Obligation.
  intros f t h Hh. apply wp_query_ok; [done|]. rewrite bool_decide_eq_true_2; [eauto|]. apply Hh.
Qed.
Next Obligation.
  intros r n h Hh Hn Hok _ Hp. cbn. unfold host_RouteAdd. rewrite Hn.
  assert (dst_fits (net_family n) (canon_dst (Some n))) by by apply dst_fits_canon.
  apply wp_change_if_ok; [done| |].
  - apply bool_decide_eq_true. auto.
  - intros h' Hf Hnet. split; [done|]. split; [done|]. rewrite Hnet.
    apply net_fits_set_routes; [apply Hh|]. apply Forall_app. split; [apply Hh|].
    constructor; [|done]. simpl. by rewrite Hn.
Qed.
Next Obligation.
  intros r n h Hh Hn Hin. unfold wp. cbn. unfold host_RouteDel, guarded.
  destruct Hh as [Hf Hfit]. rewrite Hf, Hn.
  apply list_elem_of_split in Hin as (l1&l2&E). simpl in E.
  assert (is_Some (remove_match (λ k, bool_decide (canon_route r = k))
            (pf_get (net_family n) (routes (h_net h))))) as [l Hl].
  { rewrite E. clear. induction l1 as [|x l1 IH]; simpl.
    - by rewrite bool_decide_eq_true_2.
    - case_bool_decide; [done|]. by apply fmap_is_Some. }
  rewrite Hl. split; [done|]. split; [done|]. simpl.
  apply net_fits_set_routes; [done|]. eapply Forall_remove_match; [done|]. apply Hfit.
Qed.
Next Obligation.
  intros n h Hh. apply wp_query_ok; [done|]. simpl. split; [|done].
  destruct (links (h_net h) !! n) as [l|] eqn:Hl; [|by eexists].
  destruct Hh as [_ [Hn _]]. by rewrite bool_decide_eq_true_2 by by apply Hn.
Qed.
Next Obligation.
  intros l h [Hf Hfit] Hl _. unfold wp. simpl in *. unfold host_LinkAdd, guarded. rewrite Hf, Hl.
  split; [done|]. split; [done|]. apply net_fits_set_links; [done|].
  apply map_Forall_insert_2; [done|]. apply names_fit_union; [apply Hfit|apply names_fit_fallback].
Qed.
Next Obligation.
  intros l h Hh Hl. apply wp_change_if_ok; [done|by rewrite bool_decide_eq_true_2|].
  intros h' Hf Hn. split; [done|]. split; [done|]. rewrite Hn.
  unfold del_link. apply net_fits_set_links; [apply net_fits_flush, Hh|]. apply map_Forall_delete, Hh.
Qed.
Next Obligation.
  intros l h Hh Hl. apply wp_change_if_ok; [done|by rewrite bool_decide_eq_true_2|].
  intros h' Hf Hn. split; [done|]. split; [done|]. rewrite Hn.
  apply net_fits_set_links; [apply Hh|]. apply map_Forall_insert_2; [done|apply Hh].
Qed.
Next Obligation.
  intros l to h Hh Hl Hto _. apply wp_change_if_ok; [done|by rewrite !bool_decide_eq_true_2|].
  intros h' Hf Hn. split; [done|]. split; [done|]. rewrite Hn.
  apply net_fits_set_links; [apply Hh|]. apply map_Forall_insert_2; [done|]. apply map_Forall_delete, Hh.
Qed.
Next Obligation.
  intros f h Hh Hf. apply wp_change_if_ok; [done|by apply bool_decide_eq_true|].
  intros h' Hfa Hn. split; [done|]. split; [done|]. rewrite Hn. apply Hh.
Qed.
Next Obligation. intros m h Hh. host_reliable_change. Qed.
Next Obligation. intros k v h Hh. host_reliable_change. Qed.
Next Obligation. intros f h Hh. host_reliable_change. Qed.
Next Obligation. intros f h Hh. host_reliable_change. Qed.
Next Obligation. intros f t c spec h Hh. host_reliable_change. Qed.
Next Obligation. intros f t c spec h Hh. host_reliable_change. Qed.

(** A check for concrete states. *)
Definition host_healthyb (h : host) : bool :=
  bool_decide (h_faults h = []) &&
  forallb (λ nl, bool_decide (Name nl.2 = nl.1)) (map_to_list (links (h_net h))) &&
  forallb (λ f, forallb (λ k, bool_decide (dst_fits f (kr_Dst k))) (pf_get f (rules (h_net h))) &&
                forallb (λ k, bool_decide (dst_fits f (kt_Dst k))) (pf_get f (routes (h_net h)))) [V4; V6].

Lemma forallb_bool_decide {A} (P : A → Prop) `{∀ x, Decision (P x)} l :
  forallb (λ x, bool_decide (P x)) l = true → Forall P l.
Proof.
  rewrite forallb_forall, Forall_forall. intros Hl x Hx. apply (bool_decide_eq_true_1 _), Hl.
  by apply list_elem_of_In.
Qed.

Lemma host_healthyb_ok h : host_healthyb h = true → healthy h.
Proof.
  unfold host_healthyb. rewrite !andb_true_iff. intros [[Hf Hn] Hd].
  split; [by apply (bool_decide_eq_true_1 _)|]. split.
  - apply map_Forall_to_list. apply forallb_bool_decide in Hn.
    eapply Forall_impl; [exact Hn|]. by intros [n l].
  - cbn [forallb] in Hd. rewrite !andb_true_iff in Hd.
    destruct Hd as ([H1%forallb_bool_decide H2%forallb_bool_decide] & [H3%forallb_bool_decide H4%forallb_bool_decide] & _).
    by intros [].
Qed.
