(* ===== verification/Transient.v ===== *)
(** * Failures that pass

    The laws of [Netlink.v] let any call fail at any time, for ever.  Here is the
    stronger assumption under which retrying makes sense: only finitely many more
    calls fail.  A computation is [transient] when it either used up one of those
    failures or did just what it does on the [heal]ed host, where nothing fails.
    The notion is closed under the combinators of [Prelude.v], so it is proved for
    a whole operation from the library calls it makes. *)
From S2P Require Import Prelude GoStrings GoNet Netlink Kernel.

(** ** Worlds with a stock of failures *)
Class Faults (W : Type) := {
  heal : W → W;               (* the same world with no failure to come *)
  failures : W → nat;         (* how many more calls fail *)
  intact : W → Prop;          (* nothing else is wrong with it *)
}.

Section transient.
Context {W : Type} `{!Faults W}.
Implicit Types w : W.

Definition transient {A} (m : M W A) : Prop := ∀ w, intact w →
  intact (m w).2 ∧
  ((failures (m w).2 < failures w)%nat ∨
   failures (m w).2 = failures w ∧ m (heal w) = ((m w).1, heal (m w).2)).

Lemma transient_pure {A} (o : outcome A) : transient (λ w, (o, w)).
Proof. intros w Hw. split; [done|]. by right. Qed.
Lemma transient_ret {A} (a : A) : transient (mret a).
Proof. apply transient_pure. Qed.
Lemma transient_throw {A} e : transient (throw e : M W A).
Proof. apply transient_pure. Qed.
Lemma transient_lift {A} (o : outcome A) : transient (lift_outcome o).
Proof. apply transient_pure. Qed.

Lemma transient_bind {A B} (m : M W A) (k : A → M W B) :
  transient m → (∀ a, transient (k a)) → transient (m ≫= k).
Proof.
  intros Hm Hk w Hw. destruct (Hm w Hw) as [Hi Hc]. unfold mbind, M_bind.
  destruct (m w) as [o w'] eqn:E. simpl in *. destruct o as [a|e|s]; simpl.
  - destruct (Hk a w' Hi) as [Hi' Hc']. split; [done|].
    destruct Hc as [Hc|[Hc Hh]], Hc' as [Hc'|[Hc' Hh']]; [left; lia..|].
    right. split; [lia|]. by rewrite Hh, Hh'.
  - split; [done|]. destruct Hc as [Hc|[Hc ->]]; auto.
  - split; [done|]. destruct Hc as [Hc|[Hc ->]]; auto.
Qed.

(** A wrapper that only looks at the outcome. *)
Lemma transient_map {A B} (m : M W A) (g : outcome A → outcome B) :
  transient m → transient (λ w, let (o, w') := m w in (g o, w')).
Proof.
  intros Hm w Hw. destruct (Hm w Hw) as [Hi Hc]. destruct (m w) as [o w'] eqn:E. simpl in *.
  split; [done|]. destruct Hc as [Hc|[Hc ->]]; auto.
Qed.
Lemma transient_wrapping {A} msg (m : M W A) : transient m → transient (wrapping msg m).
Proof. apply transient_map. Qed.
Lemma transient_attempt {A} (m : M W A) : transient m → transient (attempt m).
Proof.
  intros Hm w Hw. destruct (Hm w Hw) as [Hi Hc]. unfold attempt. destruct (m w) as [[a|e|s] w'] eqn:E; simpl in *;
    (split; [done|]; destruct Hc as [Hc|[Hc ->]]; auto).
Qed.
Lemma transient_if {A} (b : bool) (m1 m2 : M W A) : transient m1 → transient m2 → transient (if b then m1 else m2).
Proof. by destruct b. Qed.
Lemma transient_for_each {A} (f : A → M W unit) l : (∀ x, transient (f x)) → transient (for_each f l).
Proof. intros Hf. induction l as [|x l IH]; simpl; [apply transient_ret|]. apply transient_bind; auto. Qed.

(** No call makes more failures. *)
Lemma transient_failures {A} (m : M W A) w : transient m → intact w →
  intact (m w).2 ∧ (failures (m w).2 ≤ failures w)%nat.
Proof. intros Hm Hw. destruct (Hm w Hw) as [Hi Hc]. split; [done|]. lia. Qed.

Lemma wp_intact {A} (m : M W A) w : transient m → intact w → wp m (λ _ w', intact w') w.
Proof. intros Hm Hw. by destruct (Hm w Hw). Qed.

(** ** Retrying

    controller-runtime puts a request whose reconciliation returned an error back
    into its queue; [n] bounds how often it is taken up again. *)
Fixpoint requeue (n : nat) (m : M W unit) (w : W) : outcome unit * W :=
  match m w, n with
  | (Err _, w'), S n => requeue n m w'
  | r, _ => r
  end.

(** A transient computation that succeeds wherever nothing fails succeeds after at
    most as many retries as there are failures.  [P] is what its own failures
    keep; it has to be enough on the healed world. *)
Lemma requeue_ends (m : M W unit) (P : W → Prop) w : transient m → intact w → P w →
  (∀ w, P w → intact w → (m (heal w)).1 = Ok tt) →
  (∀ w e w', P w → intact w → m w = (Err e, w') → P w') →
  (∀ w s w', P w → intact w → m w ≠ (Panicked s, w')) →
  ∃ w1 w', P w1 ∧ intact w1 ∧ m w1 = (Ok tt, w') ∧ requeue (failures w) m w = (Ok tt, w').
Proof.
  intros Hm Hi HP Hok Herr Hpan.
  remember (failures w) as n eqn:Hn. assert (Hle : (failures w ≤ n)%nat) by lia. clear Hn.
  revert w Hi HP Hle. induction n as [n IH] using lt_wf_ind. intros w Hi HP Hle.
  destruct (Hm w Hi) as [Hi' Hc]. destruct (m w) as [o w'] eqn:E. simpl in *.
  destruct o as [[]|e|s]; [|destruct n as [|n]|by destruct (Hpan w s w' HP Hi)].
  - exists w, w'. split_and!; [done..|]. destruct n; simpl; by rewrite E.
  - exfalso. destruct Hc as [Hc|[_ Hh]]; [lia|]. specialize (Hok w HP Hi). by rewrite Hh in Hok.
  - destruct Hc as [Hc|[_ Hh]]; [|specialize (Hok w HP Hi); by rewrite Hh in Hok].
    destruct (IH n ltac:(lia) w' Hi' (Herr _ _ _ HP Hi E) ltac:(lia)) as (w1 & w2 & ? & ? & ? & Hr).
    exists w1, w2. split_and!; [done..|]. simpl. by rewrite E.
Qed.
End transient.
#[export] Hint Resolve transient_ret transient_throw transient_lift transient_bind transient_wrapping
  transient_attempt transient_if transient_for_each : s2p.

(** ** Hosts whose failures pass *)
Class HostTransient (W : Type) `{!HostOps W, !HostLaws W, !HostReliable W, !Faults W} := {
  view_heal w : view (heal w) = view w;
  healthy_heal w : intact w → healthy (heal w);
  tr_LinkByName n : transient (LinkByName n : M W Link);
  tr_LinkAdd l : transient (LinkAdd l : M W unit);
  tr_LinkDel l : transient (LinkDel l : M W unit);
  tr_LinkSetUp l : transient (LinkSetUp l : M W unit);
  tr_LinkSetName l to : transient (LinkSetName l to : M W unit);
  tr_RuleList f : transient (RuleList f : M W (list Rule));
  tr_RuleAdd r : transient (RuleAdd r : M W unit);
  tr_RuleDel r : transient (RuleDel r : M W unit);
  tr_RouteListFiltered f t : transient (RouteListFiltered f t : M W (list Route));
  tr_RouteAdd r : transient (RouteAdd r : M W unit);
  tr_RouteDel r : transient (RouteDel r : M W unit);
  tr_FouAdd f : transient (FouAdd f : M W unit);
  tr_exec_modprobe m : transient (exec_modprobe m : M W unit);
  tr_Sysctl k v : transient (Sysctl k v : M W unit);
  tr_EnableIPForward f : transient (EnableIPForward f : M W unit);
  tr_iptables_New f : transient (iptables_New f : M W unit);
  tr_iptables_Insert f t c pos s : transient (iptables_Insert f t c pos s : M W unit);
  tr_iptables_Append f t c s : transient (iptables_Append f t c s : M W unit);
}.
#[export] Hint Extern 0 (transient (LinkByName _)) => apply tr_LinkByName : s2p.
#[export] Hint Extern 0 (transient (LinkAdd _)) => apply tr_LinkAdd : s2p.
#[export] Hint Extern 0 (transient (LinkDel _)) => apply tr_LinkDel : s2p.
#[export] Hint Extern 0 (transient (LinkSetUp _)) => apply tr_LinkSetUp : s2p.
#[export] Hint Extern 0 (transient (LinkSetName _ _)) => apply tr_LinkSetName : s2p.
#[export] Hint Extern 0 (transient (RuleList _)) => apply tr_RuleList : s2p.
#[export] Hint Extern 0 (transient (RuleAdd _)) => apply tr_RuleAdd : s2p.
#[export] Hint Extern 0 (transient (RuleDel _)) => apply tr_RuleDel : s2p.
#[export] Hint Extern 0 (transient (RouteListFiltered _ _)) => apply tr_RouteListFiltered : s2p.
#[export] Hint Extern 0 (transient (RouteAdd _)) => apply tr_RouteAdd : s2p.
#[export] Hint Extern 0 (transient (RouteDel _)) => apply tr_RouteDel : s2p.
#[export] Hint Extern 0 (transient (FouAdd _)) => apply tr_FouAdd : s2p.
#[export] Hint Extern 0 (transient (exec_modprobe _)) => apply tr_exec_modprobe : s2p.
#[export] Hint Extern 0 (transient (Sysctl _ _)) => apply tr_Sysctl : s2p.
#[export] Hint Extern 0 (transient (EnableIPForward _)) => apply tr_EnableIPForward : s2p.
#[export] Hint Extern 0 (transient (iptables_New _)) => apply tr_iptables_New : s2p.
#[export] Hint Extern 0 (transient (iptables_Insert _ _ _ _ _)) => apply tr_iptables_Insert : s2p.
#[export] Hint Extern 0 (transient (iptables_Append _ _ _ _)) => apply tr_iptables_Append : s2p.

(** ** The executable host is one *)
#[global] Instance host_faults : Faults host := {|
  heal h := mkHost (h_net h) [] (h_next h);
  failures h := length (filter (λ b, b = true) (h_faults h));
  intact h := net_fits (h_net h) |}.

(** What [guarded] protects: it does not look at the script and keeps the state
    representable. *)
Definition unscripted {A} (op : M host A) : Prop := ∀ h,
  h_faults (op h).2 = h_faults h ∧ op (heal h) = ((op h).1, heal (op h).2) ∧
  (net_fits (h_net h) → net_fits (h_net (op h).2)).

Lemma transient_guarded {A} (op : M host A) : unscripted op → transient (guarded op).
Proof.
  intros Hop [n fs i] Hi. unfold guarded. destruct fs as [|[] fs]; simpl in *.
  - destruct (Hop (mkHost n [] i)) as (Hf & Hh & Hk). split; [by apply Hk|]. right. by rewrite Hf.
  - split; [done|]. left. lia.
  - destruct (Hop (mkHost n fs i)) as (Hf & Hh & Hk). split; [by apply Hk|]. right. by rewrite Hf.
Qed.

Lemma transient_query {A} (q : Net → outcome A) : transient (query q).
Proof. by apply transient_guarded. Qed.

Lemma transient_change_if c g : (∀ n, c n = true → net_fits n → net_fits (g n)) → transient (change_if c g).
Proof. intros Hg. apply transient_guarded. intros h. simpl. destruct (c (h_net h)) eqn:E; split_and!; simpl; auto. Qed.

Lemma transient_link_op l c g :
  (∀ n, links n !! Name l = Some l → net_fits n → net_fits (g n)) → transient (host_link_op l c g).
Proof. intros Hg. apply transient_change_if. intros n [Hl%bool_decide_eq_true _]%andb_true_iff. by apply Hg. Qed.

#[global] Program Instance host_transient : HostTransient host.
Next Obligation. done. Qed.
Next Obligation. by intros h Hh. Qed.
Next Obligation. intros n. apply transient_query. Qed.
Next Obligation.
  intros l. apply transient_guarded. intros h. simpl. destruct (links (h_net h) !! Name l); split_and!; simpl; try done.
  intros Hfit. apply net_fits_set_links; [done|]. apply map_Forall_insert_2; [done|].
  apply names_fit_union; [apply Hfit|apply names_fit_fallback].
Qed.
Next Obligation.
  intros l. apply transient_link_op. intros n _ Hfit. apply net_fits_set_links; [by apply net_fits_flush|].
  apply map_Forall_delete, Hfit.
Qed.
Next Obligation.
  intros l. apply transient_link_op. intros n _ Hfit. apply net_fits_set_links; [done|].
  apply map_Forall_insert_2; [done|apply Hfit].
Qed.
Next Obligation.
  intros l to. apply transient_link_op. intros n _ Hfit. apply net_fits_set_links; [done|].
  apply map_Forall_insert_2; [done|]. apply map_Forall_delete, Hfit.
Qed.
Next Obligation. intros f. apply transient_query. Qed.
Next Obligation.
  intros r. apply transient_change_if. intros n [_ Hd]%bool_decide_eq_true Hfit. apply net_fits_set_rules; [done|].
  apply Forall_rule_insert; [done|apply Hfit].
Qed.
Next Obligation.
  intros r. apply transient_guarded. intros h. simpl. destruct (r_Dst r); [|done].
  destruct (remove_match _ _) as [l|] eqn:E; split_and!; simpl; try done. intros Hfit.
  apply net_fits_set_rules; [done|]. eapply Forall_remove_match; [done|apply Hfit].
Qed.
Next Obligation. intros f t. apply transient_query. Qed.
Next Obligation.
  intros r. simpl. unfold host_RouteAdd. destruct (rt_Dst r) as [d|] eqn:Ed; [|apply transient_throw].
  apply transient_change_if. intros n [_ Hd]%bool_decide_eq_true Hfit. apply net_fits_set_routes; [done|].
  apply Forall_app. split; [apply Hfit|]. constructor; [|done]. simpl. by rewrite Ed.
Qed.
Next Obligation.
  intros r. apply transient_guarded. intros h. simpl. destruct (rt_Dst r); [|done].
  destruct (remove_match _ _) as [l|] eqn:E; split_and!; simpl; try done. intros Hfit.
  apply net_fits_set_routes; [done|]. eapply Forall_remove_match; [done|apply Hfit].
Qed.
Next Obligation. intros f. by apply transient_change_if. Qed.
Next Obligation. intros m. by apply transient_change_if. Qed.
Next Obligation. intros k v. by apply transient_change_if. Qed.
Next Obligation. intros f. by apply transient_change_if. Qed.
Next Obligation. intros f. by apply transient_change_if. Qed.
Next Obligation. intros f t c pos s. by apply transient_change_if. Qed.
Next Obligation. intros f t c s. by apply transient_change_if. Qed.
