(* ===== verification/Frames.v ===== *)
(** * Framing: what an operation on some links leaves alone

    Operations of [pkg/founat] on links come with routes: the kernel drops the
    routes over a link that is deleted.  [frame A n n'] says that only links named
    in [A] changed and that only routes over such links are gone; [quiet A n] that
    there are none of those to begin with. *)
From S2P Require Import Prelude GoStrings GoNet Netlink.

(** ** Frames

    [frame A n n']: only links named in [A] changed, and routes over such links
    went with them; indices stay unique.  [over A n ls gone] says so of the new
    links [ls] and the indices [gone] that were given up. *)
Definition uses (A : gset string) (n : Net) (r : kroute) : Prop :=
  ∃ k l, k ∈ A ∧ links n !! k = Some l ∧ Index l = kt_LinkIndex r.
Record over (A : gset string) (n : Net) (ls : gmap string Link) (gone : gset Z) : Prop := {
  over_routes : ∀ f r, r ∈ pf_get f (routes n) → kt_LinkIndex r ∈ gone → uses A n r;
  over_links : ∀ k l, k ∈ A → ls !! k = Some l →
    (∃ k0 l0, k0 ∈ A ∧ links n !! k0 = Some l0 ∧ Index l0 = Index l) ∨
    ∀ f r, r ∈ pf_get f (routes n) → kt_LinkIndex r = Index l → Index l ∈ gone;
  over_uniq : uniq (links n) → uniq ls }.
Definition frame (A : gset string) (n n' : Net) : Prop :=
  (∃ ls gone, n' = set_links ls (flush gone n) ∧ over A n ls gone) ∧ ∀ k, k ∉ A → links n' !! k = links n !! k.

(** The fallback devices, under the names the kernel gives them. *)
Definition fallback_names : gset string := {["tunl0"; "ip6tnl0"]}.

(** No route went. *)
Lemma frame_intro (A : gset string) ls n : (∀ k, k ∉ A → ls !! k = links n !! k) → over A n ls ∅ → frame A n (set_links ls n).
Proof. intros H Ho. split; [|done]. exists ls, ∅. by rewrite flush_empty. Qed.

Lemma over_same A n ls : (∀ k l, k ∈ A → ls !! k = Some l → ∃ k0 l0, k0 ∈ A ∧ links n !! k0 = Some l0 ∧ Index l0 = Index l) →
  (uniq (links n) → uniq ls) → over A n ls ∅.
Proof. intros H1 H2. split; [set_solver| |done]. intros k l Hk Hl. left. eauto. Qed.

Global Instance frame_refl A : Reflexive (frame A).
Proof.
  intros n. rewrite <-(set_links_id n) at 2. apply frame_intro; [done|]. apply over_same; [|done]. intros k l Hk Hl. by exists k, l.
Qed.
Global Instance frame_trans A : Transitive (frame A).
Proof.
  intros n1 n2 n3 [(l2 & g1 & -> & [R1 L1 U1]) H2] [(l3 & g2 & -> & [R2 L2 U2]) H3]. split.
  - exists l3, (g1 ∪ g2). split; [by rewrite <-flush_flush|].
    assert (Hr : ∀ f r, r ∈ pf_get f (routes n1) → kt_LinkIndex r ∉ g1 → r ∈ pf_get f (routes (set_links l2 (flush g1 n1)))).
    { intros f r Hr Hg. change (routes (set_links l2 (flush g1 n1))) with (routes (flush g1 n1)).
      rewrite routes_flush. by apply list_elem_of_filter. }
    assert (Hidx : ∀ f r k l, r ∈ pf_get f (routes n1) → kt_LinkIndex r ∉ g1 → k ∈ A → l2 !! k = Some l → Index l = kt_LinkIndex r → uses A n1 r).
    { intros f r k l Hin Hg Hk Hl Hi. destruct (L1 k l Hk Hl) as [(k0 & l0 & ? & ? & ?)|Hno]; [exists k0, l0; split_and!; [done..|congruence]|].
      destruct Hg. rewrite <-Hi. by eapply Hno. }
    split; [| |auto].
    + intros f r Hin Hg. destruct (decide (kt_LinkIndex r ∈ g1)) as [?|Hg1]; [eauto|].
      destruct (R2 f r) as (k & l & Hk & Hl & Hi); [auto|set_solver|]. by eapply Hidx.
    + intros k l Hk Hl. destruct (L2 k l Hk Hl) as [(k0 & l0 & Hk0 & Hl0 & Hi)|Hno].
      * destruct (L1 k0 l0 Hk0 Hl0) as [(k1 & l1 & Hk1 & Hl1 & Hi1)|Hno].
        { left. exists k1, l1. split; [exact Hk1|]. split; [exact Hl1|]. exact (eq_trans Hi1 Hi). }
        right. intros f r Hin Hr'. apply elem_of_union_l. rewrite <-Hi. apply (Hno f r Hin). congruence.
      * right. intros f r Hin Hr'. destruct (decide (Index l ∈ g1)) as [?|Hg]; [by apply elem_of_union_l|].
        apply elem_of_union_r, (Hno f r); [|done]. apply Hr; [done|]. by rewrite Hr'.
  - intros k Hk. by rewrite H3, H2.
Qed.
Lemma frame_mono A B n n' : frame A n n' → A ⊆ B → frame B n n'.
Proof.
  intros [(ls & gone & -> & [R L U]) H2] HAB. split; [|intros k Hk; apply H2; set_solver].
  exists ls, gone. split; [done|]. split; [| |done].
  - intros f r Hr Hg. destruct (R f r Hr Hg) as (k & l & ? & ? & ?). exists k, l. split; [set_solver|done].
  - intros k l Hk Hl. destruct (decide (k ∈ A)) as [HkA|HkA].
    + destruct (L k l HkA Hl) as [(k0 & l0 & ? & ? & ?)|?]; [left; exists k0, l0; split; [set_solver|done]|by right].
    + left. simpl in H2. rewrite H2 in Hl by done. by exists k, l.
Qed.

Lemma frame_insert (A : gset string) k l l0 n : k ∈ A → links n !! k = Some l0 → Index l = Index l0 →
  frame A n (set_links (<[k := l]> (links n)) n).
Proof.
  intros Hk Hl0 Hi. apply frame_intro; [intros j Hj; apply lookup_insert_ne; set_solver|]. apply over_same.
  - intros j l' Hj [[<- <-]|[_ Hl']]%lookup_insert_Some; eauto.
  - intros Hu. apply uniq_insert; [done|]. intros k' l' Hne Hl' He. apply Hne. eapply Hu; [done..|congruence].
Qed.
Lemma frame_delete (A : gset string) k n : k ∈ A → frame A n (del_link k n).
Proof.
  intros Hk. split; [|intros j Hj; simpl; apply lookup_delete_ne; set_solver]. eexists _, _. split; [done|]. split.
  - intros f r Hr Hg. destruct (links n !! k) as [l|] eqn:E; [|set_solver]. apply elem_of_singleton in Hg. by exists k, l.
  - intros j l Hj [_ Hl]%lookup_delete_Some. left. eauto.
  - apply uniq_delete.
Qed.
Lemma frame_rename (A : gset string) k to l n : k ∈ A → to ∈ A → links n !! k = Some l →
  frame A n (set_links (<[to := link_named to l]> (delete k (links n))) n).
Proof.
  intros Hk Hto Hl. apply frame_intro; [intros j Hj; rewrite lookup_insert_ne, lookup_delete_ne by set_solver; done|]. apply over_same.
  - intros j l' Hj [[<- <-]|[_ [_ Hl']%lookup_delete_Some]]%lookup_insert_Some; eauto.
  - intros Hu. apply uniq_insert; [by apply uniq_delete|]. intros k' l' Hne [Hk' Hl']%lookup_delete_Some He. apply Hk'. symmetry. eapply Hu; [done..|done].
Qed.

Lemma fallback_only_names n fb k : fallback_only n fb → k ∉ fallback_names → fb !! k = None.
Proof.
  intros [Hfb _] Hk. destruct (fb !! k) as [l|] eqn:Hl; [|done]. destruct (Hfb k l Hl) as (d & Hin & _). destruct Hk.
  unfold fallback_devices in Hin. apply elem_of_cons in Hin as [[= -> ->]|Hin]; [unfold fallback_names; set_solver|].
  apply list_elem_of_singleton in Hin as [= -> ->]. unfold fallback_names. set_solver.
Qed.
Lemma fallback_union_lookup n fb k : fallback_only n fb → k ∉ fallback_names → (links n ∪ fb) !! k = links n !! k.
Proof. intros. apply lookup_union_l. by eapply fallback_only_names. Qed.

(** A link with a fresh index comes in. *)
Lemma frame_fresh A k l n : k ∈ A → links n !! k = None → fresh_index n (Index l) → frame A n (set_links (<[k := l]> (links n)) n).
Proof.
  intros Hk Hno [Hl Hr]. apply frame_intro; [intros j Hj; apply lookup_insert_ne; set_solver|]. split; [set_solver| |].
  - intros j l' Hj [[<- <-]|[_ Hl']]%lookup_insert_Some; [right|left; eauto].
    intros f r Hin Hi. specialize (Hr f). rewrite Forall_forall in Hr. by destruct (Hr r Hin).
  - intros Hu. apply uniq_insert; [done|]. intros k' l' _ Hl'. by eapply Hl.
Qed.

Lemma frame_fallback A fb n : fallback_names ⊆ A → fallback_only n fb → frame A n (set_links (links n ∪ fb) n).
Proof.
  intros HA Hfb. apply frame_intro.
  - intros k Hk. apply (fallback_union_lookup n fb); [done|]. intros Ht. by apply Hk, HA.
  - split; [set_solver| |by apply uniq_union].
    intros k l Hk [Hl|[_ Hl]]%lookup_union_Some_raw; [left; eauto|right]. intros f r Hin Hi.
    destruct (proj1 Hfb _ _ Hl) as (_ & _ & _ & _ & _ & _ & Hr). specialize (Hr f). rewrite Forall_forall in Hr. by destruct (Hr r Hin).
Qed.

(** [LinkAdd]: the module's fallback device and the link itself. *)
Lemma frame_LinkAdd A k l fb n : k ∈ A → fallback_names ⊆ A → fallback_only n fb → k ∉ fallback_names →
  links n !! k = None → fresh_index (set_links (links n ∪ fb) n) (Index l) →
  frame A n (set_links (<[k := l]> (links n ∪ fb)) n).
Proof.
  intros Hk HA Hfb Ht Hno Hidx. rewrite <-(fallback_union_lookup n fb k) in Hno by done. etrans; [by apply (frame_fallback A fb)|]. exact (frame_fresh A k l (set_links (links n ∪ fb) n) Hk Hno Hidx).
Qed.

(** [quiet A n]: link indices are unique and no route leads over a link of [A],
    so that whatever happens to those links no route is lost. *)
Definition quiet (A : gset string) (n : Net) : Prop :=
  uniq (links n) ∧ ∀ f r, r ∈ pf_get f (routes n) → ¬ uses A n r.

Lemma frame_quiet A n n' : frame A n n' → quiet A n → quiet A n' ∧ n' = set_links (links n') n.
Proof.
  intros [(ls & gone & -> & [R L U]) _] [Hu Hq].
  assert (Hgone : ∀ f r, r ∈ pf_get f (routes n) → kt_LinkIndex r ∉ gone) by (intros f r Hr Hg; by eapply Hq, R).
  rewrite (flush_none gone) by (intros f; apply Forall_forall; intros r Hr; by eapply Hgone).
  split; [|done]. split; [by apply U|]. intros f r Hr (k & l & Hk & Hl & Hi). simpl in *.
  destruct (L k l Hk Hl) as [(k0 & l0 & ? & ? & ?)|Hno].
  - apply (Hq f r Hr). exists k0, l0. split; [done|]. split; [done|congruence].
  - apply (Hgone f r Hr). rewrite <-Hi. by apply (Hno f r).
Qed.
Lemma quiet_mono A B n : A ⊆ B → quiet B n → quiet A n.
Proof. intros HAB [Hu Hq]. split; [done|]. intros f r Hr (k & l & Hk & ?). apply (Hq f r Hr). exists k, l. split; [by apply HAB|done]. Qed.
Lemma quiet_absent A k n : links n !! k = None → quiet A n → quiet ({[k]} ∪ A) n.
Proof.
  intros Hno [Hu Hq]. split; [done|]. intros f r Hr (k' & l & [->%elem_of_singleton|Hk]%elem_of_union & Hl & ?); [congruence|].
  apply (Hq f r Hr). by exists k', l.
Qed.
Lemma quiet_ext A n m : links n = links m → routes n = routes m → quiet A n → quiet A m.
Proof. unfold quiet, uses. by intros -> ->. Qed.
