(* ===== verification/Rpdb.v ===== *)
(** * The kernel's routing lookup

    The abstract specification the routing components are measured against: the
    policy-routing lookup of Linux over the canonical rules and routes of [Net].
    The scan goes through the rules in order; a rule that matches selects a table,
    where the longest matching prefix wins; a table without a match lets the scan
    continue. *)
From S2P Require Import Prelude GoStrings GoNet Netlink Kernel.

(** ** The lookup *)
Definition bits_mask (ip : IP) (k : Z) : list Z := mask_bytes (length ip) k.
Definition dst_matches (x : IP) (d : option (IP * Z)) : bool :=
  match d with
  | None => true
  | Some (ip, k) => bool_decide (length ip = length x ∧
                      and_bytes ip (bits_mask ip k) = and_bytes x (bits_mask ip k))
  end.
Definition prefix_len (d : option (IP * Z)) : Z := match d with None => 0 | Some (_, k) => k end.

Fixpoint longest (x : IP) (l : list kroute) : option kroute :=
  match l with
  | [] => None
  | r :: l' =>
      let b := longest x l' in
      if dst_matches x (kt_Dst r) then
        match b with
        | Some r' => if prefix_len (kt_Dst r) <? prefix_len (kt_Dst r') then Some r' else Some r
        | None => Some r
        end
      else b
  end.

Definition in_table (t : Z) (l : list kroute) : list kroute := filter (λ r, kt_Table r = t) l.

(** A packet to [x] that entered over interface [iif] (empty: sent by the host
    itself). *)
Definition iif_matches (iif : string) (k : krule) : bool :=
  bool_decide (kr_Iif k = "" ∨ kr_Iif k = iif).

Fixpoint rpdb (iif : string) (x : IP) (rl : list krule) (rt : list kroute) : option kroute :=
  match rl with
  | [] => None
  | k :: rl' =>
      if iif_matches iif k && dst_matches x (kr_Dst k)
      then match longest x (in_table (kr_Table k) rt) with
           | Some r => Some r
           | None => rpdb iif x rl' rt
           end
      else rpdb iif x rl' rt
  end.

(** ** Lemmas on the lookup *)
Lemma longest_None x l : longest x l = None ↔ ∀ r, r ∈ l → dst_matches x (kt_Dst r) = false.
Proof.
  induction l as [|a l IH]; cbn [longest].
  - split; [|done]. intros _ r Hr. by apply elem_of_nil in Hr.
  - destruct (dst_matches x (kt_Dst a)) eqn:Ha.
    + split.
      * intros H. exfalso. destruct (longest x l); [destruct (_ <? _)|]; done.
      * intros H. by rewrite (H a) in Ha by left.
    + rewrite IH. split; intros H r Hr; [|by apply H; right].
      apply elem_of_cons in Hr as [->|Hr]; auto.
Qed.

Lemma longest_Some x l r : longest x l = Some r →
  r ∈ l ∧ dst_matches x (kt_Dst r) = true ∧
  ∀ r', r' ∈ l → dst_matches x (kt_Dst r') = true → prefix_len (kt_Dst r') ≤ prefix_len (kt_Dst r).
Proof.
  revert r. induction l as [|a l IH]; intros r; simpl; [done|].
  destruct (dst_matches x (kt_Dst a)) eqn:Ha.
  - destruct (longest x l) as [b|] eqn:Hb.
    + destruct (IH b eq_refl) as (Hin & Hm & Hmax).
      destruct (Z.ltb_spec (prefix_len (kt_Dst a)) (prefix_len (kt_Dst b))); intros [= <-].
      * split; [by right|]. split; [done|]. intros r' [->|Hr']%elem_of_cons Hm'; [lia|auto].
      * split; [by left|]. split; [done|]. intros r' [->|Hr']%elem_of_cons Hm'; [lia|].
        specialize (Hmax r' Hr' Hm'). lia.
    + intros [= <-]. split; [by left|]. split; [done|]. intros r' [->|Hr']%elem_of_cons Hm'; [lia|].
      rewrite longest_None in Hb. by rewrite Hb in Hm'.
  - intros Hr. destruct (IH r Hr) as (Hin & Hm & Hmax). split; [by right|]. split; [done|].
    intros r' [->|Hr']%elem_of_cons Hm'; [congruence|auto].
Qed.

Lemma longest_is_Some x l r : r ∈ l → dst_matches x (kt_Dst r) = true → is_Some (longest x l).
Proof.
  intros Hr Hm. destruct (longest x l) as [|] eqn:E; [by eexists|].
  rewrite longest_None in E. by rewrite E in Hm.
Qed.

Lemma iif_matches_any iif k : kr_Iif k = "" → iif_matches iif k = true.
Proof. intros H. apply bool_decide_eq_true. by left. Qed.

Lemma rpdb_app iif x l1 l2 rt :
  rpdb iif x (l1 ++ l2) rt =
  match rpdb iif x l1 rt with Some r => Some r | None => rpdb iif x l2 rt end.
Proof. induction l1 as [|k l1 IH]; [done|]. simpl. rewrite IH. by repeat case_match. Qed.

Lemma in_table_app t l1 l2 : in_table t (l1 ++ l2) = in_table t l1 ++ in_table t l2.
Proof. apply filter_app. Qed.

Lemma rpdb_None iif x rl rt :
  (∀ k, k ∈ rl → iif_matches iif k = true → dst_matches x (kr_Dst k) = true → longest x (in_table (kr_Table k) rt) = None) →
  rpdb iif x rl rt = None.
Proof.
  induction rl as [|k rl IH]; intros H; [done|]. cbn [rpdb].
  rewrite IH by (intros k' Hk'; apply H; by right).
  destruct (_ && _) eqn:E; [|done]. apply andb_true_iff in E as [E1 E2].
  by rewrite (H k) by (try done; by left).
Qed.

(** ** Networks and canonical destinations *)
Lemma net_ok_mask n k : net_ok n → simpleMaskLength (net_Mask n) = Some k →
  bits_mask (canonIP (net_IP n)) k = net_Mask n.
Proof. intros (_ & _ & Hm & _) Hk. unfold bits_mask. rewrite <-Hm. by apply mask_bytes_simple. Qed.

Lemma canonIP_alt ip : canonIP ip = if bool_decide (To4 ip = []) then ip else To4 ip.
Proof. case_bool_decide; [by apply canonIP_v6|by apply canonIP_v4]. Qed.

Lemma Contains_canon n x : net_ok n →
  Contains n x = bool_decide (length (canonIP (net_IP n)) = length (canonIP x) ∧
                   and_bytes (canonIP (net_IP n)) (net_Mask n) = and_bytes (canonIP x) (net_Mask n)).
Proof.
  intros (Hl & Hne & Hm & _). unfold Contains, networkNumberAndMask.
  rewrite <-!canonIP_alt. destruct (length_canonIP _ Hl Hne) as [E|E].
  - rewrite (bool_decide_eq_false_2 (To4 _ = [] ∧ _)).
    2:{ intros [H4 H16]. rewrite canonIP_v6 in E by done. rewrite To4_v4 in H4 by done. by rewrite H4 in E. }
    rewrite (bool_decide_eq_true_2 (length (net_Mask n) = 4%nat)) by congruence.
    rewrite (bool_decide_eq_true_2 (length (canonIP (net_IP n)) = 4%nat)) by done.
    rewrite (bool_decide_and (length (canonIP (net_IP n)) = _)).
    repeat case_bool_decide; simpl; congruence.
  - assert (To4 (net_IP n) = []) as H6.
    { destruct (decide (To4 (net_IP n) = [])) as [|Hn]; [done|]. rewrite canonIP_v4 in E by done.
      destruct (To4_length (net_IP n)); [done|congruence]. }
    rewrite canonIP_v6 in * by done.
    rewrite (bool_decide_eq_false_2 (To4 _ = [] ∧ _)) by naive_solver.
    rewrite (bool_decide_eq_false_2 (length (net_Mask n) = 4%nat)) by (rewrite Hm, E; done).
    rewrite (bool_decide_eq_true_2 (length (net_Mask n) = 16%nat)) by congruence.
    rewrite (bool_decide_eq_false_2 (length (net_IP n) = 4%nat)) by (rewrite E; done).
    rewrite (bool_decide_and (length (net_IP n) = _)).
    repeat case_bool_decide; simpl; congruence.
Qed.

Lemma and_bytes_zero a k : length a = k → and_bytes a (replicate k 0) = replicate k 0.
Proof.
  intros <-. unfold and_bytes. induction a as [|b a IH]; [done|]. simpl. by rewrite Z.land_0_r, IH.
Qed.

Lemma family_length ip : ip_len ip → ip ≠ [] →
  length (canonIP ip) = match net_family (mkIPNet ip []) with V4 => 4%nat | V6 => 16%nat end.
Proof.
  intros Hl Hne. unfold net_family. simpl. case_bool_decide as H.
  - rewrite canonIP_v6 by done. destruct Hl as [Hl|[Hl|Hl]]; [by destruct ip| |done].
    by rewrite To4_v4 in H.
  - rewrite canonIP_v4 by done. by destruct (To4_length ip).
Qed.

(** A canonical destination matches exactly the addresses of its network. *)
Lemma dst_matches_Contains n x : net_ok n → ip_len x → x ≠ [] → net_family (mkIPNet x []) = net_family n →
  dst_matches (canonIP x) (canon_dst (Some n)) = Contains n x.
Proof.
  intros Hn Hx Hxne Hf. rewrite Contains_canon by done. unfold canon_dst.
  destruct Hn as (Hl & Hne & Hm & [k Hk]) eqn:Hn'. clear Hn'.
  assert (Hlen : length (canonIP (net_IP n)) = length (canonIP x)).
  { rewrite !family_length by done. by rewrite Hf. }
  unfold Mask_Size. rewrite Hk. cbn [fst]. destruct (Z.eqb_spec k 0) as [->|Hk0].
  - symmetry. apply bool_decide_eq_true. split; [done|].
    apply mask_bytes_simple in Hk. rewrite mask_bytes_zero in Hk. rewrite <-Hk.
    rewrite !and_bytes_zero; congruence.
  - cbn [dst_matches]. by rewrite (net_ok_mask n k) by done.
Qed.

(** Where a rule is inserted. *)
Lemma rule_insert_split r l : ∃ l1 l2, l = l1 ++ l2 ∧ rule_insert r l = l1 ++ r :: l2 ∧
  Forall (λ k, kr_Priority k ≤ kr_Priority r) l1.
Proof.
  induction l as [|x l (l1 & l2 & -> & IH & Hl1)]; [by exists [], []|]. cbn [rule_insert].
  destruct (Z.ltb_spec (kr_Priority r) (kr_Priority x)).
  - exists [], (x :: l1 ++ l2). done.
  - exists (x :: l1), l2. rewrite IH. split_and!; [done|done|]. constructor; [lia|done].
Qed.
