(* ===== verification/NatClient.v ===== *)
(** * The NAT client ([pkg/founat/client.go])

    The policy routing a client pod needs: rules of priorities 1800-2100 and the
    routing tables 117 (narrow) and 118 (wide). *)
From S2P Require Import Prelude GoStrings GoNet Netlink Kernel.

(** ** Constants *)
Definition ncProtocolID : Z := 30.
Definition ncNarrowTableID : Z := 117.
Definition ncWideTableID : Z := 118.
Definition mainTableID : Z := 254.

Definition ncLinkLocalPrio : Z := 1800.
Definition ncNarrowPrio : Z := 1900.
Definition ncLocalPrioBase : Z := 2000.
Definition ncWidePrio : Z := 2100.

Definition v4PrivateList : list IPNet :=
  [ mkIPNet (To4 (ParseIP "10.0.0.0")) (CIDRMask 8 32);
    mkIPNet (To4 (ParseIP "172.16.0.0")) (CIDRMask 12 32);
    mkIPNet (To4 (ParseIP "192.168.0.0")) (CIDRMask 16 32) ].
Definition v6PrivateList : list IPNet := [ mkIPNet (ParseIP "fc00::") (CIDRMask 7 128) ].
Definition v4LinkLocal : IPNet := mkIPNet (ParseIP "169.254.0.0") (CIDRMask 16 32).
Definition v6LinkLocal : IPNet := mkIPNet (ParseIP "fe80::") (CIDRMask 10 128).

(** ** The client *)
Record natClient := mkNatClient {
  nc_ipv4 : bool; nc_ipv6 : bool; v4priv : list IPNet; v6priv : list IPNet }.

(** [NewNatClient]: addresses of the wrong family panic; custom pod and node
    networks, when given, replace the private networks. *)
Definition split_podNodeNet (l : list IPNet) : list IPNet * list IPNet :=
  foldl (λ acc n, if (Mask_Size (net_Mask n)).2 =? 32
                  then (acc.1 ++ [n], acc.2) else (acc.1, acc.2 ++ [n])) ([], []) l.

Definition NewNatClient (ipv4 ipv6 : IP) (podNodeNet : list IPNet) : outcome natClient :=
  if bool_decide (ipv4 ≠ [] ∧ To4 ipv4 = []) then Panicked "invalid IPv4 address"
  else if bool_decide (ipv6 ≠ [] ∧ To4 ipv6 ≠ []) then Panicked "invalid IPv6 address"
  else
    let '(v4priv, v6priv) :=
      if (0 <? length podNodeNet)%nat then split_podNodeNet podNodeNet
      else (v4PrivateList, v6PrivateList) in
    Ok (mkNatClient (bool_decide (ipv4 ≠ [])) (bool_decide (ipv6 ≠ [])) v4priv v6priv).

Definition newRuleForClient (f : family) (table prio : Z) : Rule :=
  mkRule f table prio None "".
Definition with_Dst (n : IPNet) (r : Rule) : Rule :=
  mkRule (r_Family r) (r_Table r) (r_Priority r) (Some n) (r_IifName r).

Definition defaultGW (f : family) : IPNet :=
  match f with
  | V4 => mkIPNet (ParseIP "0.0.0.0") (CIDRMask 0 32)
  | V6 => mkIPNet (ParseIP "::") (CIDRMask 0 128)
  end.

Section client.
Context {W : Type} `{!HostOps W}.

(** The two deletion loops of [clear]; a nil destination is replaced because
    the library cannot delete without one. *)
Definition clearRule (f : family) (r : Rule) : M W unit :=
  if (r_Priority r <? 1800) || (2100 <? r_Priority r) then mret tt
  else
    let r := match r_Dst r with None => with_Dst (defaultGW f) r | Some _ => r end in
    wrapping "netlink: failed to delete a rule: %+v, %w" (RuleDel r).

Definition clearRoute (f : family) (r : Route) : M W unit :=
  let r := match rt_Dst r with
           | None => mkRoute (Some (defaultGW f)) (rt_LinkIndex r) (rt_Table r) (rt_Protocol r)
           | Some _ => r
           end in
  wrapping "netlink: failed to delete a route in table %d: %+v, %w" (RouteDel r).

Definition clearTable (f : family) (t : Z) : M W unit :=
  l ← wrapping "netlink: route list failed: %w" (RouteListFiltered f t);
  for_each (clearRoute f) l.

Definition clear (f : family) : M W unit :=
  l ← wrapping "netlink: rule list failed: %w" (RuleList f);
  _ ← for_each (clearRule f) l;
  _ ← clearTable f ncNarrowTableID;
  clearTable f ncWideTableID.

(** One half of [Init]; [v] is "v4" or "v6" in the messages. *)
Definition initFamily (f : family) (v : string) (linkLocal : IPNet) (priv : list IPNet) : M W unit :=
  _ ← clear f;
  _ ← wrapping ("netlink: failed to add " +:+ v +:+ " link local rule: %w")
        (RuleAdd (with_Dst linkLocal (newRuleForClient f mainTableID ncLinkLocalPrio)));
  _ ← wrapping ("netlink: failed to add " +:+ v +:+ " narrow rule: %w")
        (RuleAdd (newRuleForClient f ncNarrowTableID ncNarrowPrio));
  _ ← for_each_i (λ i n,
        wrapping ("netlink: failed to add " +:+ IPNet_String n +:+ " to rule: %w")
          (RuleAdd (with_Dst n (newRuleForClient f mainTableID (ncLocalPrioBase + Z.of_nat i))))) 0 priv;
  wrapping ("netlink: failed to add " +:+ v +:+ " wide rule: %w")
    (RuleAdd (newRuleForClient f ncWideTableID ncWidePrio)).

Definition Init (c : natClient) : M W unit :=
  _ ← if nc_ipv4 c then initFamily V4 "v4" v4LinkLocal (v4priv c) else mret tt;
  if nc_ipv6 c then initFamily V6 "v6" v6LinkLocal (v6priv c) else mret tt.

(** [addEgress1]: a subnet whose address lies in a private network goes to the
    narrow table, any other to the wide one; a family the client does not use
    is skipped. *)
Definition addRoute (link : Link) (n : IPNet) (table : Z) : M W unit :=
  wrapping ("netlink: failed to add route to " +:+ IPNet_String n +:+ ": %w")
    (RouteAdd (mkRoute (Some n) (Index link) table ncProtocolID)).

Definition addEgress1 (c : natClient) (link : Link) (n : IPNet) : M W unit :=
  let v4 := negb (bool_decide (To4 (net_IP n) = [])) in
  if v4 && negb (nc_ipv4 c) then mret tt
  else if negb v4 && negb (nc_ipv6 c) then mret tt
  else
    let priv := if v4 then v4priv c else v6priv c in
    if existsb (λ p, Contains p (net_IP n)) priv
    then addRoute link n ncNarrowTableID
    else addRoute link n ncWideTableID.

Definition AddEgress (c : natClient) (link : Link) (subnets : list IPNet) : M W unit :=
  for_each (addEgress1 c link) subnets.
End client.

(** ** What belongs to the client

    The client owns the rules of priorities 1800 to 2100 and the routes of its
    two tables; everything else is foreign. *)
Definition nc_rule (k : krule) : Prop := 1800 ≤ kr_Priority k ≤ 2100.
Definition nc_route (k : kroute) : Prop :=
  kt_Table k = ncNarrowTableID ∨ kt_Table k = ncWideTableID.
Global Instance nc_rule_dec k : Decision (nc_rule k).
Proof. unfold nc_rule. apply _. Defined.
Global Instance nc_route_dec k : Decision (nc_route k).
Proof. unfold nc_route. apply _. Defined.

Definition foreign_rules (l : list krule) : list krule := filter (λ k, ¬ nc_rule k) l.
Definition foreign_routes (l : list kroute) : list kroute := filter (λ k, ¬ nc_route k) l.

(** The kernel lists rules by priority. *)
Definition by_prio (a b : krule) : Prop := kr_Priority a ≤ kr_Priority b.
Definition rules_sorted (f : family) (n : Net) : Prop :=
  StronglySorted by_prio (pf_get f (rules n)).

Lemma StronglySorted_remove_match {A} (R : relation A) p l l' :
  remove_match p l = Some l' → StronglySorted R l → StronglySorted R l'.
Proof.
  intros Hr Hs. revert l' Hr. induction Hs as [|x l Hs IH Hx]; intros l'; simpl; [done|].
  destruct (p x); [by intros [= <-]|]. intros (l0 & Hl0 & ->)%fmap_Some.
  constructor; [by apply IH|]. apply remove_match_Some in Hl0 as (l1&y&l2&->&->&_).
  rewrite Forall_app, Forall_cons in Hx. apply Forall_app. tauto.
Qed.

(** [n'] differs from [n] only in what the client owns in family [f],
    and the rules are still listed by priority. *)
Definition own_change (f : family) (n n' : Net) : Prop :=
  ∃ rl rt, n' = set_routes f rt (set_rules f rl n) ∧
    foreign_rules rl = foreign_rules (pf_get f (rules n)) ∧
    foreign_routes rt = foreign_routes (pf_get f (routes n)) ∧
    (StronglySorted by_prio (pf_get f (rules n)) → StronglySorted by_prio rl).

Global Instance own_change_refl f : Reflexive (own_change f).
Proof.
  intros n. exists (pf_get f (rules n)), (pf_get f (routes n)). split; [|done].
  rewrite set_rules_id. by rewrite set_routes_id.
Qed.

Global Instance own_change_trans f : Transitive (own_change f).
Proof.
  intros n1 n2 n3 (rl&rt&->&H1&H2&H3) (rl'&rt'&->&H4&H5&H6). exists rl', rt'. net_simpl.
  split; [done|]. split; [congruence|]. split; [congruence|auto].
Qed.

(** The state after [clear]: the owned part is empty. *)
Definition cleared (f : family) (n : Net) : Net :=
  set_routes f (foreign_routes (pf_get f (routes n)))
    (set_rules f (foreign_rules (pf_get f (rules n))) n).

Lemma own_change_cleared f n : own_change f n (cleared f n).
Proof.
  eexists _, _. split; [done|]. unfold foreign_rules, foreign_routes. rewrite !filter_idemp.
  split; [done|]. split; [done|]. apply StronglySorted_filter.
Qed.

Lemma cleared_intro f n n' :
  own_change f n n' → filter nc_rule (pf_get f (rules n')) = [] →
  filter nc_route (pf_get f (routes n')) = [] → n' = cleared f n.
Proof.
  intros (rl & rt & -> & Hfr & Hft & _). net_simpl. intros Hr Ht. unfold cleared.
  rewrite <-Hfr, <-Hft. unfold foreign_rules, foreign_routes. by rewrite !filter_none.
Qed.

(** ** [clear] *)
Section clear.
Context {W : Type} `{!HostOps W, !HostLaws W, !HostReliable W}.
Implicit Types (w : W) (f : family).

(** The post-condition of every step of [clear] started in [w0]: [P] on
    success, only owned changes on failure, success on a healthy host. *)
Definition nc_post f w0 w (P : Net → Prop) (r : outcome unit) (w' : W) : Prop :=
  done_or_same (own_change f (view w0) (view w'))
    (λ _, own_change f (view w0) (view w') ∧ P (view w')) r ∧
  (healthy w → r = Ok tt ∧ healthy w').

Lemma canon_workaround f r :
  canon_rule (match r_Dst r with None => with_Dst (defaultGW f) r | Some _ => r end) = canon_rule r.
Proof. destruct r as [? ? ? [n|] ?]; [done|]. by destruct f. Qed.

Lemma canon_workaround_route f r :
  canon_route (match rt_Dst r with
               | None => mkRoute (Some (defaultGW f)) (rt_LinkIndex r) (rt_Table r) (rt_Protocol r)
               | Some _ => r end) = canon_route r.
Proof. destruct r as [[n|] ? ? ?]; [done|]. by destruct f. Qed.

(** One listed rule: in range, it is the first of the owned ones left. *)
Lemma wp_clearRule f r l w :
  r_Family r = f →
  filter nc_rule (pf_get f (rules (view w))) = filter nc_rule (canon_rule r :: l) →
  wp (clearRule f r) (λ o w', done_or_same (view w' = view w)
      (λ _, ∃ rl, view w' = set_rules f rl (view w) ∧ filter nc_rule rl = filter nc_rule l ∧
         foreign_rules rl = foreign_rules (pf_get f (rules (view w))) ∧
         (StronglySorted by_prio (pf_get f (rules (view w))) → StronglySorted by_prio rl)) o ∧
      (healthy w → o = Ok tt ∧ healthy w')) w.
Proof.
  intros Hf Hl. unfold clearRule. rewrite filter_cons in Hl.
  destruct (_ || _) eqn:Hrange.
  - apply wp_ret. split; [|done]. exists (pf_get f (rules (view w))). rewrite set_rules_id.
    rewrite decide_False in Hl; [done|]. unfold nc_rule; simpl.
    apply orb_true_iff in Hrange. lia.
  - apply orb_false_iff in Hrange. apply wp_wrapping.
    rewrite decide_True in Hl by (unfold nc_rule; simpl; lia).
    set (r' := match r_Dst r with None => _ | Some _ => r end).
    assert (canon_rule r' = canon_rule r) as Hc by apply canon_workaround.
    assert (r_Family r' = f) as Hf' by (unfold r'; by destruct (r_Dst r)).
    assert (r_Dst r' ≠ None) as Hd by (unfold r'; destruct (r_Dst r) eqn:E; [by rewrite E|done]).
    destruct (remove_match_filter nc_rule (rule_matches (canon_rule r)) _ _ _ Hl)
      as (rl & Hrm & Hown & Hforeign).
    { apply rule_matches_refl. }
    { intros y Hy%rule_matches_prio. unfold nc_rule. rewrite Hy. simpl. lia. }
    eapply wp_mono; [apply (use_RuleDel r')|]. intros o w' H. rewrite Hf', Hc, Hrm in H.
    destruct H as [Ho Hrel]. rewrite done_or_same_wrap, wrap_err_Ok. split; [|by eauto].
    eapply done_or_same_mono; [done..|]. intros [] (l' & [= <-] & Hv).
    exists rl. eauto using StronglySorted_remove_match.
Qed.

Lemma wp_clear_rules f l w0 w :
  Forall (λ r, r_Family r = f) l → own_change f (view w0) (view w) →
  filter nc_rule (pf_get f (rules (view w))) = filter nc_rule (canon_rule <$> l) →
  wp (for_each (clearRule f) l)
    (nc_post f w0 w (λ n, filter nc_rule (pf_get f (rules n)) = [] ∧
                          pf_get f (routes n) = pf_get f (routes (view w)))) w.
Proof.
  intros Hl. revert w. induction Hl as [|r l Hr _ IH]; intros w Hown Hlist; simpl.
  - apply wp_ret. by split.
  - apply wp_bind. eapply wp_mono; [by apply (wp_clearRule f r (canon_rule <$> l))|].
    intros o w' [Ho Hrel]. destruct o as [a|e|s]; simpl in *; [| |done].
    + destruct Ho as (rl & Hv & Hf1 & Hf2 & Hf3). eapply wp_mono; [apply (IH w')|].
      * etrans; [done|]. exists rl, (pf_get f (routes (view w))). rewrite Hv. net_simpl.
        rewrite <-set_rules_routes, set_routes_id. done.
      * rewrite Hv. by net_simpl.
      * intros o' w'' [Ho' Hrel']. split.
        -- rewrite Hv in Ho'. by net_simpl.
        -- intros Hh. apply Hrel', Hrel, Hh.
    + split; simpl; [by rewrite Ho|]. intros Hh. by destruct (Hrel Hh).
Qed.

(** One listed route of table [t]. *)
Lemma wp_clearRoute f t r l w :
  (∀ n, rt_Dst r = Some n → net_family n = f) →
  filter (λ k, kt_Table k = t) (pf_get f (routes (view w))) = canon_route r :: l →
  wp (clearRoute f r) (λ o w', done_or_same (view w' = view w)
      (λ _, ∃ rt, view w' = set_routes f rt (view w) ∧ filter (λ k, kt_Table k = t) rt = l ∧
         filter (λ k, ¬ kt_Table k = t) rt =
         filter (λ k, ¬ kt_Table k = t) (pf_get f (routes (view w)))) o ∧
      (healthy w → o = Ok tt ∧ healthy w')) w.
Proof.
  intros Hf Hl. unfold clearRoute. apply wp_wrapping.
  set (r' := match rt_Dst r with None => _ | Some _ => r end).
  assert (canon_route r' = canon_route r) as Hc by apply canon_workaround_route.
  assert (∃ n, rt_Dst r' = Some n ∧ net_family n = f) as (n & Hn & Hfam).
  { unfold r'. destruct (rt_Dst r) as [n|] eqn:E; [eauto|].
    exists (defaultGW f). split; [done|]. by destruct f. }
  assert (kt_Table (canon_route r) = t) as Ht.
  { assert (canon_route r ∈ filter (λ k, kt_Table k = t) (pf_get f (routes (view w)))) as Hin
      by (rewrite Hl; left). by apply list_elem_of_filter in Hin as [? _]. }
  destruct (remove_match_filter (λ k, kt_Table k = t) (λ k, bool_decide (canon_route r = k)) _ _ _ Hl)
    as (rt & Hrm & Hown & Hforeign).
  { by apply bool_decide_eq_true. }
  { intros y <-%bool_decide_eq_true. done. }
  eapply wp_mono; [apply (use_RouteDel r' n w Hn)|]. intros o w' H. rewrite Hfam, Hc, Hrm in H.
  destruct H as [Ho Hrel]. rewrite done_or_same_wrap, wrap_err_Ok. split.
  - eapply done_or_same_mono; [done..|]. intros [] (l' & [= <-] & Hv). eauto.
  - intros Hh. apply Hrel; [done|].
    assert (canon_route r ∈ filter (λ k, kt_Table k = t) (pf_get f (routes (view w)))) as Hin
      by (rewrite Hl; left). by apply list_elem_of_filter in Hin as [_ ?].
Qed.

(** What the two halves of [clear] leave alone. *)
Definition table_cleared f t (n n' : Net) : Prop :=
  ∃ rt, n' = set_routes f rt n ∧ filter (λ k, kt_Table k = t) rt = [] ∧
    filter (λ k, ¬ kt_Table k = t) rt = filter (λ k, ¬ kt_Table k = t) (pf_get f (routes n)).

Lemma foreign_routes_other t l l' : t = ncNarrowTableID ∨ t = ncWideTableID →
  filter (λ k, ¬ kt_Table k = t) l = filter (λ k, ¬ kt_Table k = t) l' →
  foreign_routes l = foreign_routes l'.
Proof.
  intros Ht H. unfold foreign_routes.
  assert (Hf : ∀ m : list kroute, filter (λ k, ¬ nc_route k) m =
            filter (λ k, ¬ nc_route k) (filter (λ k, ¬ kt_Table k = t) m)).
  { intros m. rewrite list_filter_filter. apply list_filter_iff.
    intros k. unfold nc_route. intuition congruence. }
  rewrite (Hf l), (Hf l'). by rewrite H.
Qed.

Lemma wp_clear_routes f t l w :
  Forall (λ r, ∀ n, rt_Dst r = Some n → net_family n = f) l →
  filter (λ k, kt_Table k = t) (pf_get f (routes (view w))) = canon_route <$> l →
  wp (for_each (clearRoute f) l) (λ o w',
    (∃ rt, view w' = set_routes f rt (view w) ∧
       filter (λ k, ¬ kt_Table k = t) rt = filter (λ k, ¬ kt_Table k = t) (pf_get f (routes (view w))) ∧
       done_or_same True (λ _, filter (λ k, kt_Table k = t) rt = []) o) ∧
    (healthy w → o = Ok tt ∧ healthy w')) w.
Proof.
  intros Hl. revert w. induction Hl as [|r l Hr _ IH]; intros w Hlist; simpl.
  - apply wp_ret. split; [|done]. exists (pf_get f (routes (view w))).
    by rewrite set_routes_id.
  - apply wp_bind. eapply wp_mono; [by apply (wp_clearRoute f t r (canon_route <$> l))|].
    intros o w' [Ho Hrel]. destruct o as [a|e|s]; simpl in *; [| |done].
    + destruct Ho as (rt & Hv & Hf1 & Hf2).
      eapply wp_mono; [apply (IH w')|]; [rewrite Hv; by net_simpl|].
      intros o' w'' [(rt' & Hv' & Hf' & Ho') Hrel']. split.
      * exists rt'. rewrite Hv', Hv. rewrite Hv in Hf'. net_simpl. split; [done|].
        split; [congruence|done].
      * intros Hh. apply Hrel', Hrel, Hh.
    + split; [|intros Hh; by destruct (Hrel Hh)].
      exists (pf_get f (routes (view w))). rewrite set_routes_id. auto.
Qed.

Lemma wp_clearTable f t w :
  wp (clearTable f t) (λ o w',
    (∃ rt, view w' = set_routes f rt (view w) ∧
       filter (λ k, ¬ kt_Table k = t) rt = filter (λ k, ¬ kt_Table k = t) (pf_get f (routes (view w))) ∧
       done_or_same True (λ _, filter (λ k, kt_Table k = t) rt = []) o) ∧
    (healthy w → o = Ok tt ∧ healthy w')) w.
Proof.
  unfold clearTable. apply wp_bind, wp_wrapping.
  eapply wp_mono; [apply use_RouteListFiltered|]. intros o w' [[Hv Ho] Hrel].
  destruct o as [l|e|s]; simpl in *; [| |done].
  - destruct Ho as [Hl Hfam]. eapply wp_mono; [apply (wp_clear_routes f t l w')|].
    + eapply Forall_impl; [exact Hfam|]. intros r Hr n Hn. simpl in Hr. rewrite Hn in Hr. apply Hr.
    + by rewrite Hv.
    + intros o w'' [H1 H2]. rewrite Hv in H1. split; [done|]. intros Hh. apply H2, Hrel, Hh.
  - split; [|intros Hh; by destruct (Hrel Hh) as [[? ?] _]].
    exists (pf_get f (routes (view w))). by rewrite set_routes_id.
Qed.

(** [clear] removes exactly what the client owns; when it fails it has touched
    nothing else. *)
Lemma wp_clear f w : wp (clear f) (nc_post f w w (λ n, n = cleared f (view w))) w.
Proof.
  unfold clear. apply wp_bind, wp_wrapping.
  eapply wp_mono; [apply use_RuleList|]. intros o w1 [[Hv1 Ho] Hrel1].
  destruct o as [l|e|s]; simpl in *; [| |done].
  2:{ split; [simpl; by rewrite Hv1|]. intros Hh. by destruct (Hrel1 Hh) as [[? ?] _]. }
  destruct Ho as [Hl Hfam]. apply wp_bind.
  eapply wp_mono; [apply (wp_clear_rules f l w w1); [done|by rewrite Hv1|by rewrite Hl, Hv1]|].
  intros o w2 [Ho Hrel2]. destruct o as [[]|e|s]; simpl in *; [| |done].
  2:{ split; [simpl; done|]. intros Hh. by destruct (Hrel2 (proj2 (Hrel1 Hh))). }
  destruct Ho as (Hown2 & Hnone & Hrt2). rewrite Hv1 in Hrt2. apply wp_bind.
  eapply wp_mono; [apply wp_clearTable|]. intros o w3 [(rt3 & Hv3 & Hf3 & Ho) Hrel3].
  assert (own_change f (view w2) (view w3)) as Hown3.
  { exists (pf_get f (rules (view w2))), rt3. rewrite set_rules_id. split; [done|]. split; [done|].
    split; [|done]. eapply foreign_routes_other; [|exact Hf3]. by left. }
  destruct o as [[]|e|s]; simpl in *; [| |done].
  2:{ split; [simpl; by etrans|]. intros Hh. by destruct (Hrel3 (proj2 (Hrel2 (proj2 (Hrel1 Hh))))). }
  eapply wp_mono; [apply wp_clearTable|]. intros o w4 [(rt4 & Hv4 & Hf4 & Ho4) Hrel4].
  rewrite Hv3 in Hf4, Hv4. net_simpl.
  assert (own_change f (view w3) (view w4)) as Hown4.
  { exists (pf_get f (rules (view w3))), rt4. rewrite set_rules_id. rewrite Hv3, Hv4. net_simpl.
    split; [done|]. split; [done|]. split; [|done].
    eapply foreign_routes_other; [|exact Hf4]. by right. }
  assert (own_change f (view w) (view w4)) as Hown by (do 2 (etrans; [done|]); done).
  split; [|intros Hh; apply Hrel4, Hrel3, Hrel2, Hrel1, Hh].
  destruct o as [[]|e|s]; simpl in *; [|done..]. split; [done|].
  apply cleared_intro; [done|by rewrite Hv4|]. rewrite Hv4. net_simpl.
  apply filter_none_intro. intros k Hk [Hnc|Hnc].
  - assert (k ∈ filter (λ k, ¬ kt_Table k = ncWideTableID) rt4) as Hin
      by (apply list_elem_of_filter; split; [by rewrite Hnc|done]).
    rewrite Hf4, list_elem_of_filter in Hin. destruct Hin as [_ Hin].
    by apply (filter_nil_not_elem_of _ _ k Ho Hnc).
  - by apply (filter_nil_not_elem_of _ _ k Ho4 Hnc).
Qed.
End clear.

(** ** [Init]

    The rules of one family after [Init], in the order the kernel scans them. *)
Definition nc_rules (f : family) (ll : IPNet) (priv : list IPNet) : list krule :=
  mkKrule mainTableID ncLinkLocalPrio (canon_dst (Some ll)) ""
  :: mkKrule ncNarrowTableID ncNarrowPrio None ""
  :: imap (λ i n, mkKrule mainTableID (ncLocalPrioBase + Z.of_nat i) (canon_dst (Some n)) "") priv
  ++ [mkKrule ncWideTableID ncWidePrio None ""].

Record installed (f : family) (ll : IPNet) (priv : list IPNet) (n n' : Net) : Prop := {
  ins_own : own_change f n n';
  ins_rules : filter nc_rule (pf_get f (rules n')) = nc_rules f ll priv;
  ins_routes : filter nc_route (pf_get f (routes n')) = [];
  ins_sorted : rules_sorted f n' }.

Lemma rule_insert_foreign r l : nc_rule r → foreign_rules (rule_insert r l) = foreign_rules l.
Proof.
  intros Hr. unfold foreign_rules. induction l as [|x l IH]; cbn [rule_insert].
  - by rewrite filter_cons_False by (intros H; by apply H).
  - destruct (_ <? _).
    + by rewrite filter_cons_False by (intros H; by apply H).
    + by rewrite !filter_cons, IH.
Qed.

Lemma rule_insert_own r l :
  nc_rule r → StronglySorted by_prio l → (∀ k, k ∈ filter nc_rule l → kr_Priority k ≤ kr_Priority r) →
  filter nc_rule (rule_insert r l) = filter nc_rule l ++ [r].
Proof.
  intros Hr. induction 1 as [|x l Hs IH Hx]; intros Hle; cbn [rule_insert].
  - by rewrite filter_cons_True.
  - destruct (Z.ltb_spec (kr_Priority r) (kr_Priority x)) as [Hlt|Hge].
    + assert (filter nc_rule (x :: l) = []) as Hnil.
      { apply filter_none_intro. intros k Hk Hnc.
        assert (kr_Priority x ≤ kr_Priority k) as Hxk.
        { apply elem_of_cons in Hk as [->|Hk]; [done|]. rewrite Forall_forall in Hx. by apply Hx. }
        specialize (Hle k). rewrite list_elem_of_filter in Hle. specialize (Hle (conj Hnc Hk)). lia. }
      rewrite filter_cons_True by done. by rewrite Hnil.
    + rewrite !filter_cons in *. case_decide as Hc; simpl; rewrite IH; try done.
      intros k Hk. apply Hle. by right.
Qed.

Lemma elem_of_rule_insert r l k : k ∈ rule_insert r l ↔ k = r ∨ k ∈ l.
Proof.
  induction l as [|x l IH]; simpl; [set_solver|]. destruct (_ <? _); set_solver.
Qed.

Lemma rule_insert_sorted r l : StronglySorted by_prio l → StronglySorted by_prio (rule_insert r l).
Proof.
  induction 1 as [|x l Hs IH Hx]; cbn [rule_insert]; [by repeat constructor|].
  destruct (Z.ltb_spec (kr_Priority r) (kr_Priority x)) as [Hlt|Hge].
  - constructor; [by constructor|]. constructor; [unfold by_prio; lia|].
    eapply Forall_impl; [exact Hx|]. unfold by_prio. lia.
  - constructor; [done|]. apply Forall_forall. intros k [->|Hk]%elem_of_rule_insert; [done|].
    rewrite Forall_forall in Hx. by apply Hx.
Qed.

(** What the client does per family. *)
Definition nc_uses (c : natClient) (f : family) : bool :=
  match f with V4 => nc_ipv4 c | V6 => nc_ipv6 c end.
Definition nc_priv (c : natClient) (f : family) : list IPNet :=
  match f with V4 => v4priv c | V6 => v6priv c end.
Definition nc_linkLocal (f : family) : IPNet :=
  match f with V4 => v4LinkLocal | V6 => v6LinkLocal end.

(** Everything that is not the client's is as before, the order of the rules
    included. *)
Definition framed (n n' : Net) : Prop :=
  (links n' = links n ∧ chains n' = chains n ∧ fous n' = fous n ∧
   sysctls n' = sysctls n ∧ forwarding n' = forwarding n) ∧
  ∀ f, foreign_rules (pf_get f (rules n')) = foreign_rules (pf_get f (rules n)) ∧
       foreign_routes (pf_get f (routes n')) = foreign_routes (pf_get f (routes n)) ∧
       (rules_sorted f n → rules_sorted f n').

Global Instance framed_refl : Reflexive framed.
Proof. by intros n. Qed.
Global Instance framed_trans : Transitive framed.
Proof.
  intros n1 n2 n3 [E12 F12] [E23 F23]. split; [intuition congruence|].
  intros f. specialize (F12 f). specialize (F23 f). intuition congruence.
Qed.
Lemma framed_own f n n' : own_change f n n' → framed n n'.
Proof.
  intros (rl & rt & -> & Hr & Ht & Hs). split; [done|]. intros g. unfold rules_sorted.
  destruct f, g; simpl; auto.
Qed.

(** What [Init] may change at all: nothing in a family the client does not use. *)
Definition init_frame (c : natClient) (n n' : Net) : Prop :=
  framed n n' ∧ ∀ f, nc_uses c f = false →
    pf_get f (rules n') = pf_get f (rules n) ∧ pf_get f (routes n') = pf_get f (routes n).

(** The result of [Init]: in a family the client uses it owns exactly its rules
    and no route. *)
Definition init_ok (c : natClient) (n n' : Net) : Prop :=
  init_frame c n n' ∧ ∀ f, nc_uses c f = true →
    filter nc_rule (pf_get f (rules n')) = nc_rules f (nc_linkLocal f) (nc_priv c f) ∧
    filter nc_route (pf_get f (routes n')) = [].

Global Instance init_frame_refl c : Reflexive (init_frame c).
Proof. intros n. by split. Qed.
Global Instance init_frame_trans c : Transitive (init_frame c).
Proof.
  intros n1 n2 n3 [F12 U12] [F23 U23]. split; [by etrans|]. intros f Hf.
  destruct (U12 f Hf), (U23 f Hf). split; congruence.
Qed.
Lemma init_frame_own c f n n' : nc_uses c f = true → own_change f n n' → init_frame c n n'.
Proof.
  intros Hu Hown. split; [by eapply framed_own|]. intros g Hg.
  destruct Hown as (rl & rt & -> & _). destruct f, g; simpl in *; by rewrite ?Hu in Hg.
Qed.
Lemma init_ok_frame c n n1 n2 : init_frame c n n1 → init_ok c n1 n2 → init_ok c n n2.
Proof. intros H [F O]. split; [by etrans|done]. Qed.

(** One family of [Init], or none of it. *)
Definition half_ok (c : natClient) (f : family) (n n' : Net) : Prop :=
  if nc_uses c f then installed f (nc_linkLocal f) (nc_priv c f) n n' else n' = n.

Lemma half_ok_frame c f n n' : half_ok c f n n' → init_frame c n n'.
Proof.
  unfold half_ok. destruct (nc_uses c f) eqn:U; [|by intros ->].
  intros H. by eapply init_frame_own, ins_own.
Qed.

Lemma half_ok_other c f g n n' : half_ok c f n n' → f ≠ g →
  pf_get g (rules n') = pf_get g (rules n) ∧ pf_get g (routes n') = pf_get g (routes n).
Proof.
  unfold half_ok. destruct (nc_uses c f) eqn:U; [|by intros ->].
  intros [(rl & rt & -> & _) _ _ _] Hg. by destruct f, g.
Qed.

Lemma init_ok_intro c n n1 n2 : half_ok c V4 n n1 → half_ok c V6 n1 n2 → init_ok c n n2.
Proof.
  intros H1 H2. split; [by etrans; eapply half_ok_frame|]. intros [] Hu.
  - destruct (half_ok_other c V6 V4 n1 n2 H2) as [-> ->]; [done|].
    unfold half_ok in H1. rewrite Hu in H1. split; apply H1.
  - unfold half_ok in H2. rewrite Hu in H2. split; apply H2.
Qed.

Section init.
Context {W : Type} `{!HostOps W, !HostLaws W, !HostReliable W}.
Implicit Types (w : W) (f : family).

Lemma spec_clear f w :
  spec True (own_change f (view w)) (λ _ n, n = cleared f (view w)) (clear f) w.
Proof.
  unfold spec. eapply wp_mono; [apply wp_clear|]. intros o w' [Ho Hr]. split.
  - eapply done_or_same_mono; [exact Ho|done|naive_solver].
  - intros _ Hh. destruct (Hr Hh) as [-> ?]. eauto.
Qed.

(** The state in the middle of [Init]: [ks] are the rules added so far, all of
    priority below [p]. *)
Definition adding f (n : Net) (ks : list krule) (p : Z) (n' : Net) : Prop :=
  own_change f n n' ∧ filter nc_rule (pf_get f (rules n')) = ks ∧
  filter nc_route (pf_get f (routes n')) = [] ∧ rules_sorted f n' ∧
  Forall (λ k, kr_Priority k < p) ks.

Lemma adding_cleared f n p : rules_sorted f n → adding f n [] p (cleared f n).
Proof.
  intros Hs. split; [apply own_change_cleared|]. unfold rules_sorted, cleared. net_simpl.
  repeat split; [| |by apply StronglySorted_filter|done];
    apply filter_none_intro; intros k [Hk _]%list_elem_of_filter; done.
Qed.

Lemma spec_addRule f n (ok : Prop) msg r ks p w :
  r_Family r = f → nc_rule (canon_rule r) → r_Priority r < p → (ok → dst_ok f (r_Dst r)) →
  adding f n ks (r_Priority r) (view w) →
  spec ok (own_change f n) (λ _, adding f n (ks ++ [canon_rule r]) p)
    (wrapping msg (RuleAdd r)) w.
Proof.
  intros Hf Hnc Hp Hok (Hown & Hks & Hrt & Hs & Hlt). apply spec_wrapping. unfold spec.
  eapply wp_mono; [apply use_RuleAdd|]. intros o w' [Ho Hrel]. rewrite Hf in *. split.
  - eapply done_or_same_mono; [exact Ho|by intros ->|]. intros [] Hv. rewrite Hv.
    unfold adding, rules_sorted in *. net_simpl. repeat split.
    + etrans; [exact Hown|].
      exists (rule_insert (canon_rule r) (pf_get f (rules (view w)))), (pf_get f (routes (view w))).
      rewrite <-set_rules_routes, set_routes_id, rule_insert_foreign by done.
      repeat split; [done..|]. apply rule_insert_sorted.
    + rewrite rule_insert_own, Hks; [done..|]. rewrite Hks. intros k Hk.
      rewrite Forall_forall in Hlt. specialize (Hlt k Hk). simpl. lia.
    + done.
    + by apply rule_insert_sorted.
    + apply Forall_app. split; [|by repeat constructor].
      eapply Forall_impl; [exact Hlt|]. simpl. lia.
  - intros Hd Hh. destruct Hrel as [-> ?]; [done|auto| |eauto].
    apply Forall_forall. intros k Hk Heq.
    assert (nc_rule k) as Hn by (unfold nc_rule in *; simpl in *; lia).
    assert (k ∈ ks) as Hin by (rewrite <-Hks; by apply list_elem_of_filter).
    rewrite Forall_forall in Hlt. specialize (Hlt k Hin). lia.
Qed.

Definition priv_rules (l : list IPNet) : list krule :=
  imap (λ i n, mkKrule mainTableID (ncLocalPrioBase + Z.of_nat i) (canon_dst (Some n)) "") l.

Lemma priv_rules_snoc l n : priv_rules (l ++ [n]) = priv_rules l ++
  [mkKrule mainTableID (ncLocalPrioBase + Z.of_nat (length l)) (canon_dst (Some n)) ""].
Proof. unfold priv_rules. rewrite imap_app. simpl. by rewrite Nat.add_0_r. Qed.

(** The loop over the private networks. *)
Lemma spec_privRules f n ok (msg : IPNet → string) ks priv w :
  (length priv ≤ 100)%nat → (ok → Forall (λ n, dst_ok f (Some n)) priv) →
  adding f n ks ncLocalPrioBase (view w) →
  spec ok (own_change f n) (λ _, adding f n (ks ++ priv_rules priv) ncWidePrio)
    (for_each_i (λ i d, wrapping (msg d)
       (RuleAdd (with_Dst d (newRuleForClient f mainTableID (ncLocalPrioBase + Z.of_nat i))))) 0 priv) w.
Proof.
  intros Hlen Hok Hadd.
  eapply spec_mono.
  - apply (spec_for_each_i ok _ (λ i l n', ∃ pre, priv = pre ++ l ∧ i = length pre ∧
             adding f n (ks ++ priv_rules pre) (ncLocalPrioBase + Z.of_nat i) n')).
    + exists []. rewrite app_nil_r. done.
    + intros i d l w' (pre & -> & -> & Ha). rewrite length_app in Hlen. simpl in Hlen.
      eapply spec_mono; [eapply (spec_addRule f n ok); [done| | | |exact Ha]|done..|].
      * unfold nc_rule, ncLocalPrioBase. simpl. lia.
      * instantiate (1 := ncLocalPrioBase + Z.of_nat (S (length pre))). simpl. lia.
      * intros Ho. specialize (Hok Ho). rewrite Forall_app, Forall_cons in Hok. tauto.
      * intros [] n' Hn'. exists (pre ++ [d]). rewrite priv_rules_snoc, <-!app_assoc, length_app.
        simpl. rewrite Nat.add_1_r. rewrite <-app_assoc in Hn'. done.
  - done.
  - done.
  - intros [] n' (pre & Heq & Hpre & Ha1 & Ha2 & Ha3 & Ha4 & Ha5). rewrite app_nil_r in Heq. subst pre.
    repeat split; [done..|]. eapply Forall_impl; [exact Ha5|]. simpl. unfold ncLocalPrioBase, ncWidePrio. lia.
Qed.

Lemma spec_initFamily f v ll priv w :
  rules_sorted f (view w) → (length priv ≤ 100)%nat →
  spec (Forall (λ n, dst_ok f (Some n)) (ll :: priv)) (own_change f (view w))
    (λ _, installed f ll priv (view w)) (initFamily f v ll priv) w.
Proof.
  intros Hs Hlen. unfold initFamily. set (ok := Forall _ _). set (n := view w).
  apply (spec_bind ok _ (λ _, adding f n [] ncLinkLocalPrio)).
  { eapply spec_mono; [apply spec_clear|done..|]. intros ? ? ->. by apply adding_cleared. }
  intros [] w1 H1. eapply spec_bind.
  { apply (spec_addRule f n ok _ _ [] ncNarrowPrio); [done..| |done].
    intros Hok. by inversion Hok. }
  intros [] w2 H2. eapply spec_bind.
  { by eapply (spec_addRule f n ok) with (p := ncLocalPrioBase). }
  intros [] w3 H3. eapply spec_bind.
  { apply spec_privRules; [done| |exact H3]. intros Hok. by inversion Hok. }
  intros [] w4 H4. eapply spec_mono; [by eapply (spec_addRule f n ok) with (p := 2101)|done..|].
  intros [] n' (Ha1 & Ha2 & Ha3 & Ha4 & _). by split.
Qed.

(** Both families. *)
Definition initable c : Prop :=
  ∀ f, nc_uses c f = true → Forall (λ n, dst_ok f (Some n)) (nc_priv c f).

Lemma linkLocal_ok f : dst_ok f (Some (nc_linkLocal f)).
Proof.
  apply (bool_decide_eq_true_1 _). by destruct f; vm_compute.
Qed.

Lemma spec_half c f v w :
  rules_sorted f (view w) → (length (nc_priv c f) ≤ 100)%nat →
  spec (initable c) (init_frame c (view w)) (λ _, half_ok c f (view w))
    (if nc_uses c f then initFamily f v (nc_linkLocal f) (nc_priv c f) else mret tt) w.
Proof.
  intros Hs Hlen. unfold half_ok. destruct (nc_uses c f) eqn:U; [|by apply spec_ret].
  eapply spec_mono; [by apply spec_initFamily| |intros n; by apply init_frame_own|done].
  intros Hok. constructor; [apply linkLocal_ok|by apply Hok].
Qed.

Lemma spec_Init c w :
  (∀ f, rules_sorted f (view w)) → (∀ f, length (nc_priv c f) ≤ 100)%nat →
  spec (initable c) (init_frame c (view w)) (λ _, init_ok c (view w)) (Init c) w.
Proof.
  intros Hs Hlen. unfold Init. eapply spec_bind.
  { apply (spec_half c V4 "v4"); [apply Hs|apply Hlen]. }
  intros [] w1 H1. eapply spec_mono; [apply (spec_half c V6 "v6"); [|apply Hlen]|done|..].
  - unfold rules_sorted. destruct (half_ok_other _ _ V6 _ _ H1) as [-> _]; [done|]. apply Hs.
  - intros n' Hn'. etrans; [|exact Hn']. by eapply half_ok_frame.
  - intros [] n' Hn'. by eapply init_ok_intro.
Qed.
End init.

(** ** [AddEgress] *)
Definition narrow_for (c : natClient) (s : IPNet) : bool :=
  existsb (λ p, Contains p (net_IP s)) (nc_priv c (net_family s)).
Definition egress_table (c : natClient) (s : IPNet) : Z :=
  if narrow_for c s then ncNarrowTableID else ncWideTableID.
Definition egress_route (c : natClient) (link : Link) (s : IPNet) : kroute :=
  mkKroute (canon_dst (Some s)) (Index link) (egress_table c s) ncProtocolID.
Definition egress_routes (c : natClient) (link : Link) (f : family) (l : list IPNet) : list kroute :=
  egress_route c link <$> filter (λ s, net_family s = f ∧ nc_uses c f = true) l.

(** The state with the routes of [l] appended, per family. *)
Definition egress_net (c : natClient) (link : Link) (l : list IPNet) (n : Net) : Net :=
  set_routes V4 (pf_get V4 (routes n) ++ egress_routes c link V4 l)
    (set_routes V6 (pf_get V6 (routes n) ++ egress_routes c link V6 l) n).

Lemma egress_routes_snoc c link f l s : egress_routes c link f (l ++ [s]) =
  egress_routes c link f l ++
  (if decide (net_family s = f ∧ nc_uses c f = true) then [egress_route c link s] else []).
Proof.
  unfold egress_routes. rewrite filter_app, fmap_app. f_equal. rewrite filter_cons.
  by case_decide.
Qed.

Lemma routes_egress_net c link l n f :
  pf_get f (routes (egress_net c link l n)) = pf_get f (routes n) ++ egress_routes c link f l.
Proof. by destruct f. Qed.

Lemma egress_net_nil c link n : egress_net c link [] n = n.
Proof. unfold egress_net. cbn. rewrite !app_nil_r. by destruct n as [? ? [] ? ? ? ?]. Qed.

Lemma egress_net_snoc c link l s n : egress_net c link (l ++ [s]) n =
  if nc_uses c (net_family s)
  then set_routes (net_family s)
         (pf_get (net_family s) (routes (egress_net c link l n)) ++ [egress_route c link s])
         (egress_net c link l n)
  else egress_net c link l n.
Proof.
  unfold egress_net. rewrite !egress_routes_snoc.
  destruct (nc_uses c (net_family s)) eqn:U; destruct (net_family s) eqn:E; repeat case_decide;
    try (exfalso; intuition congruence); unfold set_routes; simpl; by rewrite ?app_nil_r, ?app_assoc.
Qed.

(** Routes are identified by table and destination. *)
Definition route_key (k : kroute) : Z * option (IP * Z) := (kt_Table k, kt_Dst k).

Section add_egress.
Context {W : Type} `{!HostOps W, !HostLaws W, !HostReliable W}.
Implicit Types (w : W) (f : family).

(** When the routes can all be added: the link exists, well-formed subnets, no two
    of them (or one of them and a present route) with the same destination and table. *)
Definition addable c link (l : list IPNet) (n : Net) : Prop :=
  has_device (Index link) n ∧ Forall net_ok l ∧ ∀ f, NoDup (route_key <$>
    filter nc_route (pf_get f (routes n)) ++ egress_routes c link f l).

Lemma spec_addEgress1 c link s (ok : Prop) n w :
  (ok → has_device (Index link) n ∧ net_ok s ∧ ∀ f, nc_uses c f = true → net_family s = f →
     route_key (egress_route c link s) ∉ route_key <$> pf_get f (routes (view w))) →
  view w = n →
  spec ok (λ n', n' = n)
    (λ _ n', n' = if nc_uses c (net_family s)
       then set_routes (net_family s) (pf_get (net_family s) (routes n) ++ [egress_route c link s]) n
       else n) (addEgress1 c link s) w.
Proof.
  intros Hok <-. unfold addEgress1.
  assert (E : addEgress1 c link s = if nc_uses c (net_family s)
            then addRoute link s (egress_table c s) else mret tt).
  { unfold addEgress1, egress_table, narrow_for, net_family, nc_uses, nc_priv.
    case_bool_decide; simpl; destruct (nc_ipv4 c), (nc_ipv6 c); simpl; try done; by case_match. }
  unfold addEgress1 in E. rewrite E. destruct (nc_uses c (net_family s)) eqn:U; [|by apply spec_ret].
  apply spec_wrapping. unfold spec. eapply wp_mono; [by apply use_RouteAdd|].
  intros o w' [Ho Hr]. split; [exact Ho|]. intros Hk Hh. destruct (Hok Hk) as (Hdev & Hn & Hf).
  destruct Hr as [-> ?]; [done..| |eauto].
  apply Forall_forall. intros k Hin Ht Hd. apply (Hf _ U eq_refl).
  apply list_elem_of_fmap. exists k. split; [|done]. unfold route_key. simpl in *. congruence.
Qed.

Lemma addable_fresh c link pre s l n f :
  addable c link (pre ++ s :: l) n → nc_uses c f = true → net_family s = f →
  route_key (egress_route c link s) ∉ route_key <$> pf_get f (routes (egress_net c link pre n)).
Proof.
  intros (_ & _ & Hnd) Hu Hf. specialize (Hnd f). rewrite routes_egress_net.
  unfold egress_routes in *. rewrite filter_app, fmap_app, filter_cons_True in Hnd by done.
  rewrite !fmap_app in *. intros Hin. rewrite app_assoc in Hnd.
  apply NoDup_app in Hnd as (_ & Hdis & _).
  apply (Hdis (route_key (egress_route c link s))); [|left].
  apply elem_of_app in Hin as [Hin|Hin]; apply elem_of_app; [left|by right].
  apply list_elem_of_fmap in Hin as (k & Hk & Hin). apply list_elem_of_fmap. exists k. split; [done|].
  apply list_elem_of_filter. split; [|done]. injection Hk as Ht _. unfold nc_route. rewrite <-Ht.
  unfold egress_table. destruct (narrow_for c s); auto.
Qed.

Lemma spec_AddEgress c link l w :
  spec (addable c link l (view w))
    (λ n', ∃ k, (k < length l)%nat ∧ n' = egress_net c link (take k l) (view w))
    (λ _ n', n' = egress_net c link l (view w)) (AddEgress c link l) w.
Proof.
  unfold AddEgress. set (n := view w). set (S := λ n', ∃ k, _). eapply spec_mono.
  - apply (spec_for_each (addable c link l n) S (λ l' n', ∃ pre, l = pre ++ l' ∧ n' = egress_net c link pre n)).
    + exists []. by rewrite egress_net_nil.
    + intros s l' w' (pre & -> & Hv).
      eapply spec_mono; [apply (spec_addEgress1 c link s (addable c link (pre ++ s :: l') n)); [|exact Hv]|..].
      * intros Hok. split; [by destruct Hok as [(k & lk & Hk & Hi) _]; exists k, lk; done|].
        split; [destruct Hok as (_ & Hok & _); by apply Forall_app in Hok as [_ [? _]%Forall_cons]|].
        intros f Hu Hf. rewrite Hv. by eapply addable_fresh.
      * done.
      * intros n' ->. exists (length pre). rewrite length_app, take_app_length. simpl. split; [lia|done].
      * intros [] n' ->. exists (pre ++ [s]). rewrite <-app_assoc, egress_net_snoc. done.
  - done.
  - done.
  - intros [] n' (pre & -> & ->). by rewrite app_nil_r.
Qed.
End add_egress.

(** ** [NewNatClient] *)
Lemma split_podNodeNet_spec l acc :
  foldl (λ acc n, if (Mask_Size (net_Mask n)).2 =? 32
                  then (acc.1 ++ [n], acc.2) else (acc.1, acc.2 ++ [n])) acc l =
  (acc.1 ++ filter (λ n, (Mask_Size (net_Mask n)).2 = 32) l,
   acc.2 ++ filter (λ n, (Mask_Size (net_Mask n)).2 ≠ 32) l).
Proof.
  revert acc. induction l as [|n l IH]; intros [a b]; simpl; [by rewrite !app_nil_r|].
  rewrite IH. simpl. rewrite !filter_cons. destruct (Z.eqb_spec (Mask_Size (net_Mask n)).2 32) as [E|E].
  - rewrite decide_True, decide_False by (try intros H; done). simpl. by rewrite <-app_assoc.
  - rewrite decide_False, decide_True by done. simpl. by rewrite <-app_assoc.
Qed.

Lemma net_ok_family n : net_ok n →
  net_family n = if decide ((Mask_Size (net_Mask n)).2 = 32) then V4 else V6.
Proof.
  intros (Hl & Hne & Hm & [k Hk]). unfold Mask_Size, net_family. rewrite Hk, Hm. cbn [snd].
  case_bool_decide as H4.
  - rewrite canonIP_v6 by done. destruct Hl as [Hl|[Hl|Hl]]; rewrite Hl; [by destruct (net_IP n)| |done].
    rewrite To4_v4 in H4 by done. done.
  - rewrite canonIP_v4 by done. destruct (To4_length (net_IP n)) as [?| ->]; done.
Qed.

Lemma private_ok f : Forall (λ n, dst_ok f (Some n))
  (match f with V4 => v4PrivateList | V6 => v6PrivateList end).
Proof.
  apply (bool_decide_eq_true_1 _). by destruct f; vm_compute.
Qed.

(** ** Properties *)
(** C8: whatever rules and routes the pod has, [Init] either installs exactly the
    client's rules in every family the client uses, with both of its tables
    empty and everything that is not the client's unchanged, or returns an error
    and has touched nothing that is not the client's; it never panics. *)
Theorem Init_installs {W} `{!HostOps W, !HostLaws W} c (w : W) :
  (∀ f, rules_sorted f (view w)) → (∀ f, length (nc_priv c f) ≤ 100)%nat →
  wp (Init c) (λ o w', done_or_same (init_frame c (view w) (view w'))
                         (λ _, init_ok c (view w) (view w')) o) w.
Proof.
  intros Hs Hl. exact (spec_laws _ _ _ _ _ (@spec_Init W _ _ unreliable c w Hs Hl)).
Qed.

(** C9: "re-initialized by calling [Init] again": after an [Init] that failed
    anywhere, another [Init] on a host that works succeeds and gives the same
    result as if the first had not been made. *)
Theorem Init_again {W} `{!HostOps W, !HostLaws W, !HostReliable W} c (w w1 : W) o :
  (∀ f, rules_sorted f (view w)) → (∀ f, length (nc_priv c f) ≤ 100)%nat → initable c →
  Init c w = (o, w1) → healthy w1 →
  ∃ w2, Init c w1 = (Ok tt, w2) ∧ healthy w2 ∧ init_ok c (view w) (view w2).
Proof.
  intros Hs Hl Hi Hrun Hh. destruct (spec_run _ _ _ _ _ _ _ Hrun (spec_Init c w Hs Hl)) as [Ho _].
  assert (init_frame c (view w) (view w1)) as Hf by (destruct o; [apply Ho|apply Ho|done]).
  assert (∀ f, rules_sorted f (view w1)) as Hs1 by (intros f; by apply Hf).
  destruct (Init c w1) as [o2 w2] eqn:Hrun2.
  destruct (spec_run _ _ _ _ _ _ _ Hrun2 (spec_Init c w1 Hs1 Hl)) as [Ho2 Hr2].
  destruct (Hr2 Hi Hh) as [[[] ->] Hh2]. exists w2. split; [done|]. split; [done|].
  by eapply init_ok_frame.
Qed.

(** [AddEgress] appends, for each subnet of a family the client uses, one
    route over the link: to the narrow table when the subnet's address lies in a
    private network of the client, else to the wide one.  A failure stops at a
    prefix of the subnets; on a working host there is none when the destinations
    are well-formed and new. *)
Theorem AddEgress_routes {W} `{!HostOps W, !HostLaws W, !HostReliable W} c link l (w : W) :
  wp (AddEgress c link l) (λ o w',
    done_or_same (∃ k, (k < length l)%nat ∧ view w' = egress_net c link (take k l) (view w))
      (λ _, view w' = egress_net c link l (view w)) o ∧
    (addable c link l (view w) → healthy w → o = Ok tt)) w.
Proof.
  eapply wp_mono; [apply spec_AddEgress|]. intros o w' [Ho Hr]. split; [done|].
  intros Ha Hh. by destruct (Hr Ha Hh) as [[[] ->] _].
Qed.

(** [NewNatClient] panics exactly when one of its addresses has the wrong
    family; otherwise the client uses a family iff it has an address of it, and,
    given at most 100 well-formed pod and node networks (or none), it satisfies
    what [Init] needs: the networks are partitioned by family, in order. *)
Theorem NewNatClient_initable ipv4 ipv6 nets :
  Forall net_ok nets → (length nets ≤ 100)%nat →
  match NewNatClient ipv4 ipv6 nets with
  | Ok c => (ipv4 = [] ∨ To4 ipv4 ≠ []) ∧ To4 ipv6 = [] ∧
      (∀ f, nc_uses c f = true ↔ match f with V4 => ipv4 | V6 => ipv6 end ≠ []) ∧
      (nets ≠ [] → ∀ f, nc_priv c f = filter (λ n, net_family n = f) nets) ∧
      (∀ f, (length (nc_priv c f) ≤ 100)%nat) ∧ initable c
  | Err _ => False
  | Panicked _ => (ipv4 ≠ [] ∧ To4 ipv4 = []) ∨ (ipv6 ≠ [] ∧ To4 ipv6 ≠ [])
  end.
Proof.
  intros Hok Hlen. unfold NewNatClient. case_bool_decide as H4; [by left|].
  case_bool_decide as H6; [by right|].
  assert (Hpart : (0 < length nets)%nat → split_podNodeNet nets =
            (filter (λ n, net_family n = V4) nets, filter (λ n, net_family n = V6) nets)).
  { intros _. unfold split_podNodeNet. rewrite split_podNodeNet_spec. simpl.
    f_equal; (induction Hok as [|n l Hn _ IH]; [done|]); rewrite !filter_cons, (net_ok_family n Hn);
      simpl in *; repeat case_decide; f_equal; try done; apply IH; lia. }
  set (c := mkNatClient _ _). 
  assert (Hfam : ∀ p4 p6 f, nc_uses (c p4 p6) f = true ↔ match f with V4 => ipv4 | V6 => ipv6 end ≠ []).
  { intros p4 p6 []; simpl; by rewrite bool_decide_eq_true. }
  assert (H4' : ipv4 = [] ∨ To4 ipv4 ≠ []) by (destruct (decide (ipv4 = [])); naive_solver).
  assert (H6' : To4 ipv6 = []).
  { destruct (decide (ipv6 = [])) as [->|]; [done|]. destruct (decide (To4 ipv6 = [])); naive_solver. }
  destruct (Nat.ltb_spec 0 (length nets)) as [Hpos|Hnil].
  - rewrite Hpart by done. split; [done|]. split; [done|]. split; [apply Hfam|].
    split; [by intros _ []|]. split.
    + intros []; (etrans; [apply length_filter|done]).
    + intros f _. assert (nc_priv (c (filter (λ n, net_family n = V4) nets)
        (filter (λ n, net_family n = V6) nets)) f = filter (λ n, net_family n = f) nets) as -> by by destruct f.
      apply Forall_forall. intros n [Hf Hn]%list_elem_of_filter. rewrite Forall_forall in Hok. split; auto.
  - destruct nets; [|simpl in Hnil; lia]. split; [done|]. split; [done|]. split; [apply Hfam|].
    split; [done|]. split; [intros []; simpl; lia|]. intros f _. pose proof (private_ok f). by destruct f.
Qed.

(** ** Witnesses *)
Definition sample_client : natClient := mkNatClient true true v4PrivateList v6PrivateList.
Definition sample_link : Link := mkLink "fou4_0a000001" 12 true (OtherLink "ipip").
Definition sample_subnets : list IPNet :=
  [ mkIPNet [10; 9; 0; 0] (CIDRMask 16 32); mkIPNet [8; 8; 0; 0] (CIDRMask 16 32) ].

(** A pod with the kernel's own rules, a stale rule and a stale route. *)
Definition sample_net : Net :=
  set_routes V4 [mkKroute None 3 ncWideTableID ncProtocolID; mkKroute None 2 mainTableID 3]
    (set_rules V4 [mkKrule 255 0 None ""; mkKrule 117 1900 None ""; mkKrule 254 32766 None ""] empty_net).

Lemma sample_sorted f : rules_sorted f sample_net.
Proof. destruct f; repeat constructor; unfold by_prio; simpl; lia. Qed.
Lemma sample_short f : (length (nc_priv sample_client f) ≤ 100)%nat.
Proof. destruct f; simpl; lia. Qed.
Lemma sample_initable : initable sample_client.
Proof. intros f _. pose proof (private_ok f). by destruct f. Qed.

Lemma Init_installs_witness :
  wp (Init sample_client) (λ o h, done_or_same (init_frame sample_client sample_net (h_net h))
      (λ _, init_ok sample_client sample_net (h_net h)) o) (host_with [false; false; true] sample_net).
Proof.
  exact (Init_installs sample_client (host_with [false; false; true] sample_net) sample_sorted sample_short).
Defined.

(** The seventh call fails: both stale items are gone and the client's rules are
    only half-way there. *)
Definition broken_run : outcome unit * host :=
  Init sample_client (host_with [false; false; false; false; false; false; true] sample_net).
Lemma Init_again_witness : broken_run.1 ≠ Ok tt ∧ ∃ w2, Init sample_client broken_run.2 = (Ok tt, w2) ∧
  healthy w2 ∧ init_ok sample_client sample_net (h_net w2).
Proof.
  split; [by vm_compute|].
  refine (Init_again sample_client (host_with [false; false; false; false; false; false; true] sample_net)
           broken_run.2 broken_run.1 sample_sorted sample_short sample_initable _ _).
  - unfold broken_run. by destruct (Init _ _).
  - apply host_healthyb_ok. by vm_compute.
Defined.

Lemma NewNatClient_initable_witness :
  Forall net_ok sample_subnets ∧
  match NewNatClient [10; 1; 2; 3] [] sample_subnets with
  | Ok c => initable c | _ => False end.
Proof.
  assert (Hok : Forall net_ok sample_subnets).
  { apply (bool_decide_eq_true_1 _). by vm_compute. }
  split; [done|]. pose proof (NewNatClient_initable [10; 1; 2; 3] [] sample_subnets Hok) as H.
  specialize (H ltac:(simpl; lia)). destruct (NewNatClient _ _ _); [apply H| |]; vm_compute in H; [done|].
  by destruct H as [[_ ?]|[? _]].
Defined.
