(* ===== verification/Steering.v ===== *)
(** * Where a client's packets go

    The NAT client against the kernel's routing lookup: which route a packet of
    the pod takes after [Init] and [AddEgress]. *)
From S2P Require Import Prelude GoStrings GoNet Netlink Kernel Rpdb NatClient.

(** A packet the pod sends to [x]. *)
Definition route_to (f : family) (x : IP) (n : Net) : option kroute :=
  rpdb "" (canonIP x) (pf_get f (rules n)) (pf_get f (routes n)).

(** A sorted rule list: what comes before the client's rules, they, the rest. *)
Lemma rules_split l : StronglySorted by_prio l →
  l = filter (λ k, kr_Priority k < 1800) l ++ filter nc_rule l ++ filter (λ k, 2100 < kr_Priority k) l.
Proof.
  assert (Hnone : ∀ (P : krule → Prop) `{!∀ k, Decision (P k)} (x : krule) l,
    Forall (by_prio x) l → (∀ k, P k → kr_Priority k < kr_Priority x) → filter P l = []).
  { intros P ? x l0 Hl HP. apply filter_none_intro. intros k Hk Hc%HP.
    rewrite Forall_forall in Hl. specialize (Hl k Hk). unfold by_prio in Hl. lia. }
  induction 1 as [|x l Hs IH Hx]; [done|]. rewrite !filter_cons.
  destruct (decide (kr_Priority x < 1800)) as [H1|H1].
  - rewrite decide_False by (unfold nc_rule; lia). rewrite decide_False by lia. by rewrite IH at 1.
  - rewrite (Hnone (λ k, kr_Priority k < 1800) _ x l) in * by (try done; simpl; lia).
    case_decide as H2.
    + unfold nc_rule in H2. rewrite decide_False by lia. by rewrite IH at 1.
    + unfold nc_rule in H2. rewrite decide_True by lia.
      rewrite (Hnone nc_rule _ x l) in * by (try done; unfold nc_rule; simpl; lia).
      by rewrite IH at 1.
Qed.

(** ** The tables after [Init] and [AddEgress] *)

(** The routes of a list of subnets, each over a link of its own; the ones that
    claim [x] in the narrow ([b]) or the wide table; the most specific of them. *)
Definition pair_routes (c : natClient) (f : family) (ps : list (Link * IPNet)) : list kroute :=
  (λ p, egress_route c p.1 p.2) <$> filter (λ p, net_family p.2 = f ∧ nc_uses c f = true) ps.
Definition pair_claims (c : natClient) (f : family) (b : bool) (x : IP) (ps : list (Link * IPNet)) (p : Link * IPNet) : Prop :=
  p ∈ ps ∧ net_family p.2 = f ∧ narrow_for c p.2 = b ∧ Contains p.2 x = true.
Definition ones (s : IPNet) : Z := (Mask_Size (net_Mask s)).1.
Definition pair_best c f b x ps p : Prop :=
  pair_claims c f b x ps p ∧ ∀ p', pair_claims c f b x ps p' → ones p'.2 ≤ ones p.2.

(** The same for the subnets of one link. *)
Definition claims (c : natClient) (f : family) (b : bool) (x : IP) (l : list IPNet) (s : IPNet) : Prop :=
  s ∈ l ∧ net_family s = f ∧ narrow_for c s = b ∧ Contains s x = true.
Definition most_specific c f b x l s : Prop :=
  claims c f b x l s ∧ ∀ s', claims c f b x l s' → ones s' ≤ ones s.

Lemma egress_routes_pairs c link f l : egress_routes c link f l = pair_routes c f (pair link <$> l).
Proof.
  unfold egress_routes, pair_routes. induction l as [|s l IH]; [done|]. rewrite fmap_cons, !filter_cons.
  repeat case_decide; rewrite ?fmap_cons, ?IH; naive_solver.
Qed.

Lemma claims_pairs c link f b x l p : pair_claims c f b x (pair link <$> l) p ↔ p.1 = link ∧ claims c f b x l p.2.
Proof. unfold pair_claims, claims. rewrite list_elem_of_fmap. destruct p as [k s]. naive_solver. Qed.

Lemma best_pairs c link f b x l p : pair_best c f b x (pair link <$> l) p → p.1 = link ∧ most_specific c f b x l p.2.
Proof.
  intros [[Hl Hc]%claims_pairs Hmax]. split; [done|]. split; [done|]. intros s' Hs'.
  apply (Hmax (link, s')). by apply claims_pairs.
Qed.

Definition table_of (b : bool) : Z := if b then ncNarrowTableID else ncWideTableID.

Lemma prefix_len_canon s : net_ok s → prefix_len (canon_dst (Some s)) = ones s.
Proof.
  intros _. unfold canon_dst, ones. destruct (Z.eqb_spec (Mask_Size (net_Mask s)).1 0); simpl; lia.
Qed.

Section lookup.
#[local] Set Default Proof Using "Type*".
Context (c : natClient) (f : family) (x : IP).
Context (Hx : ip_len x) (Hne : x ≠ []) (Hxf : net_family (mkIPNet x []) = f) (Hu : nc_uses c f = true).

Lemma pair_routes_table ps b r : Forall (λ p, net_ok p.2) ps →
  r ∈ in_table (table_of b) (pair_routes c f ps) ∧ dst_matches (canonIP x) (kt_Dst r) = true ↔
  ∃ p, r = egress_route c p.1 p.2 ∧ pair_claims c f b x ps p.
Proof.
  intros Hl. rewrite Forall_forall in Hl. unfold in_table, pair_routes, pair_claims.
  rewrite list_elem_of_filter, list_elem_of_fmap. split.
  - intros ((Ht & p & -> & [[Hf _] Hs]%list_elem_of_filter) & Hm). exists p. split; [done|].
    split; [done|]. split; [done|]. split.
    + simpl in Ht. unfold egress_table, table_of in Ht. by destruct (narrow_for c p.2), b.
    + rewrite <-dst_matches_Contains; [done|by auto..|]. by rewrite Hxf.
  - intros (p & -> & Hs & Hf & Hb & Hc). split.
    + split; [by unfold egress_route, egress_table; rewrite Hb|]. exists p. split; [done|].
      by apply list_elem_of_filter.
    + cbn [egress_route kt_Dst]. rewrite dst_matches_Contains; [done|by auto..|]. by rewrite Hxf.
Qed.

Lemma pair_lookup ps b : Forall (λ p, net_ok p.2) ps →
  match longest (canonIP x) (in_table (table_of b) (pair_routes c f ps)) with
  | Some r => ∃ p, r = egress_route c p.1 p.2 ∧ pair_best c f b x ps p
  | None => ∀ p, ¬ pair_claims c f b x ps p
  end.
Proof.
  intros Hl. destruct (longest _ _) as [r|] eqn:E.
  - apply longest_Some in E as (Hin & Hm & Hmax).
    destruct (proj1 (pair_routes_table ps b r Hl) (conj Hin Hm)) as (p & -> & Hp).
    exists p. split; [done|]. split; [done|]. intros p' Hp'.
    destruct (proj2 (pair_routes_table ps b (egress_route c p'.1 p'.2) Hl)) as [Hin' Hm']; [eauto|].
    specialize (Hmax _ Hin' Hm'). cbn [egress_route kt_Dst] in Hmax. rewrite Forall_forall in Hl.
    rewrite !prefix_len_canon in Hmax; [done|apply Hl, Hp|apply Hl, Hp'].
  - rewrite longest_None in E. intros p Hp.
    destruct (proj2 (pair_routes_table ps b (egress_route c p.1 p.2) Hl)) as [Hin' Hm']; [eauto|].
    by rewrite E in Hm'.
Qed.

Lemma rpdb_priv priv i rt : Forall (λ n, dst_ok f (Some n)) priv →
  rpdb "" (canonIP x) (imap (λ j n, mkKrule mainTableID (ncLocalPrioBase + Z.of_nat (i + j))
                                   (canon_dst (Some n)) "") priv) rt =
  if existsb (λ p, Contains p x) priv then longest (canonIP x) (in_table mainTableID rt) else None.
Proof.
  intros Hp. revert i. induction Hp as [|p l [Hp Hpf] _ IH]; intros i; [done|].
  cbn [imap rpdb kr_Iif kr_Dst kr_Table existsb].
  rewrite iif_matches_any, dst_matches_Contains by (try done; by rewrite Hxf).
  assert (imap ((λ j n, mkKrule mainTableID (ncLocalPrioBase + Z.of_nat (i + j)) (canon_dst (Some n)) "") ∘ S) l
        = imap (λ j n, mkKrule mainTableID (ncLocalPrioBase + Z.of_nat (S i + j)) (canon_dst (Some n)) "") l) as ->.
  { apply imap_ext. intros j y _. simpl. repeat f_equal. lia. }
  rewrite IH. destruct (Contains p x); simpl; [|done].
  destruct (longest _ _); [done|]. by destruct (existsb _ _).
Qed.

(** The scan of the client's rules. *)
Lemma rpdb_client rt : initable c → Contains (nc_linkLocal f) x = false →
  rpdb "" (canonIP x) (nc_rules f (nc_linkLocal f) (nc_priv c f)) rt =
  match longest (canonIP x) (in_table ncNarrowTableID rt) with
  | Some r => Some r
  | None =>
      match (if existsb (λ p, Contains p x) (nc_priv c f)
             then longest (canonIP x) (in_table mainTableID rt) else None) with
      | Some r => Some r
      | None => longest (canonIP x) (in_table ncWideTableID rt)
      end
  end.
Proof.
  intros Hi Hll. unfold nc_rules. cbn [rpdb kr_Iif kr_Dst kr_Table].
  destruct (linkLocal_ok f) as [Hlok Hlf].
  rewrite iif_matches_any, dst_matches_Contains, Hll by (try done; by rewrite Hxf).
  cbn [andb dst_matches]. destruct (longest _ (in_table ncNarrowTableID rt)); [done|].
  pose proof (rpdb_priv (nc_priv c f) 0 rt (Hi f Hu)) as Hp. cbn [Nat.add] in Hp.
  rewrite rpdb_app, Hp. clear Hp.
  destruct (if existsb _ _ then _ else _); [done|]. cbn [rpdb kr_Iif kr_Dst kr_Table].
  rewrite iif_matches_any by done. simpl. by destruct (longest _ _).
Qed.
End lookup.

(** No rule in front of the client's routes [x] (in a pod these are the rule of
    the local table and what the CNI plugin put there). *)
Definition unclaimed (f : family) (x : IP) (n : Net) : Prop :=
  ∀ k, k ∈ pf_get f (rules n) → kr_Priority k < 1800 → iif_matches "" k = true →
    dst_matches (canonIP x) (kr_Dst k) = true →
    kr_Table k ≠ ncNarrowTableID ∧ kr_Table k ≠ ncWideTableID ∧
    longest (canonIP x) (in_table (kr_Table k) (pf_get f (routes n))) = None.

Lemma in_table_foreign t l : t ≠ ncNarrowTableID → t ≠ ncWideTableID →
  in_table t l = in_table t (foreign_routes l).
Proof.
  intros H1 H2. unfold in_table, foreign_routes. rewrite list_filter_filter. apply list_filter_iff.
  intros k. unfold nc_route. intuition congruence.
Qed.

Lemma in_table_none t l : t = ncNarrowTableID ∨ t = ncWideTableID →
  filter nc_route l = [] → in_table t l = [].
Proof.
  intros Ht H. apply filter_none_intro. intros k Hk Heq.
  apply (filter_nil_not_elem_of _ _ k H); [|done]. unfold nc_route. by rewrite Heq.
Qed.

(** The lookup in a state [n2] that is [n1] with the routes of [ps] added. *)
Definition with_pairs (c : natClient) (ps : list (Link * IPNet)) (n1 n2 : Net) : Prop := ∀ f,
  pf_get f (rules n2) = pf_get f (rules n1) ∧
  pf_get f (routes n2) = pf_get f (routes n1) ++ pair_routes c f ps.

Lemma route_to_installed c ps f x n n1 n2 :
  ip_len x → x ≠ [] → net_family (mkIPNet x []) = f → nc_uses c f = true → initable c →
  rules_sorted f n → unclaimed f x n → Contains (nc_linkLocal f) x = false → init_ok c n n1 → with_pairs c ps n1 n2 →
  route_to f x n2 =
  match longest (canonIP x) (in_table ncNarrowTableID (pair_routes c f ps)) with
  | Some r => Some r
  | None =>
      match (if existsb (λ p, Contains p x) (nc_priv c f)
             then longest (canonIP x) (in_table mainTableID (pf_get f (routes n))) else None) with
      | Some r => Some r
      | None =>
          match longest (canonIP x) (in_table ncWideTableID (pair_routes c f ps)) with
          | Some r => Some r
          | None => rpdb "" (canonIP x) (filter (λ k, 2100 < kr_Priority k) (pf_get f (rules n1)))
                      (pf_get f (routes n2))
          end
      end
  end.
Proof.
  intros Hx Hne Hxf Hu Hi Hs Hq Hll [[[_ Hfr] _] Hok] Hw. destruct (Hw f) as [Hwr Hwt].
  destruct (Hfr f) as (Hr & Ht & Hs1). destruct (Hok f Hu) as [Hrules Hnone]. clear Hok Hfr.
  assert (Hother : ∀ t, t ≠ ncNarrowTableID → t ≠ ncWideTableID →
    in_table t (pf_get f (routes n2)) = in_table t (pf_get f (routes n))).
  { intros t H1 H2. rewrite Hwt, (in_table_foreign t (_ ++ _)), (in_table_foreign t (pf_get f (routes n))) by done.
    unfold foreign_routes. rewrite filter_app. fold (foreign_routes (pf_get f (routes n1))). rewrite Ht.
    rewrite (filter_none_intro (λ k, ¬ nc_route k) (pair_routes _ _ _)), app_nil_r; [done|].
    intros k (p & -> & _)%list_elem_of_fmap Hk. apply Hk. unfold nc_route. simpl.
    unfold egress_table. destruct (narrow_for c p.2); auto. }
  assert (Hown : ∀ t, t = ncNarrowTableID ∨ t = ncWideTableID →
    in_table t (pf_get f (routes n2)) = in_table t (pair_routes c f ps)).
  { intros t H. rewrite Hwt, in_table_app. by rewrite (in_table_none t _ H Hnone). }
  unfold route_to. rewrite Hwr.
  rewrite (rules_split (pf_get f (rules n1))) at 1 by by apply Hs1.
  rewrite !rpdb_app, Hrules. rewrite (rpdb_None _ _ (filter _ _)).
  2:{ intros k [Hk Hin]%list_elem_of_filter Hif Hm.
      assert (k ∈ foreign_rules (pf_get f (rules n))) as Hin'.
      { rewrite <-Hr. apply list_elem_of_filter. split; [unfold nc_rule; lia|done]. }
      apply list_elem_of_filter in Hin' as [_ Hin'].
      destruct (Hq k Hin' Hk Hif Hm) as (H1 & H2 & H3). by rewrite Hother. }
  rewrite rpdb_client by done. rewrite (Hown ncNarrowTableID), (Hown ncWideTableID), Hother by auto.
  destruct (longest _ _); [done|]. destruct (if existsb _ _ then _ else _); [done|].
  by destruct (longest _ _).
Qed.

(** Where a packet to [x] goes: to the most specific of the narrow subnets, else,
    for a private address, where the main table sends it, else to the most
    specific of the wide subnets. *)
Definition steers (c : natClient) (f : family) (x : IP) (ps : list (Link * IPNet)) (main r : option kroute) : Prop :=
  let private := existsb (λ p, Contains p x) (nc_priv c f) in
  ((∃ p, pair_claims c f true x ps p) → ∃ p, pair_best c f true x ps p ∧ r = Some (egress_route c p.1 p.2)) ∧
  (¬ (∃ p, pair_claims c f true x ps p) → private = true → is_Some main → r = main) ∧
  (¬ (∃ p, pair_claims c f true x ps p) → private = false ∨ main = None → (∃ p, pair_claims c f false x ps p) →
     ∃ p, pair_best c f false x ps p ∧ r = Some (egress_route c p.1 p.2)).

Lemma steers_installed c ps f x n n1 n2 :
  ip_len x → x ≠ [] → net_family (mkIPNet x []) = f → nc_uses c f = true → initable c → Forall (λ p, net_ok p.2) ps →
  rules_sorted f n → unclaimed f x n → Contains (nc_linkLocal f) x = false → init_ok c n n1 → with_pairs c ps n1 n2 →
  steers c f x ps (longest (canonIP x) (in_table mainTableID (pf_get f (routes n)))) (route_to f x n2).
Proof.
  intros Hx Hne Hxf Hu Hi Hps Hs Hq Hll Hok Hw. rewrite (route_to_installed c ps f x n n1 n2) by done.
  pose proof (pair_lookup c f x Hx Hne Hxf Hu ps true Hps) as Hn.
  pose proof (pair_lookup c f x Hx Hne Hxf Hu ps false Hps) as Hwd. cbn [table_of] in Hn, Hwd.
  unfold steers. destruct (longest _ (in_table ncNarrowTableID _)) as [r|].
  - destruct Hn as (p & -> & Hp). split; [eauto|]. split; intros []; exists p; apply Hp.
  - split; [intros [p Hc]; by apply Hn in Hc|]. split; [by intros _ -> [r ->]|].
    intros _ Hpm (p & Hc). set (main := longest _ (in_table mainTableID _)) in *.
    replace (if existsb _ _ then main else None) with (@None kroute)
      by (destruct Hpm as [-> | ->]; [done|by destruct (existsb _ _)]).
    destruct (longest _ (in_table ncWideTableID _)) as [r|]; [|by apply Hwd in Hc].
    destruct Hwd as (p' & -> & ?). eauto.
Qed.

(** ** Property *)
(** C1: where the packets of a client pod go once [Init] and [AddEgress] have
    succeeded.  For an address outside the link-local network that no rule of the
    pod in front of the client's claims: (1) a subnet of the narrow table that
    contains it wins, the most specific one first; (2) else a private address
    with a route in the main table keeps that route; (3) else a wide subnet that
    contains it takes it to the egress link, the most specific one first. *)
Theorem egress_steering {W} `{!HostOps W, !HostLaws W} c link l f x (w : W) :
  (∀ f, rules_sorted f (view w)) → (∀ f, length (nc_priv c f) ≤ 100)%nat → initable c →
  Forall net_ok l → ip_len x → x ≠ [] → net_family (mkIPNet x []) = f → nc_uses c f = true →
  unclaimed f x (view w) → Contains (nc_linkLocal f) x = false →
  let main := longest (canonIP x) (in_table mainTableID (pf_get f (routes (view w)))) in
  let private := existsb (λ p, Contains p x) (nc_priv c f) in
  wp (_ ← Init c; AddEgress c link l) (λ o w', o = Ok tt →
    ((∃ s, claims c f true x l s) → ∃ s, most_specific c f true x l s ∧
       route_to f x (view w') = Some (egress_route c link s)) ∧
    (¬ (∃ s, claims c f true x l s) → private = true → is_Some main →
       route_to f x (view w') = main) ∧
    (¬ (∃ s, claims c f true x l s) → private = false ∨ main = None →
       (∃ s, claims c f false x l s) → ∃ s, most_specific c f false x l s ∧
       route_to f x (view w') = Some (egress_route c link s))) w.
Proof.
  intros Hs Hlen Hi Hl Hx Hne Hxf Hu Hq Hll main private. apply wp_bind.
  eapply wp_mono; [exact (spec_laws _ _ _ _ _ (@spec_Init W _ _ unreliable c w Hs Hlen))|].
  intros o w1 H1. destruct o as [[]|e|s]; simpl in *; [|done|done].
  eapply wp_mono; [exact (spec_laws _ _ _ _ _ (@spec_AddEgress W _ _ unreliable c link l w1))|].
  intros o w2 H2 ->. simpl in H2.
  destruct (steers_installed c (pair link <$> l) f x (view w) (view w1) (view w2)) as (H3 & H4 & H5); try done.
  { by apply Forall_fmap. }
  { intros f'. rewrite H2, routes_egress_net, egress_routes_pairs. by destruct f'. }
  assert (Hex : ∀ b, (∃ p, pair_claims c f b x (pair link <$> l) p) ↔ ∃ s, claims c f b x l s).
  { intros b. setoid_rewrite claims_pairs. split; [naive_solver|]. intros [s ?]. by exists (link, s). }
  assert (Hbest : ∀ b, (∃ p, pair_best c f b x (pair link <$> l) p ∧ route_to f x (view w2) = Some (egress_route c p.1 p.2)) →
    ∃ s, most_specific c f b x l s ∧ route_to f x (view w2) = Some (egress_route c link s)).
  { intros b (p & [<- ?]%best_pairs & ?). by exists p.2. }
  rewrite !Hex in *. fold main private in H4, H5. auto.
Qed.

(** *** Witness: a pod that reaches 10.9/16 and 8.8/16 through the egress; 10.2.0.1
    stays on the main table. *)
Definition pod_net : Net :=
  set_routes V4 [mkKroute None 2 mainTableID 3]
    (set_rules V4 [mkKrule 255 0 None ""; mkKrule 254 32766 None ""] empty_net).

Definition steered (x : IP) : option kroute :=
  route_to V4 x (view (((_ ← Init sample_client; AddEgress sample_client sample_link sample_subnets) :
    M host unit) (host_with [] pod_net)).2).
Example steered_ex :
  kt_Table <$> steered [10; 9; 1; 1] = Some ncNarrowTableID ∧
  kt_Table <$> steered [10; 2; 0; 1] = Some mainTableID ∧
  kt_Table <$> steered [8; 8; 4; 4] = Some ncWideTableID ∧
  kt_Table <$> steered [9; 9; 9; 9] = Some mainTableID.
Proof. by vm_compute. Qed.

Lemma egress_steering_witness :
  ((_ ← Init sample_client; AddEgress sample_client sample_link sample_subnets) : M host unit)
    (host_with [] pod_net) = (Ok tt, ((_ ← Init sample_client; AddEgress sample_client sample_link sample_subnets) :
    M host unit) (host_with [] pod_net)).2 ∧
  ∃ s, most_specific sample_client V4 false [8; 8; 4; 4] sample_subnets s ∧
    steered [8; 8; 4; 4] = Some (egress_route sample_client sample_link s).
Proof.
  assert (Hok : Forall net_ok sample_subnets).
  { apply (bool_decide_eq_true_1 _). by vm_compute. }
  split; [by vm_compute|].
  pose proof (egress_steering (W := host) sample_client sample_link sample_subnets V4 [8; 8; 4; 4]
    (host_with [] pod_net)) as H. cbv zeta in H.
  destruct H as (_ & _ & H); try done.
  - intros []; repeat constructor; unfold by_prio; simpl; lia.
  - apply sample_short.
  - apply sample_initable.
  - by right; left.
  - intros k Hk Hp _ _. apply elem_of_cons in Hk as [->|Hk]; [done|].
    apply list_elem_of_singleton in Hk as ->. simpl in Hp. lia.
  - unfold steered. apply H.
    + intros (s & Hs & _ & Hn & Hc). apply elem_of_cons in Hs as [->|Hs]; [by vm_compute in Hc|].
      apply list_elem_of_singleton in Hs as ->. by vm_compute in Hn.
    + left. by vm_compute.
    + exists (mkIPNet [8; 8; 0; 0] (CIDRMask 16 32)). split; [right; left|]. by vm_compute.
Defined.
