(* ===== verification/Fou.v ===== *)
(** * The Foo-over-UDP tunnels ([pkg/founat/fou.go])

    Link names, [Init], [AddPeer] and [DelPeer] with the helpers they use. *)
From S2P Require Import Prelude GoStrings GoNet Sha1 Netlink Kernel Frames.

(** ** Names *)
Definition FoU4LinkPrefix : string := "fou4_".
Definition FoU6LinkPrefix : string := "fou6_".
Definition fouDummy : string := "fou-dummy".

Definition fouName (addr : IP) : string :=
  if bool_decide (To4 addr ≠ []) then FoU4LinkPrefix +:+ hex_bytes (To4 addr)
  else FoU6LinkPrefix +:+ hex_bytes (take 4 (sha1_Sum addr)).

(** ** The tunnel object *)
Record fouTunnel := mkFouTunnel { sport : Z; dport : Z; local4 : IP; local6 : IP }.

Definition NewFoUTunnel (sport dport : Z) (localIPv4 localIPv6 : IP) : outcome fouTunnel :=
  if bool_decide (localIPv4 ≠ [] ∧ To4 localIPv4 = []) then Panicked "invalid IPv4 address"
  else if bool_decide (localIPv6 ≠ [] ∧ To4 localIPv6 ≠ []) then Panicked "invalid IPv6 address"
  else Ok (mkFouTunnel sport dport localIPv4 localIPv6).

Definition uint16 (z : Z) : Z := z mod 65536.

(** The link of a peer, as the program requests it. *)
Definition fou_link (t : fouTunnel) (name : string) (local remote : IP) (mk : tunnel → link_kind) : Link :=
  mkLink name 0 true (mk (mkTunnel 225 true (uint16 (dport t)) (uint16 (sport t)) remote local false)).

(** The catch-all device: a flow-based tunnel with nothing else set. *)
Definition flow_link (name : string) (mk : tunnel → link_kind) : Link :=
  mkLink name 0 false (mk (mkTunnel 0 false 0 0 [] [] true)).

Definition checksum_rule (port : Z) : list string :=
  ["-p"; "udp"; "--dport"; Itoa port; "-j"; "CHECKSUM"; "--checksum-fill"].

Section tunnel.
Context {W : Type} `{!HostOps W}.

Definition modProbe (module : string) : M W unit :=
  wrapping ("modprobe " +:+ module +:+ " failed with %w: %s") (exec_modprobe module).

Definition initFou4 (t : fouTunnel) : M W unit :=
  _ ← wrapping "failed to load fou module: %w" (modProbe "fou");
  _ ← wrapping "netlink: fou add failed: %w" (FouAdd (mkFou V4 4 (dport t) true));
  _ ← wrapping "setting net.ipv4.conf.default.rp_filter=0 failed: %w"
        (Sysctl "net.ipv4.conf.default.rp_filter" "0");
  _ ← wrapping "setting net.ipv4.conf.all.rp_filter=0 failed: %w"
        (Sysctl "net.ipv4.conf.all.rp_filter" "0");
  _ ← wrapping "failed to enable IPv4 forwarding: %w" (EnableIPForward V4);
  _ ← iptables_New V4;
  wrapping "failed to setup mangle table: %w"
    (iptables_Insert V4 "mangle" "POSTROUTING" 1 (checksum_rule (dport t))).

Definition initFou6 (t : fouTunnel) : M W unit :=
  _ ← wrapping "failed to load fou6 module: %w" (modProbe "fou6");
  _ ← wrapping "netlink: fou add failed: %w" (FouAdd (mkFou V6 41 (dport t) true));
  _ ← wrapping "failed to enable IPv6 forwarding: %w" (EnableIPForward V6);
  _ ← iptables_New V6;
  wrapping "failed to setup mangle table: %w"
    (iptables_Insert V6 "mangle" "POSTROUTING" 1 (checksum_rule (dport t))).

Definition Init (t : fouTunnel) : M W unit :=
  r ← attempt (LinkByName fouDummy);
  match r with
  | inl _ => mret tt
  | inr e =>
      if negb (is_link_not_found e) then throw e
      else
        _ ← if bool_decide (local4 t ≠ []) then initFou4 t else mret tt;
        _ ← if bool_decide (local6 t ≠ []) then initFou6 t else mret tt;
        LinkAdd (mkLink fouDummy 0 false Dummy)
  end.

(** *** The devices of the encapsulation stack *)
Definition configureDevice (link : Link) : M W unit :=
  wrapping ("netlink: failed to set link " +:+ Name link +:+ " up: %w") (LinkSetUp link).

Definition setupDevice (attrs : Link) : M W unit :=
  r ← attempt (LinkByName (Name attrs));
  l ← match r with
      | inl l => mret l
      | inr _ =>
          _ ← wrapping ("netlink: failed to create device " +:+ Name attrs +:+ ": %w") (LinkAdd attrs);
          wrapping ("netlink: failed to retrieve created device " +:+ Name attrs +:+ ": %w")
            (LinkByName (Name attrs))
      end;
  wrapping ("failed to set up device " +:+ Name l +:+ ": %w") (configureDevice l).

Definition removeDevice (name : string) : M W unit :=
  r ← attempt (LinkByName name);
  match r with
  | inr _ => mret tt
  | inl link => wrapping ("netlink: failed to remove device " +:+ name +:+ ": %w") (LinkDel link)
  end.

Definition renameDevice (from to : string) : M W unit :=
  r ← attempt (LinkByName from);
  match r with
  | inr _ => mret tt
  | inl link =>
      wrapping ("netlink: failed to rename device " +:+ from +:+ " to " +:+ to +:+ ": %w") (LinkSetName link to)
  end.

Definition ipip4Device : string := "egress_ipip4".
Definition ipip6Device : string := "egress_ipip6".

Definition setupIPIPDevices (ipv4 ipv6 : bool) : M W unit :=
  _ ← (if ipv4 then
         _ ← wrapping ("creating " +:+ ipip4Device +:+ ": %w") (setupDevice (flow_link ipip4Device Iptun));
         wrapping "renaming fallback device tunl0: %w" (renameDevice "tunl0" "egress_tunl")
       else wrapping ("removing " +:+ ipip4Device +:+ ": %w") (removeDevice ipip4Device));
  if ipv6 then
    _ ← wrapping ("creating " +:+ ipip6Device +:+ ": %w") (setupDevice (flow_link ipip6Device Ip6tnl));
    wrapping "renaming fallback device tunl0: %w" (renameDevice "ip6tnl0" "egress_ip6tnl")
  else wrapping ("removing " +:+ ipip6Device +:+ ": %w") (removeDevice ipip6Device).

(** *** Peers *)
Definition addPeer4 (t : fouTunnel) (addr : IP) : M W Link :=
  if bool_decide (local4 t = []) then throw ErrIPFamilyMismatch
  else
    let linkName := fouName addr in
    r ← attempt (LinkByName linkName);
    match r with
    | inl link => mret link
    | inr e =>
        if negb (is_link_not_found e) then throw (Errorf "netlink: failed to get link: %w" e)
        else
          _ ← wrapping "netlink: failed to add fou link: %w"
                (LinkAdd (fou_link t linkName (local4 t) addr Iptun));
          _ ← wrapping "netlink: failed to setup ipip device: %w" (setupIPIPDevices true false);
          LinkByName linkName
    end.

Definition addPeer6 (t : fouTunnel) (addr : IP) : M W Link :=
  if bool_decide (local6 t = []) then throw ErrIPFamilyMismatch
  else
    let linkName := fouName addr in
    r ← attempt (LinkByName linkName);
    match r with
    | inl link => mret link
    | inr e =>
        if negb (is_link_not_found e) then throw (Errorf "netlink: failed to get link: %w" e)
        else
          _ ← wrapping "netlink: failed to add fou6 link: %w"
                (LinkAdd (fou_link t linkName (local6 t) addr Ip6tnl));
          _ ← wrapping "netlink: failed to setup ipip device: %w" (setupIPIPDevices false true);
          LinkByName linkName
    end.

Definition AddPeer (t : fouTunnel) (addr : IP) : M W Link :=
  if bool_decide (To4 addr ≠ []) then addPeer4 t (To4 addr) else addPeer6 t addr.

Definition DelPeer (addr : IP) : M W unit :=
  let linkName := fouName addr in
  r ← attempt (LinkByName linkName);
  match r with
  | inl link => LinkDel link
  | inr e => if is_link_not_found e then mret tt else throw e
  end.
End tunnel.

(** ** Lemmas on the names *)
Lemma fouName_To4 addr : To4 addr ≠ [] → fouName (To4 addr) = fouName addr.
Proof. intros H. unfold fouName. by rewrite To4_To4, !bool_decide_eq_true_2. Qed.

Lemma fouName_canonIP addr : fouName (canonIP addr) = fouName addr.
Proof.
  destruct (decide (To4 addr = [])) as [E|E]; [by rewrite canonIP_v6|].
  rewrite canonIP_v4 by done. by apply fouName_To4.
Qed.

Definition fouPrefixed (n : string) : Prop :=
  ∃ s, n = FoU4LinkPrefix +:+ s ∨ n = FoU6LinkPrefix +:+ s.
Lemma fouName_prefixed addr : fouPrefixed (fouName addr).
Proof. unfold fouName. case_bool_decide; eexists; [by left|by right]. Qed.

Lemma length_fouName addr : String.length (fouName addr) = 13%nat.
Proof.
  unfold fouName. case_bool_decide as H; rewrite length_str_app, length_hex_bytes.
  - by destruct (To4_length addr) as [?| ->].
  - destruct (sha1_Sum_take4 addr) as [-> _]. done.
Qed.

Lemma fouName_v4_inj a b : wf_ip a → wf_ip b → To4 a ≠ [] → To4 b ≠ [] →
  fouName a = fouName b → canonIP a = canonIP b.
Proof.
  intros Ha Hb H4a H4b. unfold fouName. rewrite !bool_decide_eq_true_2 by done.
  intros Heq. apply (inj (String.append FoU4LinkPrefix)) in Heq.
  apply hex_bytes_inj in Heq; [by rewrite !canonIP_v4|by apply wf_ip_To4..].
Qed.

Lemma fouName_v6 a b : To4 a = [] → To4 b = [] → fouName a = fouName b ↔ take 4 (sha1_Sum a) = take 4 (sha1_Sum b).
Proof.
  intros Ha Hb. unfold fouName. rewrite !bool_decide_eq_false_2 by (by intros []). split; [|by intros ->].
  intros H%(inj (String.append FoU6LinkPrefix)). apply hex_bytes_inj in H; [done|apply sha1_Sum_take4..].
Qed.

Lemma fouName_family a b : fouName a = fouName b → To4 a ≠ [] ↔ To4 b ≠ [].
Proof. unfold fouName. by repeat case_bool_decide. Qed.

(** ** The devices an operation may touch *)
(** The devices of the encapsulation stack and the fallback devices. *)
Definition aux : gset string :=
  {["egress_ipip4"; "egress_ipip6"; "tunl0"; "egress_tunl"; "ip6tnl0"; "egress_ip6tnl"]}.

(** No tunnel device yet: the namespace is new. *)
Definition no_tunnels (n : Net) : Prop := ∀ k, fouPrefixed k → links n !! k = None.

(** The fallback devices, under both their names. *)
Definition takeover_names : gset string := {["tunl0"; "egress_tunl"; "ip6tnl0"; "egress_ip6tnl"]}.

Lemma takeover_names_aux : takeover_names ⊆ aux.
Proof. apply (bool_decide_unpack _). by vm_compute. Qed.
Lemma fallback_takeover : fallback_names ⊆ takeover_names.
Proof. apply (bool_decide_unpack _). by vm_compute. Qed.
Lemma fallback_aux : fallback_names ⊆ aux.
Proof. etrans; [exact fallback_takeover|exact takeover_names_aux]. Qed.

Lemma aux_not_prefixed k : k ∈ aux → ¬ fouPrefixed k.
Proof. unfold aux. intros Hk [s [->| ->]]; set_solver. Qed.

Lemma fouName_not_aux addr : fouName addr ∉ aux.
Proof. intros H. by apply aux_not_prefixed in H; destruct H; apply fouName_prefixed. Qed.

Lemma fouName_not_takeover addr : fouName addr ∉ takeover_names.
Proof. intros H%takeover_names_aux. by apply fouName_not_aux in H. Qed.

Lemma fallback_only_takeover n fb k : fallback_only n fb → k ∉ takeover_names → fb !! k = None.
Proof. intros Hfb Hk. eapply fallback_only_names; [exact Hfb|]. by intros ?%fallback_takeover. Qed.

Section frames.
Context {W : Type} `{!HostOps W, !HostLaws W, !HostReliable W}.
Implicit Types (w : W) (n : Net) (A : gset string).

Lemma spec_lookup k n w : view w = n →
  spec False (λ n', n' = n)
    (λ r n', n' = n ∧ match r with
                      | inl l => links n !! k = Some l ∧ Name l = k
                      | inr e => is_link_not_found e = true → links n !! k = None
                      end) (attempt (LinkByName k)) w.
Proof.
  intros <-. unfold spec. apply wp_attempt. eapply wp_mono; [apply law_LinkByName|].
  intros [l|e|s] w' [Hv H]; simpl; by auto.
Qed.

Lemma spec_LinkByName k n w : view w = n →
  spec False (λ n', n' = n) (λ l n', n' = n ∧ links n !! k = Some l ∧ Name l = k) (LinkByName k) w.
Proof.
  intros <-. unfold spec. eapply wp_mono; [apply law_LinkByName|].
  intros [l|e|s] w' [Hv H]; simpl; by auto.
Qed.

Lemma spec_LinkAdd l n w : view w = n →
  spec False (frame fallback_names n) (λ _ n', links n !! Name l = None ∧ ∃ idx fb, fallback_only n fb ∧
      fresh_index (set_links (links n ∪ fb) n) idx ∧
      n' = set_links (<[Name l := new_link idx l]> (links n ∪ fb)) n) (LinkAdd l) w.
Proof.
  intros <-. unfold spec. eapply wp_mono; [apply law_LinkAdd|].
  intros o w' (fb & Hfb & H). split; [|done]. eapply done_or_same_mono; [exact H| |].
  - intros ->. by apply frame_fallback.
  - intros _ (Hno & idx & Hidx & ->). split; [done|]. by exists idx, fb.
Qed.

(** A change to a link of [A]. *)
Lemma spec_framed A n (m : M W unit) (g : Net → Net) w :
  frame A n (view w) →
  (frame A (view w) (g (view w))) →
  wp m (λ o w', done_or_same (view w' = view w) (λ _, view w' = g (view w)) o) w →
  spec False (frame A n) (λ _, frame A n) m w.
Proof.
  intros Hf Hg Hm. unfold spec. eapply wp_mono; [exact Hm|]. intros o w' H. split; [|done].
  eapply done_or_same_mono; [exact H|by intros ->|]. intros _ ->. by etrans.
Qed.

Lemma frame_configure A n l w : frame A n (view w) → Name l ∈ A → links (view w) !! Name l = Some l →
  spec False (frame A n) (λ _, frame A n) (configureDevice l) w.
Proof.
  intros Hf HA Hl. apply spec_wrapping.
  eapply spec_framed; [done|by eapply (frame_insert A (Name l) (link_up l))|by apply law_LinkSetUp].
Qed.

Lemma frame_setupDevice A n d w : frame A n (view w) → aux ⊆ A → Name d ∈ A → Name d ∉ takeover_names →
  spec False (frame A n) (λ _, frame A n) (setupDevice d) w.
Proof.
  intros Hf HA Hd Ht. unfold setupDevice.
  eapply spec_bind; [eapply spec_mono; [by apply spec_lookup|done|by intros ? ->|by intros ? ? H; exact H]|].
  intros r w1 [Hv1 Hr]. apply (spec_bind False _ (λ l n', frame A n n' ∧ Name l = Name d ∧ links n' !! Name d = Some l)).
  - destruct r as [l|e].
    + apply spec_ret. rewrite Hv1. by destruct Hr.
    + apply (spec_bind False _ (λ _, frame A n)).
      * apply spec_wrapping. eapply spec_mono; [by apply spec_LinkAdd|done|..].
        -- intros n' Hn'. etrans; [exact Hf|]. eapply frame_mono; [exact Hn'|]. by etrans; [exact fallback_aux|].
        -- intros _ n' (Hno & idx & fb & Hfb & Hidx & ->). etrans; [exact Hf|].
           apply frame_LinkAdd; [done|by etrans; [exact fallback_aux|]|done|by intros ?%fallback_takeover|done..].
      * intros _ w2 Hf2. apply spec_wrapping. eapply spec_mono; [by apply spec_LinkByName|done|by intros ? ->|].
        intros l n' (-> & ? & ?). done.
  - intros l w2 (Hf2 & Hn & Hl). apply spec_wrapping. apply frame_configure; congruence.
Qed.

Lemma frame_removeDevice A n k w : frame A n (view w) → k ∈ A →
  spec False (frame A n) (λ _, frame A n) (removeDevice k) w.
Proof.
  intros Hf Hk. unfold removeDevice.
  eapply spec_bind; [eapply spec_mono; [by apply spec_lookup|done|by intros ? ->|by intros ? ? H; exact H]|].
  intros [l|e] w1 [Hv1 Hr]; [|apply spec_ret; by rewrite Hv1]. destruct Hr as [Hl Hn].
  apply spec_wrapping. rewrite <-Hv1 in Hf.
  eapply spec_framed; [done|by apply (frame_delete A (Name l)); rewrite Hn|].
  apply law_LinkDel. by rewrite Hv1, Hn.
Qed.

Lemma frame_renameDevice A n k to w : frame A n (view w) → k ∈ A → to ∈ A →
  spec False (frame A n) (λ _, frame A n) (renameDevice k to) w.
Proof.
  intros Hf Hk Hto. unfold renameDevice.
  eapply spec_bind; [eapply spec_mono; [by apply spec_lookup|done|by intros ? ->|by intros ? ? H; exact H]|].
  intros [l|e] w1 [Hv1 Hr]; [|apply spec_ret; by rewrite Hv1]. destruct Hr as [Hl Hn].
  apply spec_wrapping. rewrite <-Hv1 in Hf.
  eapply (spec_framed A n _ (λ n, set_links (<[to := link_named to l]> (delete (Name l) (links n))) n)); [done| |].
  - rewrite Hn. apply frame_rename; [done..|by rewrite Hv1].
  - eapply wp_mono; [apply (law_LinkSetName l to); by rewrite Hv1, Hn|]. intros o w' H.
    eapply done_or_same_mono; [exact H|done|]. by intros _ [_ ?].
Qed.

Lemma frame_setupIPIPDevices A n b4 b6 w : frame A n (view w) → aux ⊆ A →
  spec False (frame A n) (λ _, frame A n) (setupIPIPDevices b4 b6) w.
Proof.
  intros Hf HA. unfold setupIPIPDevices.
  assert (Hin : ∀ k, k ∈ aux → k ∈ A) by set_solver.
  eapply (spec_bind _ _ (λ _, frame A n)).
  - destruct b4.
    + eapply (spec_bind _ _ (λ _, frame A n)).
      * apply spec_wrapping, frame_setupDevice; [done..| |by vm_compute]. apply Hin. unfold aux. set_solver.
      * intros _ w1 H1. apply spec_wrapping, frame_renameDevice; [done|..]; apply Hin; unfold aux; set_solver.
    + apply spec_wrapping, frame_removeDevice; [done|]. apply Hin. unfold aux. set_solver.
  - intros _ w1 H1. destruct b6.
    + eapply (spec_bind _ _ (λ _, frame A n)).
      * apply spec_wrapping, frame_setupDevice; [done..| |by vm_compute]. apply Hin. unfold aux. set_solver.
      * intros _ w2 H2. apply spec_wrapping, frame_renameDevice; [done|..]; apply Hin; unfold aux; set_solver.
    + apply spec_wrapping, frame_removeDevice; [done|]. apply Hin. unfold aux. set_solver.
Qed.
End frames.

(** ** [AddPeer] and [DelPeer] *)
Definition is4 (addr : IP) : bool := bool_decide (To4 addr ≠ []).
Definition peer_local (t : fouTunnel) (addr : IP) : IP := if is4 addr then local4 t else local6 t.
Definition peer_kind (addr : IP) : tunnel → link_kind := if is4 addr then Iptun else Ip6tnl.
Definition peer_link (t : fouTunnel) (addr : IP) (idx : Z) : Link :=
  mkLink (fouName addr) idx true
    (peer_kind addr (mkTunnel 225 true (uint16 (dport t)) (uint16 (sport t))
                       (canonIP addr) (canonIP (peer_local t addr)) false)).

Lemma new_link_peer t addr idx :
  new_link idx (fou_link t (fouName addr) (peer_local t addr) (canonIP addr) (peer_kind addr)) =
  peer_link t addr idx.
Proof.
  unfold new_link, fou_link, peer_link, peer_kind. simpl.
  destruct (is4 addr); simpl; by rewrite canonIP_idemp.
Qed.

(** What an [AddPeer] that returned [o] has done. *)
Definition add_post (t : fouTunnel) (addr : IP) (n : Net) (o : outcome Link) (n' : Net) : Prop :=
  frame ({[fouName addr]} ∪ aux) n n' ∧
  (peer_local t addr = [] → o = Err ErrIPFamilyMismatch ∧ n' = n) ∧
  (∀ l, links n !! fouName addr = Some l → n' = n ∧ ∀ l', o = Ok l' → l' = l) ∧
  (links n !! fouName addr = None → ∀ l, links n' !! fouName addr = Some l → ∃ idx, l = peer_link t addr idx) ∧
  match o with
  | Ok l => links n' !! fouName addr = Some l
  | Err _ => True
  | Panicked _ => False
  end.

Section peers.
Context {W : Type} `{!HostOps W}.

(** The two families differ only in the kind of link and in the device they
    keep. *)
Lemma AddPeer_eq t addr : AddPeer t addr =
  if bool_decide (peer_local t addr = []) then throw ErrIPFamilyMismatch
  else
    r ← attempt (LinkByName (fouName addr));
    match r with
    | inl link => mret link
    | inr e =>
        if negb (is_link_not_found e) then throw (Errorf "netlink: failed to get link: %w" e)
        else
          _ ← wrapping (if is4 addr then "netlink: failed to add fou link: %w"
                        else "netlink: failed to add fou6 link: %w")
                (LinkAdd (fou_link t (fouName addr) (peer_local t addr) (canonIP addr) (peer_kind addr)));
          _ ← wrapping "netlink: failed to setup ipip device: %w"
                (setupIPIPDevices (is4 addr) (negb (is4 addr)));
          LinkByName (fouName addr)
    end.
Proof.
  unfold AddPeer, peer_local, peer_kind, is4, addPeer4, addPeer6. case_bool_decide as H.
  - rewrite fouName_To4, canonIP_v4 by done. done.
  - rewrite canonIP_v6; [done|]. by destruct (decide (To4 addr = [])).
Qed.

Context `{!HostLaws W}.
Implicit Types w : W.

(** Adding a link that was absent, with the devices around it. *)
Lemma spec_newPeer t addr msg w :
  links (view w) !! fouName addr = None →
  let mine n' := frame ({[fouName addr]} ∪ aux) (view w) n' ∧
    ∀ l, links n' !! fouName addr = Some l → ∃ idx, l = peer_link t addr idx in
  @spec W _ _ unreliable _ False mine (λ l n', mine n' ∧ links n' !! fouName addr = Some l)
    (_ ← wrapping msg
           (LinkAdd (fou_link t (fouName addr) (peer_local t addr) (canonIP addr) (peer_kind addr)));
     _ ← wrapping "netlink: failed to setup ipip device: %w" (setupIPIPDevices (is4 addr) (negb (is4 addr)));
     LinkByName (fouName addr)) w.
Proof.
  intros Hno mine. set (A := {[fouName addr]} ∪ aux). set (n := view w).
  assert (HA : fallback_names ⊆ A) by (etrans; [exact fallback_aux|set_solver]).
  assert (Hfn : fouName addr ∉ fallback_names) by (intros ?%fallback_aux; by apply (fouName_not_aux addr)).
  set (here n' := frame A n n' ∧ ∃ idx, links n' !! fouName addr = Some (peer_link t addr idx)).
  assert (Hmine : ∀ n', here n' → mine n') by (intros n' [Hf [idx Hl]]; split; [done|]; intros l ?; exists idx; congruence).
  apply (spec_bind False _ (λ _, here)).
  { apply spec_wrapping. eapply spec_mono; [by apply spec_LinkAdd|done|..].
    - intros n' Hf. split; [by eapply frame_mono|]. intros l Hl. destruct Hf as [_ Hf]. rewrite Hf in Hl by done. congruence.
    - intros _ n' (Hno' & idx & fb & Hfb & Hidx & ->). split; [apply frame_LinkAdd; [set_solver|done..]|].
      exists idx. rewrite <-new_link_peer. apply lookup_insert_eq. }
  intros [] w1 [Hf1 [idx1 H1]].
  assert (Hstep : ∀ n', frame aux (view w1) n' → here n').
  { intros n' Hn'. split; [etrans; [exact Hf1|]; eapply frame_mono; [done|set_solver]|].
    exists idx1. destruct Hn' as [_ ->]; [done|apply fouName_not_aux]. }
  apply (spec_bind False _ (λ _, here)).
  { apply spec_wrapping. eapply spec_mono; [by apply (frame_setupIPIPDevices aux (view w1))|done|by auto..]. }
  intros [] w2 H2. eapply spec_mono; [by apply spec_LinkByName|done|intros ? ->; by apply Hmine|].
  intros l n' (-> & Hl & _). split; [by apply Hmine|done].
Qed.

Lemma wp_AddPeer t addr w : wp (AddPeer t addr) (λ o w', add_post t addr (view w) o (view w')) w.
Proof.
  rewrite AddPeer_eq. case_bool_decide as Hl.
  { apply wp_throw. split; [done|]. split_and!; [done|by intros|congruence|done]. }
  apply wp_bind, wp_attempt. eapply wp_mono; [apply law_LinkByName|].
  intros [l|e|s] w1 [Hv H]; simpl; [| |done].
  - apply wp_ret. rewrite Hv. destruct H as [H Hn]. split; [done|].
    split_and!; [done|naive_solver|congruence|done].
  - destruct (is_link_not_found e) eqn:He; simpl.
    + rewrite <-Hv in H. specialize (H eq_refl). rewrite <-Hv.
      eapply wp_mono; [apply (spec_laws _ _ _ _ _ (spec_newPeer t addr _ w1 H))|].
      intros o w2 Ho. unfold add_post. rewrite H.
      destruct o as [l|e'|s]; simpl in Ho; [destruct Ho as [[Hf Hp] ?]|destruct Ho as [Hf Hp]|done]; by split_and!.
    + apply wp_throw. rewrite Hv. split; [done|]. split_and!; [done|naive_solver|congruence|done].
Qed.

Lemma wp_DelPeer addr w : wp (DelPeer addr) (λ o w', done_or_same (view w' = view w)
  (λ _, view w' = del_link (fouName addr) (view w)) o) w.
Proof.
  unfold DelPeer. apply wp_bind, wp_attempt. eapply wp_mono; [apply law_LinkByName|].
  intros [l|e|s] w1 [Hv H]; simpl; [| |done].
  - destruct H as [H Hn]. eapply wp_mono; [apply law_LinkDel; by rewrite Hv, Hn|]. by rewrite Hv, Hn.
  - destruct (is_link_not_found e); simpl; [|by apply wp_throw].
    apply wp_ret. simpl. rewrite del_link_absent by auto. done.
Qed.
End peers.

(** ** On a working host

    The fallback devices: each is there under its own name or under the name the
    program gives it, never both. *)
Definition takeovers : list (string * string * string) :=
  [("tunl0", "egress_tunl", "ipip"); ("ip6tnl0", "egress_ip6tnl", "ip6tnl")].
Definition fallbacks_ok (ls : gmap string Link) : Prop := ∀ from to k, (from, to, k) ∈ takeovers →
  (∀ l, ls !! from = Some l → Kind l = OtherLink k) ∧ (∀ l, ls !! to = Some l → Kind l = OtherLink k) ∧
  (ls !! from = None ∨ ls !! to = None).

Lemma fallbacks_ok_other ls ls' :
  (∀ from to k, (from, to, k) ∈ takeovers → ls' !! from = ls !! from ∧ ls' !! to = ls !! to) →
  fallbacks_ok ls → fallbacks_ok ls'.
Proof. intros H Hok from to k Hin. destruct (H _ _ _ Hin) as [-> ->]. by apply Hok. Qed.

Lemma takeovers_names from to k : (from, to, k) ∈ takeovers → from ∈ takeover_names ∧ to ∈ takeover_names.
Proof.
  unfold takeovers. intros [[= -> -> ->]|[= -> -> ->]%list_elem_of_singleton]%elem_of_cons;
    unfold takeover_names; set_solver.
Qed.

Lemma fallbacks_ok_insert ls k l : k ∉ takeover_names → fallbacks_ok ls → fallbacks_ok (<[k := l]> ls).
Proof.
  intros Hk. apply fallbacks_ok_other. intros from to d Hin%takeovers_names.
  rewrite !lookup_insert_ne by set_solver. done.
Qed.
Lemma fallbacks_ok_delete ls k : k ∉ takeover_names → fallbacks_ok ls → fallbacks_ok (delete k ls).
Proof.
  intros Hk. apply fallbacks_ok_other. intros from to d Hin%takeovers_names.
  rewrite !lookup_delete_ne by set_solver. done.
Qed.

Lemma fallbacks_ok_union n fb : fallback_only n fb → fallbacks_ok (links n) → fallbacks_ok (links n ∪ fb).
Proof.
  set (ls := links n). intros [Hfb _] Hok from to k Hin. destruct (Hok from to k Hin) as (H1 & H2 & H3).
  assert (Hto : fb !! to = None).
  { destruct (fb !! to) as [l|] eqn:E; [|done]. destruct (Hfb to l E) as (d & Hd & _).
    unfold takeovers in Hin. unfold fallback_devices in Hd. set_solver. }
  assert (Hfrom : ∀ l, fb !! from = Some l → Kind l = OtherLink k).
  { intros l Hl. destruct (Hfb from l Hl) as (d & Hd & -> & _).
    unfold takeovers in Hin. unfold fallback_devices in Hd. set_solver. }
  assert (Hls : (ls ∪ fb) !! to = ls !! to) by (rewrite lookup_union, Hto; by destruct (ls !! to)).
  split; [|split].
  - intros l [Hl|[_ Hl]]%lookup_union_Some_raw; auto.
  - intros l. rewrite Hls. auto.
  - rewrite Hls, lookup_union. destruct (fb !! from) as [l|] eqn:E.
    + right. destruct (ls !! to) as [l'|] eqn:E'; [|done]. exfalso.
      destruct (Hfb from l E) as (d & _ & Hk & _ & Hno & _). rewrite (Hfrom l eq_refl) in Hk.
      injection Hk as <-. by apply (Hno to l' E'), H2.
    + destruct H3 as [-> | ->]; auto.
Qed.

Lemma fallbacks_ok_rename ls from to k l : (from, to, k) ∈ takeovers → ls !! from = Some l →
  fallbacks_ok ls → fallbacks_ok (<[to := link_named to l]> (delete from ls)).
Proof.
  intros Hin Hl Hok from' to' k' Hin'. destruct (Hok from to k Hin) as (H1 & _ & _).
  destruct (Hok from' to' k' Hin') as (H1' & H2' & H3').
  assert (from' = from ∧ to' = to ∧ k' = k ∨ from' ≠ to ∧ from' ≠ from ∧ to' ≠ to ∧ to' ≠ from)
    as [(-> & -> & ->)|(N1 & N2 & N3 & N4)].
  { unfold takeovers in *. apply elem_of_cons in Hin as [[= -> -> ->]|[= -> -> ->]%list_elem_of_singleton];
      apply elem_of_cons in Hin' as [[= -> -> ->]|[= -> -> ->]%list_elem_of_singleton]; auto; by right. }
  - assert (to ≠ from).
    { unfold takeovers in Hin. by apply elem_of_cons in Hin as [[= -> -> ->]|[= -> -> ->]%list_elem_of_singleton]. }
    rewrite lookup_insert_ne, lookup_delete_eq by done. rewrite lookup_insert_eq.
    split; [done|]. split; [|by left]. intros ? [= <-]. simpl. auto.
  - rewrite !lookup_insert_ne, !lookup_delete_ne by done. auto.
Qed.

Definition link_is_up (k : string) (n : Net) : Prop := ∃ l, links n !! k = Some l ∧ FlagUp l = true.

Section working.
Context {W : Type} `{!HostOps W, !HostLaws W, !HostReliable W}.
Implicit Types w : W.

Lemma hspec_setupDevice d w : ifname_ok (Name d) → Name d ∉ takeover_names → fallbacks_ok (links (view w)) →
  hspec (λ _ n', fallbacks_ok (links n') ∧ link_is_up (Name d) n' ∧
           ∀ k, k ∉ takeover_names → k ≠ Name d → links n' !! k = links (view w) !! k) (setupDevice d) w.
Proof.
  intros Hn Ht Hok. unfold setupDevice. eapply hspec_bind; [apply hspec_lookup|].
  intros r w1 [Hv Hr].
  apply (hspec_bind (λ l n', fallbacks_ok (links n') ∧ Name l = Name d ∧ links n' !! Name d = Some l ∧
           ∀ k, k ∉ takeover_names → k ≠ Name d → links n' !! k = links (view w) !! k)).
  - destruct (links (view w) !! Name d) as [l|] eqn:E.
    + destruct Hr as [-> Hl]. apply hspec_ret. by rewrite Hv.
    + destruct Hr as (e & -> & _). rewrite <-Hv in E, Hok. eapply hspec_bind.
      { apply hspec_wrapping. by apply hspec_LinkAdd. }
      intros [] w2 (idx & fb & Hfb & _ & Hv2). apply hspec_wrapping.
      eapply hspec_mono; [apply (hspec_LinkByName _ (new_link idx d)); rewrite Hv2; apply lookup_insert_eq|].
      intros l n' (-> & ->). rewrite Hv2, Hv. split_and!; [|done|apply lookup_insert_eq|].
      * rewrite <-Hv. apply fallbacks_ok_insert; [done|by apply fallbacks_ok_union].
      * intros k Hk Hne. rewrite <-Hv. simpl. rewrite lookup_insert_ne by done. apply fallback_union_lookup; [done|]. by intros ?%fallback_takeover.
  - intros l w2 (Hok2 & Hl & Hin & Hoth). apply hspec_wrapping, hspec_wrapping.
    eapply (hspec_update (λ n', fallbacks_ok (links n') ∧ link_is_up (Name d) n' ∧
           ∀ k, k ∉ takeover_names → k ≠ Name d → links n' !! k = links (view w) !! k)).
    + eapply wp_mono; [apply law_LinkSetUp; congruence|]. intros o w3 Ho.
      eapply done_or_same_mono; [exact Ho|by intros H; exact H|]. intros _ ->. simpl. rewrite Hl. split_and!.
      * by apply fallbacks_ok_insert.
      * exists (link_up l). split; [apply lookup_insert_eq|done].
      * intros k Hk Hne. rewrite lookup_insert_ne by done. auto.
    + intros Hh. apply rel_LinkSetUp; congruence.
Qed.

Lemma hspec_renameDevice from to k w : (from, to, k) ∈ takeovers → fallbacks_ok (links (view w)) →
  hspec (λ _ n', fallbacks_ok (links n') ∧ links n' !! from = None ∧
           ∀ d, d ∉ takeover_names → links n' !! d = links (view w) !! d) (renameDevice from to) w.
Proof.
  intros Hin Hok. unfold renameDevice. eapply hspec_bind; [apply hspec_lookup|].
  intros r w1 [Hv Hr]. destruct (links (view w) !! from) as [l|] eqn:E.
  - destruct Hr as [-> Hl]. apply hspec_wrapping. rewrite <-Hv in *.
    assert (Hto : links (view w1) !! to = None) by (destruct (Hok _ _ _ Hin) as (_ & _ & [?|?]); congruence).
    assert (from ≠ to) by congruence.
    eapply (hspec_update (λ n', fallbacks_ok (links n') ∧ links n' !! from = None ∧
           ∀ d, d ∉ takeover_names → links n' !! d = links (view w1) !! d)).
    + eapply wp_mono; [apply law_LinkSetName; congruence|]. intros o w2 Ho.
      eapply done_or_same_mono; [exact Ho|by intros H'; exact H'|]. intros _ [_ ->]. simpl. rewrite Hl. split_and!.
      * by eapply fallbacks_ok_rename.
      * by rewrite lookup_insert_ne, lookup_delete_eq.
      * intros d Hd. pose proof (takeovers_names _ _ _ Hin).
        by rewrite lookup_insert_ne, lookup_delete_ne by set_solver.
    + intros Hh. apply rel_LinkSetName; [done|congruence|done|].
      unfold takeovers in Hin. unfold ifname_ok.
      apply elem_of_cons in Hin as [[= -> -> ->]|[= -> -> ->]%list_elem_of_singleton]; simpl; lia.
  - destruct Hr as (e & -> & _). apply hspec_ret. by rewrite Hv.
Qed.

Lemma hspec_removeDevice k w : k ∉ takeover_names → fallbacks_ok (links (view w)) →
  hspec (λ _ n', fallbacks_ok (links n') ∧ links n' = delete k (links (view w))) (removeDevice k) w.
Proof.
  intros Hk Hok. unfold removeDevice. eapply hspec_bind; [apply hspec_lookup|].
  intros r w1 [Hv Hr]. destruct (links (view w) !! k) as [l|] eqn:E.
  - destruct Hr as [-> Hl]. apply hspec_wrapping. rewrite <-Hv in *.
    eapply (hspec_update (λ n', fallbacks_ok (links n') ∧ links n' = delete k (links (view w1)))).
    + eapply wp_mono; [apply law_LinkDel; congruence|]. intros o w2 Ho.
      eapply done_or_same_mono; [exact Ho|by intros H; exact H|]. intros _ ->. simpl. rewrite Hl. split; [|done].
      by apply fallbacks_ok_delete.
    + intros Hh. apply rel_LinkDel; congruence.
  - destruct Hr as (e & -> & _). apply hspec_ret. rewrite Hv. split; [done|]. by rewrite delete_id.
Qed.

(** The flow-based device of one family comes up, that of the other goes. *)
Definition flow_device (b : bool) : string := if b then ipip4Device else ipip6Device.
Definition fallback_name (b : bool) : string := if b then "tunl0" else "ip6tnl0".
Definition one_family (b : bool) (n : Net) : Prop :=
  link_is_up (flow_device b) n ∧ links n !! flow_device (negb b) = None ∧ links n !! fallback_name b = None.

Lemma hspec_setupIPIPDevices b w : fallbacks_ok (links (view w)) →
  hspec (λ _ n', fallbacks_ok (links n') ∧ one_family b n') (setupIPIPDevices b (negb b)) w.
Proof.
  intros Hok. unfold setupIPIPDevices, one_family. destruct b; simpl.
  - eapply (hspec_bind (λ _ n', fallbacks_ok (links n') ∧ link_is_up ipip4Device n' ∧ links n' !! "tunl0" = None)).
    + eapply hspec_bind; [apply hspec_wrapping, (hspec_setupDevice (flow_link ipip4Device Iptun));
        [split; simpl; lia|by vm_compute|done]|].
      intros [] w1 (Hok1 & (l & Hl & Hup) & _). apply hspec_wrapping.
      eapply hspec_mono; [by apply (hspec_renameDevice _ _ "ipip"); [left|]|].
      intros [] n' (? & ? & Hs). split_and!; [done| |done]. exists l. rewrite Hs; [done|by vm_compute].
    + intros [] w1 (Hok1 & (l & Hl & Hup) & Hno). apply hspec_wrapping.
      eapply hspec_mono; [by apply hspec_removeDevice; [vm_compute|]|].
      intros [] n' [? E]. split_and!; [done| | |].
      * exists l. by rewrite E, lookup_delete_ne.
      * by rewrite E, lookup_delete_eq.
      * by rewrite E, lookup_delete_ne.
  - eapply (hspec_bind (λ _ n', fallbacks_ok (links n') ∧ links n' !! ipip4Device = None)).
    + apply hspec_wrapping. eapply hspec_mono; [by apply hspec_removeDevice; [vm_compute|]|].
      intros [] n' [? E]. split; [done|]. by rewrite E, lookup_delete_eq.
    + intros [] w1 (Hok1 & Hno).
      eapply hspec_bind; [apply hspec_wrapping, (hspec_setupDevice (flow_link ipip6Device Ip6tnl));
        [split; simpl; lia|by vm_compute|done]|].
      intros [] w2 (Hok2 & (l & Hl & Hup) & Hoth). apply hspec_wrapping.
      eapply hspec_mono; [by apply (hspec_renameDevice _ _ "ip6tnl"); [right; left|]|].
      intros [] n' (? & ? & Hs). split_and!; [done| | |done].
      * exists l. rewrite Hs; [done|by vm_compute].
      * rewrite Hs, Hoth; [done|by vm_compute..].
Qed.

(** [AddPeer] for a family the tunnel has an address of. *)
Lemma hspec_AddPeer t addr w : peer_local t addr ≠ [] → fallbacks_ok (links (view w)) →
  hspec (λ _ n', fallbacks_ok (links n') ∧
           (links (view w) !! fouName addr = None → one_family (is4 addr) n')) (AddPeer t addr) w.
Proof.
  intros Hl Hok. rewrite AddPeer_eq, bool_decide_eq_false_2 by done.
  eapply hspec_bind; [apply hspec_lookup|]. intros r w1 [Hv Hr].
  destruct (links (view w) !! fouName addr) as [l|] eqn:E.
  - destruct Hr as [-> _]. apply hspec_ret. by rewrite Hv.
  - destruct Hr as (e & -> & He). rewrite He. simpl. rewrite <-Hv in E, Hok. eapply hspec_bind.
    { apply hspec_wrapping, hspec_LinkAdd; [done|]. unfold ifname_ok. simpl. rewrite length_fouName. lia. }
    intros [] w2 (idx & fb & Hfb & _ & Hv2). eapply hspec_bind.
    { apply hspec_wrapping. eapply hspec_and.
      - by apply (frame_setupIPIPDevices aux (view w2)).
      - apply hspec_setupIPIPDevices. rewrite Hv2. simpl.
        apply fallbacks_ok_insert; [apply fouName_not_takeover|by apply fallbacks_ok_union]. }
    intros [] w3 [[_ Hf] [Hok3 H1]].
    eapply hspec_mono; [apply (hspec_LinkByName _ (peer_link t addr idx))|].
    + rewrite Hf by apply fouName_not_aux. rewrite Hv2, <-new_link_peer. apply lookup_insert_eq.
    + intros l n' (-> & ->). done.
Qed.

Lemma hspec_DelPeer addr w : fallbacks_ok (links (view w)) →
  hspec (λ _ n', fallbacks_ok (links n')) (DelPeer addr) w.
Proof.
  intros Hok. unfold DelPeer. eapply hspec_bind; [apply hspec_lookup|]. intros r w1 [Hv Hr].
  destruct (links (view w) !! fouName addr) as [l|] eqn:E.
  - destruct Hr as [-> Hl]. rewrite <-Hv in *. eapply (hspec_update (λ n', fallbacks_ok (links n'))).
    + eapply wp_mono; [apply law_LinkDel; congruence|]. intros o w2 Ho.
      eapply done_or_same_mono; [exact Ho|by intros H; exact H|]. intros _ ->. simpl. rewrite Hl.
      apply fallbacks_ok_delete; [apply fouName_not_takeover|done].
    + intros Hh. apply rel_LinkDel; congruence.
  - destruct Hr as (e & -> & He). rewrite He. apply hspec_ret. by rewrite Hv.
Qed.
End working.

(** ** [Init] *)
Definition init_net4 (t : fouTunnel) (n : Net) : Net :=
  let n := set_fous (fous n ++ [mkFou V4 4 (dport t) true]) n in
  let n := set_sysctl "net.ipv4.conf.all.rp_filter" "0"
             (set_sysctl "net.ipv4.conf.default.rp_filter" "0" n) in
  let n := set_forwarding V4 n in
  set_chain V4 ("mangle", "POSTROUTING")
    (checksum_rule (dport t) :: chain_of V4 ("mangle", "POSTROUTING") n) n.
Definition init_net6 (t : fouTunnel) (n : Net) : Net :=
  let n := set_fous (fous n ++ [mkFou V6 41 (dport t) true]) n in
  let n := set_forwarding V6 n in
  set_chain V6 ("mangle", "POSTROUTING")
    (checksum_rule (dport t) :: chain_of V6 ("mangle", "POSTROUTING") n) n.
Definition init_net (t : fouTunnel) (n : Net) : Net :=
  let n := if bool_decide (local4 t ≠ []) then init_net4 t n else n in
  if bool_decide (local6 t ≠ []) then init_net6 t n else n.

(** The ports [Init] opens are free. *)
Definition ports_free (t : fouTunnel) (n : Net) : Prop :=
  (local4 t ≠ [] → (V4, dport t) ∉ fou_key <$> fous n) ∧
  (local6 t ≠ [] → (V6, dport t) ∉ fou_key <$> fous n).

Section init.
Context {W : Type} `{!HostOps W, !HostLaws W, !HostReliable W}.
Implicit Types w : W.

(** [n'] is [g n] up to the fallback devices. *)
Definition upto (g : Net → Net) (n n' : Net) : Prop :=
  ∃ ls, n' = set_links ls (g n) ∧ routes (g n) = routes n ∧ frame aux n (set_links ls n) ∧
    (fallbacks_ok (links n) → fallbacks_ok ls).
Definition untouched_dummy (n n' : Net) : Prop := links n' !! fouDummy = links n !! fouDummy.

Lemma upto_untouched g n n' : upto g n n' → untouched_dummy n n'.
Proof. intros (ls & -> & _ & [_ Hls] & _). apply (Hls fouDummy). by vm_compute. Qed.

(** A step of [Init] that does not concern links. *)
Lemma spec_step (g h : Net → Net) n ok (m : M W unit) w :
  upto g n (view w) → (∀ ls n, h (set_links ls n) = set_links ls (h n)) → (∀ n, routes (h n) = routes n) →
  wp m (λ o w', done_or_same (view w' = view w) (λ _, view w' = h (view w)) o) w →
  (ok → healthy w → wp m (λ o w', o = Ok tt ∧ healthy w') w) →
  spec ok (untouched_dummy n) (λ _, upto (h ∘ g) n) m w.
Proof.
  intros Hup Hh Hrt Hl Hr. eapply spec_mono; [by apply (spec_update ok (λ n', n' = h (view w)))|done| |].
  - intros n' ->. by eapply upto_untouched.
  - intros _ n' ->. destruct Hup as (ls & -> & Hg & Hls). exists ls. rewrite Hh. split; [done|]. split; [|done]. simpl. by rewrite Hrt.
Qed.

Lemma spec_modProbe g n ok m w : upto g n (view w) →
  spec ok (untouched_dummy n) (λ _, upto g n) (modProbe m : M W unit) w.
Proof.
  intros (ls & Hv & Hg & Hls & Hok). apply spec_wrapping. unfold spec. apply wp_and.
  - eapply wp_mono; [apply law_exec_modprobe|]. intros o w' (fb & Hfb & Hv' & Ho).
    assert (upto g n (view w')).
    { rewrite Hv in Hfb. exists (ls ∪ fb). rewrite Hv', Hv. split; [done|]. split; [done|].
      split; [|intros ?; apply (fallbacks_ok_union (set_links ls (g n)) fb Hfb); auto].
      etrans; [exact Hls|]. apply (frame_fallback aux fb (set_links ls n)); [exact fallback_aux|].
      by apply (fallback_only_ext (set_links ls (g n))). }
    eapply done_or_same_mono; [exact Ho|intros _; by eapply upto_untouched|done].
  - unfold wp. intros _ Hh. destruct (rel_exec_modprobe m w Hh) as [-> ?]. eauto.
Qed.

Lemma spec_initFou4 g n t w : upto g n (view w) → fous (g n) = fous n →
  spec ((V4, dport t) ∉ fou_key <$> fous n) (untouched_dummy n) (λ _, upto (init_net4 t ∘ g) n) (initFou4 t : M W unit) w.
Proof.
  intros Hup Hfou. unfold initFou4.
  eapply spec_bind; [by apply spec_wrapping, spec_modProbe|]. intros [] w1 H1.
  eapply spec_bind.
  { apply spec_wrapping. eapply (spec_step g (λ n, set_fous (fous n ++ [mkFou V4 4 (dport t) true]) n)); [done..| |].
    - eapply wp_mono; [apply law_FouAdd|]. intros o w' Ho.
      eapply done_or_same_mono; [exact Ho|done|by intros _ [_ ?]].
    - intros Hok Hh. apply rel_FouAdd; [done|]. destruct H1 as (ls & -> & _). simpl. by rewrite Hfou. }
  intros [] w2 H2. eapply spec_bind.
  { apply spec_wrapping. eapply (spec_step _ (set_sysctl "net.ipv4.conf.default.rp_filter" "0")); [exact H2|done..|apply law_Sysctl|].
    intros _. apply rel_Sysctl. }
  intros [] w3 H3. eapply spec_bind.
  { apply spec_wrapping. eapply (spec_step _ (set_sysctl "net.ipv4.conf.all.rp_filter" "0")); [exact H3|done..|apply law_Sysctl|].
    intros _. apply rel_Sysctl. }
  intros [] w4 H4. eapply spec_bind.
  { apply spec_wrapping. eapply (spec_step _ (set_forwarding V4)); [exact H4|done..|apply law_EnableIPForward|].
    intros _. apply rel_EnableIPForward. }
  intros [] w5 H5. eapply spec_bind.
  { eapply (spec_step _ id); [exact H5|done..| |intros _; apply rel_iptables_New].
    eapply wp_mono; [apply law_iptables_New|]. intros o w' [Hv Ho].
    eapply done_or_same_mono; [exact Ho|done|done]. }
  intros [] w6 H6. apply spec_wrapping.
  eapply (spec_step _ (λ n, set_chain V4 ("mangle", "POSTROUTING")
    (checksum_rule (dport t) :: chain_of V4 ("mangle", "POSTROUTING") n) n)); [exact H6|done..|apply law_iptables_Insert|].
  intros _. apply rel_iptables_Insert.
Qed.

Lemma spec_initFou6 g n t w : upto g n (view w) →
  spec ((V6, dport t) ∉ fou_key <$> fous (g n)) (untouched_dummy n) (λ _, upto (init_net6 t ∘ g) n) (initFou6 t : M W unit) w.
Proof.
  intros Hup. unfold initFou6.
  eapply spec_bind; [by apply spec_wrapping, spec_modProbe|]. intros [] w1 H1.
  eapply spec_bind.
  { apply spec_wrapping. eapply (spec_step g (λ n, set_fous (fous n ++ [mkFou V6 41 (dport t) true]) n)); [done..| |].
    - eapply wp_mono; [apply law_FouAdd|]. intros o w' Ho.
      eapply done_or_same_mono; [exact Ho|done|by intros _ [_ ?]].
    - intros Hok Hh. apply rel_FouAdd; [done|]. by destruct H1 as (ls & -> & _). }
  intros [] w2 H2. eapply spec_bind.
  { apply spec_wrapping. eapply (spec_step _ (set_forwarding V6)); [exact H2|done..|apply law_EnableIPForward|].
    intros _. apply rel_EnableIPForward. }
  intros [] w5 H5. eapply spec_bind.
  { eapply (spec_step _ id); [exact H5|done..| |intros _; apply rel_iptables_New].
    eapply wp_mono; [apply law_iptables_New|]. intros o w' [Hv Ho].
    eapply done_or_same_mono; [exact Ho|done|done]. }
  intros [] w6 H6. apply spec_wrapping.
  eapply (spec_step _ (λ n, set_chain V6 ("mangle", "POSTROUTING")
    (checksum_rule (dport t) :: chain_of V6 ("mangle", "POSTROUTING") n) n)); [exact H6|done..|apply law_iptables_Insert|].
  intros _. apply rel_iptables_Insert.
Qed.

(** The state after a first [Init]. *)
Definition init_done (t : fouTunnel) (n n' : Net) : Prop :=
  ∃ ls idx, n' = set_links ls (init_net t n) ∧ ls !! fouDummy = Some (mkLink fouDummy idx false Dummy) ∧
    frame ({[fouDummy]} ∪ aux) n (set_links ls n) ∧ (fallbacks_ok (links n) → fallbacks_ok ls).

Lemma spec_init_tail t n w : view w = n → links n !! fouDummy = None →
  spec (ports_free t n) (untouched_dummy n) (λ _, init_done t n)
    (_ ← if bool_decide (local4 t ≠ []) then initFou4 t else mret tt;
     _ ← if bool_decide (local6 t ≠ []) then initFou6 t else mret tt;
     LinkAdd (mkLink fouDummy 0 false Dummy)) w.
Proof.
  intros Hv Hno.
  set (g := λ n, if bool_decide (local4 t ≠ []) then init_net4 t n else n).
  assert (Hup : upto id n (view w)).
  { exists (links n). rewrite Hv. change (id n) with n. rewrite !set_links_id. do 2 (split; [done|]). split; [reflexivity|done]. }
  apply (spec_bind _ _ (λ _, upto g n)).
  { unfold g. case_bool_decide as H4; [|by apply spec_ret].
    eapply spec_mono; [by apply (spec_initFou4 id)|by intros [? _]; auto|done|done]. }
  intros [] w1 H1. apply (spec_bind _ _ (λ _, upto (init_net t) n)).
  { assert (E6 : (local6 t ≠ [] → (V6, dport t) ∉ fou_key <$> fous n) → local6 t ≠ [] →
              (V6, dport t) ∉ fou_key <$> fous (g n)).
    { intros H H6 Hin. apply (H H6). revert Hin. unfold g. case_bool_decide; [|done]. simpl.
      rewrite fmap_app, elem_of_app. by intros [?|?%list_elem_of_singleton]. }
    destruct (decide (local6 t = [])) as [H6|H6].
    - rewrite bool_decide_eq_false_2 by naive_solver. apply spec_ret.
      destruct H1 as (ls & -> & Hls). exists ls. unfold init_net. by rewrite (bool_decide_eq_false_2 (local6 t ≠ [])) by naive_solver.
    - rewrite bool_decide_eq_true_2 by done.
      eapply spec_mono; [by apply (spec_initFou6 g)|intros [_ ?]; auto|done|].
      intros [] n' (ls & -> & Hls). exists ls. unfold init_net. by rewrite (bool_decide_eq_true_2 (local6 t ≠ [])). }
  intros [] w2 (ls & Hv2 & Hrt & Hls & Hfok). unfold spec. apply wp_and.
  - eapply wp_mono; [apply law_LinkAdd|]. intros o w3 (fb & Hfb & Ho). rewrite Hv2 in Hfb, Ho.
    assert (Hfb' : fallback_only (set_links ls n) fb) by by apply (fallback_only_ext (set_links ls (init_net t n))).
    assert (Hf2 : frame aux n (set_links (ls ∪ fb) n)).
    { etrans; [exact Hls|]. by apply (frame_fallback aux fb (set_links ls n)); [exact fallback_aux|]. }
    eapply done_or_same_mono; [exact Ho| |].
    + intros ->. apply Hf2. by vm_compute.
    + intros _ (Hno2 & idx & Hidx & ->). exists (<[fouDummy := new_link idx (mkLink fouDummy 0 false Dummy)]> (ls ∪ fb)), idx.
      split; [done|]. split; [apply lookup_insert_eq|].
      split; [|intros ?; apply fallbacks_ok_insert; [by vm_compute|]; apply (fallbacks_ok_union (set_links ls n) fb); [done|]; by apply Hfok].
      etrans; [eapply frame_mono; [exact Hls|set_solver]|].
      apply (frame_LinkAdd _ fouDummy _ fb (set_links ls n)); [set_solver|etrans; [exact fallback_aux|set_solver]|done|by vm_compute|done|].
      by apply (fresh_index_ext (set_links (ls ∪ fb) (init_net t n))).
  - unfold wp. intros _ Hh. destruct (rel_LinkAdd (mkLink fouDummy 0 false Dummy) w2 Hh) as [-> ?]; [| |eauto].
    + rewrite Hv2. simpl. destruct Hls as [_ Hls]. simpl in Hls. rewrite Hls; [done|by vm_compute].
    + unfold ifname_ok. simpl. lia.
Qed.

Lemma wp_Init t w : wp (Init t) (λ o w',
    if bool_decide (is_Some (links (view w) !! fouDummy))
    then view w' = view w ∧ done_or_same True (λ _, True) o ∧ (healthy w → o = Ok tt ∧ healthy w')
    else done_or_same (untouched_dummy (view w) (view w')) (λ _, init_done t (view w) (view w')) o ∧
         (ports_free t (view w) → healthy w → o = Ok tt ∧ healthy w')) w.
Proof.
  unfold Init. apply wp_bind, wp_attempt. eapply wp_mono; [apply use_LinkByName|].
  intros [l|e|s] w1 [[Hv H] Hr]; simpl; [| |done].
  - destruct H as [Hl _]. apply wp_ret. rewrite bool_decide_eq_true_2 by (by exists l).
    split_and!; [done|done|]. intros Hh. destruct (Hr Hh). done.
  - destruct (is_link_not_found e) eqn:He; simpl.
    + specialize (H eq_refl). rewrite H, (bool_decide_eq_false_2 (is_Some None)) by by intros [].
      rewrite H in Hr. pose proof (spec_init_tail t (view w) w1 Hv H) as Hs. unfold spec in Hs.
      eapply wp_mono; [exact Hs|].
      intros o w2 [Ho Hr2]. split; [done|]. intros Hok Hh. destruct (Hr Hh) as [_ Hh1].
      by destruct (Hr2 Hok Hh1) as [[[] ->] ?].
    + apply wp_throw. case_bool_decide as Hd.
      * split_and!; [done|done|]. intros Hh. destruct Hd as [l Hl]. rewrite Hl in Hr. by destruct (Hr Hh).
      * split; [by simpl; rewrite Hv|]. intros _ Hh. destruct (Hr Hh) as [Hr' _].
        destruct (links (view w) !! fouDummy) as [l|]; [destruct Hd; by exists l|].
        destruct Hr' as (e' & [= <-] & ?). congruence.
Qed.
End init.

(** ** Properties *)
(** C13: a tunnel name fits into the 15 bytes the kernel allows; names of the two
    families never coincide; two IPv4 peers (in either byte form) share a name
    exactly when they are the same address, and two IPv6 peers exactly when the
    SHA-1 digests of the addresses agree on their first four bytes. *)
Theorem fouName_identifies a b :
  wf_ip a → wf_ip b →
  (0 < String.length (fouName a) ≤ 15)%nat ∧
  (fouName a = fouName b → (To4 a = [] ↔ To4 b = [])) ∧
  (To4 a ≠ [] → To4 b ≠ [] → (fouName a = fouName b ↔ canonIP a = canonIP b)) ∧
  (To4 a = [] → To4 b = [] → (fouName a = fouName b ↔ take 4 (sha1_Sum a) = take 4 (sha1_Sum b))).
Proof.
  intros Ha Hb. rewrite length_fouName. split; [lia|]. split; [|split; [|by apply fouName_v6]].
  - intros H%fouName_family. destruct (decide (To4 a = [])), (decide (To4 b = [])); tauto.
  - intros H4a H4b. split; [by apply fouName_v4_inj|]. intros H.
    rewrite <-(fouName_canonIP a), <-(fouName_canonIP b). by rewrite H.
Qed.

Lemma fouName_shared : fouName (ParseIP "fd02::45d") = fouName (ParseIP "fd02::c27e").
Proof. by vm_compute. Qed.

(** IPv6 names keep only four bytes of a hash: two addresses a few thousand
    hosts apart have the same name, and once one of them is a peer, [AddPeer] of
    the other returns the tunnel to the first. *)
Theorem fou6_collision {W} `{!HostOps W, !HostLaws W} t (w : W) :
  IP_Equal (ParseIP "fd02::45d") (ParseIP "fd02::c27e") = false ∧
  let a := ParseIP "fd02::45d" in let b := ParseIP "fd02::c27e" in
  wp (AddPeer t a) (λ o1 w1, ∀ la, o1 = Ok la →
    wp (AddPeer t b) (λ o2 w2, ∀ lb, o2 = Ok lb → lb = la ∧ view w2 = view w1) w1) w.
Proof.
  split; [by vm_compute|]. intros. pose proof fouName_shared as Heq. fold a b in Heq. 
  eapply wp_mono; [apply wp_AddPeer|]. intros o1 w1 (_ & _ & _ & _ & Hla) la ->.
  rewrite Heq in Hla. eapply wp_mono; [apply wp_AddPeer|].
  intros o2 w2 (_ & _ & H2 & _) lb ->. destruct (H2 la Hla) as [Hv Hlb].
  split; [exact (Hlb lb eq_refl)|exact Hv].
Qed.

(** C10: every run of [AddPeer]: it never panics and touches only the peer's link
    and the devices of the encapsulation stack; without a local address of the
    family it reports the mismatch and does nothing; a peer that has a link keeps
    it, and nothing changes; a new link is a FoU tunnel between the local address
    and the peer with the ports cut to 16 bits. *)
Theorem AddPeer_spec {W} `{!HostOps W, !HostLaws W} t addr (w : W) :
  wp (AddPeer t addr) (λ o w', add_post t addr (view w) o (view w')) w.
Proof. apply wp_AddPeer. Qed.

(** On a working host [AddPeer] returns the link, and calling it again
    returns the same link and changes nothing. *)
Theorem AddPeer_idempotent {W} `{!HostOps W, !HostLaws W, !HostReliable W} t addr (w : W) :
  healthy w → fallbacks_ok (links (view w)) → peer_local t addr ≠ [] →
  ∃ l w1 w2, AddPeer t addr w = (Ok l, w1) ∧ AddPeer t addr w1 = (Ok l, w2) ∧
    links (view w1) !! fouName addr = Some l ∧ view w2 = view w1 ∧
    healthy w2 ∧ fallbacks_ok (links (view w2)).
Proof.
  intros Hh Hf Hl.
  pose proof (hspec_AddPeer t addr w Hl Hf Hh) as H1. pose proof (wp_AddPeer t addr w) as P1.
  unfold wp in H1, P1. destruct (AddPeer t addr w) as [o1 w1]. simpl in *.
  destruct H1 as (l & -> & [Hf1 _] & Hh1). destruct P1 as (_ & _ & _ & _ & Hl1).
  pose proof (hspec_AddPeer t addr w1 Hl Hf1 Hh1) as H2. pose proof (wp_AddPeer t addr w1) as P2.
  unfold wp in H2, P2. destruct (AddPeer t addr w1) as [o2 w2] eqn:E2. simpl in *.
  destruct H2 as (l2 & -> & [Hf2 _] & Hh2). destruct P2 as (_ & _ & P2 & _).
  destruct (P2 l Hl1) as [Hv Heq]. rewrite (Heq l2 eq_refl) in *. eauto 10.
Qed.

(** C15: on a working host the first peer of each family removes the flow-based
    device that the first peer of the other family brought up: a dual-stack host
    keeps only the device of the family added last. *)
Theorem second_family_removes_device {W} `{!HostOps W, !HostLaws W, !HostReliable W} t a b (w : W) :
  healthy w → fallbacks_ok (links (view w)) → local4 t ≠ [] → local6 t ≠ [] →
  is4 b = negb (is4 a) →
  links (view w) !! fouName a = None → links (view w) !! fouName b = None →
  ∃ la lb w1 w2, AddPeer t a w = (Ok la, w1) ∧ AddPeer t b w1 = (Ok lb, w2) ∧
    link_is_up (flow_device (is4 a)) (view w1) ∧
    link_is_up (flow_device (is4 b)) (view w2) ∧
    links (view w2) !! flow_device (is4 a) = None.
Proof.
  intros Hh Hf H4 H6 Hab Ha Hb.
  assert (Hloc : ∀ x, peer_local t x ≠ []) by (intros x; unfold peer_local; by destruct (is4 x)).
  pose proof (hspec_AddPeer t a w (Hloc a) Hf Hh) as H1. pose proof (wp_AddPeer t a w) as P1.
  unfold wp in H1, P1. destruct (AddPeer t a w) as [o1 w1]. simpl in *.
  destruct H1 as (la & -> & [Hf1 Hone1] & Hh1). destruct P1 as ([_ Hfr] & _).
  assert (Hb1 : links (view w1) !! fouName b = None).
  { rewrite Hfr; [done|]. intros [Heq%elem_of_singleton|Haux]%elem_of_union.
    - apply fouName_family in Heq. unfold is4 in Hab. repeat case_bool_decide; naive_solver.
    - by apply fouName_not_aux in Haux. }
  pose proof (hspec_AddPeer t b w1 (Hloc b) Hf1 Hh1) as H2.
  unfold wp in H2. destruct (AddPeer t b w1) as [o2 w2] eqn:E2. simpl in *.
  destruct H2 as (lb & -> & [_ Hone2] & _). specialize (Hone1 Ha). specialize (Hone2 Hb1).
  destruct Hone1 as (Hup1 & _), Hone2 as (Hup2 & Hno & _). rewrite Hab, negb_involutive in Hno.
  eauto 10.
Qed.

(** C12: [DelPeer] undoes [AddPeer]: when both succeed the peer has no link and
    every other link outside the encapsulation stack is as before. *)
Theorem DelPeer_AddPeer {W} `{!HostOps W, !HostLaws W} t addr (w : W) :
  wp (_ ← AddPeer t addr; DelPeer addr) (λ o w', o = Ok tt →
    links (view w') !! fouName addr = None ∧
    ∀ k, k ∉ aux → k ≠ fouName addr → links (view w') !! k = links (view w) !! k) w.
Proof.
  apply wp_bind. eapply wp_mono; [apply wp_AddPeer|]. intros [l|e|s] w1 (Hf & _); simpl; [|done..].
  eapply wp_mono; [apply wp_DelPeer|]. intros o w2 Ho ->. simpl in Ho. rewrite Ho. simpl.
  split; [apply lookup_delete_eq|]. intros k Hk Hne. rewrite lookup_delete_ne by done.
  apply Hf. set_solver.
Qed.

(** C14: [Init]: once the marker link exists it does nothing; before, a success
    opens the FoU ports, sets the sysctls, forwarding and the checksum rules of
    the families with a local address and adds the marker, and an error leaves
    the marker absent; on a working host with free ports it succeeds. *)
Theorem Init_spec {W} `{!HostOps W, !HostLaws W, !HostReliable W} t (w : W) :
  wp (Init t) (λ o w',
    if bool_decide (is_Some (links (view w) !! fouDummy))
    then view w' = view w ∧ done_or_same True (λ _, True) o ∧ (healthy w → o = Ok tt ∧ healthy w')
    else done_or_same (untouched_dummy (view w) (view w')) (λ _, init_done t (view w) (view w')) o ∧
         (ports_free t (view w) → healthy w → o = Ok tt ∧ healthy w')) w.
Proof. apply wp_Init. Qed.

(** A port that [Init] opened before it failed. *)
Definition half_initialised (t : fouTunnel) (n : Net) : Prop :=
  links n !! fouDummy = None ∧ local4 t ≠ [] ∧ (V4, dport t) ∈ fou_key <$> fous n.

(** C16: an [Init] that failed after it opened the IPv4 port can never succeed:
    every later call fails and leaves that state as it is. *)
Theorem Init_never_recovers {W} `{!HostOps W, !HostLaws W} t (w : W) :
  half_initialised t (view w) →
  wp (Init t) (λ o w', (∃ e, o = Err e) ∧ half_initialised t (view w')) w.
Proof.
  intros (Hno & H4 & Hin). unfold Init. apply wp_bind, wp_attempt.
  eapply wp_mono; [apply law_LinkByName|]. intros [l|e|s] w1 [Hv H]; simpl; [|simpl in H|done].
  { destruct H; congruence. }
  destruct (is_link_not_found e); simpl.
  2:{ apply wp_throw. rewrite Hv. split; [by eexists|done]. }
  rewrite (bool_decide_eq_true_2 (local4 t ≠ [])) by done. apply wp_bind. unfold initFou4.
  apply wp_bind, wp_wrapping, wp_wrapping. eapply wp_mono; [apply law_exec_modprobe|].
  intros o w2 (fb & Hfb & Hv2 & Ho).
  assert (half_initialised t (view w2)) as Hhalf.
  { rewrite Hv2, Hv. split; [|done]. simpl. rewrite lookup_union_l; [done|].
    eapply fallback_only_names; [exact Hfb|by vm_compute]. }
  destruct o as [[]|e'|s]; simpl in *; [|split; [by eexists|done]|done].
  apply wp_bind, wp_wrapping. eapply wp_mono; [apply law_FouAdd|]. intros o w3 H3.
  destruct o as [[]|e'|s]; simpl in *; [|split; [by eexists|by rewrite H3]|done].
  destruct H3 as [Hfree _]. by destruct Hfree, Hhalf as (_ & _ & ?).
Qed.

(** ** Witnesses *)
Definition sample_tunnel : fouTunnel := mkFouTunnel 0 5555 [10; 1; 1; 1] (ParseIP "fd01::1").
Definition peer4 : IP := [10; 1; 2; 3].
Definition peer6 : IP := ParseIP "fd01::2".

Lemma empty_healthy : healthy empty_host.
Proof. apply host_healthyb_ok. by vm_compute. Qed.
Lemma empty_fallbacks : fallbacks_ok (links (view empty_host)).
Proof. intros from to k _. simpl. rewrite !lookup_empty. split_and!; [done|done|by left]. Qed.

Lemma fouName_identifies_witness :
  fouName [10; 1; 2; 3] = fouName (ParseIP "10.1.2.3") ∧
  (fouName [10; 1; 2; 3] = fouName [10; 1; 2; 4] ↔ canonIP [10; 1; 2; 3] = canonIP [10; 1; 2; 4]) ∧
  fouName (ParseIP "fd02::1") ≠ fouName (ParseIP "fd02::2").
Proof.
  assert (Hwf : ∀ x, is_byte x → wf_ip [10; 1; 2; x]).
  { intros x Hx. split; [by right; left|]. repeat (apply Forall_cons_2; [done || by split|]). apply Forall_nil_2. }
  split; [by vm_compute|]. split; [apply (fouName_identifies [10; 1; 2; 3] [10; 1; 2; 4]); [by apply Hwf..|done|done]|].
  destruct (fouName_identifies (ParseIP "fd02::1") (ParseIP "fd02::2") (ParseIP_wf_ip _) (ParseIP_wf_ip _)) as (_ & _ & _ & H6).
  rewrite H6 by (by vm_compute). apply (bool_decide_unpack _). by vm_compute.
Defined.

Lemma AddPeer_idempotent_witness :
  ∃ l w1 w2, AddPeer sample_tunnel peer4 empty_host = (Ok l, w1) ∧ AddPeer sample_tunnel peer4 w1 = (Ok l, w2) ∧
    links (view w1) !! fouName peer4 = Some l ∧ view w2 = view w1 ∧
    healthy w2 ∧ fallbacks_ok (links (view w2)).
Proof. exact (AddPeer_idempotent sample_tunnel peer4 empty_host empty_healthy empty_fallbacks ltac:(done)). Defined.

Lemma second_family_removes_device_witness :
  ∃ la lb w1 w2, AddPeer sample_tunnel peer4 empty_host = (Ok la, w1) ∧
    AddPeer sample_tunnel peer6 w1 = (Ok lb, w2) ∧
    link_is_up "egress_ipip4" (view w1) ∧ link_is_up "egress_ipip6" (view w2) ∧
    links (view w2) !! "egress_ipip4" = None.
Proof.
  exact (second_family_removes_device sample_tunnel peer4 peer6 empty_host empty_healthy empty_fallbacks
           ltac:(done) ltac:(by vm_compute) ltac:(by vm_compute) (lookup_empty _) (lookup_empty _)).
Defined.

(** The third call of [Init] (a sysctl, after the port was opened) fails. *)
Definition broken_init : host := (Init sample_tunnel (host_with [false; false; false; true] empty_net)).2.
Lemma Init_never_recovers_witness :
  h_faults broken_init = [] ∧
  wp (Init sample_tunnel) (λ o w', (∃ e, o = Err e) ∧ half_initialised sample_tunnel (view w')) broken_init.
Proof.
  split; [by vm_compute|]. apply (Init_never_recovers sample_tunnel broken_init).
  split; [by vm_compute|]. split; [done|]. apply (bool_decide_eq_true_1 _). by vm_compute.
Defined.

(** [AddPeer] fails while it sets up the device; the retry reports success, but
    the device was never made. *)
Definition half_added : host :=
  (AddPeer sample_tunnel peer4 (host_with [false; false; false; true] empty_net)).2.

(** An [AddPeer] that failed after it added the link is not made good by
    calling it again: the second call succeeds and the flow-based device is
    missing. *)
Example AddPeer_retry_incomplete :
  is_Some (links (h_net half_added) !! fouName peer4) ∧
  (∃ e, (AddPeer sample_tunnel peer4 (host_with [false; false; false; true] empty_net)).1 = Err e) ∧
  (∃ l w, AddPeer sample_tunnel peer4 half_added = (Ok l, w) ∧ links (h_net w) !! "egress_ipip4" = None).
Proof.
  split; [vm_compute; by eexists|]. split; [vm_compute; by eexists|].
  destruct (AddPeer sample_tunnel peer4 half_added) as [o w] eqn:E. vm_compute in E.
  simplify_eq. by do 2 eexists.
Qed.
