(* ===== verification/EgressNat.v ===== *)
(** * NAT and routing on the egress pod ([pkg/founat/egress.go])

    [Init] masquerades what leaves over the pod's interface and directs what
    comes back through table 118; [AddClient] enters a client there. *)
From S2P Require Import Prelude GoStrings GoNet Netlink Kernel Frames Rpdb.

Definition egressTableID : Z := 118.
Definition egressProtocolID : Z := 30.
Definition egressRulePrio : Z := 2000.
Definition egressDummy : string := "egress-dummy".

Record egress := mkEgress { iface : string; ipv4 : IP; ipv6 : IP }.

Definition NewEgress (iface : string) (ipv4 ipv6 : IP) : outcome egress :=
  if bool_decide (ipv4 ≠ [] ∧ To4 ipv4 = []) then Panicked "invalid IPv4 address"
  else if bool_decide (ipv6 ≠ [] ∧ To4 ipv6 ≠ []) then Panicked "invalid IPv6 address"
  else Ok (mkEgress iface ipv4 ipv6).

Definition newRule (e : egress) (f : family) : Rule :=
  mkRule f egressTableID egressRulePrio None (iface e).

Definition masquerade (e : egress) (ipn : IPNet) : list string :=
  ["!"; "-s"; IPNet_String ipn; "-o"; iface e; "-j"; "MASQUERADE"].

Section egress.
Context {W : Type} `{!HostOps W}.

(** One half of [Init]; [v] is "IPv4" or "IPv6" in the messages. *)
Definition initFamily (e : egress) (f : family) (v : string) (addr : IP) : M W unit :=
  _ ← iptables_New f;
  _ ← wrapping ("failed to setup masquerade rule for " +:+ v +:+ ": %w")
        (iptables_Append f "nat" "POSTROUTING" (masquerade e (NewIPNet addr)));
  wrapping ("netlink: failed to add egress rule for " +:+ v +:+ ": %w") (RuleAdd (newRule e f)).

Definition Init (e : egress) : M W unit :=
  r ← attempt (LinkByName egressDummy);
  match r with
  | inl _ => mret tt
  | inr err =>
      if negb (is_link_not_found err) then throw err
      else
        _ ← if bool_decide (ipv4 e ≠ []) then initFamily e V4 "IPv4" (ipv4 e) else mret tt;
        _ ← if bool_decide (ipv6 e ≠ []) then initFamily e V6 "IPv6" (ipv6 e) else mret tt;
        LinkAdd (mkLink egressDummy 0 false Dummy)
  end.

Definition AddClient (e : egress) (addr : IP) (link : Link) : M W unit :=
  if bool_decide (To4 addr ≠ []) && bool_decide (ipv4 e = []) then throw ErrIPFamilyMismatch
  else if bool_decide (To4 addr = []) && bool_decide (ipv6 e = []) then throw ErrIPFamilyMismatch
  else
    let family := if bool_decide (To4 addr = []) then V6 else V4 in
    routes ← wrapping "netlink: failed to list routes in table %d: %w"
               (RouteListFiltered family egressTableID);
    if existsb (λ r, match rt_Dst r with
                     | None => false
                     | Some dst => IP_Equal (net_IP dst) addr
                     end) routes
    then mret tt
    else wrapping ("netlink: failed to add " +:+ IP_String addr +:+ " to table %d: %w")
           (RouteAdd (mkRoute (Some (NewIPNet addr)) (Index link) egressTableID egressProtocolID)).
End egress.

(** ** The abstract client table

    Table 118 of a family stands for a finite map from client addresses (in
    canonical form) to link indices: one host route per client. *)
Definition addr_family (addr : IP) : family := net_family (mkIPNet addr []).
Definition ip_bytes (f : family) : nat := match f with V4 => 4 | V6 => 16 end.
Definition host_bits (f : family) : Z := 8 * Z.of_nat (ip_bytes f).
Definition client_route (f : family) (c : IP * Z) : kroute :=
  mkKroute (Some (c.1, host_bits f)) c.2 egressTableID egressProtocolID.
Definition client_addr (f : family) (a : IP) : Prop := length a = ip_bytes f ∧ Forall is_byte a.

Definition clients_rep (f : family) (m : gmap IP Z) (n : Net) : Prop :=
  ∃ l : list (IP * Z), in_table egressTableID (pf_get f (routes n)) = client_route f <$> l ∧
    NoDup l.*1 ∧ Forall (λ c, client_addr f c.1) l ∧ list_to_map l = m.

(** What [AddClient] does to the map. *)
Definition add_client (a : IP) (i : Z) (m : gmap IP Z) : gmap IP Z :=
  match m !! a with Some _ => m | None => <[a := i]> m end.

Lemma add_client_idemp a i j m : add_client a j (add_client a i m) = add_client a i m.
Proof.
  unfold add_client. destruct (m !! a) as [k|] eqn:E; [by rewrite E|]. by rewrite lookup_insert_eq.
Qed.

(** Host masks. *)
Lemma mask_bytes_full len : mask_bytes len (8 * Z.of_nat len) = replicate len 255.
Proof.
  induction len as [|len IH]; [done|]. cbn [mask_bytes replicate].
  destruct (Z.leb_spec 8 (8 * Z.of_nat (S len))); [|lia]. rewrite <-IH. do 2 f_equal. lia.
Qed.

Lemma and_bytes_full a : Forall is_byte a → and_bytes a (replicate (length a) 255) = a.
Proof.
  unfold and_bytes. induction 1 as [|b a Hb _ IH]; [done|]. simpl. rewrite IH. f_equal.
  change 255 with (Z.ones 8). rewrite Z.land_ones by lia. by apply Z.mod_small.
Qed.

Lemma dst_matches_host f a x : client_addr f a → client_addr f x →
  dst_matches x (Some (a, host_bits f)) = bool_decide (a = x).
Proof.
  intros [Ha Hba] [Hx Hbx]. unfold dst_matches, bits_mask, host_bits. rewrite <-Ha, mask_bytes_full.
  rewrite and_bytes_full by done. rewrite Ha, <-Hx, and_bytes_full by done.
  apply bool_decide_ext. intuition congruence.
Qed.

Lemma longest_clients f x l : client_addr f x → Forall (λ c, client_addr f c.1) l →
  longest x (client_route f <$> l) = (λ i, client_route f (x, i)) <$> (list_to_map l : gmap IP Z) !! x.
Proof.
  intros Hx Hl. induction Hl as [|[a i] l Ha _ IH]; [done|]. cbn [fst] in Ha.
  rewrite fmap_cons, list_to_map_cons. cbn [longest client_route kt_Dst fst snd].
  rewrite (dst_matches_host f a x), IH by done. case_bool_decide as Heq.
  - subst a. rewrite lookup_insert_eq. destruct (_ !! x); simpl; [|done].
    by rewrite Z.ltb_irrefl.
  - by rewrite lookup_insert_ne by done.
Qed.

Lemma NewIPNet_canon addr : ip_len addr → addr ≠ [] →
  canon_dst (Some (mkIPNet addr (if bool_decide (To4 addr = []) then CIDRMask 128 128 else CIDRMask 32 32))) =
  Some (canonIP addr, host_bits (addr_family addr)).
Proof.
  intros _ _. unfold canon_dst, addr_family, net_family. cbn [net_IP net_Mask].
  by case_bool_decide.
Qed.

Lemma client_addr_canon addr : wf_ip addr → addr ≠ [] → client_addr (addr_family addr) (canonIP addr).
Proof.
  intros Hw Hne. split; [|by apply wf_ip_canonIP]. rewrite family_length; [done|apply Hw|done].
Qed.

(** ** [AddClient] implements [add_client] *)
Definition own_addr (e : egress) (f : family) : IP := match f with V4 => ipv4 e | V6 => ipv6 e end.

(** Routes of one family were appended or nothing happened. *)
Definition routes_appended (f : family) (n n' : Net) : Prop :=
  ∃ l, n' = set_routes f (pf_get f (routes n) ++ l) n ∧ Forall (λ k, kt_Table k = egressTableID) l.

Section add_client.
Context {W : Type} `{!HostOps W, !HostLaws W, !HostReliable W}.
Implicit Types w : W.

Lemma AddClient_eq e addr link : AddClient e addr link =
  if bool_decide (own_addr e (addr_family addr) = []) then throw ErrIPFamilyMismatch
  else
    routes ← wrapping "netlink: failed to list routes in table %d: %w"
               (RouteListFiltered (addr_family addr) egressTableID);
    if existsb (λ r, match rt_Dst r with None => false | Some dst => IP_Equal (net_IP dst) addr end) routes
    then mret tt
    else wrapping ("netlink: failed to add " +:+ IP_String addr +:+ " to table %d: %w")
           (RouteAdd (mkRoute (Some (NewIPNet addr)) (Index link) egressTableID egressProtocolID)).
Proof.
  unfold AddClient, own_addr, addr_family, net_family. cbn [net_IP].
  case_bool_decide as H4; destruct (decide (To4 addr = [])) as [E|E]; try done;
    rewrite ?(bool_decide_eq_true_2 (To4 addr = [])), ?(bool_decide_eq_false_2 (To4 addr = [])) by done; simpl;
    by case_bool_decide.
Qed.

(** The library's answer against the map. *)
Lemma listed_client f (l : list Route) (lc : list (IP * Z)) addr :
  canon_route <$> l = client_route f <$> lc → Forall (λ r, dst_listed f (rt_Dst r)) l → ip_len addr →
  existsb (λ r, match rt_Dst r with None => false | Some dst => IP_Equal (net_IP dst) addr end) l =
  bool_decide (canonIP addr ∈ lc.*1).
Proof.
  intros Heq Hl Ha. revert lc Heq. induction Hl as [|r l Hr _ IH]; intros [|[a i] lc] Heq; try done.
  rewrite !fmap_cons in Heq. injection Heq as Hc1 _ _ _ Hrest. cbn [existsb]. rewrite (IH lc Hrest).
  rewrite fmap_cons. cbn [fst] in *.
  assert (match rt_Dst r with None => false | Some dst => IP_Equal (net_IP dst) addr end =
          bool_decide (a = canonIP addr)) as ->.
  { destruct (rt_Dst r) as [n|]; [|done]. destruct Hr as (_ & Hlen & Hcan). rewrite Hcan in Hc1.
    injection Hc1 as <- _. apply eq_true_iff_eq. by rewrite IP_Equal_canon, bool_decide_eq_true. }
  apply eq_true_iff_eq. rewrite orb_true_iff, !bool_decide_eq_true, elem_of_cons. naive_solver.
Qed.

Lemma clients_lookup (lc : list (IP * Z)) : NoDup lc.*1 →
  ∀ a : IP, is_Some ((list_to_map lc : gmap IP Z) !! a) ↔ a ∈ lc.*1.
Proof.
  intros Hnd a. split.
  - intros [i Hi]. apply elem_of_list_to_map_2 in Hi. apply list_elem_of_fmap. by exists (a, i).
  - intros ([a' i] & -> & Hin)%list_elem_of_fmap. exists i. by apply elem_of_list_to_map_1.
Qed.

Lemma clients_rep_snoc f m n a i :
  clients_rep f m n → m !! a = None → client_addr f a →
  clients_rep f (<[a := i]> m) (set_routes f (pf_get f (routes n) ++ [client_route f (a, i)]) n).
Proof.
  intros (lc & Ht & Hnd & Hw & Hm) Hno Ha. exists (lc ++ [(a, i)]).
  rewrite routes_set_routes, pf_get_set_eq, in_table_app, Ht, fmap_app. split; [by destruct f|].
  assert (Hnot : a ∉ lc.*1).
  { intros Hin. apply (clients_lookup lc Hnd) in Hin. rewrite Hm, Hno in Hin. by destruct Hin. }
  split; [|split].
  - rewrite fmap_app. apply NoDup_app. split; [done|]. split; [|apply NoDup_singleton].
    intros b Hb Hb'. apply list_elem_of_singleton in Hb' as ->. done.
  - apply Forall_app. split; [done|]. by apply Forall_singleton.
  - by rewrite list_to_map_snoc, Hm.
Qed.

(** [AddClient]: the mismatch, the refinement of [add_client], what it leaves
    alone, and success on a working host. *)
Lemma wp_AddClient e addr link m w :
  wf_ip addr → addr ≠ [] → clients_rep (addr_family addr) m (view w) →
  wp (AddClient e addr link) (λ o w',
    (own_addr e (addr_family addr) = [] → o = Err ErrIPFamilyMismatch ∧ view w' = view w) ∧
    done_or_same (view w' = view w)
      (λ _, clients_rep (addr_family addr) (add_client (canonIP addr) (Index link) m) (view w') ∧
            routes_appended (addr_family addr) (view w) (view w')) o ∧
    (own_addr e (addr_family addr) ≠ [] → (m !! canonIP addr = None → has_device (Index link) (view w)) →
     healthy w → o = Ok tt ∧ healthy w')) w.
Proof.
  intros Hwf Hne Hrep. set (f := addr_family addr) in *. rewrite AddClient_eq. fold f.
  case_bool_decide as Hown; [by apply wp_throw|].
  apply wp_bind, wp_wrapping. eapply wp_mono; [apply use_RouteListFiltered|].
  intros o w1 [[Hv Ho] Hr]. destruct o as [l|err|s]; simpl in *; [| |done].
  2:{ split_and!; [done|done|]. intros _ _ Hh. by destruct (Hr Hh) as [[? ?] _]. }
  destruct Ho as [Hl Hd]. pose proof Hrep as (lc & Ht & Hnd & Hw & Hm).
  rewrite (listed_client f l lc addr (eq_trans Hl Ht) Hd (proj1 Hwf)).
  assert (Hin := clients_lookup lc Hnd (canonIP addr)). rewrite Hm in Hin. unfold add_client.
  case_bool_decide as Hc.
  - apply Hin in Hc as [i Hi]. rewrite Hi. apply wp_ret. split_and!; [done| |].
    + simpl. rewrite Hv. split; [done|]. exists []. rewrite app_nil_r, set_routes_id. done.
    + intros _ _ Hh. by destruct (Hr Hh).
  - assert (Hno : m !! canonIP addr = None).
    { destruct (m !! canonIP addr) eqn:E; [|done]. exfalso. apply Hc, Hin. by eexists. }
    rewrite Hno. apply wp_wrapping.
    assert (Hfam : net_family (NewIPNet addr) = f) by by rewrite law_NewIPNet.
    assert (Hcan : canon_dst (Some (NewIPNet addr)) = Some (canonIP addr, host_bits f)).
    { rewrite law_NewIPNet. apply NewIPNet_canon; [apply Hwf|done]. }
    eapply wp_mono; [by apply use_RouteAdd|]. intros o w2 [Ho Hr2].
    rewrite done_or_same_wrap, wrap_err_Ok. rewrite Hfam, Hv in Ho. unfold canon_route in Ho.
    cbn [rt_Dst rt_LinkIndex rt_Table rt_Protocol] in Ho. rewrite Hcan in Ho.
    fold (client_route f (canonIP addr, Index link)) in Ho. split_and!; [done| |].
    + eapply done_or_same_mono; [exact Ho|done|]. intros _ ->. split.
      * apply clients_rep_snoc; [done..|]. by apply client_addr_canon.
      * exists [client_route f (canonIP addr, Index link)]. split; [done|]. by repeat constructor.
    + intros _ Hdev Hh. destruct (Hr Hh) as [_ Hh1]. apply Hr2; [done| |cbn [rt_LinkIndex]; rewrite Hv; by apply Hdev|].
      * rewrite law_NewIPNet. unfold net_ok. cbn [net_IP net_Mask].
        rewrite (family_length addr) by (apply Hwf || done). fold (addr_family addr).
        split; [apply Hwf|]. split; [done|]. unfold addr_family, net_family. cbn [net_IP].
        case_bool_decide; (split; [done|by eexists]).
      * rewrite Hfam, Hv, Hcan. apply Forall_forall. intros k Hk Hkt Hkd.
        assert (Hkin : k ∈ client_route f <$> lc) by (rewrite <-Ht; by apply list_elem_of_filter).
        apply list_elem_of_fmap in Hkin as ([a i] & -> & Hin'). simpl in Hkd. injection Hkd as ->.
        apply Hc, list_elem_of_fmap. by exists (canonIP addr, i).
Qed.
End add_client.

(** ** [Init] *)
Definition init_family_net (e : egress) (f : family) (n : Net) : Net :=
  let spec := masquerade e (mkIPNet (own_addr e f)
                (if bool_decide (To4 (own_addr e f) = []) then CIDRMask 128 128 else CIDRMask 32 32)) in
  set_rules f (rule_insert (canon_rule (newRule e f)) (pf_get f (rules n)))
    (set_chain f ("nat", "POSTROUTING") (chain_of f ("nat", "POSTROUTING") n ++ [spec]) n).
Definition init_net (e : egress) (n : Net) : Net :=
  let n := if bool_decide (ipv4 e ≠ []) then init_family_net e V4 n else n in
  if bool_decide (ipv6 e ≠ []) then init_family_net e V6 n else n.

(** After a first [Init]; links of the tunnel modules' fallback devices aside. *)
Definition init_done (e : egress) (n n' : Net) : Prop :=
  ∃ ls idx, n' = set_links ls (init_net e n) ∧ ls !! egressDummy = Some (mkLink egressDummy idx false Dummy) ∧
    frame ({[egressDummy]} ∪ fallback_names) n (set_links ls n).
Definition prio_free (e : egress) (n : Net) : Prop := ∀ f, own_addr e f ≠ [] →
  Forall (λ k, kr_Priority k ≠ egressRulePrio) (pf_get f (rules n)).

Section init.
Context {W : Type} `{!HostOps W, !HostLaws W, !HostReliable W}.
Implicit Types w : W.

Lemma spec_egress_family e f v w n : view w = n →
  spec (Forall (λ k, kr_Priority k ≠ egressRulePrio) (pf_get f (rules n)))
    (λ n', links n' = links n) (λ _ n', n' = init_family_net e f n) (initFamily e f v (own_addr e f)) w.
Proof.
  intros Hv. unfold initFamily. set (ok := Forall _ _).
  apply (spec_bind ok _ (λ _ n', n' = n)).
  { unfold spec. apply wp_and.
    - eapply wp_mono; [apply law_iptables_New|]. intros o w' [-> Ho].
      eapply done_or_same_mono; [exact Ho|by rewrite Hv|done].
    - unfold wp. intros _ Hh. destruct (rel_iptables_New f w Hh) as [-> ?]. eauto. }
  intros [] w1 Hv1. set (spec4 := masquerade e (NewIPNet (own_addr e f))).
  apply (spec_bind ok _ (λ _ n', n' = set_chain f ("nat", "POSTROUTING")
           (chain_of f ("nat", "POSTROUTING") n ++ [spec4]) n)).
  { apply spec_wrapping. eapply spec_mono; [apply (spec_update ok (λ n', n' = set_chain f ("nat", "POSTROUTING")
           (chain_of f ("nat", "POSTROUTING") (view w1) ++ [spec4]) (view w1)))| | |].
    - apply law_iptables_Append.
    - intros _. apply rel_iptables_Append.
    - done.
    - intros n' ->. by rewrite Hv1.
    - intros _ n' ->. by rewrite Hv1. }
  intros [] w2 Hv2. apply spec_wrapping.
  eapply spec_mono; [apply (spec_update ok (λ n', n' = init_family_net e f n))|done| |done].
  - eapply wp_mono; [apply law_RuleAdd|]. intros o w3 Ho. eapply done_or_same_mono; [exact Ho|done|].
    intros _ ->. unfold init_family_net. rewrite <-law_NewIPNet. fold spec4. by rewrite Hv2.
  - intros Hok Hh. apply rel_RuleAdd; [done|done|]. by rewrite Hv2.
  - intros n' ->. by rewrite Hv2.
Qed.

Lemma links_init_family e f n : links (init_family_net e f n) = links n.
Proof. done. Qed.

(** The marker link, last. *)
Lemma spec_dummy ok e w n : view w = init_net e n → links n !! egressDummy = None →
  spec ok (λ n', links n' !! egressDummy = None) (λ _, init_done e n) (LinkAdd (mkLink egressDummy 0 false Dummy)) w.
Proof.
  intros Hv Hno. assert (Hl : links (view w) = links n) by (rewrite Hv; unfold init_net; by repeat case_bool_decide).
  unfold spec. apply wp_and.
  - eapply wp_mono; [apply law_LinkAdd|]. intros o w4 (fb & Hfb & Ho).
    assert (Hr : routes (view w) = routes n) by (rewrite Hv; unfold init_net; by repeat case_bool_decide).
    assert (Hfb' : fallback_only n fb) by by apply (fallback_only_ext (view w)).
    assert (Hd : egressDummy ∉ fallback_names) by by vm_compute.
    eapply done_or_same_mono; [exact Ho| |].
    + intros ->. simpl. rewrite Hl. by rewrite (fallback_union_lookup n).
    + intros _ (_ & idx & Hidx & ->). exists (<[egressDummy := new_link idx (mkLink egressDummy 0 false Dummy)]> (links (view w) ∪ fb)), idx.
      split; [by rewrite Hv|]. split; [apply lookup_insert_eq|]. rewrite Hl.
      apply (frame_LinkAdd _ egressDummy); [set_solver|set_solver|done..|].
      apply (fresh_index_ext (set_links (links (view w) ∪ fb) (view w))); [by simpl; rewrite Hl|done|done].
  - unfold wp. intros _ Hh. destruct (rel_LinkAdd (mkLink egressDummy 0 false Dummy) w Hh) as [-> ?]; [| |eauto].
    + simpl. by rewrite Hl.
    + unfold ifname_ok. simpl. lia.
Qed.

(** What [Init] does when the marker link is absent. *)
Lemma spec_egress_tail e w n : view w = n → links n !! egressDummy = None →
  spec (prio_free e n) (λ n', links n' !! egressDummy = None) (λ _, init_done e n)
    (_ ← if bool_decide (ipv4 e ≠ []) then initFamily e V4 "IPv4" (ipv4 e) else mret tt;
     _ ← if bool_decide (ipv6 e ≠ []) then initFamily e V6 "IPv6" (ipv6 e) else mret tt;
     LinkAdd (mkLink egressDummy 0 false Dummy)) w.
Proof.
  intros Hv H. set (g := λ n, if bool_decide (ipv4 e ≠ []) then init_family_net e V4 n else n).
  apply (spec_bind _ _ (λ _ n', n' = g n)).
  { unfold g. case_bool_decide as H4; [|by apply spec_ret].
    eapply spec_mono; [by apply (spec_egress_family e V4 _ _ n)| | |done].
    - intros Hp. by apply (Hp V4).
    - by intros n' ->. }
  intros [] w2 Hv2. apply (spec_bind _ _ (λ _ n', n' = init_net e n)); [|intros [] w3 Hv3; by apply spec_dummy].
  unfold init_net. fold (g n).
  assert (links (g n) = links n) as Hgl by (unfold g; by case_bool_decide).
  assert (pf6 (rules (g n)) = pf6 (rules n)) as Hgr by (unfold g; by case_bool_decide).
  case_bool_decide as H6; [|by apply spec_ret].
  eapply spec_mono; [by apply (spec_egress_family e V6 _ _ (g n))| | |done].
  - intros Hp. simpl. rewrite Hgr. by apply (Hp V6).
  - intros n' ->. by rewrite Hgl.
Qed.

Lemma wp_egress_Init e w : wp (Init e) (λ o w',
    if bool_decide (is_Some (links (view w) !! egressDummy))
    then view w' = view w ∧ done_or_same True (λ _, True) o ∧ (healthy w → o = Ok tt ∧ healthy w')
    else done_or_same (links (view w') !! egressDummy = None) (λ _, init_done e (view w) (view w')) o ∧
         (prio_free e (view w) → healthy w → o = Ok tt ∧ healthy w')) w.
Proof.
  unfold Init. apply wp_bind, wp_attempt. eapply wp_mono; [apply use_LinkByName|].
  intros [l|err|s] w1 [[Hv H] Hr]; simpl; [| |done].
  { destruct H as [Hl _]. apply wp_ret. rewrite bool_decide_eq_true_2 by (by exists l).
    split_and!; [done|done|]. intros Hh. by destruct (Hr Hh). }
  destruct (is_link_not_found err) eqn:He; simpl.
  2:{ apply wp_throw. case_bool_decide as Hd.
      - split_and!; [done|done|]. intros Hh. destruct Hd as [l Hl]. rewrite Hl in Hr. by destruct (Hr Hh).
      - destruct (links (view w) !! egressDummy) as [l|] eqn:E; [destruct Hd; by exists l|].
        split; [simpl; by rewrite Hv|]. intros _ Hh.
        destruct (Hr Hh) as [(e' & [= <-] & ?) _]. congruence. }
  specialize (H eq_refl). rewrite H in Hr |- *. rewrite (bool_decide_eq_false_2 (is_Some None)) by by intros [].
  pose proof (spec_egress_tail e w1 (view w) Hv H) as Hs.
  unfold spec in Hs. eapply wp_mono; [exact Hs|]. intros o w2 [Ho Hr2]. split; [done|]. intros Hok Hh.
  destruct (Hr Hh) as [_ Hh1]. by destruct (Hr2 Hok Hh1) as [[[] ->] ?].
Qed.
End init.

(** ** Properties *)

(** Nothing with a priority up to the egress rule's routes packets from the
    interface to [x]. *)
Definition unclaimed_from (e : egress) (f : family) (x : IP) (n : Net) : Prop :=
  ∀ k, k ∈ pf_get f (rules n) → kr_Priority k ≤ egressRulePrio → iif_matches (iface e) k = true →
    dst_matches (canonIP x) (kr_Dst k) = true →
    kr_Table k ≠ egressTableID ∧ longest (canonIP x) (in_table (kr_Table k) (pf_get f (routes n))) = None.

Definition route_from (e : egress) (f : family) (x : IP) (n : Net) : option kroute :=
  rpdb (iface e) (canonIP x) (pf_get f (rules n)) (pf_get f (routes n)).

Lemma init_net_rules e f n : own_addr e f ≠ [] →
  pf_get f (rules (init_net e n)) = rule_insert (canon_rule (newRule e f)) (pf_get f (rules n)) ∧
  pf_get f (routes (init_net e n)) = pf_get f (routes n).
Proof.
  intros Hf. unfold init_net.
  destruct f; simpl in Hf;
    [rewrite (bool_decide_eq_true_2 (ipv4 e ≠ [])) by done|rewrite (bool_decide_eq_true_2 (ipv6 e ≠ [])) by done];
    by repeat case_bool_decide.
Qed.

(** The lookup once the rule is in and the table stands for [m]; other tables
    may have lost routes. *)
Lemma route_from_clients e f x m n n2 :
  own_addr e f ≠ [] → unclaimed_from e f x n → wf_ip x → x ≠ [] → addr_family x = f →
  pf_get f (rules n2) = rule_insert (canon_rule (newRule e f)) (pf_get f (rules n)) →
  (∀ r, r ∈ pf_get f (routes n2) → kt_Table r ≠ egressTableID → r ∈ pf_get f (routes n)) →
  clients_rep f m n2 → ∀ i, m !! canonIP x = Some i →
  route_from e f x n2 = Some (client_route f (canonIP x, i)).
Proof.
  intros Hown Hq Hw Hne Hf Hr Ht (lc & Htab & Hnd & Hlw & Hm) i Hi.
  unfold route_from in *. rewrite Hr.
  destruct (rule_insert_split (canon_rule (newRule e f)) (pf_get f (rules n))) as (l1 & l2 & Hl12 & -> & Hp).
  rewrite rpdb_app, rpdb_None; cbn [rpdb].
  - assert (iif_matches (iface e) (canon_rule (newRule e f)) = true) as ->.
    { apply bool_decide_eq_true. by right. }
    simpl. rewrite Htab, longest_clients, Hm, Hi; [done| |done].
    rewrite <-Hf. by apply client_addr_canon.
  - intros k Hk Hif Hd. rewrite Forall_forall in Hp. specialize (Hp k Hk).
    destruct (Hq k) as [H118 Hnone]; [rewrite Hl12; apply elem_of_app; by left|done..|].
    apply longest_None. intros r [Hrt Hin]%list_elem_of_filter. rewrite longest_None in Hnone. apply Hnone.
    apply list_elem_of_filter. split; [done|]. apply Ht; [done|congruence].
Qed.

(** What was appended is the clients'. *)
Lemma routes_appended_other f n n' : routes_appended f n n' →
  ∀ g r, r ∈ pf_get g (routes n') → kt_Table r ≠ egressTableID → r ∈ pf_get g (routes n).
Proof.
  intros (l & -> & Hl) g r Hr Ht. destruct (decide (g = f)) as [->|Hne].
  - rewrite routes_set_routes, pf_get_set_eq in Hr. apply elem_of_app in Hr as [?|Hr]; [done|].
    rewrite Forall_forall in Hl. by specialize (Hl r Hr).
  - by destruct f, g.
Qed.

(** The way back: after a first [Init] and [AddClient] have succeeded, a packet
    that enters over the pod's interface for that client takes the client's
    tunnel; a client known before keeps the tunnel it had. *)
Theorem return_path {W} `{!HostOps W, !HostLaws W} e addr link m (w : W) :
  wf_ip addr → addr ≠ [] → own_addr e (addr_family addr) ≠ [] →
  links (view w) !! egressDummy = None →
  clients_rep (addr_family addr) m (view w) → unclaimed_from e (addr_family addr) addr (view w) →
  wp (_ ← Init e; AddClient e addr link) (λ o w', o = Ok tt →
    route_from e (addr_family addr) addr (view w') =
    Some (client_route (addr_family addr) (canonIP addr, default (Index link) (m !! canonIP addr)))) w.
Proof.
  intros Hw Hne Hown Hno Hrep Hq. apply wp_bind. eapply wp_mono; [apply (@wp_egress_Init W _ _ unreliable)|].
  rewrite Hno, (bool_decide_eq_false_2 (is_Some None)) by by intros [].
  intros o w1 [Ho _]. destruct o as [[]|err|s]; simpl in *; [|done|done].
  destruct Ho as (ls & idx & Hv1 & _). destruct (init_net_rules e _ (view w) Hown) as [Hr Ht].
  assert (Hrep1 : clients_rep (addr_family addr) m (view w1)).
  { unfold clients_rep. rewrite Hv1. simpl. by rewrite Ht. }
  eapply wp_mono; [apply (@wp_AddClient W _ _ unreliable e addr link m w1 Hw Hne Hrep1)|].
  intros o w2 (_ & Ho & _) ->. simpl in Ho. destruct Ho as [Hrep2 Happ].
  eapply (route_from_clients e _ addr _ (view w)); try done.
  - destruct Happ as (l & -> & _). change (rules (set_routes _ _ (view w1))) with (rules (view w1)). by rewrite Hv1.
  - intros r Hr' Htab. apply (routes_appended_other _ _ _ Happ) in Hr'; [|done]. revert Hr'. rewrite Hv1. simpl. by rewrite Ht.
  - unfold add_client. destruct (m !! canonIP addr) as [i|] eqn:E; simpl; [done|]. by rewrite lookup_insert_eq.
Qed.

(** C17: [AddClient] refines the abstract client table: it reports a family the pod
    has no address of and does nothing; it adds the client to the map unless the
    map has it, appending only to table 118; on an error nothing changed; on a
    working host it succeeds, if the link for a new client exists. *)
Theorem AddClient_refines {W} `{!HostOps W, !HostLaws W, !HostReliable W} e addr link m (w : W) :
  wf_ip addr → addr ≠ [] → clients_rep (addr_family addr) m (view w) →
  wp (AddClient e addr link) (λ o w',
    (own_addr e (addr_family addr) = [] → o = Err ErrIPFamilyMismatch ∧ view w' = view w) ∧
    done_or_same (view w' = view w)
      (λ _, clients_rep (addr_family addr) (add_client (canonIP addr) (Index link) m) (view w') ∧
            routes_appended (addr_family addr) (view w) (view w')) o ∧
    (own_addr e (addr_family addr) ≠ [] → (m !! canonIP addr = None → has_device (Index link) (view w)) →
     healthy w → o = Ok tt ∧ healthy w')) w.
Proof. apply wp_AddClient. Qed.

(** [Init] of the egress pod: a no-op once the marker link exists; else a
    success appends one masquerade rule and one routing rule per family the pod
    has an address of, and an error leaves the marker absent. *)
Theorem egress_Init_spec {W} `{!HostOps W, !HostLaws W, !HostReliable W} e (w : W) :
  wp (Init e) (λ o w',
    if bool_decide (is_Some (links (view w) !! egressDummy))
    then view w' = view w ∧ done_or_same True (λ _, True) o ∧ (healthy w → o = Ok tt ∧ healthy w')
    else done_or_same (links (view w') !! egressDummy = None) (λ _, init_done e (view w) (view w')) o ∧
         (prio_free e (view w) → healthy w → o = Ok tt ∧ healthy w')) w.
Proof. apply wp_egress_Init. Qed.

(** ** Witnesses *)
Definition sample_egress : egress := mkEgress "eth0" [10; 1; 1; 9] (ParseIP "fd01::9").
Definition sample_link : Link := mkLink "fou4_0a010203" 7 true (OtherLink "ipip").
Definition client4 : IP := [10; 1; 2; 3].

Lemma client4_wf : wf_ip client4.
Proof. split; [by right; left|]. repeat (apply Forall_cons_2; [by split|]). apply Forall_nil_2. Qed.
Lemma empty_clients f : clients_rep f ∅ (view empty_host).
Proof. exists []. split; [by destruct f|]. split; [apply NoDup_nil_2|done]. Qed.

Definition back_run : outcome unit * host :=
  (_ ← Init sample_egress; AddClient sample_egress client4 sample_link) empty_host.
Lemma return_path_witness : back_run.1 = Ok tt ∧
  route_from sample_egress V4 client4 (view back_run.2) = Some (client_route V4 (client4, 7)).
Proof.
  split; [by vm_compute|].
  refine (return_path sample_egress client4 sample_link ∅ empty_host client4_wf _ _ _ (empty_clients V4) _ _).
  - done.
  - done.
  - done.
  - intros k Hk. by apply elem_of_nil in Hk.
  - by vm_compute.
Defined.

Definition linked_host : host := host_with [] (set_links {["fou4_0a010203" := sample_link]} empty_net).
Lemma AddClient_refines_witness :
  wp (AddClient sample_egress client4 sample_link) (λ o w', o = Ok tt) linked_host ∧
  clients_rep V4 ∅ (view linked_host).
Proof.
  split; [|exact (empty_clients V4)].
  pose proof (AddClient_refines sample_egress client4 sample_link ∅ linked_host client4_wf ltac:(done) (empty_clients V4)) as H.
  destruct H as (_ & _ & H). apply H; [done| |apply host_healthyb_ok; by vm_compute].
  intros _. by exists "fou4_0a010203", sample_link.
Defined.

(** The rule cannot be added; the retry succeeds. *)
Definition broken_init : host := (Init sample_egress (host_with [false; false; false; true] empty_net)).2.

(** [Init] is not idempotent across a failure: when it fails after the masquerade
    rule was appended, a second [Init] appends the same rule again. *)
Example Init_retry_duplicates :
  (Init sample_egress (host_with [false; false; false; true] empty_net)).1 ≠ Ok tt ∧
  (Init sample_egress broken_init).1 = Ok tt ∧
  ∃ r, chain_of V4 ("nat", "POSTROUTING") (h_net (Init sample_egress broken_init).2) = [r; r].
Proof. split; [by vm_compute|]. split; [by vm_compute|]. vm_compute. by eexists. Qed.
