(* ===== verification/Constants.v ===== *)
(** * Shared constants ([pkg/constants]) *)
From S2P Require Import Prelude.

Definition AnnEgressPrefix : string := "egress.ysksuzuki.com/".
Definition PodNameKey : string := "K8S_POD_NAME".
Definition PodNamespaceKey : string := "K8S_POD_NAMESPACE".
Definition PodContainerKey : string := "K8S_POD_INFRA_CONTAINER_ID".
Definition LabelAppName : string := "app.kubernetes.io/name".
Definition LabelAppInstance : string := "app.kubernetes.io/instance".
Definition LabelAppComponent : string := "app.kubernetes.io/component".
Definition SAEgress : string := "egress-gw".
Definition CRBEgress : string := "egress-gw".
Definition EnvAddresses : string := "EGRESS_GW_POD_ADDRESSES".
Definition EnvPodNamespace : string := "EGRESS_GW_POD_NAMESPACE".
Definition EnvPodName : string := "EGRESS_GW_POD_NAME".
Definition EnvEgressName : string := "EGRESS_GW_NAME".
Definition MetricsNS : string := "egressgw".
Definition DefaultSocketPath : string := "/run/egress-gw.sock".

(** [version.go]: the branch on build information is dead code. *)
Definition version : string := "0.0.0".
Definition Version : string := version.
