(* ===== verification/Corev1.v ===== *)
(** * The Kubernetes objects the program reads and writes

    The fields of [k8s.io/api] objects that code under [src/] touches.  What the
    code carries along unread is one opaque field ([*_rest]).  A nil map and an
    empty map are the same [gmap], a nil slice and an empty slice the same list:
    the program does not tell them apart in these objects. *)
From S2P Require Import Prelude.

(** [types.NamespacedName] / [client.ObjectKey]. *)
Definition ObjectKey : Type := string * string.
Definition ObjectKey_String (k : ObjectKey) : string := k.1 +:+ "/" +:+ k.2.

(** ** Containers *)
Inductive EnvVarSource := FieldRef (path : string) | OtherSource (s : string).
Record EnvVar := mkEnvVar { env_Name : string; env_Value : string; ValueFrom : option EnvVarSource }.

Inductive VolumeSource := EmptyDir | HostPath (path : string) | OtherVolume (s : string).
Record Volume := mkVolume { vol_Name : string; vol_Source : VolumeSource }.
Record VolumeMount := mkVolumeMount { MountPath : string; vm_Name : string; ReadOnly : bool }.

Record SecurityContext := mkSecurityContext {
  Privileged : option bool; ReadOnlyRootFilesystem : option bool; Capabilities_Add : list string;
  sc_rest : string }.
Record ContainerPort := mkContainerPort { cp_Name : string; cp_Port : Z; cp_Protocol : string }.
(** An HTTP probe; [probe_rest] holds thresholds, delays and other handlers. *)
Record Probe := mkProbe { probe_Path : string; probe_Port : string; probe_Scheme : string; probe_rest : string }.

Record Container := mkContainer {
  c_Name : string; Image : string; Command : list string; Args : list string; Env : list EnvVar;
  VolumeMounts : list VolumeMount; SecCtx : option SecurityContext;
  Requests : gmap string string;               (* Resources.Requests, as printed quantities *)
  Ports : list ContainerPort; LivenessProbe : option Probe; ReadinessProbe : option Probe;
  c_rest : string }.
Definition empty_Container : Container := mkContainer "" "" [] [] [] [] None ∅ [] None None "".

Record PodSpec := mkPodSpec {
  ServiceAccountName : string; Volumes : list Volume; Containers : list Container; ps_rest : string }.
Definition empty_PodSpec : PodSpec := mkPodSpec "" [] [] "".

Record PodTemplateSpec := mkPodTemplateSpec {
  pt_Labels : gmap string string; pt_Annotations : gmap string string; pt_Spec : PodSpec }.
Definition empty_PodTemplateSpec : PodTemplateSpec := mkPodTemplateSpec ∅ ∅ empty_PodSpec.

(** ** Pods *)
Record Pod := mkPod {
  pod_Namespace : string; pod_Name : string; HostNetwork : bool;
  Annotations : list (string * string);       (* in the order Go ranges over the map *)
  PodIPs : list string; Phase : string }.

(** ** Owner references *)
Record OwnerReference := mkOwnerReference { or_Kind : string; or_Name : string; or_UID : string; or_Controller : bool }.

(** ** Deployments and services *)
(** [appsv1.DeploymentStrategy]: its type and its rolling-update parameters. *)
Record DeploymentStrategy := mkDeploymentStrategy { strategy_Type : string; strategy_rest : string }.

Record Deployment := mkDeployment {
  depl_Namespace : string; depl_Name : string;
  depl_deleted : bool;                         (* DeletionTimestamp != nil *)
  depl_created : bool;                         (* !CreationTimestamp.IsZero() *)
  depl_Labels : gmap string string; depl_Owners : list OwnerReference;
  depl_Selector : option (gmap string string); (* MatchLabels *)
  depl_Replicas : option Z; depl_Strategy : DeploymentStrategy; depl_Template : PodTemplateSpec;
  AvailableReplicas : Z }.
Definition new_Deployment (k : ObjectKey) : Deployment :=
  mkDeployment k.1 k.2 false false ∅ [] None None (mkDeploymentStrategy "" "") empty_PodTemplateSpec 0.

Record ServicePort := mkServicePort { sp_Port : Z; sp_TargetPort : Z; sp_Protocol : string; sp_rest : string }.

Record Service := mkService {
  svc_Namespace : string; svc_Name : string; svc_deleted : bool; svc_created : bool;
  svc_Labels : gmap string string; svc_Owners : list OwnerReference;
  svc_Type : string; svc_Selector : gmap string string; svc_Ports : list ServicePort;
  svc_SessionAffinity : string; svc_SessionAffinityConfig : option string;
  ClusterIP : string }.
Definition new_Service (k : ObjectKey) : Service :=
  mkService k.1 k.2 false false ∅ [] "" ∅ [] "" None "".

(** [rbacv1.Subject]. *)
Record Subject := mkSubject { sub_APIGroup : string; sub_Kind : string; sub_Name : string; sub_Namespace : string }.

(** ** Decidable equality, to tell when an object changed *)
#[global] Instance Subject_eq_dec : EqDecision Subject.
Proof. solve_decision. Defined.
#[global] Instance EnvVarSource_eq_dec : EqDecision EnvVarSource.
Proof. solve_decision. Defined.
#[global] Instance EnvVar_eq_dec : EqDecision EnvVar.
Proof. solve_decision. Defined.
#[global] Instance VolumeSource_eq_dec : EqDecision VolumeSource.
Proof. solve_decision. Defined.
#[global] Instance Volume_eq_dec : EqDecision Volume.
Proof. solve_decision. Defined.
#[global] Instance VolumeMount_eq_dec : EqDecision VolumeMount.
Proof. solve_decision. Defined.
#[global] Instance SecurityContext_eq_dec : EqDecision SecurityContext.
Proof. solve_decision. Defined.
#[global] Instance ContainerPort_eq_dec : EqDecision ContainerPort.
Proof. solve_decision. Defined.
#[global] Instance Probe_eq_dec : EqDecision Probe.
Proof. solve_decision. Defined.
#[global] Instance Container_eq_dec : EqDecision Container.
Proof. solve_decision. Defined.
#[global] Instance PodSpec_eq_dec : EqDecision PodSpec.
Proof. solve_decision. Defined.
#[global] Instance PodTemplateSpec_eq_dec : EqDecision PodTemplateSpec.
Proof. solve_decision. Defined.
#[global] Instance Pod_eq_dec : EqDecision Pod.
Proof. solve_decision. Defined.
#[global] Instance OwnerReference_eq_dec : EqDecision OwnerReference.
Proof. solve_decision. Defined.
#[global] Instance DeploymentStrategy_eq_dec : EqDecision DeploymentStrategy.
Proof. solve_decision. Defined.
#[global] Instance Deployment_eq_dec : EqDecision Deployment.
Proof. solve_decision. Defined.
#[global] Instance ServicePort_eq_dec : EqDecision ServicePort.
Proof. solve_decision. Defined.
#[global] Instance Service_eq_dec : EqDecision Service.
Proof. solve_decision. Defined.

(** [metav1.GetControllerOf]: the owner that controls the object. *)
Definition GetControllerOf (l : list OwnerReference) : option OwnerReference := snd <$> list_find (λ o, or_Controller o = true) l.
Definition controlled_by (kd n : string) (l : list OwnerReference) : Prop :=
  ∃ o, GetControllerOf l = Some o ∧ or_Kind o = kd ∧ or_Name o = n.
