(* ===== verification/EgressApi.v ===== *)
(** * The Egress resource ([api/v1beta1])

    Its Go types, the validation of its spec and the admission webhooks.  The
    label validators are k8s.io/apimachinery's and stay parameters. *)
From S2P Require Import Prelude GoStrings GoNet Corev1.

(** ** Data *)
Record Metadata := mkMetadata { md_Annotations : list (string * string); md_Labels : gmap string string }.
Record EgressPodTemplate := mkEgressPodTemplate { tmpl_Metadata : Metadata; tmpl_Spec : PodSpec }.

Record EgressSpec := mkEgressSpec {
  Destinations : list string; Replicas : Z; Strategy : option DeploymentStrategy;
  Template : option EgressPodTemplate; SessionAffinity : string; SessionAffinityConfig : option string }.

Record EgressStatus := mkEgressStatus { st_Replicas : Z; st_Selector : string }.

Record Egress := mkEgress {
  eg_Namespace : string; eg_Name : string; eg_deleted : bool;   (* DeletionTimestamp != nil *)
  Spec : EgressSpec; Status : EgressStatus }.

Definition eg_key (eg : Egress) : ObjectKey := (eg_Namespace eg, eg_Name eg).

#[global] Instance Metadata_eq_dec : EqDecision Metadata.
Proof. solve_decision. Defined.
#[global] Instance EgressPodTemplate_eq_dec : EqDecision EgressPodTemplate.
Proof. solve_decision. Defined.
#[global] Instance EgressSpec_eq_dec : EqDecision EgressSpec.
Proof. solve_decision. Defined.
#[global] Instance EgressStatus_eq_dec : EqDecision EgressStatus.
Proof. solve_decision. Defined.
#[global] Instance Egress_eq_dec : EqDecision Egress.
Proof. solve_decision. Defined.

(** One entry of a [field.ErrorList]. *)
Inductive field_error :=
| Invalid (path value : string)
| NotSupported (path value : string)
| Forbidden (path detail : string)
| LabelError (path msg : string).            (* reported by apimachinery *)

(** ** Validation *)
Section validation.
(** [validation.ValidateLabels] and [validation.ValidateLabelName]. *)
Context (ValidateLabels : gmap string string → string → list field_error).
Context (ValidateLabelName : string → string → list field_error).

Definition validate_destination (i : nat) (na : string) : list field_error :=
  match ParseCIDR na with
  | Some _ => []
  | None => [Invalid ("spec.destinations[" +:+ Itoa (Z.of_nat i) +:+ "]") na]
  end.

Definition validate_strategy (s : option DeploymentStrategy) : list field_error :=
  match s with
  | None => []
  | Some s => if String.eqb (strategy_Type s) "Recreate" then []
              else if String.eqb (strategy_Type s) "RollingUpdate" then []
              else [NotSupported "spec.strategy.type" (strategy_Type s)]
  end.

Definition validate_template (t : option EgressPodTemplate) : list field_error :=
  match t with
  | None => []
  | Some t =>
      ValidateLabels (md_Labels (tmpl_Metadata t)) "spec.template.metadata.labels" ++
      (md_Annotations (tmpl_Metadata t) ≫= λ kv, ValidateLabelName kv.1 "spec.template.metadata.annotations")
  end.

Definition validate (es : EgressSpec) : list field_error :=
  mjoin (imap validate_destination (Destinations es)) ++
  validate_strategy (Strategy es) ++ validate_template (Template es).

(** [reflect.DeepEqual] also tells a nil slice from an empty one; the schema
    ([MinItems=1]) admits neither. *)
Definition validateUpdate (es old : EgressSpec) : list field_error :=
  validate es ++
  (if bool_decide (Destinations es = Destinations old) then [] else [Forbidden "spec.destinations" "unchangeable"]).

(** ** Webhooks *)
(** [apierrors.NewInvalid]. *)
Context (NewInvalid : string → list field_error → error).

Definition ValidateCreate (r : Egress) : outcome unit :=
  match validate (Spec r) with [] => Ok tt | errs => Err (NewInvalid (eg_Name r) errs) end.
Definition ValidateUpdate (r old : Egress) : outcome unit :=
  match validateUpdate (Spec r) (Spec old) with [] => Ok tt | errs => Err (NewInvalid (eg_Name r) errs) end.
Definition ValidateDelete (r : Egress) : outcome unit := Ok tt.
End validation.

Definition with_Containers (cs : list Container) (s : PodSpec) : PodSpec :=
  mkPodSpec (ServiceAccountName s) (Volumes s) cs (ps_rest s).
Definition with_Template (t : option EgressPodTemplate) (s : EgressSpec) : EgressSpec :=
  mkEgressSpec (Destinations s) (Replicas s) (Strategy s) t (SessionAffinity s) (SessionAffinityConfig s).
Definition with_Spec (s : EgressSpec) (r : Egress) : Egress :=
  mkEgress (eg_Namespace r) (eg_Name r) (eg_deleted r) s (Status r).
Definition container_named (n : string) : Container :=
  mkContainer n "" [] [] [] [] None ∅ [] None None "".

Definition Default (r : Egress) : Egress :=
  match Template (Spec r) with
  | None => r
  | Some tmpl =>
      if bool_decide (length (Containers (tmpl_Spec tmpl)) = 0%nat)
      then with_Spec (with_Template (Some (mkEgressPodTemplate (tmpl_Metadata tmpl)
             (with_Containers [container_named "egress-gw"] (tmpl_Spec tmpl)))) (Spec r)) r
      else r
  end.

(** ** What the validators accept *)
Definition strategy_ok (s : option DeploymentStrategy) : Prop :=
  ∀ d, s = Some d → strategy_Type d = "Recreate" ∨ strategy_Type d = "RollingUpdate".

Lemma validate_strategy_ok s : validate_strategy s = [] ↔ strategy_ok s.
Proof.
  unfold strategy_ok. destruct s as [d|]; simpl; [|naive_solver].
  destruct (String.eqb_spec (strategy_Type d) "Recreate"); [naive_solver|].
  destruct (String.eqb_spec (strategy_Type d) "RollingUpdate"); naive_solver.
Qed.

(** A report per element is empty when no element is reported. *)
Lemma mjoin_imap_nil {A B} (f : nat → A → list B) (P : A → Prop) l :
  (∀ i x, f i x = [] ↔ P x) → mjoin (imap f l) = [] ↔ Forall P l.
Proof.
  revert f. induction l as [|x l IH]; intros f Hf; simpl; [by split|].
  rewrite app_nil, Forall_cons, Hf, (IH (f ∘ S)); [done|]. intros i y. apply Hf.
Qed.

Lemma bind_nil {A B} (f : A → list B) l : l ≫= f = [] ↔ Forall (λ x, f x = []) l.
Proof. induction l as [|x l IH]; simpl; [by split|]. by rewrite app_nil, Forall_cons, <-IH. Qed.

Lemma validate_destination_ok i d : validate_destination i d = [] ↔ is_Some (ParseCIDR d).
Proof. unfold validate_destination. destruct (ParseCIDR d); naive_solver. Qed.

Section accepted.
Context (ValidateLabels : gmap string string → string → list field_error).
Context (ValidateLabelName : string → string → list field_error).
Context (NewInvalid : string → list field_error → error).
Notation create := (ValidateCreate ValidateLabels ValidateLabelName NewInvalid).
Notation update := (ValidateUpdate ValidateLabels ValidateLabelName NewInvalid).

Definition template_ok (t : option EgressPodTemplate) : Prop := ∀ t', t = Some t' →
  ValidateLabels (md_Labels (tmpl_Metadata t')) "spec.template.metadata.labels" = [] ∧
  Forall (λ kv, ValidateLabelName kv.1 "spec.template.metadata.annotations" = []) (md_Annotations (tmpl_Metadata t')).

Definition spec_ok (s : EgressSpec) : Prop :=
  Forall (λ d, is_Some (ParseCIDR d)) (Destinations s) ∧ strategy_ok (Strategy s) ∧ template_ok (Template s).

Lemma validate_ok s : validate ValidateLabels ValidateLabelName s = [] ↔ spec_ok s.
Proof.
  unfold validate, spec_ok. rewrite !app_nil, (mjoin_imap_nil _ _ _ validate_destination_ok), validate_strategy_ok.
  enough (validate_template ValidateLabels ValidateLabelName (Template s) = [] ↔ template_ok (Template s)) as -> by done.
  unfold validate_template, template_ok. destruct (Template s) as [t|]; [|naive_solver].
  rewrite app_nil, bind_nil. naive_solver.
Qed.

Lemma ValidateCreate_ok r : create r = Ok tt ↔ spec_ok (Spec r).
Proof. unfold ValidateCreate. rewrite <-validate_ok. by destruct (validate _ _ _). Qed.

Lemma ValidateUpdate_ok r old :
  update r old = Ok tt ↔ spec_ok (Spec r) ∧ Destinations (Spec r) = Destinations (Spec old).
Proof.
  unfold ValidateUpdate, validateUpdate. rewrite <-validate_ok.
  destruct (validate _ _ _); simpl; [|naive_solver]. case_bool_decide; naive_solver.
Qed.

(** What the API server stores for an Egress: an accepted create, then accepted
    updates and changes of its status; the defaulting webhook runs first. *)
Inductive stored (r0 : Egress) : Egress → Prop :=
| stored_create : create (Default r0) = Ok tt → stored r0 (Default r0)
| stored_update old r : stored r0 old → update (Default r) old = Ok tt → stored r0 (Default r)
| stored_status old st : stored r0 old →
    stored r0 (mkEgress (eg_Namespace old) (eg_Name old) (eg_deleted old) (Spec old) st).
End accepted.

Lemma stored_spec_ok vl vn ni r0 r : stored vl vn ni r0 r →
  Destinations (Spec r) = Destinations (Spec r0) ∧
  Forall (λ d, is_Some (ParseCIDR d)) (Destinations (Spec r)) ∧ strategy_ok (Strategy (Spec r)).
Proof.
  assert (∀ r, Destinations (Spec (Default r)) = Destinations (Spec r)) as Hd.
  { intros e. unfold Default. destruct (Template _); [|done]. by case_bool_decide. }
  induction 1 as [Hok|old e _ IH Hok|old st _ IH]; [| |done].
  - apply ValidateCreate_ok in Hok as (?&?&?). by rewrite <-(Hd r0).
  - apply ValidateUpdate_ok in Hok as [(?&?&?) Heq]. destruct IH as [IH _].
    split_and!; [congruence|done..].
Qed.

(** ** Properties *)
(** C21: the create webhook accepts an Egress exactly when every destination is
    a CIDR, the strategy is Recreate or RollingUpdate (or absent) and the label
    validators accept the template's labels and annotation keys; defaulting an
    Egress first changes neither the verdict nor anything but an empty list of
    containers, and defaulting twice is defaulting once. *)
Theorem ValidateCreate_spec vl vn ni r :
  (ValidateCreate vl vn ni r = Ok tt ↔ spec_ok vl vn (Spec r)) ∧
  ValidateCreate vl vn ni (Default r) = ValidateCreate vl vn ni r ∧
  Default (Default r) = Default r ∧
  ∀ t, Template (Spec (Default r)) = Some t →
    Containers (tmpl_Spec t) ≠ [] ∧ ∃ t0, Template (Spec r) = Some t0 ∧
      (Containers (tmpl_Spec t0) ≠ [] → t = t0).
Proof.
  split; [apply ValidateCreate_ok|]. unfold Default.
  destruct r as [ns n del [ds rep st tmpl sa sac] sta], tmpl as [[md [acc vols cs rest]]|]; simpl; [|naive_solver].
  destruct cs as [|c cs]; simpl.
  - split_and!; [done..|]. intros t [= <-]. split; [done|]. eexists. split; [done|]. by simpl.
  - split_and!; [done..|]. intros t [= <-]. split; [done|]. by eexists.
Qed.

(** C23: whatever sequence of accepted creates, updates and status changes led to
    a stored Egress, its destinations are those of its creation, every one of
    them parses as a CIDR and its strategy is supported. *)
Theorem stored_destinations vl vn ni r0 r : stored vl vn ni r0 r →
  Destinations (Spec r) = Destinations (Spec r0) ∧
  Forall (λ d, is_Some (ParseCIDR d)) (Destinations (Spec r)) ∧ strategy_ok (Strategy (Spec r)).
Proof. apply stored_spec_ok. Qed.

(** ** Witnesses *)
Definition sample_spec (ds : list string) : EgressSpec :=
  mkEgressSpec ds 1 (Some (mkDeploymentStrategy "Recreate" "")) None "ClientIP" None.
Definition sample_Egress (name : string) (ds : list string) : Egress :=
  mkEgress "internet" name false (sample_spec ds) (mkEgressStatus 0 "").
Definition no_label_errors (_ : gmap string string) (_ : string) : list field_error := [].
Definition no_name_errors (_ _ : string) : list field_error := [].
Definition sample_invalid (name : string) (_ : list field_error) : error := ErrExternal name.

Lemma stored_destinations_witness :
  ValidateUpdate no_label_errors no_name_errors sample_invalid
    (sample_Egress "nat" ["10.0.0.0/8"]) (sample_Egress "nat" ["10.0.0.0/8"; "fd00::/8"]) = Err (ErrExternal "nat") ∧
  let r := sample_Egress "nat" ["10.0.0.0/8"; "fd00::/8"] in
  Destinations (Spec r) = Destinations (Spec r) ∧
  Forall (λ d, is_Some (ParseCIDR d)) (Destinations (Spec r)) ∧ strategy_ok (Strategy (Spec r)).
Proof.
  split; [by vm_compute|].
  apply (stored_destinations no_label_errors no_name_errors sample_invalid
    (sample_Egress "nat" ["10.0.0.0/8"; "fd00::/8"]) (sample_Egress "nat" ["10.0.0.0/8"; "fd00::/8"])).
  apply (stored_update _ _ _ _ (sample_Egress "nat" ["10.0.0.0/8"; "fd00::/8"]) (sample_Egress "nat" ["10.0.0.0/8"; "fd00::/8"])); [|by vm_compute].
  apply (stored_create _ _ _ (sample_Egress "nat" ["10.0.0.0/8"; "fd00::/8"])). by vm_compute.
Defined.
