(* ===== verification/Api.v ===== *)
(** * The Kubernetes API as the controllers use it

    The client of controller-runtime and the API server are outside the
    repository: [ApiOps] is the interface the controllers call, [ApiLaws] what
    they rely on, stated on a view of the cluster.  Reads are current (the
    reconcilers are run again when a cached read was stale); a failed write may
    or may not have reached the server. *)
From S2P Require Import Prelude Corev1 EgressApi.

Record Cluster := mkCluster {
  egresses : gmap ObjectKey Egress; serviceaccounts : gset ObjectKey;
  crbs : gmap string (list Subject);            (* ClusterRoleBinding name to its subjects *)
  deployments : gmap ObjectKey Deployment; services : gmap ObjectKey Service }.

Definition set_egresses (m : gmap ObjectKey Egress) (c : Cluster) : Cluster :=
  mkCluster m (serviceaccounts c) (crbs c) (deployments c) (services c).
Definition set_serviceaccounts (m : gset ObjectKey) (c : Cluster) : Cluster :=
  mkCluster (egresses c) m (crbs c) (deployments c) (services c).
Definition set_crbs (m : gmap string (list Subject)) (c : Cluster) : Cluster :=
  mkCluster (egresses c) (serviceaccounts c) m (deployments c) (services c).
Definition set_deployments (m : gmap ObjectKey Deployment) (c : Cluster) : Cluster :=
  mkCluster (egresses c) (serviceaccounts c) (crbs c) m (services c).
Definition set_services (m : gmap ObjectKey Service) (c : Cluster) : Cluster :=
  mkCluster (egresses c) (serviceaccounts c) (crbs c) (deployments c) m.

Class ApiOps (W : Type) := {
  get_Egress : ObjectKey → M W Egress;
  list_Egress : M W (list Egress);
  update_Status : Egress → M W unit;
  get_ServiceAccount : ObjectKey → M W unit;
  create_ServiceAccount : ObjectKey → M W unit;
  get_CRB : string → M W (list Subject);
  update_CRB : string → list Subject → M W unit;
  get_Deployment : ObjectKey → M W Deployment;
  (* ctrl.CreateOrUpdate: run the function on the object, or a new one, and write it *)
  CreateOrUpdate_Deployment : ObjectKey → (Deployment → outcome Deployment) → M W unit;
  get_Service : ObjectKey → M W Service;
  CreateOrUpdate_Service : ObjectKey → (Service → outcome Service) → M W unit;
  SetControllerReference : Egress → list OwnerReference → outcome (list OwnerReference);
  LabelSelectorAsSelector_String : option (gmap string string) → outcome string;
  DeepDerivative : list Subject → list Subject → bool }.

(** What the server's defaulting keeps of a pod template: everything the model
    names and the client set; it may fill in the rest of probes, security
    contexts, requests and containers. *)
Definition probe_kept (p p' : option Probe) : Prop := match p with
  | Some p => ∃ q, p' = Some q ∧ probe_Path q = probe_Path p ∧ probe_Port q = probe_Port p ∧ probe_Scheme q = probe_Scheme p
  | None => True
  end.
Definition security_kept (s s' : option SecurityContext) : Prop := match s with
  | Some s => ∃ s1, s' = Some s1 ∧ Privileged s1 = Privileged s ∧ ReadOnlyRootFilesystem s1 = ReadOnlyRootFilesystem s ∧
                    Capabilities_Add s1 = Capabilities_Add s
  | None => True
  end.
Record container_kept (c c' : Container) : Prop := {
  kept_Name : c_Name c' = c_Name c; kept_Image : Image c' = Image c; kept_Command : Command c' = Command c;
  kept_Args : Args c' = Args c; kept_Env : Env c' = Env c; kept_VolumeMounts : VolumeMounts c' = VolumeMounts c;
  kept_SecCtx : security_kept (SecCtx c) (SecCtx c'); kept_Requests : Requests c ⊆ Requests c';
  kept_Ports : Ports c' = Ports c; kept_Liveness : probe_kept (LivenessProbe c) (LivenessProbe c');
  kept_Readiness : probe_kept (ReadinessProbe c) (ReadinessProbe c') }.
Record template_kept (t t' : PodTemplateSpec) : Prop := {
  kept_Labels : pt_Labels t' = pt_Labels t; kept_Annotations : pt_Annotations t' = pt_Annotations t;
  kept_Account : ServiceAccountName (pt_Spec t) ≠ "" → ServiceAccountName (pt_Spec t') = ServiceAccountName (pt_Spec t);
  kept_Volumes : Volumes (pt_Spec t') = Volumes (pt_Spec t);
  kept_Containers : Forall2 container_kept (Containers (pt_Spec t)) (Containers (pt_Spec t')) }.

(** The object the server keeps for a submitted one: it stamps the creation,
    owns the status, fills a strategy that was left out and the defaults of the
    template. *)
Definition accepted_Deployment (d d' : Deployment) : Prop :=
  ∃ st t n, d' = mkDeployment (depl_Namespace d) (depl_Name d) (depl_deleted d) true (depl_Labels d) (depl_Owners d)
    (depl_Selector d) (depl_Replicas d) st t n ∧
    (strategy_Type (depl_Strategy d) ≠ "" → st = depl_Strategy d) ∧ template_kept (depl_Template d) t.
(** It gives a service its cluster IP, and fills its ports and affinity where
    they were left out. *)
Definition accepted_port (p p' : ServicePort) : Prop :=
  sp_Port p' = sp_Port p ∧ sp_TargetPort p' = sp_TargetPort p ∧ sp_Protocol p' = sp_Protocol p.
Definition accepted_Service (s s' : Service) : Prop :=
  ∃ ports sa sac ip, s' = mkService (svc_Namespace s) (svc_Name s) (svc_deleted s) true (svc_Labels s) (svc_Owners s)
    (svc_Type s) (svc_Selector s) ports sa sac ip ∧
    Forall2 accepted_port (svc_Ports s) ports ∧
    (svc_SessionAffinity s ≠ "" → sa = svc_SessionAffinity s) ∧
    (is_Some (svc_SessionAffinityConfig s) → sac = svc_SessionAffinityConfig s).

(** A subject is described by another one: every field it sets is equal there. *)
Definition field_described (a b : string) : Prop := a = "" ∨ a = b.
Definition subject_described (s t : Subject) : Prop :=
  field_described (sub_APIGroup s) (sub_APIGroup t) ∧ field_described (sub_Kind s) (sub_Kind t) ∧
  field_described (sub_Name s) (sub_Name t) ∧ field_described (sub_Namespace s) (sub_Namespace t).

(** A read: the view stays, the answer is right, NotFound means absent. *)
Definition reads {W A} (view : W → Cluster) (q : Cluster → option A) (m : M W A) : Prop := ∀ w,
  wp m (λ o w', view w' = view w ∧
    match o with
    | Ok a => q (view w) = Some a
    | Err e => apierrors_IsNotFound e = true → q (view w) = None
    | Panicked _ => False
    end) w.

(** A write whose effect is one of the clusters [T] relates: an error may come
    before or after it. *)
Definition writes {W} (view : W → Cluster) (T : Cluster → Cluster → Prop) (m : M W unit) : Prop := ∀ w,
  wp m (λ o w', match o with
    | Ok _ => T (view w) (view w')
    | Err _ => view w' = view w ∨ T (view w) (view w')
    | Panicked _ => False
    end) w.

Class ApiLaws (W : Type) `{!ApiOps W} := {
  api_view : W → Cluster;
  law_get_Egress k : reads api_view (λ c, egresses c !! k) (get_Egress k);
  law_list_Egress w : wp list_Egress (λ o w', api_view w' = api_view w ∧
    match o with Ok l => l ≡ₚ (map_to_list (egresses (api_view w))).*2 | Err _ => True | Panicked _ => False end) w;
  law_update_Status eg : writes api_view (λ c c', ∃ old, egresses c !! eg_key eg = Some old ∧
    c' = set_egresses (<[eg_key eg := mkEgress (eg_Namespace old) (eg_Name old) (eg_deleted old) (Spec old) (Status eg)]>
           (egresses c)) c) (update_Status eg);
  law_get_ServiceAccount k : reads api_view
    (λ c, if bool_decide (k ∈ serviceaccounts c) then Some tt else None) (get_ServiceAccount k);
  law_create_ServiceAccount k : writes api_view
    (λ c c', c' = set_serviceaccounts ({[k]} ∪ serviceaccounts c) c) (create_ServiceAccount k);
  law_get_CRB n : reads api_view (λ c, crbs c !! n) (get_CRB n);
  law_update_CRB n l : writes api_view (λ c c', c' = set_crbs (<[n := l]> (crbs c)) c) (update_CRB n l);
  law_get_Deployment k : reads api_view (λ c, deployments c !! k) (get_Deployment k);
  law_CreateOrUpdate_Deployment k f : (∀ d s, f d ≠ Panicked s) → writes api_view (λ c c', ∃ d d',
    f (default (new_Deployment k) (deployments c !! k)) = Ok d ∧ accepted_Deployment d d' ∧
    c' = set_deployments (<[k := d']> (deployments c)) c) (CreateOrUpdate_Deployment k f);
  law_get_Service k : reads api_view (λ c, services c !! k) (get_Service k);
  law_CreateOrUpdate_Service k f : (∀ s m, f s ≠ Panicked m) → writes api_view (λ c c', ∃ s s',
    f (default (new_Service k) (services c !! k)) = Ok s ∧ accepted_Service s s' ∧
    c' = set_services (<[k := s']> (services c)) c) (CreateOrUpdate_Service k f);
  law_SetControllerReference eg l m : SetControllerReference eg l ≠ Panicked m;
  law_SetControllerReference_owner eg l l' : SetControllerReference eg l = Ok l' → controlled_by "Egress" (eg_Name eg) l';
  law_LabelSelectorAsSelector_String s m : LabelSelectorAsSelector_String s ≠ Panicked m;
  (* "unset fields in a1 are ignored (not compared)" *)
  law_DeepDerivative l l' : DeepDerivative l l' = true → ∃ l1 l2, l' = l1 ++ l2 ∧ Forall2 subject_described l l1 }.

(** ** Sequences of requests

    [does T F m]: [m] never panics, relates the clusters by [T] when it returns
    nil and by the frame [F] when it fails. *)
Definition does {W} (view : W → Cluster) (T F : Cluster → Cluster → Prop) (m : M W unit) : Prop := ∀ w,
  wp m (λ o w', match o with
    | Ok _ => T (view w) (view w')
    | Err _ => F (view w) (view w')
    | Panicked _ => False
    end) w.

Section does.
Context {W : Type} (view : W → Cluster) (F : Cluster → Cluster → Prop) `{!PreOrder F}.

Lemma does_writes (T : Cluster → Cluster → Prop) m : writes view T m → (∀ c c', T c c' → F c c') → does view T F m.
Proof using All. intros Hm HT w. eapply wp_mono; [apply Hm|]. intros [a|e|s] w'; [done| |done]. intros [->|H]; [done|auto]. Qed.

Lemma does_seq (T1 T2 : Cluster → Cluster → Prop) (m1 m2 : M W unit) :
  does view T1 F m1 → does view T2 F m2 → (∀ c c', T1 c c' → F c c') →
  does view (λ c c'', ∃ c', T1 c c' ∧ T2 c' c'') F (_ ← m1; m2).
Proof using All.
  intros H1 H2 HT w. apply wp_bind. eapply wp_mono; [apply H1|]. intros [[]|e|s] w1 Hw1; simpl; [|done..].
  eapply wp_mono; [apply H2|]. intros [[]|e|s] w2 Hw2; simpl; [by eexists| |done].
  etransitivity; [by apply HT|done].
Qed.
End does.
