(* ===== verification/FakeApi.v ===== *)
(** * A concrete API server

    An executable instance of the interface of [Api.v], with failures injected
    per request; it discharges the interface's laws and runs the witnesses. *)
From Stdlib Require Import Ascii.
From S2P Require Import Prelude GoStrings Corev1 EgressApi Api.

Record server := mkServer { sv_cluster : Cluster; sv_faults : list bool }.
Definition with_cluster (c : Cluster) (s : server) : server := mkServer c (sv_faults s).
Definition empty_cluster : Cluster := mkCluster ∅ ∅ ∅ ∅ ∅.

Definition served {A} (op : Cluster → outcome A * Cluster) : M server A := λ s,
  match sv_faults s with
  | true :: fs => (Err (ErrExternal "request failed"), mkServer (sv_cluster s) fs)
  | _ => let (o, c) := op (sv_cluster s) in (o, mkServer c (tail (sv_faults s)))
  end.
Definition served_read {A} (q : Cluster → option A) : M server A := served (λ c,
  (match q c with Some a => Ok a | None => Err (ErrAPINotFound "not found") end, c)).
Definition served_write (g : Cluster → outcome Cluster) : M server unit := served (λ c,
  match g c with Ok c' => (Ok tt, c') | Err e => (Err e, c) | Panicked m => (Panicked m, c) end).

Definition accept_Container (c : Container) : Container :=
  mkContainer (c_Name c) (Image c) (Command c) (Args c) (Env c) (VolumeMounts c) (SecCtx c) (Requests c) (Ports c)
    (LivenessProbe c) (ReadinessProbe c) (if String.eqb (c_rest c) "" then "imagePullPolicy: IfNotPresent" else c_rest c).
Definition accept_Template (t : PodTemplateSpec) : PodTemplateSpec :=
  mkPodTemplateSpec (pt_Labels t) (pt_Annotations t)
    (mkPodSpec (ServiceAccountName (pt_Spec t)) (Volumes (pt_Spec t)) (accept_Container <$> Containers (pt_Spec t)) (ps_rest (pt_Spec t))).
Definition accept_Deployment (d : Deployment) : Deployment :=
  mkDeployment (depl_Namespace d) (depl_Name d) (depl_deleted d) true (depl_Labels d) (depl_Owners d)
    (depl_Selector d) (depl_Replicas d)
    (if String.eqb (strategy_Type (depl_Strategy d)) "" then mkDeploymentStrategy "RollingUpdate" "25%" else depl_Strategy d)
    (accept_Template (depl_Template d)) (AvailableReplicas d).
Definition accept_Service (s : Service) : Service :=
  mkService (svc_Namespace s) (svc_Name s) (svc_deleted s) true (svc_Labels s) (svc_Owners s)
    (svc_Type s) (svc_Selector s) (svc_Ports s) (svc_SessionAffinity s) (svc_SessionAffinityConfig s)
    (if String.eqb (ClusterIP s) "" then "10.96.0.7" else ClusterIP s).

(** apimachinery's DeepDerivative on lists of subjects. *)
Definition string_derivative (a b : string) : bool := String.eqb a "" || String.eqb a b.
Definition subject_derivative (s t : Subject) : bool :=
  string_derivative (sub_APIGroup s) (sub_APIGroup t) && string_derivative (sub_Kind s) (sub_Kind t) &&
  string_derivative (sub_Name s) (sub_Name t) && string_derivative (sub_Namespace s) (sub_Namespace t).
Fixpoint subjects_derivative (l l' : list Subject) : bool :=
  match l, l' with
  | [], _ => true
  | s :: l, t :: l' => subject_derivative s t && subjects_derivative l l'
  | _ :: _, [] => false
  end.

Definition own (eg : Egress) (l : list OwnerReference) : outcome (list OwnerReference) :=
  if existsb or_Controller l then Err (ErrExternal "already owned")
  else Ok (l ++ [mkOwnerReference "Egress" (eg_Name eg) "" true]).

#[global] Instance server_ops : ApiOps server := {
  get_Egress k := served_read (λ c, egresses c !! k);
  list_Egress := served_read (λ c, Some (map_to_list (egresses c)).*2);
  update_Status eg := served_write (λ c,
    match egresses c !! eg_key eg with
    | Some old => Ok (set_egresses (<[eg_key eg :=
        mkEgress (eg_Namespace old) (eg_Name old) (eg_deleted old) (Spec old) (Status eg)]> (egresses c)) c)
    | None => Err (ErrAPINotFound "not found")
    end);
  get_ServiceAccount k := served_read (λ c, if bool_decide (k ∈ serviceaccounts c) then Some tt else None);
  create_ServiceAccount k := served_write (λ c, Ok (set_serviceaccounts ({[k]} ∪ serviceaccounts c) c));
  get_CRB n := served_read (λ c, crbs c !! n);
  update_CRB n l := served_write (λ c, Ok (set_crbs (<[n := l]> (crbs c)) c));
  get_Deployment k := served_read (λ c, deployments c !! k);
  CreateOrUpdate_Deployment k f := served_write (λ c,
    (λ d, set_deployments (<[k := accept_Deployment d]> (deployments c)) c) <$>
      f (default (new_Deployment k) (deployments c !! k)));
  get_Service k := served_read (λ c, services c !! k);
  CreateOrUpdate_Service k f := served_write (λ c,
    (λ s, set_services (<[k := accept_Service s]> (services c)) c) <$>
      f (default (new_Service k) (services c !! k)));
  SetControllerReference := own;
  LabelSelectorAsSelector_String sel := Ok (match sel with Some m => Join (map (λ kv, kv.1 +:+ "=" +:+ kv.2) (map_to_list m)) ","%char | None => "" end);
  DeepDerivative := subjects_derivative }.

Lemma reads_served {A} (q : Cluster → option A) : reads sv_cluster q (served_read q).
Proof.
  intros [c fs]. unfold wp, served_read, served. simpl.
  destruct fs as [|[|] fs]; simpl; [|done|]; by destruct (q c).
Qed.

Lemma writes_served (g : Cluster → outcome Cluster) (T : Cluster → Cluster → Prop) :
  (∀ c, match g c with Ok c' => T c c' | Err _ => True | Panicked _ => False end) →
  writes sv_cluster T (served_write g).
Proof.
  intros Hg [c fs]. unfold wp, served_write, served. simpl. specialize (Hg c).
  destruct fs as [|[|] fs]; simpl; [|by left|]; destruct (g c); simpl; auto.
Qed.

Lemma subject_derivative_described s t : subject_derivative s t = true → subject_described s t.
Proof.
  unfold subject_derivative, subject_described, field_described, string_derivative.
  rewrite !andb_true_iff, !orb_true_iff, !String.eqb_eq. tauto.
Qed.

Lemma subjects_derivative_described l l' : subjects_derivative l l' = true →
  ∃ l1 l2, l' = l1 ++ l2 ∧ Forall2 subject_described l l1.
Proof.
  revert l'. induction l as [|s l IH]; intros l' Hd.
  - exists [], l'. split; [done|constructor].
  - destruct l' as [|t l']; [done|]. simpl in Hd. apply andb_true_iff in Hd as [Ht Hl].
    destruct (IH _ Hl) as (l1&l2&->&HF). exists (t :: l1), l2. split; [done|].
    constructor; [by apply subject_derivative_described|done].
Qed.

Lemma accept_Template_kept t : template_kept t (accept_Template t).
Proof.
  split; try done. apply Forall2_fmap_r, Forall_Forall2_diag, Forall_true. intros c. split; try done; simpl.
  - destruct (SecCtx c); simpl; eauto.
  - destruct (LivenessProbe c); simpl; eauto.
  - destruct (ReadinessProbe c); simpl; eauto.
Qed.

Lemma accept_Deployment_ok d : accepted_Deployment d (accept_Deployment d).
Proof.
  eexists _, _, _. split; [done|]. split; [|apply accept_Template_kept]. intros Hne. by destruct (String.eqb_spec (strategy_Type (depl_Strategy d)) "").
Qed.

Lemma accept_Service_ok s : accepted_Service s (accept_Service s).
Proof. do 4 eexists. split_and!; [done| |done..]. apply Forall_Forall2_diag, Forall_true. intros p. done. Qed.

Lemma own_controls eg l l' : own eg l = Ok l' → controlled_by "Egress" (eg_Name eg) l'.
Proof.
  unfold own. destruct (existsb _ _) eqn:E; [done|]. intros [= <-]. unfold controlled_by, GetControllerOf.
  assert (list_find (λ o, or_Controller o = true) l = None) as H.
  { apply list_find_None, Forall_forall. intros o Ho Hc. apply (not_false_iff_true (existsb or_Controller l)); [|done].
    apply existsb_exists. exists o. by split; [apply list_elem_of_In|]. }
  eexists. split; [by rewrite list_find_app_r by done|done].
Qed.

#[global] Instance server_laws : ApiLaws server.
Proof.
  refine {| api_view := sv_cluster |}; intros.
  - apply reads_served.
  - eapply wp_mono; [apply (reads_served _ w)|]. simpl. intros o w' [Hv Ho]. split; [done|].
    destruct o as [l| |]; [|done..]. by injection Ho as <-.
  - apply writes_served. intros c. destruct (egresses c !! _) eqn:E; naive_solver.
  - apply reads_served.
  - by apply writes_served.
  - apply reads_served.
  - by apply writes_served.
  - apply reads_served.
  - apply writes_served. intros c. destruct (f _) as [d|?|s] eqn:E; simpl; [|done|by destruct (H _ _ E)].
    exists d, (accept_Deployment d). split_and!; [done|apply accept_Deployment_ok|done].
  - apply reads_served.
  - apply writes_served. intros c. destruct (f _) as [d|?|s] eqn:E; simpl; [|done|by destruct (H _ _ E)].
    exists d, (accept_Service d). split_and!; [done|apply accept_Service_ok|done].
  - simpl. unfold own. by destruct (existsb _ _).
  - by eapply own_controls.
  - done.
  - by apply subjects_derivative_described.
Defined.
