(* ===== verification/Crb.v ===== *)
(** * The ClusterRoleBinding reconciler
      ([controllers/clusterrolebinding_controller.go])

    Keeps one binding whose subjects are the egress service accounts of the
    namespaces that have an Egress. *)
From S2P Require Import Prelude Constants GoStrings Corev1 EgressApi Api FakeApi.

(** ** Operations *)
Definition nsMap (items : list Egress) : gset string := list_to_set (eg_Namespace <$> items).
Definition namespaces (items : list Egress) : list string := sort_Strings (elements (nsMap items)).
Definition ns_subject (n : string) : Subject := mkSubject "" "ServiceAccount" SAEgress n.
Definition crb_subjects (items : list Egress) : list Subject := ns_subject <$> namespaces items.

(** The event filter of [SetupCRBReconciler]. *)
Definition crb_filter (name : string) : bool := String.eqb name CRBEgress.

Section crb.
Context {W : Type} `{!ApiOps W}.

Definition reconcileCRB (name : string) : M W unit :=
  current ← get_CRB name;
  items ← list_Egress;
  let subjects := crb_subjects items in
  if DeepDerivative subjects current then mret tt else update_CRB name subjects.

Definition crb_Reconcile (req_name : string) : M W unit :=
  if String.eqb req_name CRBEgress then reconcileCRB req_name else mret tt.
End crb.

(** ** What the binding has to contain *)
Definition wanted (c : Cluster) (n : string) : Prop := ∃ k eg, egresses c !! k = Some eg ∧ eg_Namespace eg = n.

(** A subject that grants the egress service account of namespace [n]. *)
Definition grants (n : string) (s : Subject) : Prop :=
  sub_Kind s = "ServiceAccount" ∧ sub_Name s = SAEgress ∧ sub_Namespace s = n.
Definition bound (n : string) (l : list Subject) : Prop := Exists (grants n) l.

Lemma elem_namespaces c items n : items ≡ₚ (map_to_list (egresses c)).*2 → n ∈ namespaces items ↔ wanted c n.
Proof.
  intros Hp. unfold namespaces. rewrite sort_Strings_perm, elem_of_elements. unfold nsMap.
  rewrite elem_of_list_to_set, list_elem_of_fmap. unfold wanted. split.
  - intros (eg & -> & Hin). rewrite Hp in Hin. apply list_elem_of_fmap in Hin as ([k eg'] & -> & Hin).
    apply elem_of_map_to_list in Hin. by exists k, eg'.
  - intros (k & eg & Hk & <-). exists eg. split; [done|]. rewrite Hp. apply list_elem_of_fmap.
    exists (k, eg). by split; [|apply elem_of_map_to_list].
Qed.

Lemma NoDup_namespaces items : NoDup (namespaces items).
Proof. unfold namespaces. rewrite sort_Strings_perm. apply NoDup_elements. Qed.

Lemma bound_described n s t : n ≠ "" → subject_described s t → grants n s → grants n t.
Proof.
  intros Hn (_ & Hk & Hm & Hs) (Ek & Em & Es). unfold field_described, grants in *.
  rewrite Ek in Hk. rewrite Em in Hm. rewrite Es in Hs.
  destruct Hk as [?|<-], Hm as [?|<-], Hs as [?|<-]; done.
Qed.

Lemma described_bound n l l1 l2 : n ≠ "" → Forall2 subject_described l l1 → bound n l → bound n (l1 ++ l2).
Proof.
  intros Hn HF Hb. apply Exists_app. left. induction HF as [|s t l l1 Hst HF IH]; [by inversion Hb|].
  inversion Hb; subst; [left; by eapply bound_described|right; auto].
Qed.

Lemma crb_subjects_bound items n : bound n (crb_subjects items) ↔ n ∈ namespaces items.
Proof.
  unfold bound, crb_subjects, grants. rewrite Exists_exists. setoid_rewrite list_elem_of_fmap. split.
  - by intros (? & (m & -> & Hm) & _ & _ & <-).
  - intros Hn. exists (ns_subject n). split; [by exists n|done].
Qed.

(** How [reconcileCRB] relates the cluster before to the one after, when it
    returns nil. *)
Definition crb_reconciled (name : string) (c c' : Cluster) : Prop := ∃ l0 items,
  crbs c !! name = Some l0 ∧ items ≡ₚ (map_to_list (egresses c)).*2 ∧
  (c' = c ∧ (∃ l1 l2, l0 = l1 ++ l2 ∧ Forall2 subject_described (crb_subjects items) l1) ∨
   c' = set_crbs (<[name := crb_subjects items]> (crbs c)) c).

Section reconciled.
Context {W : Type} `{!ApiOps W, !ApiLaws W}.

Lemma writes_reconcileCRB name : writes api_view (crb_reconciled name) (reconcileCRB name).
Proof.
  intros w. unfold reconcileCRB. wp_steps. eapply wp_mono; [apply law_get_CRB|]. intros [l0|e|m] w1 [Hv1 H1]; simpl; [|by left|done].
  wp_steps. eapply wp_mono; [apply law_list_Egress|]. intros [items|e|m] w2 [Hv2 H2]; simpl; [|left; congruence|done].
  rewrite Hv1 in H2. destruct (DeepDerivative _ _) eqn:E.
  - apply wp_ret. exists l0, items. split_and!; [done..|]. left. split; [congruence|]. by apply law_DeepDerivative.
  - eapply wp_mono; [apply law_update_CRB|]. rewrite Hv2, Hv1.
    assert (∀ w', api_view w' = set_crbs (<[name:=crb_subjects items]> (crbs (api_view w))) (api_view w) →
      crb_reconciled name (api_view w) (api_view w')) as Hok by (intros w' ->; exists l0, items; auto).
    intros [[]|e|m] w3; simpl; [|intros []|]; auto.
Qed.
End reconciled.

Lemma crb_reconciled_bound name c c' n : crb_reconciled name c c' → wanted c n → n ≠ "" →
  ∃ l, crbs c' !! name = Some l ∧ bound n l.
Proof.
  intros (l0 & items & Hl & Hp & Hc) Hw Hn.
  apply (elem_namespaces _ items), crb_subjects_bound in Hw; [|done].
  destruct Hc as [[-> (l1 & l2 & -> & HF)] | ->].
  - eexists. split; [done|]. by eapply described_bound.
  - exists (crb_subjects items). split; [|done]. simpl. apply lookup_insert_eq.
Qed.

(** Only the binding changes. *)
Lemma crb_reconciled_frame name c c' : crb_reconciled name c c' →
  c' = set_crbs (crbs c') c ∧ delete name (crbs c') = delete name (crbs c).
Proof.
  intros (l0 & items & _ & _ & [[-> _] | ->]); [by destruct c|]. split; [by destruct c|]. apply delete_insert_eq.
Qed.

Lemma crb_subjects_perm l1 l2 : l1 ≡ₚ l2 → crb_subjects l1 = crb_subjects l2.
Proof.
  intros Hp. unfold crb_subjects, namespaces. enough (nsMap l1 = nsMap l2) as -> by done.
  apply set_eq. intros n. unfold nsMap. by rewrite !elem_of_list_to_set, Hp.
Qed.

(** ** Properties *)
(** C24: when [reconcileCRB] returns nil, every namespace with an Egress has its
    service account bound; the subjects are the ones that were there or exactly
    the sorted, duplicate-free list of those namespaces; and in every case, also
    when a request fails, nothing but this binding changes. *)
Theorem reconcileCRB_binds {W} `{!ApiOps W, !ApiLaws W} name (w : W) :
  wp (reconcileCRB name) (λ o w',
    api_view w' = set_crbs (crbs (api_view w')) (api_view w) ∧
    delete name (crbs (api_view w')) = delete name (crbs (api_view w)) ∧
    match o with
    | Ok _ => ∃ l, crbs (api_view w') !! name = Some l ∧
        (∀ n, wanted (api_view w) n → n ≠ "" → bound n l) ∧
        (crbs (api_view w) !! name = Some l ∨ ∃ ns, l = ns_subject <$> ns ∧ NoDup ns ∧ Sorted String.le ns ∧
           ∀ n, n ∈ ns ↔ wanted (api_view w) n)
    | Err _ => True
    | Panicked _ => False
    end) w.
Proof.
  eapply wp_mono; [apply writes_reconcileCRB|]. intros o w' Ho.
  assert (api_view w' = set_crbs (crbs (api_view w')) (api_view w) ∧
    delete name (crbs (api_view w')) = delete name (crbs (api_view w))) as [Hf1 Hf2].
  { destruct o; [by apply crb_reconciled_frame| |done].
    destruct Ho as [->|?%crb_reconciled_frame]; [|done]. by destruct (api_view w). }
  split_and!; [done..|].
  destruct o as [[]| |]; [|done..]. pose proof Ho as (l0 & items & Hl & Hp & Hc).
  assert (∃ l, crbs (api_view w') !! name = Some l ∧ (crbs (api_view w) !! name = Some l ∨ l = crb_subjects items)) as (l & Hl' & Hor).
  { destruct Hc as [[-> _] | ->]; [by eauto|]. exists (crb_subjects items). split; [apply lookup_insert_eq|by right]. }
  exists l. split_and!; [done| |].
  - intros n Hw Hn. destruct (crb_reconciled_bound _ _ _ _ Ho Hw Hn) as (l' & Hl'' & Hb). by simplify_eq.
  - destruct Hor as [Hor|Hor]; [by left|right]. exists (namespaces items). split_and!; [done|apply NoDup_namespaces|apply sort_Strings_sorted|].
    intros n. by apply elem_namespaces.
Qed.

(** C25: as [DeepDerivative] accepts a list that goes on past the wanted one, a
    binding whose first subjects are the wanted ones is left as it is: the
    subjects of namespaces that lost their last Egress stay bound. *)
Theorem reconcileCRB_keeps_stale {W} `{!ApiOps W, !ApiLaws W} name items gone (w : W) :
  (∀ l l2, DeepDerivative l (l ++ l2) = true) →
  items ≡ₚ (map_to_list (egresses (api_view w))).*2 →
  crbs (api_view w) !! name = Some (crb_subjects items ++ gone) →
  wp (reconcileCRB name) (λ _ w', api_view w' = api_view w) w.
Proof.
  intros HD Hp Hl. unfold reconcileCRB. wp_steps.
  eapply wp_mono; [apply law_get_CRB|]. intros [l0|e|m] w1 [Hv1 H1]; simpl; [|done..].
  assert (l0 = crb_subjects items ++ gone) as -> by congruence.
  wp_steps. eapply wp_mono; [apply law_list_Egress|]. intros [items'|e|m] w2 [Hv2 H2]; simpl; [|congruence..].
  rewrite (crb_subjects_perm items' items) by (rewrite Hp, H2; by rewrite Hv1). rewrite HD. apply wp_ret. congruence.
Qed.

(** ** Witnesses *)
Definition stale_cluster : Cluster :=
  set_crbs {["egress-gw" := ns_subject <$> ["internet"; "obsolete"]]}
    (set_egresses {[("internet", "nat") := sample_Egress "nat" ["10.0.0.0/8"]]} empty_cluster).

Lemma subjects_derivative_app l l2 : subjects_derivative l (l ++ l2) = true.
Proof.
  induction l as [|s l IH]; [done|]. simpl. rewrite IH. unfold subject_derivative, string_derivative.
  by rewrite !String.eqb_refl, !orb_true_r.
Qed.

Lemma reconcileCRB_keeps_stale_witness :
  ¬ wanted stale_cluster "obsolete" ∧
  wp (reconcileCRB "egress-gw") (λ _ w', api_view w' = api_view (mkServer stale_cluster [])) (mkServer stale_cluster []).
Proof.
  split.
  - intros (k & eg & Hk & Hn). cbn in Hk. apply lookup_singleton_Some in Hk as [_ <-]. done.
  - apply (reconcileCRB_keeps_stale "egress-gw" [sample_Egress "nat" ["10.0.0.0/8"]]
      (ns_subject <$> ["obsolete"]) (mkServer stale_cluster [])).
    + exact subjects_derivative_app.
    + by vm_compute.
    + by vm_compute.
Defined.
