(* ===== verification/EgressController.v ===== *)
(** * The Egress reconciler ([controllers/egress_controller.go])

    Creates what an Egress stands for: a service account, the binding of
    [Crb.v], a deployment of egress pods and the service in front of them.  The
    functions passed to [ctrl.CreateOrUpdate] are pure functions of the object
    ([mutate_Deployment], [mutate_Service]). *)
From S2P Require Import Prelude Constants GoStrings Corev1 EgressApi Api FakeApi Crb.

Record EgressReconciler := mkEgressReconciler { r_Image : string; r_Port : Z }.

Definition selectorLabels (name : string) : gmap string string :=
  <[LabelAppName := "egress-cni"]> (<[LabelAppInstance := name]> (<[LabelAppComponent := "egress"]> ∅)).

(** ** The pod template *)
Definition addVolumes (vols : list Volume) : list Volume :=
  let noRun := negb (existsb (λ vol, String.eqb (vol_Name vol) "run") vols) in
  let vols := if noRun then vols ++ [mkVolume "run" EmptyDir] else vols in
  vols ++ [mkVolume "modules" (HostPath "/lib/modules")].

Definition addVolumeMounts (mounts : list VolumeMount) : list VolumeMount :=
  let noRun := negb (existsb (λ m, String.eqb (vm_Name m) "run") mounts) in
  let mounts := if noRun then mounts ++ [mkVolumeMount "/run" "run" false] else mounts in
  mounts ++ [mkVolumeMount "/lib/modules" "modules" true].

Definition egress_env (eg : Egress) : list EnvVar :=
  [mkEnvVar EnvPodNamespace (eg_Namespace eg) None; mkEnvVar EnvEgressName (eg_Name eg) None;
   mkEnvVar EnvAddresses "" (Some (FieldRef "status.podIPs"))].

Definition egress_security : SecurityContext := mkSecurityContext (Some true) (Some true) ["NET_ADMIN"] "".
Definition egress_ports : list ContainerPort := [mkContainerPort "metrics" 8080 "TCP"; mkContainerPort "health" 8081 "TCP"].
Definition http_probe (path : string) : Probe := mkProbe path "health" "HTTP" "".

(** [if _, ok := m[k]; !ok { m[k] = v }]. *)
Definition insert_default (k v : string) (m : gmap string string) : gmap string string :=
  match m !! k with Some _ => m | None => <[k := v]> m end.

(** What happens to the container [egressContainer] points to. *)
Definition egressContainer (r : EgressReconciler) (eg : Egress) (c : Container) : Container :=
  mkContainer "egress-gw"
    (if String.eqb (Image c) "" then r_Image r else Image c)
    (if bool_decide (length (Command c) = 0%nat) then ["egress-gw"] else Command c)
    (if bool_decide (length (Args c) = 0%nat) then ["--zap-stacktrace-level=panic"] else Args c)
    (Env c ++ egress_env eg)
    (addVolumeMounts (VolumeMounts c))
    (Some egress_security)
    (insert_default "memory" "200Mi" (insert_default "cpu" "100m" (Requests c)))
    egress_ports (Some (http_probe "/healthz")) (Some (http_probe "/readyz")) (c_rest c).

(** The loop leaves a pointer to the last container of that name. *)
Fixpoint last_named (n : string) (cs : list Container) (i : nat) (found : option nat) : option nat :=
  match cs with
  | [] => found
  | c :: cs => last_named n cs (S i) (if String.eqb (c_Name c) n then Some i else found)
  end.

Definition setContainer (r : EgressReconciler) (eg : Egress) (cs : list Container) : list Container :=
  match last_named "egress-gw" cs 0 None with
  | Some i => alter (egressContainer r eg) i cs
  | None => egressContainer r eg empty_Container :: cs
  end.

Definition desired_PodSpec (eg : Egress) : PodSpec :=
  match Template (Spec eg) with Some t => tmpl_Spec t | None => empty_PodSpec end.
Definition desired_Labels (eg : Egress) : gmap string string :=
  match Template (Spec eg) with Some t => md_Labels (tmpl_Metadata t) | None => ∅ end.
Definition desired_Annotations (eg : Egress) : gmap string string :=
  match Template (Spec eg) with Some t => list_to_map (md_Annotations (tmpl_Metadata t)) | None => ∅ end.

(** [m[k] = v] for every entry of [new]: its entries win. *)
Definition assign (new m : gmap string string) : gmap string string := new ∪ m.

Definition reconcilePodTemplate (r : EgressReconciler) (eg : Egress) (target : PodTemplateSpec) : PodTemplateSpec :=
  let podSpec := desired_PodSpec eg in
  mkPodTemplateSpec
    (assign (selectorLabels (eg_Name eg)) (assign (desired_Labels eg) ∅))
    (assign (desired_Annotations eg) (pt_Annotations target))
    (mkPodSpec SAEgress (addVolumes (Volumes podSpec)) (setContainer r eg (Containers podSpec)) (ps_rest podSpec)).

Arguments reconcilePodTemplate : simpl never.
Arguments selectorLabels : simpl never.

(** ** The objects *)
Definition with_owners (l : list OwnerReference) (sel : option (gmap string string)) (d : Deployment) : Deployment :=
  mkDeployment (depl_Namespace d) (depl_Name d) (depl_deleted d) (depl_created d) (depl_Labels d) l sel
    (depl_Replicas d) (depl_Strategy d) (depl_Template d) (AvailableReplicas d).

Section mutate.
Context (SetRef : Egress → list OwnerReference → outcome (list OwnerReference)).

Definition mutate_Deployment (r : EgressReconciler) (eg : Egress) (depl : Deployment) : outcome Deployment :=
  if depl_deleted depl then Ok depl
  else
    let labels := selectorLabels (eg_Name eg) in
    depl' ← (if negb (depl_created depl) then
               refs ← SetRef eg (depl_Owners depl);
               Ok (with_owners refs (Some labels) depl)
             else Ok depl);
    Ok (mkDeployment (depl_Namespace depl') (depl_Name depl') (depl_deleted depl') (depl_created depl')
      (assign labels (depl_Labels depl')) (depl_Owners depl') (depl_Selector depl')
      (if bool_decide (depl_Replicas depl' = Some (Replicas (Spec eg))) then depl_Replicas depl'
       else Some (Replicas (Spec eg)))
      (match Strategy (Spec eg) with Some s => s | None => depl_Strategy depl' end)
      (reconcilePodTemplate r eg (depl_Template depl')) (AvailableReplicas depl')).

Definition mutate_Service (r : EgressReconciler) (eg : Egress) (svc : Service) : outcome Service :=
  if svc_deleted svc then Ok svc
  else
    let labels := selectorLabels (eg_Name eg) in
    refs ← (if negb (svc_created svc) then SetRef eg (svc_Owners svc) else Ok (svc_Owners svc));
    Ok (mkService (svc_Namespace svc) (svc_Name svc) (svc_deleted svc) (svc_created svc)
      (assign labels (svc_Labels svc)) refs "ClusterIP" labels
      [mkServicePort (r_Port r) (r_Port r) "UDP" ""] (SessionAffinity (Spec eg))
      (match SessionAffinityConfig (Spec eg) with Some c => Some c | None => svc_SessionAffinityConfig svc end)
      (ClusterIP svc)).
End mutate.

Definition with_Status (st : EgressStatus) (eg : Egress) : Egress :=
  mkEgress (eg_Namespace eg) (eg_Name eg) (eg_deleted eg) (Spec eg) st.

(** ** Operations *)
Section controller.
Context {W : Type} `{!ApiOps W}.

Definition reconcileServiceAccount (ns : string) : M W unit :=
  res ← attempt (get_ServiceAccount (ns, SAEgress));
  match res with
  | inl _ => mret tt
  | inr err => if apierrors_IsNotFound err then create_ServiceAccount (ns, SAEgress) else throw err
  end.

Definition reconcileDeployment (r : EgressReconciler) (eg : Egress) : M W unit :=
  CreateOrUpdate_Deployment (eg_key eg) (mutate_Deployment SetControllerReference r eg).

Definition reconcileService (r : EgressReconciler) (eg : Egress) : M W unit :=
  CreateOrUpdate_Service (eg_key eg) (mutate_Service SetControllerReference r eg).

Definition updateStatus (eg : Egress) : M W unit :=
  depl ← get_Deployment (eg_key eg);
  selString ← lift_outcome (LabelSelectorAsSelector_String (depl_Selector depl));
  let st := Status eg in
  let st1 := if negb (String.eqb (st_Selector st) selString) then mkEgressStatus (st_Replicas st) selString else st in
  let st2 := if negb (st_Replicas st1 =? AvailableReplicas depl)
             then mkEgressStatus (AvailableReplicas depl) (st_Selector st1) else st1 in
  let changed := negb (String.eqb (st_Selector st) selString) || negb (st_Replicas st1 =? AvailableReplicas depl) in
  if changed then update_Status (with_Status st2 eg) else mret tt.

Definition Reconcile (r : EgressReconciler) (req : ObjectKey) : M W unit :=
  got ← attempt (get_Egress req);
  match got with
  | inr err => if apierrors_IsNotFound err then mret tt else throw err
  | inl eg =>
      if eg_deleted eg then mret tt
      else
        _ ← reconcileServiceAccount req.1;
        _ ← reconcileCRB CRBEgress;
        _ ← reconcileDeployment r eg;
        _ ← reconcileService r eg;
        updateStatus eg
  end.
End controller.

(** [apiReader.Get] of this pod gives its containers. *)
Definition GetImage (got : outcome (list Container)) : outcome string :=
  cs ← got; match cs with c :: _ => Ok (Image c) | [] => Panicked "index out of range [0] with length 0" end.

(** ** The pod template, by cases *)
Lemma last_named_spec n cs i f : match last_named n cs i f with
  | Some j => (f = Some j ∧ Forall (λ c, c_Name c ≠ n) cs) ∨
      ∃ k c, j = (i + k)%nat ∧ cs !! k = Some c ∧ c_Name c = n ∧ Forall (λ c, c_Name c ≠ n) (drop (S k) cs)
  | None => f = None ∧ Forall (λ c, c_Name c ≠ n) cs
  end.
Proof.
  revert i f. induction cs as [|c cs IH]; intros i f; simpl; [destruct f; auto|].
  specialize (IH (S i) (if String.eqb (c_Name c) n then Some i else f)).
  destruct (last_named _ _ _ _) as [j|], (String.eqb_spec (c_Name c) n) as [En|En]; destruct IH as [IH1 IH2] || destruct IH as [IH|IH].
  all: try done.
  - destruct IH as [[= <-] Hcs]. right. exists 0%nat, c. split_and!; [lia|done..].
  - destruct IH as (k & c' & -> & ?). right. exists (S k), c'. split; [lia|done].
  - destruct IH as [-> Hcs]. left. split; [done|]. by constructor.
  - destruct IH as (k & c' & -> & ?). right. exists (S k), c'. split; [lia|done].
  - split; [done|]. by constructor.
Qed.

Lemma insert_default_lookup k v m : is_Some (insert_default k v m !! k) ∧ m ⊆ insert_default k v m.
Proof.
  unfold insert_default. destruct (m !! k) eqn:E; [by rewrite E|].
  rewrite lookup_insert_eq. split; [done|]. by apply insert_subseteq.
Qed.

(** The containers of other names stay, in order; one of the named ones is the
    egress container. *)
Lemma setContainer_spec r eg cs :
  filter (λ c, c_Name c ≠ "egress-gw") (setContainer r eg cs) = filter (λ c, c_Name c ≠ "egress-gw") cs ∧
  (∃ c0, egressContainer r eg c0 ∈ setContainer r eg cs) ∧
  length (filter (λ c, c_Name c = "egress-gw") (setContainer r eg cs)) =
    Nat.max 1 (length (filter (λ c, c_Name c = "egress-gw") cs)).
Proof.
  unfold setContainer. pose proof (last_named_spec "egress-gw" cs 0 None) as Hl.
  destruct (last_named _ _ _ _) as [j|]; [destruct Hl as [[? _]|Hl]; [done|]|destruct Hl as [_ Hl]].
  - destruct Hl as (k & c & -> & Hk & Hc & _).
    apply list_elem_of_split_length in Hk as (l1 & l2 & -> & ->). simpl.
    rewrite alter_app_r_alt, Nat.sub_diag by lia. simpl.
    rewrite !filter_app, !filter_cons, Hc. simpl. split_and!; [done| |].
    + exists c. apply elem_of_app. right. left.
    + rewrite !length_app. simpl. lia.
  - rewrite !filter_cons. simpl. split_and!; [done|exists empty_Container; left|].
    rewrite (filter_none_intro (λ c, c_Name c = "egress-gw") cs); [done|]. intros x Hx. by rewrite Forall_forall in Hl; apply Hl.
Qed.

(** There is a run volume, the user's or the added one. *)
Lemma run_volume vols : Exists (λ v, vol_Name v = "run") (addVolumes vols).
Proof.
  unfold addVolumes. destruct (existsb _ vols) eqn:E; simpl; apply Exists_app; left; [|apply Exists_app; right; by left].
  apply existsb_exists in E as (v & Hv & Hn). apply Exists_exists. exists v.
  split; [by apply list_elem_of_In|by apply String.eqb_eq].
Qed.
Lemma run_mounted ms : Exists (λ m, vm_Name m = "run") (addVolumeMounts ms).
Proof.
  unfold addVolumeMounts. destruct (existsb _ ms) eqn:E; simpl; apply Exists_app; left; [|apply Exists_app; right; by left].
  apply existsb_exists in E as (v & Hv & Hn). apply Exists_exists. exists v.
  split; [by apply list_elem_of_In|by apply String.eqb_eq].
Qed.

#[global] Instance selectorLabels_inj : Inj (=) (=) selectorLabels.
Proof. intros a b Hab. pose proof (f_equal (lookup LabelAppInstance) Hab) as H. by injection H. Qed.

Lemma selectorLabels_matches n n' m : selectorLabels n ⊆ assign (selectorLabels n') m → n = n'.
Proof.
  intros Hsub. apply (lookup_weaken _ _ LabelAppInstance n) in Hsub; [|done].
  apply lookup_union_Some_raw in Hsub as [Hs|[Hs _]]; [by injection Hs|done].
Qed.

Lemma assign_idemp new m : assign new (assign new m) = assign new m.
Proof. unfold assign. by rewrite (assoc_L (∪)), map_union_idemp. Qed.

Lemma reconcilePodTemplate_idemp r eg t :
  reconcilePodTemplate r eg (reconcilePodTemplate r eg t) = reconcilePodTemplate r eg t.
Proof. unfold reconcilePodTemplate. cbn [pt_Annotations]. by rewrite assign_idemp. Qed.

Lemma assign_subseteq new m : new ⊆ assign new m.
Proof. apply map_union_subseteq_l. Qed.

(** ** The effect of one reconciliation *)

(** Only the objects of the Egress [k] change: its service account is added,
    the subjects of the binding, its deployment and service are set, and of the
    Egress itself the status. *)
Record only_for (k : ObjectKey) (c c' : Cluster) : Prop := {
  of_egresses : delete k (egresses c') = delete k (egresses c) ∧
    (option_map Spec (egresses c' !! k) = option_map Spec (egresses c !! k));
  of_accounts : serviceaccounts c ⊆ serviceaccounts c' ∧ serviceaccounts c' ⊆ {[(k.1, SAEgress)]} ∪ serviceaccounts c;
  of_crbs : delete CRBEgress (crbs c') = delete CRBEgress (crbs c);
  of_deployments : delete k (deployments c') = delete k (deployments c);
  of_services : delete k (services c') = delete k (services c) }.

#[global] Instance only_for_preorder k : PreOrder (only_for k).
Proof.
  split.
  - intros c. split; try done. by split; [|set_solver].
  - intros c1 c2 c3 [[A1 B1] [C1 D1] E1 G1 H1] [[A2 B2] [C2 D2] E2 G2 H2].
    split; try (by etrans); split; try (by etrans); set_solver.
Qed.

Lemma only_for_deployment k d c : only_for k c (set_deployments (<[k := d]> (deployments c)) c).
Proof. split; simpl; rewrite ?delete_insert_eq; try done. by split; [|set_solver]. Qed.
Lemma only_for_service k s c : only_for k c (set_services (<[k := s]> (services c)) c).
Proof. split; simpl; rewrite ?delete_insert_eq; try done. by split; [|set_solver]. Qed.
Lemma only_for_account k c : only_for k c (set_serviceaccounts ({[(k.1, SAEgress)]} ∪ serviceaccounts c) c).
Proof. split; simpl; try done. split; set_solver. Qed.
Lemma only_for_crb k c c' : crb_reconciled CRBEgress c c' → only_for k c c'.
Proof.
  intros [-> Hd]%crb_reconciled_frame. split; simpl in *; try done. by split; [|set_solver].
Qed.

Definition status_of {W} `{!ApiOps W} (d : Deployment) (st : EgressStatus) : Prop :=
  LabelSelectorAsSelector_String (depl_Selector d) = Ok (st_Selector st) ∧ st_Replicas st = AvailableReplicas d.

Section effect.
Context {W : Type} `{!ApiOps W, !ApiLaws W}.
Notation view := api_view.

Lemma writes_reconcileServiceAccount ns : writes view
  (λ c c', c' = set_serviceaccounts ({[(ns, SAEgress)]} ∪ serviceaccounts c) c) (reconcileServiceAccount ns).
Proof.
  intros w. unfold reconcileServiceAccount. wp_steps.
  eapply wp_mono; [apply law_get_ServiceAccount|]. intros [[]|e|m] w1 [Hv1 H1]; simpl; [| |done].
  - apply wp_ret. case_bool_decide as Hin; [|done]. rewrite Hv1. destruct (view w) as [a b c d e]. simpl in *.
    unfold set_serviceaccounts. simpl. f_equal. set_solver.
  - destruct (apierrors_IsNotFound e); [|apply wp_throw; by left]. eapply wp_mono; [apply law_create_ServiceAccount|].
    by rewrite Hv1.
Qed.

Lemma mutate_no_panic r eg d m : mutate_Deployment SetControllerReference r eg d ≠ Panicked m.
Proof using All.
  unfold mutate_Deployment. destruct (depl_deleted d), (depl_created d); simpl; try done.
  pose proof (law_SetControllerReference eg (depl_Owners d) m). destruct (SetControllerReference _ _); simpl in *; congruence.
Qed.
Lemma mutate_svc_no_panic r eg s m : mutate_Service SetControllerReference r eg s ≠ Panicked m.
Proof using All.
  unfold mutate_Service. destruct (svc_deleted s), (svc_created s); simpl; try done.
  pose proof (law_SetControllerReference eg (svc_Owners s) m). destruct (SetControllerReference _ _); simpl in *; congruence.
Qed.

(** The two comparisons of [updateStatus] amount to one of the statuses. *)
Lemma status_changes (st : EgressStatus) (n : Z) (sel : string) :
  let st1 := if negb (String.eqb (st_Selector st) sel) then mkEgressStatus (st_Replicas st) sel else st in
  negb (String.eqb (st_Selector st) sel) || negb (st_Replicas st1 =? n) = negb (bool_decide (st = mkEgressStatus n sel)) ∧
  (if negb (st_Replicas st1 =? n) then mkEgressStatus n (st_Selector st1) else st1) = mkEgressStatus n sel.
Proof.
  destruct st as [k s]. simpl. destruct (String.eqb_spec s sel) as [->|Hs]; simpl; destruct (Z.eqb_spec k n) as [->|Hk]; simpl.
  all: case_bool_decide; naive_solver.
Qed.

(** [updateStatus] brings the status of the deployment into the Egress. *)
Definition status_step (eg : Egress) (c c' : Cluster) : Prop := ∃ d st,
  deployments c !! eg_key eg = Some d ∧ status_of d st ∧
  (st = Status eg ∧ c' = c ∨ ∃ old, egresses c !! eg_key eg = Some old ∧
    c' = set_egresses (<[eg_key eg := with_Status st old]> (egresses c)) c).

Lemma writes_updateStatus eg : writes view (status_step eg) (updateStatus eg).
Proof.
  intros w. unfold updateStatus. wp_steps. eapply wp_mono; [apply law_get_Deployment|].
  intros [d|e|m] w1 [Hv1 H1]; simpl; [|by left|done]. wp_steps.
  destruct (LabelSelectorAsSelector_String (depl_Selector d)) as [sel|e|m] eqn:Es; simpl;
    [|by left|by destruct (law_LabelSelectorAsSelector_String _ _ Es)].
  set (st := mkEgressStatus (AvailableReplicas d) sel).
  assert (status_of d st) as Hst by done.
  destruct (status_changes (Status eg) (AvailableReplicas d) sel) as [-> ->].
  fold st. case_bool_decide as E; simpl.
  - apply wp_ret. exists d, st. rewrite Hv1. split_and!; [done..|]. by left.
  - eapply wp_mono; [apply law_update_Status|]. rewrite Hv1. intros o w' Ho.
    assert ((∃ old, egresses (view w) !! eg_key eg = Some old ∧
      view w' = set_egresses (<[eg_key eg := with_Status st old]> (egresses (view w))) (view w)) →
      status_step eg (view w) (view w')) as Hs by (intros Hold; exists d, st; split_and!; [done..|]; by right).
    destruct o as [[]|e|m]; [|destruct Ho as [Ho|Ho]; [by left|right]|done]; auto.
Qed.

(** ** What a reconciled Egress looks like *)
Definition deployment_ok (r : EgressReconciler) (eg : Egress) (d : Deployment) : Prop :=
  selectorLabels (eg_Name eg) ⊆ depl_Labels d ∧ depl_Replicas d = Some (Replicas (Spec eg)) ∧
  (∀ s, Strategy (Spec eg) = Some s → strategy_Type s ≠ "" → depl_Strategy d = s) ∧
  template_kept (reconcilePodTemplate r eg (depl_Template d)) (depl_Template d).

Definition service_ok (r : EgressReconciler) (eg : Egress) (s : Service) : Prop :=
  selectorLabels (eg_Name eg) ⊆ svc_Labels s ∧ svc_Type s = "ClusterIP" ∧ svc_Selector s = selectorLabels (eg_Name eg) ∧
  (∃ p, svc_Ports s = [p] ∧ accepted_port (mkServicePort (r_Port r) (r_Port r) "UDP" "") p) ∧
  (SessionAffinity (Spec eg) ≠ "" → svc_SessionAffinity s = SessionAffinity (Spec eg)) ∧
  (∀ c, SessionAffinityConfig (Spec eg) = Some c → svc_SessionAffinityConfig s = Some c).

(** Defaulting does not change what is asked for the next time. *)
Lemma template_resubmitted r eg t t' : template_kept (reconcilePodTemplate r eg t) t' →
  reconcilePodTemplate r eg t' = reconcilePodTemplate r eg t.
Proof.
  intros Hk. rewrite <-(reconcilePodTemplate_idemp r eg t). unfold reconcilePodTemplate at 1 2. by rewrite (kept_Annotations _ _ Hk).
Qed.

Lemma mutate_deployment_ok SetRef r eg d d1 d2 : mutate_Deployment SetRef r eg d = Ok d1 → accepted_Deployment d1 d2 →
  depl_deleted d2 = false → deployment_ok r eg d2.
Proof.
  intros Hm (st & t & n & -> & Hst & Ht). unfold mutate_Deployment in Hm. simpl. intros Hdel.
  destruct (depl_deleted d) eqn:Ed; [congruence|].
  destruct (if negb (depl_created d) then _ else _) as [d'|?|?]; simplify_eq/=.
  split_and!; simpl in *; [apply assign_subseteq| | |by rewrite (template_resubmitted _ _ _ _ Ht)].
  - by case_bool_decide.
  - intros s Es Hs. rewrite Es in Hst. auto.
Qed.

Lemma mutate_service_ok SetRef r eg s s1 s2 : mutate_Service SetRef r eg s = Ok s1 → accepted_Service s1 s2 →
  svc_deleted s2 = false → service_ok r eg s2.
Proof.
  intros Hm (ports & sa & sac & ip & -> & HF & Hsa & Hsac). unfold mutate_Service in Hm. simpl. intros Hdel.
  destruct (svc_deleted s) eqn:Ed; [congruence|].
  destruct (if negb (svc_created s) then _ else _) as [refs|?|?]; simplify_eq/=.
  split_and!; simpl in *; [apply assign_subseteq|done..| |done|].
  - inversion HF as [|? p ? l Hp Hl]; subst. inversion Hl; subst. by exists p.
  - intros c Ec. rewrite Ec in Hsac. by apply Hsac.
Qed.

(** What the mutating functions make of what the server kept of their result. *)
Lemma mutate_deployment_fix SetRef r eg d d1 d2 : strategy_ok (Strategy (Spec eg)) → depl_deleted d = false →
  mutate_Deployment SetRef r eg d = Ok d1 → accepted_Deployment d1 d2 →
  ∃ d3, mutate_Deployment SetRef r eg d2 = Ok d3 ∧ depl_Template d3 = depl_Template d1 ∧ accepted_Deployment d3 d2.
Proof.
  intros Hst Hdd Hd (st & t & n & -> & Hs1 & Ht). unfold mutate_Deployment in Hd. rewrite Hdd in Hd.
  assert (∃ d', depl_deleted d' = false ∧ (if negb (depl_created d)
    then SetRef eg (depl_Owners d) ≫= (λ refs, Ok (with_owners refs (Some (selectorLabels (eg_Name eg))) d))
    else Ok d) = Ok d') as (d' & Hd' & Ed').
  { destruct (depl_created d); simpl; [by exists d|]. destruct (SetRef _ _); simplify_eq/=. eexists. by split; [|done]. }
  rewrite Ed' in Hd. injection Hd as <-. unfold mutate_Deployment. simpl in *. rewrite Hd'. simpl. rewrite assign_idemp.
  rewrite (template_resubmitted _ _ _ _ Ht). eexists. split; [done|]. split; [done|]. exists st, t, n. simpl. split_and!; [|  |done].
  - f_equal; by repeat case_bool_decide.
  - destruct (Strategy (Spec eg)) as [s|]; [|done]. intros _. apply Hs1. by destruct (Hst s eq_refl) as [-> | ->].
Qed.

Lemma mutate_service_fix SetRef r eg s s1 s2 : svc_deleted s = false →
  mutate_Service SetRef r eg s = Ok s1 → accepted_Service s1 s2 →
  ∃ s3, mutate_Service SetRef r eg s2 = Ok s3 ∧ svc_Ports s3 = svc_Ports s1 ∧ accepted_Service s3 s2.
Proof.
  intros Hsd Hs (ports & sa & sac & ip & -> & HF & Hsa & Hsac). unfold mutate_Service in Hs. rewrite Hsd in Hs.
  destruct (if negb (svc_created s) then _ else _) as [refs|?|?]; simplify_eq/=.
  unfold mutate_Service. simpl. rewrite assign_idemp. eexists. split; [done|]. split; [done|].
  exists ports, sa, sac, ip. simpl. split_and!; [done..|].
  destruct (SessionAffinityConfig (Spec eg)); [by intros _; apply Hsac|done].
Qed.

Definition converged (r : EgressReconciler) (eg : Egress) (c : Cluster) : Prop :=
  (eg_Namespace eg, SAEgress) ∈ serviceaccounts c ∧
  (∃ l, crbs c !! CRBEgress = Some l ∧ (eg_Namespace eg ≠ "" → bound (eg_Namespace eg) l)) ∧
  ∃ d s eg', deployments c !! eg_key eg = Some d ∧ services c !! eg_key eg = Some s ∧ egresses c !! eg_key eg = Some eg' ∧
    (depl_deleted d = false → deployment_ok r eg d) ∧ (svc_deleted s = false → service_ok r eg s) ∧
    Spec eg' = Spec eg ∧ status_of d (Status eg').

Definition named (c : Cluster) : Prop := map_Forall (λ k eg, eg_key eg = k) (egresses c).

(** The steps of [Reconcile] after the Get, in order. *)
Definition reconcile_steps (r : EgressReconciler) (eg : Egress) (c c5 : Cluster) : Prop :=
  ∃ c1, c1 = set_serviceaccounts ({[(eg_Namespace eg, SAEgress)]} ∪ serviceaccounts c) c ∧
  ∃ c2, crb_reconciled CRBEgress c1 c2 ∧
  ∃ c3, (∃ d d', mutate_Deployment SetControllerReference r eg (default (new_Deployment (eg_key eg)) (deployments c2 !! eg_key eg)) = Ok d ∧
      accepted_Deployment d d' ∧ c3 = set_deployments (<[eg_key eg := d']> (deployments c2)) c2) ∧
  ∃ c4, (∃ s s', mutate_Service SetControllerReference r eg (default (new_Service (eg_key eg)) (services c3 !! eg_key eg)) = Ok s ∧
      accepted_Service s s' ∧ c4 = set_services (<[eg_key eg := s']> (services c3)) c3) ∧
  status_step eg c4 c5.

Lemma only_for_status eg c c' : status_step eg c c' → only_for (eg_key eg) c c'.
Proof.
  intros (d & st & _ & _ & [[_ ->] | (old & Hold & ->)]); [done|].
  split; simpl; rewrite ?delete_insert_eq; try done.
  - split; [done|]. by rewrite lookup_insert_eq, Hold.
  - set_solver.
Qed.

Lemma does_Reconcile r eg : does view (reconcile_steps r eg) (only_for (eg_key eg))
  (_ ← reconcileServiceAccount (eg_Namespace eg); _ ← reconcileCRB CRBEgress; _ ← reconcileDeployment r eg;
   _ ← reconcileService r eg; updateStatus eg).
Proof.
  assert (∀ c c' : Cluster, c' = set_serviceaccounts ({[(eg_Namespace eg, SAEgress)]} ∪ serviceaccounts c) c →
    only_for (eg_key eg) c c') as H1 by (intros c c' ->; apply (only_for_account (eg_key eg))).
  apply does_seq; [apply _| | |exact H1].
  { apply does_writes; [apply _|apply writes_reconcileServiceAccount|exact H1]. }
  apply does_seq; [apply _| | |apply only_for_crb].
  { apply does_writes; [apply _|apply writes_reconcileCRB|apply only_for_crb]. }
  apply does_seq; [apply _| | |by intros c c' (?&?&_&_&->); apply only_for_deployment].
  { apply does_writes; [apply _|apply law_CreateOrUpdate_Deployment, mutate_no_panic|by intros c c' (?&?&_&_&->); apply only_for_deployment]. }
  apply does_seq; [apply _| | |by intros c c' (?&?&_&_&->); apply only_for_service].
  { apply does_writes; [apply _|apply law_CreateOrUpdate_Service, mutate_svc_no_panic|by intros c c' (?&?&_&_&->); apply only_for_service]. }
  apply does_writes; [apply _|apply writes_updateStatus|apply only_for_status].
Qed.

Lemma reconcile_steps_only r eg c c' : reconcile_steps r eg c c' → only_for (eg_key eg) c c'.
Proof.
  intros (c1 & -> & c2 & H2 & c3 & (d & d' & _ & _ & ->) & c4 & (s & s' & _ & _ & ->) & H5).
  etransitivity; [apply (only_for_account (eg_key eg))|]. etransitivity; [by apply only_for_crb|].
  etransitivity; [apply only_for_deployment|]. etransitivity; [apply only_for_service|]. by apply only_for_status.
Qed.

Lemma reconcile_steps_converged r eg c c' : egresses c !! eg_key eg = Some eg → reconcile_steps r eg c c' → converged r eg c'.
Proof.
  intros Heg (c1 & -> & c2 & H2 & c3 & (d & d' & Hd & Had & ->) & c4 & (s & s' & Hs & Has & ->) & H5).
  assert (∃ l, crbs c2 !! CRBEgress = Some l ∧ (eg_Namespace eg ≠ "" → bound (eg_Namespace eg) l)) as Hb.
  { assert (is_Some (crbs c2 !! CRBEgress)) as [l Hl].
    { destruct H2 as (l0 & items & Hl & _ & [[-> _] | ->]); [done|]. simpl. by rewrite lookup_insert_eq. }
    exists l. split; [done|]. intros Hn. destruct (crb_reconciled_bound _ _ _ (eg_Namespace eg) H2) as (l' & Hl' & Hb);
      [by exists (eg_key eg), eg|done|]. by simplify_eq. }
  apply crb_reconciled_frame in H2 as [E2 _].
  assert (egresses c2 = egresses c) as He by (rewrite E2; done).
  assert (serviceaccounts c2 = {[(eg_Namespace eg, SAEgress)]} ∪ serviceaccounts c) as Hsa by (rewrite E2; done).
  clear E2. destruct H5 as (d5 & st & Hd5 & Hst & Hc'). simpl in Hd5. rewrite lookup_insert_eq in Hd5. simplify_eq.
  assert (∃ eg', egresses c' !! eg_key eg = Some eg' ∧ Spec eg' = Spec eg ∧ Status eg' = st) as (eg' & He' & Hspec & <-).
  { destruct Hc' as [[-> ->] | (old & Ho & ->)]; simpl in *; [exists eg; by rewrite He|].
    rewrite lookup_insert_eq. exists (with_Status st old). rewrite He, Heg in Ho. by simplify_eq. }
  assert (serviceaccounts c' = serviceaccounts c2 ∧ crbs c' = crbs c2 ∧ deployments c' !! eg_key eg = Some d5 ∧
    services c' !! eg_key eg = Some s') as (Es & Ec & Ed & Ev).
  { destruct Hc' as [[_ ->] | (old & _ & ->)]; simpl; by rewrite !lookup_insert_eq. }
  split; [rewrite Es, Hsa; set_solver|]. split; [by rewrite Ec|]. exists d5, s', eg'. split_and!; try done.
  - by eapply mutate_deployment_ok.
  - by eapply mutate_service_ok.
Qed.
End effect.

(** ** Properties *)
(** C26: a reconciliation that returns nil leaves the cluster converged for its
    Egress: the namespace's service account exists and is bound, the deployment
    and the service are the ones the Egress asks for, the status is the
    deployment's.  Whether it succeeds or fails half-way, nothing that belongs to
    another Egress changes; an Egress that is gone or being deleted changes
    nothing at all. *)
Theorem Reconcile_converges {W} `{!ApiOps W, !ApiLaws W} r k (w : W) :
  named (api_view w) →
  wp (Reconcile r k) (λ o w', only_for k (api_view w) (api_view w') ∧
    match o, egresses (api_view w) !! k with
    | Panicked _, _ => False
    | Ok _, Some eg => if eg_deleted eg then api_view w' = api_view w else converged r eg (api_view w')
    | Ok _, None => api_view w' = api_view w
    | Err _, _ => True
    end) w.
Proof.
  intros Hn. unfold Reconcile. wp_steps. eapply wp_mono; [apply law_get_Egress|].
  intros [eg|e|m] w1 [Hv1 H1]; simpl; [| |done].
  - pose proof (Hn _ _ H1) as Hk. rewrite H1. destruct (eg_deleted eg); [apply wp_ret; by rewrite Hv1|].
    rewrite <-Hk. eapply wp_mono; [apply (does_Reconcile r eg)|]. rewrite Hv1.
    intros [[]|e|m] w2 Hw2; simpl; [|done..]. split; [by eapply reconcile_steps_only|].
    apply (reconcile_steps_converged r eg (api_view w)); [by rewrite Hk|done].
  - destruct (apierrors_IsNotFound e) eqn:E; [apply wp_ret|apply wp_throw]; rewrite Hv1; [|done].
    by rewrite (H1 eq_refl).
Qed.

(** C27: the pod template always carries the selector's labels, whatever the
    Egress asks for, keeps the annotations it had and was not told to change,
    keeps every other container in order and holds a privileged egress-gw
    container with the three environment variables, the modules volume and a run
    volume; building it twice is building it once. *)
Theorem pod_template_spec r eg t :
  let t' := reconcilePodTemplate r eg t in
  selectorLabels (eg_Name eg) ⊆ pt_Labels t' ∧
  (∀ k, desired_Annotations eg !! k = None → pt_Annotations t' !! k = pt_Annotations t !! k) ∧
  ServiceAccountName (pt_Spec t') = SAEgress ∧
  filter (λ c, c_Name c ≠ "egress-gw") (Containers (pt_Spec t')) =
    filter (λ c, c_Name c ≠ "egress-gw") (Containers (desired_PodSpec eg)) ∧
  (∃ c, c ∈ Containers (pt_Spec t') ∧ c_Name c = "egress-gw" ∧ egress_env eg ⊆ Env c ∧ SecCtx c = Some egress_security ∧
     (r_Image r ≠ "" → Image c ≠ "") ∧ Command c ≠ [] ∧ is_Some (Requests c !! "cpu") ∧ is_Some (Requests c !! "memory") ∧
     mkVolumeMount "/lib/modules" "modules" true ∈ VolumeMounts c ∧ Exists (λ m, vm_Name m = "run") (VolumeMounts c)) ∧
  mkVolume "modules" (HostPath "/lib/modules") ∈ Volumes (pt_Spec t') ∧ Exists (λ v, vol_Name v = "run") (Volumes (pt_Spec t')) ∧
  reconcilePodTemplate r eg t' = t'.
Proof.
  destruct (setContainer_spec r eg (Containers (desired_PodSpec eg))) as (Hother & [c0 Hc0] & _).
  split_and!; [apply assign_subseteq| |done|exact Hother| | | |apply reconcilePodTemplate_idemp].
  - intros k Hk. unfold reconcilePodTemplate. cbn [pt_Annotations]. unfold assign. by rewrite lookup_union_r.
  - exists (egressContainer r eg c0). split; [exact Hc0|]. simpl. split_and!; try done.
    + intros x Hx. apply elem_of_app. by right.
    + intros Hi. by destruct (String.eqb_spec (Image c0) "").
    + case_bool_decide as Hc; [done|]. by destruct (Command c0).
    + eapply lookup_weaken_is_Some; [apply insert_default_lookup|]. apply insert_default_lookup.
    + apply insert_default_lookup.
    + apply elem_of_app. right. left.
    + apply run_mounted.
  - apply elem_of_app. right. left.
  - apply run_volume.
Qed.

(** C29: the service of an Egress selects exactly the pods of its own deployment:
    its selector matches the labels of a deployment's template iff both are of
    the same Egress name, and it forwards the FoU port over UDP. *)
Theorem service_selects_own_pods SetRef r eg eg' svc svc' d d' :
  mutate_Service SetRef r eg svc = Ok svc' → svc_deleted svc = false →
  mutate_Deployment SetRef r eg' d = Ok d' → depl_deleted d = false →
  (svc_Selector svc' ⊆ pt_Labels (depl_Template d') ↔ eg_Name eg = eg_Name eg') ∧
  svc_Ports svc' = [mkServicePort (r_Port r) (r_Port r) "UDP" ""] ∧
  (depl_created d = false → depl_Selector d' = Some (svc_Selector svc') ↔ eg_Name eg = eg_Name eg').
Proof.
  intros Hs Hsd Hd Hdd.
  assert (svc_Selector svc' = selectorLabels (eg_Name eg) ∧ svc_Ports svc' = [mkServicePort (r_Port r) (r_Port r) "UDP" ""]) as [Es Ep].
  { unfold mutate_Service in Hs. rewrite Hsd in Hs. by destruct (if negb (svc_created svc) then _ else _); simplify_eq/=. }
  assert ((∃ t, depl_Template d' = reconcilePodTemplate r eg' t) ∧
    (depl_created d = false → depl_Selector d' = Some (selectorLabels (eg_Name eg')))) as [[t Et] El].
  { unfold mutate_Deployment in Hd. rewrite Hdd in Hd. destruct (depl_created d); simpl in Hd.
    - injection Hd as <-. simpl. split; [by eexists|done].
    - destruct (SetRef _ _); simplify_eq/=. split; [by eexists|done]. }
  rewrite Es, Et. split_and!; [|done|].
  - split; [apply selectorLabels_matches|intros ->; apply assign_subseteq].
  - intros Hc. rewrite (El Hc). split; [by intros ?%(inj Some)%(inj selectorLabels)|by intros ->].
Qed.

(** C30: the reconciler comes to rest: reconciling what the server keeps of a
    reconciled deployment or service, defaults filled in, asks for the same
    template and the same port again, and what the server holds is a possible
    answer to it; nothing is pulled back and forth. *)
Theorem mutate_fixpoint SetRef r eg d d1 d2 s s1 s2 :
  strategy_ok (Strategy (Spec eg)) →
  depl_deleted d = false → mutate_Deployment SetRef r eg d = Ok d1 → accepted_Deployment d1 d2 →
  svc_deleted s = false → mutate_Service SetRef r eg s = Ok s1 → accepted_Service s1 s2 →
  (∃ d3, mutate_Deployment SetRef r eg d2 = Ok d3 ∧ depl_Template d3 = depl_Template d1 ∧ accepted_Deployment d3 d2) ∧
  (∃ s3, mutate_Service SetRef r eg s2 = Ok s3 ∧ svc_Ports s3 = svc_Ports s1 ∧ accepted_Service s3 s2).
Proof. intros Hst Hdd Hd Had Hsd Hs Has. eauto using mutate_deployment_fix, mutate_service_fix. Qed.

(** ** Witnesses *)
Definition sample_reconciler : EgressReconciler := mkEgressReconciler "egress-gw:1" 5555.
Definition sample_nat : Egress := sample_Egress "nat" ["10.0.0.0/8"].
Definition sample_cluster : Cluster := set_crbs {["egress-gw" := []]} (set_egresses {[("internet", "nat") := sample_nat]} empty_cluster).
Definition sample_server : server := mkServer sample_cluster [].
Definition reconciled : outcome unit * server := Reconcile sample_reconciler ("internet", "nat") sample_server.

Lemma sample_named : named sample_cluster.
Proof. intros k eg Hk. cbn in Hk. apply lookup_singleton_Some in Hk as [<- <-]. done. Qed.

Lemma Reconcile_converges_witness :
  reconciled.1 = Ok tt ∧
  wp (Reconcile sample_reconciler ("internet", "nat")) (λ o w', only_for ("internet", "nat") (api_view sample_server) (api_view w') ∧
    match o, egresses (api_view sample_server) !! ("internet", "nat") with
    | Panicked _, _ => False
    | Ok _, Some eg => if eg_deleted eg then api_view w' = api_view sample_server else converged sample_reconciler eg (api_view w')
    | Ok _, None => api_view w' = api_view sample_server
    | Err _, _ => True
    end) sample_server.
Proof.
  split; [by vm_compute|].
  apply (Reconcile_converges sample_reconciler ("internet", "nat") sample_server). exact sample_named.
Defined.

Definition made_service : Service := new_Service ("internet", "nat").
Definition made_deployment : Deployment := new_Deployment ("internet", "nat").
Definition mutated_deployment : outcome Deployment := mutate_Deployment own sample_reconciler sample_nat made_deployment.
Definition mutated_service : outcome Service := mutate_Service own sample_reconciler sample_nat made_service.
Definition get_ok {A} (d : A) (o : outcome A) : A := match o with Ok a => a | _ => d end.

Lemma service_selects_own_pods_witness :
  let s := get_ok made_service mutated_service in let d := get_ok made_deployment mutated_deployment in
  (svc_Selector s ⊆ pt_Labels (depl_Template d) ↔ eg_Name sample_nat = eg_Name sample_nat) ∧
  svc_Ports s = [mkServicePort 5555 5555 "UDP" ""] ∧
  (depl_created made_deployment = false → depl_Selector d = Some (svc_Selector s) ↔ eg_Name sample_nat = eg_Name sample_nat).
Proof.
  apply (service_selects_own_pods own sample_reconciler sample_nat sample_nat made_service _ made_deployment _); by vm_compute.
Defined.

Lemma mutate_fixpoint_witness :
  let s := accept_Service (get_ok made_service mutated_service) in
  let d := accept_Deployment (get_ok made_deployment mutated_deployment) in
  depl_Template d ≠ depl_Template (get_ok made_deployment mutated_deployment) ∧
  (∃ d3, mutate_Deployment own sample_reconciler sample_nat d = Ok d3 ∧
     depl_Template d3 = depl_Template (get_ok made_deployment mutated_deployment) ∧ accepted_Deployment d3 d) ∧
  (∃ s3, mutate_Service own sample_reconciler sample_nat s = Ok s3 ∧
     svc_Ports s3 = svc_Ports (get_ok made_service mutated_service) ∧ accepted_Service s3 s).
Proof.
  split; [by vm_compute|].
  apply (mutate_fixpoint own sample_reconciler sample_nat made_deployment (get_ok made_deployment mutated_deployment) _
    made_service (get_ok made_service mutated_service) _).
  - intros d [= <-]. by left.
  - by vm_compute.
  - by vm_compute.
  - apply accept_Deployment_ok.
  - by vm_compute.
  - by vm_compute.
  - apply accept_Service_ok.
Defined.
