(* ===== verification/Peers.v ===== *)
(** * What the pod watcher needs from the tunnels

    The interface between [controllers/pod_watcher.go] and [pkg/founat]: the
    calls the watcher makes ([FoUTunnel.AddPeer], [FoUTunnel.DelPeer],
    [Egress.AddClient]) and what it may assume of them.  [FouPeers.v] shows that
    the tunnel and egress components keep these promises. *)
From S2P Require Import Prelude GoStrings GoNet Netlink.

Class PeerOps (W : Type) := {
  ft_AddPeer : IP → M W Link;
  ft_DelPeer : IP → M W unit;
  eg_AddClient : IP → Link → M W unit;
}.

Definition is_mismatch (e : error) : bool := errors_Is e ErrIPFamilyMismatch.

(** A world has a set of tunnels, known by name; equal addresses have the same
    name.  An address is supported or not once and for all. *)
Class PeerLaws (W : Type) `{!PeerOps W} := {
  tunnels : W → gset string;
  tunnel_name : IP → string;
  supported : IP → bool;

  tunnel_name_Equal a b : ip_len a → ip_len b → IP_Equal a b = true → tunnel_name a = tunnel_name b;
  law_ft_AddPeer ip w :
    wp (ft_AddPeer ip) (λ o w',
      (tunnels w' = tunnels w ∨ tunnels w' = {[tunnel_name ip]} ∪ tunnels w) ∧
      match o with
      | Ok _ => tunnel_name ip ∈ tunnels w'
      | Err e => supported ip = true → is_mismatch e = false
      | Panicked _ => False
      end) w;
  law_ft_DelPeer ip w :
    wp (ft_DelPeer ip) (λ o w', done_or_same (tunnels w' = tunnels w)
      (λ _, tunnels w' = tunnels w ∖ {[tunnel_name ip]}) o) w;
  law_eg_AddClient ip l w :
    wp (eg_AddClient ip l) (λ o w', tunnels w' = tunnels w ∧ done_or_same True (λ _, True) o) w;
}.
