(* ===== verification/FouPeers.v ===== *)
(** * The tunnels keep the promises of [Peers.v]

    The FoU tunnel and the egress component, on any host that obeys the laws of
    [Netlink.v], implement the interface the pod watcher is proved against: the
    tunnels of a world are its links with a FoU prefix. *)
From S2P Require Import Prelude GoStrings GoNet Netlink Kernel Frames Fou EgressNat Peers.

Definition is_fou (n : string) : bool := HasPrefix n FoU4LinkPrefix || HasPrefix n FoU6LinkPrefix.

Lemma is_fou_prefixed n : is_fou n = true ↔ fouPrefixed n.
Proof.
  unfold is_fou, fouPrefixed. rewrite orb_true_iff, !HasPrefix_spec. split.
  - intros [[s H]|[s H]]; exists s; auto.
  - intros [s [H|H]]; eauto.
Qed.

Definition fou_links (n : Net) : gset string := dom (filter (λ nl, is_fou nl.1 = true) (links n)).

Lemma elem_of_fou_links n k : k ∈ fou_links n ↔ is_fou k = true ∧ is_Some (links n !! k).
Proof.
  unfold fou_links. rewrite elem_of_dom. split.
  - intros [l [Hl Hk]%map_lookup_filter_Some]. split; [done|by exists l].
  - intros [Hk [l Hl]]. exists l. by apply map_lookup_filter_Some.
Qed.

Section fou_peers.
#[local] Set Default Proof Using "Type*".
Context {W : Type} `{!HostOps W} (t : fouTunnel) (e : egress).

Definition fou_peers : PeerOps W :=
  {| ft_AddPeer := Fou.AddPeer t; ft_DelPeer := Fou.DelPeer; eg_AddClient := EgressNat.AddClient e |}.

Context `{!HostLaws W}.

Lemma foreign_setupIPIPDevices b4 b6 : foreign_op (setupIPIPDevices b4 b6 : M W unit).
Proof.
  assert (Hs : ∀ d, foreign_op (setupDevice d : M W unit)).
  { intros d. unfold setupDevice, configureDevice. apply foreign_bind; [apply foreign_attempt|].
    intros r. apply foreign_bind; [destruct r|]; auto 6 with s2p. }
  assert (Hr : ∀ a b, foreign_op (renameDevice a b : M W unit)).
  { intros a b. unfold renameDevice. apply foreign_bind; [apply foreign_attempt|].
    intros [l|x]; auto with s2p. }
  assert (Hd : ∀ a, foreign_op (removeDevice a : M W unit)).
  { intros a. unfold removeDevice. apply foreign_bind; [apply foreign_attempt|].
    intros [l|x]; auto with s2p. }
  unfold setupIPIPDevices. apply foreign_bind; [|intros _]; apply foreign_if; auto with s2p.
Qed.

Lemma foreign_AddPeer addr w : peer_local t addr ≠ [] →
  wp (Fou.AddPeer t addr) (λ o _, foreign o) w.
Proof.
  intros Hl. rewrite AddPeer_eq, bool_decide_eq_false_2 by done.
  apply wp_bind, wp_attempt. eapply wp_mono; [apply foreign_LinkByName|].
  intros [l|x|s] w1 H; simpl in *; [done| |done].
  destruct (is_link_not_found x); simpl; [|done].
  revert w1. change (foreign_op (_ ← wrapping (if is4 addr then "netlink: failed to add fou link: %w"
                        else "netlink: failed to add fou6 link: %w")
                (LinkAdd (fou_link t (fouName addr) (peer_local t addr) (canonIP addr) (peer_kind addr)));
          _ ← wrapping "netlink: failed to setup ipip device: %w"
                (setupIPIPDevices (is4 addr) (negb (is4 addr)));
          LinkByName (fouName addr))).
  pose proof foreign_setupIPIPDevices. auto 8 with s2p.
Qed.

(** [AddClient] does not touch links and does not panic. *)
Lemma AddClient_links addr l w : wp (EgressNat.AddClient e addr l) (λ o w',
  links (view w') = links (view w) ∧ done_or_same True (λ _, True) o) w.
Proof.
  rewrite AddClient_eq. case_bool_decide; [by apply wp_throw|].
  apply wp_bind, wp_wrapping. eapply wp_mono; [apply law_RouteListFiltered|].
  intros o w1 [Hv Ho]. destruct o as [rs|x|s]; simpl in *; [|by rewrite Hv|done].
  destruct (existsb _ _); [apply wp_ret; by rewrite Hv|]. apply wp_wrapping.
  eapply wp_mono; [by apply law_RouteAdd|]. intros o w2 Ho2. rewrite done_or_same_wrap.
  destruct o as [x|x|s]; simpl in *; [|by rewrite Ho2, Hv|done]. by rewrite Ho2, Hv.
Qed.

Program Definition fou_peers_laws : @PeerLaws W fou_peers :=
  {| tunnels w := fou_links (view w); tunnel_name := fouName;
     supported ip := negb (bool_decide (peer_local t ip = [])) |}.
Next Obligation.
  intros a b Ha Hb H. apply IP_Equal_canon in H; [|done..].
  rewrite <-(fouName_canonIP a), <-(fouName_canonIP b). by rewrite H.
Qed.
Next Obligation.
  intros ip w. unfold ft_AddPeer. simpl.
  assert (Hfou : is_fou (fouName ip) = true) by (apply is_fou_prefixed, fouName_prefixed).
  assert (Hframe : ∀ n n', frame ({[fouName ip]} ∪ aux) n n' →
            ∀ k, k ≠ fouName ip → k ∈ fou_links n' ↔ k ∈ fou_links n).
  { intros n n' [_ Hf] k Hne. rewrite !elem_of_fou_links.
    destruct (is_fou k) eqn:Hk; [|naive_solver]. rewrite Hf; [done|].
    apply is_fou_prefixed in Hk. intros [Hin%elem_of_singleton|Hin]%elem_of_union; [done|].
    by apply aux_not_prefixed in Hin. }
  assert (Hadd : ∀ n n', frame ({[fouName ip]} ∪ aux) n n' → is_Some (links n' !! fouName ip) →
            fou_links n' = {[fouName ip]} ∪ fou_links n).
  { intros n n' Hf Hs. apply set_eq. intros k. rewrite elem_of_union, elem_of_singleton.
    destruct (decide (k = fouName ip)) as [->|Hne].
    - split; [by left|]. intros _. by apply elem_of_fou_links.
    - rewrite (Hframe n n' Hf k Hne). naive_solver. }
  assert (H : wp (Fou.AddPeer t ip) (λ o w', add_post t ip (view w) o (view w') ∧
            (peer_local t ip ≠ [] → foreign o)) w).
  { apply wp_and; [apply wp_AddPeer|]. unfold wp. apply foreign_AddPeer. }
  eapply wp_mono; [exact H|]. intros o w' [(Hf & Hmis & Hold & _ & Ho) Hfor]. split.
  - destruct (links (view w') !! fouName ip) as [l|] eqn:E.
    + right. apply Hadd; [done|by exists l].
    + left. destruct (links (view w) !! fouName ip) as [l|] eqn:E'.
      { destruct (Hold l eq_refl) as [Heq _]. rewrite Heq in E. congruence. }
      apply set_eq. intros k. destruct (decide (k = fouName ip)) as [->|Hne]; [|by apply Hframe].
      rewrite !elem_of_fou_links, E, E'. done.
  - destruct o as [l|x|s]; [| |done].
    + apply elem_of_fou_links. split; [done|]. by exists l.
    + intros Hs. apply negb_true_iff, bool_decide_eq_false in Hs. by apply Hfor.
Qed.
Next Obligation.
  intros ip w. unfold ft_DelPeer. simpl. eapply wp_mono; [apply wp_DelPeer|]. intros o w' Ho.
  eapply done_or_same_mono; [exact Ho|by intros ->|]. intros _ ->. apply set_eq. intros k.
  rewrite elem_of_difference, elem_of_singleton, !elem_of_fou_links. simpl.
  destruct (decide (k = fouName ip)) as [->|Hne].
  - rewrite lookup_delete_eq. split; [intros [_ [? ?]]; done|tauto].
  - rewrite lookup_delete_ne by done. tauto.
Qed.
Next Obligation.
  intros ip l w. unfold eg_AddClient. simpl. eapply wp_mono; [apply AddClient_links|].
  intros o w' [Hl Ho]. split; [|done]. unfold fou_links. by rewrite Hl.
Qed.
End fou_peers.
