(* ===== verification/PodWatcher.v ===== *)
(** * The pod watcher ([controllers/pod_watcher.go])

    On the egress pod: keeps one tunnel per client pod address.  The state is
    the reconciler's two maps and its gauge; the effects go through the
    interface of [Peers.v]. *)
From Stdlib Require Import Ascii.
From S2P Require Import Prelude Constants GoStrings GoNet Corev1 Netlink Kernel Fou EgressNat Peers FouPeers.

(** ** Data *)
Record podWatcher := mkPodWatcher {
  myNS : string; myName : string;
  podAddrs : gmap string (list IP); peers : gmap string (gset string);
  metric : Z }.

Definition SetupPodWatcher (ns name : string) : podWatcher := mkPodWatcher ns name ∅ ∅ 0.

Definition with_podAddrs (m : gmap string (list IP)) (r : podWatcher) : podWatcher :=
  mkPodWatcher (myNS r) (myName r) m (peers r) (metric r).
Definition with_peers (m : gmap string (gset string)) (r : podWatcher) : podWatcher :=
  mkPodWatcher (myNS r) (myName r) (podAddrs r) m (metric r).
Definition set_metric (r : podWatcher) : podWatcher :=
  mkPodWatcher (myNS r) (myName r) (podAddrs r) (peers r) (Z.of_nat (size (podAddrs r))).

(** ** Decisions *)
Definition shouldHandle (r : podWatcher) (pod : Pod) : bool :=
  if HostNetwork pod then false
  else existsb (λ '(k, v),
         if negb (HasPrefix k AnnEgressPrefix) then false
         else if negb (String.eqb (str_drop (String.length AnnEgressPrefix) k) (myNS r)) then false
         else if String.eqb v (myName r) then true
         else existsb (λ n, String.eqb n (myName r)) (Split v ","%char)) (Annotations pod).

Definition isTerminated (pod : Pod) : bool :=
  String.eqb (Phase pod) "Succeeded" || String.eqb (Phase pod) "Failed".

Definition pod_key (ns name : string) : string := ns +:+ "/" +:+ name.

(** ** Operations *)
Section watcher.
Context {W : Type} `{!PeerOps W}.

(** The reconciler's state beside the host. *)
Definition PW : Type := podWatcher * W.
Definition get_watcher : M PW podWatcher := λ s, (Ok s.1, s).
Definition modify_watcher (f : podWatcher → podWatcher) : M PW unit := λ s, (Ok tt, (f s.1, s.2)).
Definition on_host {A} (m : M W A) : M PW A := λ s, let (o, w) := m s.2 in (o, (s.1, w)).

(** The body of the first loop of [addPod]. *)
Definition addIP (existing : list IP) (ip : IP) : M PW unit :=
  if existsb (λ eip, IP_Equal ip eip) existing then mret tt
  else
    r ← attempt (on_host (ft_AddPeer ip));
    match r with
    | inr err => if is_mismatch err then mret tt else throw err
    | inl link => on_host (eg_AddClient ip link)
    end.

(** The body of the second. *)
Definition dropIP (podIPs : list IP) (eip : IP) : M PW unit :=
  if existsb (λ ip, IP_Equal eip ip) podIPs then mret tt else on_host (ft_DelPeer eip).

(** The loop that enters the pod in [peers]. *)
Definition index_ip (key : string) (m : gmap string (gset string)) (ip : IP) : gmap string (gset string) :=
  <[IP_String ip := {[key]} ∪ default ∅ (m !! IP_String ip)]> m.

Definition addPod (pod : Pod) : M PW unit :=
  let key := pod_key (pod_Namespace pod) (pod_Name pod) in
  r ← get_watcher;
  let existing := default [] (podAddrs r !! key) in
  let podIPs := ParseIP <$> PodIPs pod in
  _ ← for_each (addIP existing) podIPs;
  _ ← for_each (dropIP podIPs) existing;
  _ ← modify_watcher (λ r, with_podAddrs (<[key := podIPs]> (podAddrs r)) r);
  _ ← modify_watcher (λ r, with_peers (foldl (index_ip key) (peers r) podIPs) r);
  modify_watcher set_metric.

Definition existsOtherLivePeers (r : podWatcher) (key ip : string) : outcome bool :=
  match peers r !! ip with
  | Some keySet =>
      if bool_decide (key ∈ keySet) then Ok (1 <? Z.of_nat (size keySet))
      else Err (ErrNew "keySet in the peers doesn't contain my key. key: %s ip: %s")
  | None => Err (ErrNew "peers doesn't contain my IP. key: %s ip: %s")
  end.

(** [delete(keySet, key)], and the entry with its last key. *)
Definition unindex_ip (key ip : string) (m : gmap string (gset string)) : gmap string (gset string) :=
  match m !! ip with
  | Some keySet =>
      let keySet := keySet ∖ {[key]} in
      if (size keySet =? 0)%nat then delete ip m else <[ip := keySet]> m
  | None => m
  end.

Definition delIP (key : string) (ip : IP) : M PW unit :=
  r ← get_watcher;
  existsLivePeers ← lift_outcome (existsOtherLivePeers r key (IP_String ip));
  _ ← if negb existsLivePeers then on_host (ft_DelPeer ip) else mret tt;
  modify_watcher (λ r, with_peers (unindex_ip key (IP_String ip) (peers r)) r).

Definition delPeer (key : string) : M PW unit :=
  r ← get_watcher;
  _ ← for_each (delIP key) (default [] (podAddrs r !! key));
  _ ← modify_watcher (λ r, with_podAddrs (delete key (podAddrs r)) r);
  modify_watcher set_metric.

Definition delTerminatedPod (pod : Pod) : M PW unit := delPeer (pod_key (pod_Namespace pod) (pod_Name pod)).
Definition delPod (ns name : string) : M PW unit := delPeer (pod_key ns name).

(** [got] is the API server's answer to the Get. *)
Definition Reconcile (got : Pod + error) (ns name : string) : M PW unit :=
  match got with
  | inl pod =>
      r ← get_watcher;
      if negb (shouldHandle r pod) then mret tt
      else if negb (isTerminated pod) then addPod pod else delTerminatedPod pod
  | inr err => if apierrors_IsNotFound err then delPod ns name else mret tt
  end.
End watcher.

(** ** The reconciler as a transition system

    [Reconcile] adds a pod, deletes a key or does nothing. *)
Inductive action := Add (pod : Pod) | Del (key : string).

Definition key_of (pod : Pod) : string := pod_key (pod_Namespace pod) (pod_Name pod).
Definition pod_addrs (pod : Pod) : list IP := ParseIP <$> PodIPs pod.

Definition action_of (r : podWatcher) (got : Pod + error) (ns name : string) : option action :=
  match got with
  | inl pod => if negb (shouldHandle r pod) then None
               else if negb (isTerminated pod) then Some (Add pod) else Some (Del (key_of pod))
  | inr err => if apierrors_IsNotFound err then Some (Del (pod_key ns name)) else None
  end.

Section system.
Context {W : Type} `{!PeerOps W}.

Definition perform (a : action) : M (PW (W := W)) unit :=
  match a with Add pod => addPod pod | Del key => delPeer key end.

Lemma Reconcile_action got ns name s :
  Reconcile got ns name s =
  match action_of s.1 got ns name with Some a => perform a s | None => (Ok tt, s) end.
Proof.
  unfold Reconcile, action_of. destruct got as [pod|err].
  - unfold get_watcher, mbind, M_bind. simpl. by destruct (shouldHandle _ _), (isTerminated pod).
  - by destruct (apierrors_IsNotFound err).
Qed.

(** What became of the past, beside the state: keys whose deletion has begun and
    not ended; addresses whose tunnel may have been removed under a pod that has
    them; index entries of addresses their pod has no more. *)
Record past := mkPast { dying : gset string; stolen : gset IP; moved : gset (string * string) }.
Definition no_past : past := mkPast ∅ ∅ ∅.
Definition sys : Type := PW (W := W) * past.

Definition tracked_ips (r : podWatcher) (key : string) : list IP := default [] (podAddrs r !! key).
Definition gained (r : podWatcher) (pod : Pod) : gset IP := list_to_set (pod_addrs pod) ∖ list_to_set (tracked_ips r (key_of pod)).
Definition lost (r : podWatcher) (pod : Pod) : gset IP := list_to_set (tracked_ips r (key_of pod)) ∖ list_to_set (pod_addrs pod).
(** Another pod is tracked with the address. *)
Definition elsewhere (r : podWatcher) (key : string) (a : IP) : Prop := map_Exists (λ k ips, k ≠ key ∧ a ∈ ips) (podAddrs r).
#[global] Instance elsewhere_dec r key a : Decision (elsewhere r key a).
Proof. unfold elsewhere. apply _. Defined.

(** An addition that succeeds gives each new address a tunnel, and takes the
    tunnels to the addresses the pod lost, also from pods that have them still; one
    that fails may have taken them, from the pod itself too. *)
Definition added (r : podWatcher) (pod : Pod) (o : outcome unit) (h : past) : past :=
  if bool_decide (o = Ok tt) then
    mkPast (dying h) ((stolen h ∖ gained r pod) ∪ filter (elsewhere r (key_of pod)) (lost r pod))
      (moved h ∪ set_map (λ a, (key_of pod, IP_String a)) (lost r pod))
  else mkPast (dying h) (stolen h ∪ lost r pod) (moved h).
Definition deleting (key : string) (o : outcome unit) (h : past) : past :=
  mkPast (if bool_decide (o = Ok tt) then dying h ∖ {[key]} else {[key]} ∪ dying h) (stolen h) (moved h).
Definition after (a : option action) (r : podWatcher) (o : outcome unit) (h : past) : past :=
  match a with Some (Add pod) => added r pod o h | Some (Del key) => deleting key o h | None => h end.

(** One reconciliation, whatever the API server answers and the host does, of a pod
    whose addresses are [good]. *)
Inductive step (good : IP → Prop) : sys → sys → Prop :=
| step_reconcile got ns name p h o p' :
    (∀ pod, action_of p.1 got ns name = Some (Add pod) → Forall good (pod_addrs pod)) →
    Reconcile got ns name p = (o, p') →
    step good (p, h) (p', after (action_of p.1 got ns name) p.1 o h).

(** A run of reconciliations as a function. *)
Definition react (s : sys) (got : Pod + error) (ns name : string) : sys :=
  let r := Reconcile got ns name s.1 in (r.2, after (action_of s.1.1 got ns name) s.1.1 r.1 s.2).
Definition react_all (l : list ((Pod + error) * (string * string))) (s : sys) : sys := foldl (λ s x, react s x.1 x.2.1 x.2.2) s l.

Lemma react_step good s got ns name : (∀ pod, got = inl pod → Forall good (pod_addrs pod)) → step good s (react s got ns name).
Proof.
  intros Hg. destruct s as [p h]. apply (step_reconcile good got ns name); [|apply surjective_pairing].
  intros pod Ha. apply Hg. destruct got as [pod'|e]; simpl in Ha; repeat case_match; by simplify_eq.
Qed.
Lemma react_steps good l s : Forall (λ x, ∀ pod, x.1 = inl pod → Forall good (pod_addrs pod)) l → rtc (step good) s (react_all l s).
Proof.
  revert s. induction l as [|x l IH]; intros s Hl; [by apply rtc_refl|]. apply Forall_cons in Hl as [Hx Hl].
  eapply rtc_l; [by apply react_step|]. by apply IH.
Qed.

Definition initial (ns name : string) (w : W) : sys := (SetupPodWatcher ns name, w, no_past).
Definition reachable (good : IP → Prop) (ns name : string) (w : W) : sys → Prop :=
  rtc (step good) (initial ns name w).

(** A pod that is tracked and not being deleted, and an address of it; a live one's
    tunnel was not taken. *)
Definition tracked (s : sys) (key : string) (ip : IP) : Prop :=
  key ∉ dying s.2 ∧ ∃ ips, podAddrs s.1.1 !! key = Some ips ∧ ip ∈ ips.
Definition live (s : sys) (key : string) (ip : IP) : Prop := tracked s key ip ∧ ip ∉ stolen s.2.
End system.

(** Addresses as the watcher makes them. *)
Definition parsed (a : IP) : Prop := ∃ s, a = ParseIP s.
Lemma parsed_addrs pod : Forall parsed (pod_addrs pod).
Proof. apply Forall_fmap, Forall_true. intros s. by exists s. Qed.
Lemma parsed_Equal a b : parsed a → parsed b → IP_Equal a b = true → a = b.
Proof. intros [s ->] [t ->]. apply ParseIP_Equal. Qed.

(** The test of both loops of [addPod]. *)
Lemma existsb_parsed a l : parsed a → Forall parsed l → existsb (λ b, IP_Equal a b) l = bool_decide (a ∈ l).
Proof.
  intros Ha Hl. apply eq_true_iff_eq. rewrite existsb_exists, bool_decide_eq_true. split.
  - intros (b & Hb%list_elem_of_In & Heq). rewrite Forall_forall in Hl. by rewrite (parsed_Equal a b) by auto.
  - intros Hin. exists a. split; [by apply list_elem_of_In|apply IP_Equal_refl].
Qed.

(** ** Lemmas on the index *)
Definition in_index (key : string) (m : gmap string (gset string)) (i : string) : Prop := ∃ ks, m !! i = Some ks ∧ key ∈ ks.
Definition indexed (key : string) (m : gmap string (gset string)) (ip : IP) : Prop := in_index key m (IP_String ip).

Lemma lookup_index_ip key m ip i :
  index_ip key m ip !! i = if bool_decide (i = IP_String ip) then Some ({[key]} ∪ default ∅ (m !! i)) else m !! i.
Proof.
  unfold index_ip. case_bool_decide as H; [subst; by rewrite lookup_insert_eq|].
  by rewrite lookup_insert_ne.
Qed.

(** Nothing is lost, the key is in for every address, and nothing else came. *)
Lemma in_index_ip key ip m k i : in_index k (index_ip key m ip) i ↔ in_index k m i ∨ k = key ∧ i = IP_String ip.
Proof.
  unfold in_index. rewrite lookup_index_ip. case_bool_decide as E; [subst i|naive_solver].
  split.
  - intros (ks & [= <-] & [->%elem_of_singleton|Hk]%elem_of_union); [by right|left].
    destruct (m !! IP_String ip) as [ks|]; [by exists ks|by apply elem_of_empty in Hk].
  - intros H. eexists. split; [done|]. destruct H as [(ks & -> & ?)|[-> _]]; set_solver.
Qed.

Lemma index_ips key ips m :
  (∀ k i, in_index k m i → in_index k (foldl (index_ip key) m ips) i) ∧
  (∀ ip, ip ∈ ips → indexed key (foldl (index_ip key) m ips) ip) ∧
  (∀ k i, in_index k (foldl (index_ip key) m ips) i → in_index k m i ∨ k = key ∧ ∃ ip, ip ∈ ips ∧ IP_String ip = i).
Proof.
  revert m. induction ips as [|a ips IH]; intros m; simpl.
  { split_and!; [done| |by left]. intros ip H. by apply elem_of_nil in H. }
  destruct (IH (index_ip key m a)) as (IH1 & IH2 & IH3). split_and!.
  - intros k i Hi. apply IH1, in_index_ip. by left.
  - intros ip [->|Hip]%elem_of_cons; [|auto]. apply IH1, in_index_ip. by right.
  - intros k i Hi. destruct (IH3 k i Hi) as [[?|[-> ->]]%in_index_ip|(-> & ip & ? & ?)]; [by left|right|right].
    + split; [done|]. exists a. split; [left|done].
    + split; [done|]. exists ip. split; [by right|done].
Qed.

Lemma index_ips_nonempty key ips m :
  (∀ i ks, m !! i = Some ks → ks ≠ ∅) → ∀ i ks, foldl (index_ip key) m ips !! i = Some ks → ks ≠ ∅.
Proof.
  revert m. induction ips as [|a ips IH]; intros m Hm; simpl; [done|]. apply IH.
  intros i ks. rewrite lookup_index_ip. case_bool_decide; [intros [= <-]; set_solver|apply Hm].
Qed.

Lemma lookup_unindex_ip key i m j :
  unindex_ip key i m !! j =
  if bool_decide (j = i) then
    match m !! i with
    | Some ks => if bool_decide (ks ∖ {[key]} = ∅) then None else Some (ks ∖ {[key]})
    | None => None
    end
  else m !! j.
Proof.
  unfold unindex_ip. case_bool_decide as H.
  - subst j. destruct (m !! i) as [ks|] eqn:E; [|done].
    destruct (Nat.eqb_spec (size (ks ∖ {[key]})) 0) as [Hs|Hs].
    + apply size_empty_inv in Hs. rewrite lookup_delete_eq, bool_decide_eq_true_2; [done|]. by apply leibniz_equiv.
    + rewrite lookup_insert_eq, bool_decide_eq_false_2; [done|]. intros Hn. apply Hs. by rewrite Hn, size_empty.
  - destruct (m !! i) as [ks|]; [|done]. destruct (_ =? 0)%nat;
      [by rewrite lookup_delete_ne|by rewrite lookup_insert_ne].
Qed.

Lemma existsOther_spec r key i :
  match existsOtherLivePeers r key i with
  | Ok b => ∃ ks, peers r !! i = Some ks ∧ key ∈ ks ∧ (b = false ↔ ks = {[key]})
  | Err _ => ∀ ks, peers r !! i = Some ks → key ∉ ks
  | Panicked _ => False
  end.
Proof.
  unfold existsOtherLivePeers. destruct (peers r !! i) as [ks|]; [|done].
  case_bool_decide as Hk; [|by intros ? [= <-]]. exists ks. split; [done|]. split; [done|].
  rewrite Z.ltb_ge. split.
  - intros Hs. apply leibniz_equiv, set_equiv. intros x. rewrite elem_of_singleton. split; [|by intros ->].
    intros Hx. apply (size_singleton_inv ks); [|done..].
    destruct (size ks) as [|n] eqn:E; [|lia]. apply size_empty_inv in E. set_solver.
  - intros ->. rewrite size_singleton. lia.
Qed.

(** ** Rules for the watcher's own steps *)
Section rules.
Context {W : Type}.
Implicit Types (p : PW (W := W)).

Lemma wp_on_host {A} (m : M W A) (Q : outcome A → PW (W := W) → Prop) p :
  wp m (λ o w', Q o (p.1, w')) p.2 → wp (on_host m) Q p.
Proof. unfold wp, on_host. by destruct (m p.2). Qed.

Lemma wp_get_watcher (Q : outcome podWatcher → PW (W := W) → Prop) p : Q (Ok p.1) p → wp get_watcher Q p.
Proof. done. Qed.
Lemma wp_modify_watcher f (Q : outcome unit → PW (W := W) → Prop) p : Q (Ok tt) (f p.1, p.2) → wp (modify_watcher f) Q p.
Proof. done. Qed.
End rules.

(** The second loop, for a pod whose addresses did not change. *)
Lemma dropIPs_same {W} `{!PeerOps W} ips l (p : PW (W := W)) : l ⊆ ips → for_each (dropIP ips) l p = (Ok tt, p).
Proof.
  induction l as [|a l IH]; intros Hl; [done|]. cbn [for_each].
  assert (Ha : existsb (λ ip, IP_Equal a ip) ips = true).
  { apply existsb_exists. exists a. split; [apply list_elem_of_In; set_solver|apply IP_Equal_refl]. }
  unfold mbind, M_bind. replace (dropIP ips a p) with (@Ok unit tt, p) by (unfold dropIP; by rewrite Ha).
  apply IH. set_solver.
Qed.

(** ** The invariant

    What a live address keeps is a parameter: [has w ip] is gained by the body of
    [addPod]'s first loop and lost only with the tunnel of that name, on worlds
    that satisfy [sane]. *)
Section invariant.
#[local] Set Default Proof Using "Type*".
Context {W : Type} `{!PeerOps W, !PeerLaws W}.
Context (good : IP → Prop) (sane : W → Prop) (has : W → IP → Prop).
Context (Hname : ∀ a b, good a → good b → tunnel_name a = tunnel_name b → IP_Equal a b = true).
Context (Hadd : ∀ ip (p : PW (W := W)), good ip → sane p.2 → wp (addIP [] ip) (λ o p', no_panic o ∧ p'.1 = p.1 ∧
  sane p'.2 ∧ (∀ a, has p.2 a → has p'.2 a) ∧ (o = Ok tt → supported ip = true → has p'.2 ip)) p).
Context (Hdel : ∀ ip w, good ip → sane w → wp (ft_DelPeer ip) (λ o w', no_panic o ∧ sane w' ∧
  ∀ a, has w a → (o = Ok tt → tunnel_name a ≠ tunnel_name ip) → has w' a) w).
Implicit Types (w : W) (s : sys (W := W)) (p : PW (W := W)) (h : past).

Definition known (a : IP) : Prop := good a ∧ parsed a.

Lemma known_inj a b : known a → known b → tunnel_name a = tunnel_name b → a = b.
Proof. intros [Ga Pa] [Gb Pb] H. apply parsed_Equal; auto. Qed.

Record inv s : Prop := {
  inv_metric : metric s.1.1 = Z.of_nat (size (podAddrs s.1.1));
  inv_peers : ∀ i ks, peers s.1.1 !! i = Some ks → ks ≠ ∅;
  inv_known : ∀ key ips, podAddrs s.1.1 !! key = Some ips → Forall known ips;
  inv_index : ∀ key ip, tracked s key ip → indexed key (peers s.1.1) ip;
  inv_back : ∀ key i, in_index key (peers s.1.1) i →
    (key, i) ∈ moved s.2 ∨ ∃ ip, ip ∈ tracked_ips s.1.1 key ∧ IP_String ip = i;
  inv_has : ∀ key ip, live s key ip → supported ip = true → has s.1.2 ip;
  inv_sane : sane s.1.2 }.

Lemma inv_tracked s key : inv s → Forall known (tracked_ips s.1.1 key).
Proof. intros HI. unfold tracked_ips. destruct (podAddrs s.1.1 !! key) eqn:E; simpl; [by apply (inv_known _ HI key)|done]. Qed.

(** *** Preservation *)
Lemma inv_initial ns name w : sane w → inv (initial ns name w).
Proof.
  intros Hw. split; simpl; [done|..|done].
  - intros i ks Hi. by rewrite lookup_empty in Hi.
  - intros key ips Hi. by rewrite lookup_empty in Hi.
  - intros key ip (_ & ips & Hi & _). simpl in Hi. by rewrite lookup_empty in Hi.
  - intros key i (ks & Hi & _). by rewrite lookup_empty in Hi.
  - intros key ip [(_ & ips & Hi & _) _]. simpl in Hi. by rewrite lookup_empty in Hi.
Qed.

(** Another world and another past, in which what is live has what it should. *)
Lemma inv_world r w w' h h' : inv (r, w, h) → dying h ⊆ dying h' → moved h ⊆ moved h' → sane w' →
  (∀ key ip, live (r, w', h') key ip → supported ip = true → (live (r, w, h) key ip → has w ip) → has w' ip) → inv (r, w', h').
Proof.
  intros [I1 I2 I3 I4 I5 I6 I7] Hd Hm Hs Hh. split; [done|done|done|..|done].
  - intros key ip [Hk Ht]. apply I4. split; [simpl in *; set_solver|exact Ht].
  - intros key i Hi. destruct (I5 key i Hi) as [?|?]; [left; simpl in *; set_solver|by right].
  - intros key ip Hl Hsup. eapply Hh; [exact Hl|done|]. intros Hl'. by apply (I6 key).
Qed.

Lemma inv_grow r w w' h : inv (r, w, h) → (∀ a, has w a → has w' a) → sane w' → inv (r, w', h).
Proof. intros HI Ht Hs. eapply inv_world; [exact HI|done|done|done|]. intros key ip Hl _ H. apply Ht, H, Hl. Qed.

Lemma inv_live_known s key ip : inv s → tracked s key ip → known ip.
Proof using Type. intros HI [_ (ips & Hips & Hip)]. pose proof (inv_known _ HI _ _ Hips) as H. rewrite Forall_forall in H. auto. Qed.

(** The pod leaves the index of one address. *)
Lemma inv_unindex key ip r w h ks : key ∈ dying h → peers r !! IP_String ip = Some ks → key ∈ ks → inv (r, w, h) →
  let r' := with_peers (unindex_ip key (IP_String ip) (peers r)) r in
  inv (r', w, h) ∧ ∀ i, in_index key (peers r') i → i ≠ IP_String ip ∧ in_index key (peers r) i.
Proof.
  intros Hk Hks Hin [I1 I2 I3 I4 I5 I6 I7] r'.
  assert (Hshrink : ∀ k i, in_index k (peers r') i → (k = key → i ≠ IP_String ip) ∧ in_index k (peers r) i).
  { intros k i (ks' & Hi & Hk'). simpl in Hi. rewrite lookup_unindex_ip, Hks in Hi. case_bool_decide as E; [|by split; [congruence|exists ks']].
    case_bool_decide; [done|]. injection Hi as <-. subst i. split; [set_solver|]. exists ks. split; [done|set_solver]. }
  split; [|intros i Hi; by apply Hshrink in Hi as [? ?]; auto]. split; simpl; [done| |done| | |done|done].
  - intros i ks'. rewrite lookup_unindex_ip, Hks. case_bool_decide; [|apply I2]. case_bool_decide; [done|]. by intros [= <-].
  - intros key' ip' Hl. destruct (I4 key' ip' Hl) as (ks' & Hks' & Hin'). simpl in Hks'. destruct Hl as [Hd _]. simpl in Hd.
    assert (key' ≠ key) by (intros ->; done). unfold indexed, in_index. rewrite lookup_unindex_ip, Hks.
    case_bool_decide as Heq; [|eauto]. rewrite Heq, Hks in Hks'. injection Hks' as <-.
    rewrite bool_decide_eq_false_2 by set_solver. eexists. split; [done|set_solver].
  - intros k i Hi. apply Hshrink in Hi as [_ Hi]. by apply I5.
Qed.

(** A pod that is out of the index is forgotten. *)
Lemma inv_forget key p h : inv (p, mkPast ({[key]} ∪ dying h) (stolen h) (moved h)) →
  (∀ ip, ip ∈ tracked_ips p.1 key → ¬ indexed key (peers p.1) ip) →
  inv (set_metric (with_podAddrs (delete key (podAddrs p.1)) p.1), p.2, deleting key (Ok tt) h).
Proof.
  intros [I1 I2 I3 I4 I5 I6 I7] Hout. simpl in *.
  assert (Hl : ∀ k a, tracked (set_metric (with_podAddrs (delete key (podAddrs p.1)) p.1), p.2, deleting key (Ok tt) h) k a →
            tracked (p, mkPast ({[key]} ∪ dying h) (stolen h) (moved h)) k a).
  { intros k a [Hk (ips & Hips & Hip)]. simpl in *. apply lookup_delete_Some in Hips as [Hne Hips]. split; [simpl; set_solver|by exists ips]. }
  split; simpl; [done|done| | | | |done].
  - intros k ips [_ Hips]%lookup_delete_Some. by apply (I3 k).
  - intros k ip Ht%Hl. by apply I4.
  - intros k i Hi. destruct (I5 k i Hi) as [?|(ip & Hip & <-)]; [by left|]. destruct (decide (k = key)) as [->|Hne]; [by destruct (Hout ip)|].
    right. exists ip. split; [|done]. unfold tracked_ips. simpl. by rewrite lookup_delete_ne.
  - intros k ip [Ht%Hl Hst]. by apply (I6 k).
Qed.

(** A pod is tracked with the addresses it has now. *)
Lemma inv_replaced pod r w w' h : inv (r, w, h) → Forall good (pod_addrs pod) → sane w' →
  (∀ a, known a → (a ∈ tracked_ips r (key_of pod) → a ∈ pod_addrs pod) → has w a → has w' a) →
  (∀ a, a ∈ pod_addrs pod → a ∉ tracked_ips r (key_of pod) → supported a = true → has w' a) →
  inv (set_metric (with_peers (foldl (index_ip (key_of pod)) (peers r) (pod_addrs pod))
         (with_podAddrs (<[key_of pod := pod_addrs pod]> (podAddrs r)) r)), w', added r pod (Ok tt) h).
Proof.
  intros HI Hg Hs Hkeep Hnew. pose proof HI as [I1 I2 I3 I4 I5 I6 I7]. set (key := key_of pod) in *. set (ips := pod_addrs pod) in *.
  simpl in *. destruct (index_ips key ips (peers r)) as (Hix1 & Hix2 & Hix3).
  assert (Hel : ∀ a, a ∈ ips ↔ a ∈ (list_to_set ips : gset IP)) by (intros a; by rewrite elem_of_list_to_set).
  split; simpl; [done|by apply index_ips_nonempty| | | | |done].
  - intros k ips' [[<- <-]|[_ Hl]]%lookup_insert_Some; [|by apply (I3 k)].
    apply Forall_and. split; [done|apply parsed_addrs].
  - intros k ip [Hd (ips' & Hl & Hip)]. simpl in Hl.
    apply lookup_insert_Some in Hl as [[<- <-]|[Hne Hl]]; [by apply Hix2|]. apply Hix1, I4. split; [done|by exists ips'].
  - intros k i Hi. unfold tracked_ips. simpl. destruct (decide (k = key)) as [->|Hne].
    + rewrite lookup_insert_eq. simpl. apply Hix3 in Hi as [Hi|(_ & ip & ? & ?)]; [|right; by exists ip].
      destruct (I5 key i Hi) as [?|(ip & Hip & <-)]; [left; set_solver|]. destruct (decide (ip ∈ ips)); [right; by exists ip|].
      left. apply elem_of_union_r, elem_of_map. exists ip. split; [done|]. unfold lost. fold key ips. set_solver.
    + rewrite lookup_insert_ne by done. apply Hix3 in Hi as [Hi|[? _]]; [|done].
      destruct (I5 k i Hi) as [?|(ip & Hip & <-)]; [left; set_solver|right; by exists ip].
  - intros k ip [[Hd (ips' & Hl & Hip)] Hst] Hsup. simpl in Hl, Hst. fold key in Hst. apply lookup_insert_Some in Hl as [[<- <-]|[Hne Hl]].
    + destruct (decide (ip ∈ tracked_ips r key)) as [Hin|Hin]; [|by apply Hnew].
      apply Hkeep; [|done|]; unfold tracked_ips in Hin; destruct (podAddrs r !! key) as [old|] eqn:E; [|by apply elem_of_nil in Hin| |by apply elem_of_nil in Hin].
      * pose proof (I3 _ _ E) as H. rewrite Forall_forall in H. auto.
      * apply (I6 key); [|done]. split; [split; [done|by exists old]|]. simpl. unfold gained in Hst. fold key ips in Hst.
        unfold tracked_ips in Hst. rewrite E in Hst. simpl in *. set_solver.
    + pose proof (I3 _ _ Hl) as Hkn. rewrite Forall_forall in Hkn. destruct (decide (ip ∈ gained r pod)) as [Hga|Hga].
      { unfold gained in Hga. fold key ips in Hga. apply Hnew; [set_solver|set_solver|done]. }
      apply Hkeep; [auto| |].
      * intros Hin. destruct (decide (ip ∈ ips)); [done|]. destruct Hst. apply elem_of_union_r, elem_of_filter. split.
        -- exists k, ips'. by split_and!.
        -- unfold lost. fold key ips. set_solver.
      * apply (I6 k); [|done]. split; [split; [done|by exists ips']|]. simpl. set_solver.
Qed.

(** One address of a pod that is being deleted, however it ends. *)
Lemma wp_delIP_inv key ip p h : key ∈ dying h → known ip → inv (p, h) →
  wp (delIP key ip) (λ o p', no_panic o ∧ podAddrs p'.1 = podAddrs p.1 ∧ inv (p', h) ∧
    (o = Ok tt → ∀ i, in_index key (peers p'.1) i → i ≠ IP_String ip ∧ in_index key (peers p.1) i)) p.
Proof.
  intros Hk Hg HI. unfold delIP. apply wp_bind, wp_get_watcher, wp_bind, wp_lift_outcome.
  pose proof (existsOther_spec p.1 key (IP_String ip)) as Hex.
  destruct (existsOtherLivePeers _ _ _) as [b|e|m]; simpl; [|done|done].
  destruct Hex as (ks & Hks & Hin & Hb). apply wp_bind.
  assert (Hun : ∀ w, inv (p.1, w, h) → let r' := with_peers (unindex_ip key (IP_String ip) (peers p.1)) p.1 in
    inv (r', w, h) ∧ ∀ i, in_index key (peers r') i → i ≠ IP_String ip ∧ in_index key (peers p.1) i).
  { intros w HIw. by apply (inv_unindex key ip _ w h ks). }
  destruct b; simpl.
  { apply wp_ret. simpl. apply wp_modify_watcher. destruct (Hun p.2) as [? ?]; [by destruct p|]. by split_and!. }
  apply wp_on_host. eapply wp_mono; [apply Hdel; [apply Hg|apply HI]|]. intros o w (Hnp & Hs' & Hkeep).
  destruct o as [[]|e|m]; simpl in *; [| |by destruct Hnp].
  - apply wp_modify_watcher. simpl. destruct (Hun w) as [? ?]; [|by split_and!].
    apply (inv_world _ p.2 _ h); [by destruct p|done|done|done|].
    intros key' ip' Hl Hs Hhas. apply Hkeep; [by apply Hhas|]. intros _ Heq.
    destruct Hl as [[Hd (ips & Hips & Hip)] Hst]. destruct HI as [I1 I2 I3 I4 I5 I6 I7].
    assert (ip' = ip) as ->. { apply known_inj; [|done|done]. specialize (I3 _ _ Hips). rewrite Forall_forall in I3. auto. }
    destruct (I4 key' ip) as (ks' & Hks' & Hin'); [split; [done|by exists ips]|]. simpl in Hks'. rewrite Hks in Hks'.
    injection Hks' as <-. rewrite (proj1 Hb) in Hin' by done. apply elem_of_singleton in Hin' as ->. done.
  - split_and!; [done|done| |done]. apply (inv_grow _ p.2); [by destruct p| |done]. intros a Ha. by apply Hkeep.
Qed.

Lemma wp_delPeer_inv key p h : inv (p, h) →
  wp (delPeer key) (λ o p', no_panic o ∧ inv (p', deleting key o h)) p.
Proof.
  intros HI. unfold delPeer. apply wp_bind, wp_get_watcher. simpl. fold (tracked_ips p.1 key).
  set (h1 := mkPast ({[key]} ∪ dying h) (stolen h) (moved h)).
  assert (HI1 : inv (p, h1)).
  { destruct p as [r w]. apply (inv_world r w w h); [done|simpl; set_solver|done|apply HI|]. intros k a [[Hk Ht] Hst] _ H. apply H.
    split; [split; [simpl in *; set_solver|exact Ht]|exact Hst]. }
  pose proof (inv_tracked _ key HI) as Hg. simpl in Hg. set (ips := tracked_ips p.1 key) in *. apply wp_bind.
  apply (wp_for_each (delIP key) (λ l p', ∃ pre, ips = pre ++ l ∧ podAddrs p'.1 = podAddrs p.1 ∧ inv (p', h1) ∧
    ∀ ip, ip ∈ pre → ¬ indexed key (peers p'.1) ip)).
  - exists []. split_and!; [done..|]. intros ip H. by apply elem_of_nil in H.
  - intros ip l p' (pre & E & Hsame & HI' & Hpre). rewrite E in Hg. apply Forall_app in Hg as [_ [Hip _]%Forall_cons].
    eapply wp_mono; [by apply (wp_delIP_inv key ip p' h1); [simpl; set_solver|..]|].
    intros o p'' (Hnp & Hsame' & HI'' & Hix). destruct o as [[]|e|m]; simpl; [| |by destruct Hnp].
    + exists (pre ++ [ip]). rewrite <-app_assoc. split_and!; [done|congruence|done|].
      intros a Ha Hin. apply (Hix eq_refl) in Hin as [Hne Hin]. apply elem_of_app in Ha as [Ha| ->%list_elem_of_singleton]; [|done]. by apply (Hpre a Ha).
    + by split.
  - intros p' (pre & E & Hsame & HI' & Hpre). rewrite app_nil_r in E. subst pre. simpl. apply wp_bind, wp_modify_watcher. simpl.
    apply wp_modify_watcher. split; [done|]. apply (inv_forget key p' h HI'). unfold tracked_ips. rewrite Hsame. exact Hpre.
Qed.

(** The first loop of [addPod]. *)
Lemma wp_addIPs existing ips p : Forall good ips → Forall parsed ips → Forall parsed existing → sane p.2 →
  wp (for_each (addIP existing) ips) (λ o p', no_panic o ∧ p'.1 = p.1 ∧ sane p'.2 ∧ (∀ a, has p.2 a → has p'.2 a) ∧
    (o = Ok tt → ∀ ip, ip ∈ ips → ip ∉ existing → supported ip = true → has p'.2 ip)) p.
Proof.
  intros Hg Hpa Hex Hs.
  apply (wp_for_each _ (λ l p', ∃ pre, ips = pre ++ l ∧ p'.1 = p.1 ∧ sane p'.2 ∧ (∀ a, has p.2 a → has p'.2 a) ∧
    ∀ ip, ip ∈ pre → ip ∉ existing → supported ip = true → has p'.2 ip)).
  - exists []. split_and!; [done..|]. intros ip H. by apply elem_of_nil in H.
  - intros ip l p0 (pre & -> & Hp & Hs0 & Ht & Hpre). apply Forall_app in Hg as [_ [Hip _]%Forall_cons], Hpa as [_ [Hipp _]%Forall_cons].
    pose proof (existsb_parsed ip existing Hipp Hex) as Hb. case_bool_decide as Hin.
    { unfold addIP. rewrite Hb. apply wp_ret. simpl. exists (pre ++ [ip]). rewrite <-app_assoc. split_and!; [done..|].
      intros ip' [?| ->%list_elem_of_singleton]%elem_of_app; [auto|done]. }
    replace (addIP existing ip) with (addIP (W := W) [] ip) by (unfold addIP; by rewrite Hb).
    eapply wp_mono; [by apply Hadd|]. intros o p1 (Hnp & Hp1 & Hs1 & Hk & Hnew).
    destruct o as [[]|e|m]; simpl; [| |by destruct Hnp].
    + exists (pre ++ [ip]). rewrite <-app_assoc. split_and!; [done|congruence|done|auto|].
      intros ip' [?| ->%list_elem_of_singleton]%elem_of_app Hne Hs'; auto.
    + split_and!; [done|congruence|done|auto|done].
  - intros p0 (pre & -> & Hp & Hs0 & Ht & Hpre). rewrite app_nil_r in *. split_and!; [done..|auto].
Qed.

(** The second: what the pod has not lost is kept. *)
Lemma wp_dropIPs ips existing p : Forall parsed ips → Forall known existing → sane p.2 →
  wp (for_each (dropIP ips) existing) (λ o p', no_panic o ∧ p'.1 = p.1 ∧ sane p'.2 ∧
    ∀ a, known a → (a ∈ existing → a ∈ ips) → has p.2 a → has p'.2 a) p.
Proof.
  intros Hp Hk Hs. apply (wp_for_each _ (λ l p', l ⊆ existing ∧ p'.1 = p.1 ∧ sane p'.2 ∧
    ∀ a, known a → (a ∈ existing → a ∈ ips) → has p.2 a → has p'.2 a)); [done| |by intros p' (_ & ? & ? & ?)].
  intros eip l p1 (Hl & Hp1 & Hs1 & Hkeep). assert (Hin : eip ∈ existing) by set_solver.
  assert (He : known eip) by (rewrite Forall_forall in Hk; auto). unfold dropIP. rewrite existsb_parsed by (apply He || done).
  case_bool_decide as Hips; [apply wp_ret; simpl; split_and!; [set_solver|done..]|].
  apply wp_on_host. eapply wp_mono; [apply Hdel; [apply He|done]|]. intros o w (Hnp & Hs2 & Hk2).
  assert (Hkeep' : ∀ a, known a → (a ∈ existing → a ∈ ips) → has p.2 a → has w a).
  { intros a Ha Hal Hh. apply Hk2; [by apply Hkeep|]. intros _ Heq. apply known_inj in Heq as ->; [|done..]. auto. }
  destruct o; simpl in *; [split_and!; [set_solver|done..]|by split_and!|done].
Qed.

Lemma wp_addPod_inv pod p h : inv (p, h) → Forall good (pod_addrs pod) →
  wp (addPod pod) (λ o p', no_panic o ∧ inv (p', added p.1 pod o h)) p.
Proof.
  intros HI Hg. unfold addPod. apply wp_bind, wp_get_watcher. simpl. fold (key_of pod) (pod_addrs pod) (tracked_ips p.1 (key_of pod)).
  pose proof (inv_tracked _ (key_of pod) HI) as Hex. simpl in Hex. set (key := key_of pod) in *. set (ips := pod_addrs pod) in *.
  set (existing := tracked_ips p.1 key) in *. assert (Hpe : Forall parsed existing) by (eapply Forall_impl; [exact Hex|by intros ? []]).
  pose proof (parsed_addrs pod) as Hpi. fold ips in Hpi.
  assert (Hfail : ∀ o w', o ≠ Ok tt → sane w' → (∀ a, known a → (a ∈ existing → a ∈ ips) → has p.2 a → has w' a) → inv (p.1, w', added p.1 pod o h)).
  { intros o w' Ho Hs Hk. unfold added. rewrite bool_decide_eq_false_2 by done. apply (inv_world _ p.2 _ h); [by destruct p|done|done|done|].
    intros k a [Ht Hst] _ Hh. simpl in Hst. apply Hk; [exact (inv_live_known _ k a HI Ht)| |].
    - intros Ha. destruct (decide (a ∈ ips)); [done|]. destruct Hst. unfold lost. fold key ips existing. set_solver.
    - apply Hh. split; [exact Ht|simpl; set_solver]. }
  apply wp_bind. eapply wp_mono; [apply wp_addIPs; [done..|apply HI]|]. intros o p1 (Hnp & Hp1 & Hs1 & Ht & Hnew).
  destruct p1 as [r1 w1]. simpl in *. subst r1. destruct o as [[]|e|m]; simpl; [|split; [done|by apply Hfail; auto]|done].
  specialize (Hnew eq_refl). apply wp_bind. eapply wp_mono; [by apply wp_dropIPs|]. intros o p2 (Hnp2 & Hp2 & Hs2 & Hkeep).
  destruct p2 as [r2 w2]. simpl in *. subst r2. destruct o as [[]|e|m]; simpl; [|split; [done|by apply Hfail; auto]|done].
  apply wp_bind, wp_modify_watcher. simpl. apply wp_bind, wp_modify_watcher. simpl. apply wp_modify_watcher. split; [done|].
  apply (inv_replaced pod p.1 p.2 w2 h); [by destruct p|done|done| |].
  - intros a Ha Hin Hh. apply Hkeep; auto.
  - intros a Ha Hn Hsup. apply Hkeep; [|done|by apply Hnew]. rewrite Forall_forall in Hg. rewrite Forall_forall in Hpi. split; [by apply Hg|by apply Hpi].
Qed.

(** Every step preserves it. *)
Lemma inv_step s s' : inv s → step good s s' → inv s'.
Proof.
  intros HI Hs. destruct Hs as [got ns name p h o p' Hg Hr]. rewrite Reconcile_action in Hr. unfold after.
  destruct (action_of p.1 got ns name) as [[pod|key]|] eqn:Ea; simpl in Hr; [| |by injection Hr as <- <-].
  - by destruct (wp_run _ _ _ _ _ Hr (wp_addPod_inv pod p h HI (Hg pod eq_refl))).
  - by destruct (wp_run _ _ _ _ _ Hr (wp_delPeer_inv key p h HI)).
Qed.

Lemma inv_reachable ns name w s : sane w → reachable good ns name w s → inv s.
Proof.
  intros Hw Hr. unfold reachable in Hr. pose proof (inv_initial ns name w Hw) as HI. revert HI Hr.
  generalize (initial ns name w). intros s0 HI Hr. induction Hr as [|s0 s1 s2 Hs _ IH]; [done|].
  apply IH. by eapply inv_step.
Qed.
End invariant.

(** *** The tunnels of the live addresses *)
Section tunnels.
#[local] Set Default Proof Using "Type*".
Context {W : Type} `{!PeerOps W, !PeerLaws W}.
Definition has_tunnel (w : W) (ip : IP) : Prop := tunnel_name ip ∈ tunnels w.

Lemma addIP_tunnel ip (p : PW (W := W)) : wp (addIP [] ip) (λ o p', no_panic o ∧ p'.1 = p.1 ∧ True ∧
  (∀ a, has_tunnel p.2 a → has_tunnel p'.2 a) ∧ (o = Ok tt → supported ip = true → has_tunnel p'.2 ip)) p.
Proof.
  unfold addIP, has_tunnel. cbn [existsb]. apply wp_bind, wp_attempt, wp_on_host. eapply wp_mono; [apply law_ft_AddPeer|].
  intros o w [Hw Ho]. assert (Hgrow : tunnels p.2 ⊆ tunnels w) by set_solver.
  destruct o as [link|e|m]; simpl; [| |done].
  - apply wp_on_host. eapply wp_mono; [apply law_eg_AddClient|]. simpl. intros o w' [Hw' Ho']. rewrite Hw'.
    destruct o as [[]|e|m]; simpl in *; [|by split_and!; auto|done]. split_and!; auto.
  - destruct (is_mismatch e) eqn:Hmis.
    + apply wp_ret. simpl. split_and!; auto. intros _ Hs. specialize (Ho Hs). congruence.
    + apply wp_throw. simpl. split_and!; auto. done.
Qed.

Lemma delPeer_tunnel ip (w : W) : wp (ft_DelPeer ip) (λ o w', no_panic o ∧ True ∧
  ∀ a, has_tunnel w a → (o = Ok tt → tunnel_name a ≠ tunnel_name ip) → has_tunnel w' a) w.
Proof.
  unfold has_tunnel. eapply wp_mono; [apply law_ft_DelPeer|]. intros o w' Ho.
  destruct o as [[]|e|m]; simpl in *; [|by rewrite Ho|done]. rewrite Ho. split_and!; [done|done|].
  intros a Ha Hne. specialize (Hne eq_refl). set_solver.
Qed.
End tunnels.

(** ** A completed deletion *)
Definition drop_key (key : string) (ks : gset string) : option (gset string) :=
  if bool_decide (ks ∖ {[key]} = ∅) then None else Some (ks ∖ {[key]}).
(** Nobody else has the address. *)
Definition lonely (key : string) (m : gmap string (gset string)) (ip : IP) : Prop :=
  m !! IP_String ip = Some {[key]}.
Global Instance lonely_dec key m ip : Decision (lonely key m ip).
Proof. unfold lonely. apply _. Defined.

Section delete.
Context {W : Type} `{!PeerOps W, !PeerLaws W}.
#[local] Set Default Proof Using "Type*".
Implicit Types (p : PW (W := W)).

Definition deleted_names (key : string) (m : gmap string (gset string)) (ips : list IP) : gset string :=
  list_to_set (tunnel_name <$> filter (lonely key m) ips).

Lemma deleted_names_cons key m ip ips : deleted_names key m (ip :: ips) =
  (if decide (lonely key m ip) then {[tunnel_name ip]} else ∅) ∪ deleted_names key m ips.
Proof.
  unfold deleted_names. rewrite filter_cons. case_decide; simpl; [done|]. by rewrite (left_id_L ∅ (∪)).
Qed.

Lemma deleted_names_ext key m m' ips : (∀ ip, ip ∈ ips → m !! IP_String ip = m' !! IP_String ip) →
  deleted_names key m ips = deleted_names key m' ips.
Proof.
  induction ips as [|a ips IH]; intros Hm; [done|].
  rewrite !deleted_names_cons, IH by (intros ip Hip; apply Hm; by right).
  f_equal. assert (Ha : lonely key m a ↔ lonely key m' a) by (unfold lonely; by rewrite (Hm a) by left).
  by repeat case_decide; try tauto.
Qed.

(** The maps and the tunnels after [key] was taken out for all of [ips]. *)
Definition deleted (key : string) (ips : list IP) p p' : Prop :=
  podAddrs p'.1 = podAddrs p.1 ∧
  (∀ i, peers p'.1 !! i = if decide (i ∈ IP_String <$> ips) then peers p.1 !! i ≫= drop_key key else peers p.1 !! i) ∧
  tunnels p'.2 = tunnels p.2 ∖ deleted_names key (peers p.1) ips.

(** One indexed address. *)
Lemma wp_delIP key ip p : indexed key (peers p.1) ip →
  wp (delIP key ip) (λ o p', (∀ m, o ≠ Panicked m) ∧ (o = Ok tt → deleted key [ip] p p')) p.
Proof.
  intros (ks & Hks & Hin). unfold delIP. apply wp_bind, wp_get_watcher, wp_bind, wp_lift_outcome.
  pose proof (existsOther_spec p.1 key (IP_String ip)) as Hex.
  destruct (existsOtherLivePeers _ _ _) as [b|e|m]; simpl; [|done|done].
  destruct Hex as (ks' & Hks' & _ & Hb). rewrite Hks in Hks'. injection Hks' as <-.
  assert (Hpeers : ∀ i, unindex_ip key (IP_String ip) (peers p.1) !! i =
            if decide (i ∈ IP_String <$> [ip]) then peers p.1 !! i ≫= drop_key key else peers p.1 !! i).
  { intros i. rewrite lookup_unindex_ip, Hks. simpl.
    destruct (decide (i = IP_String ip)) as [->|Hne].
    - rewrite bool_decide_eq_true_2, decide_True by (try done; by left). by rewrite Hks.
    - rewrite bool_decide_eq_false_2, decide_False; [done| |done]. by intros ?%list_elem_of_singleton. }
  apply wp_bind. destruct b; simpl.
  - apply wp_ret. simpl. apply wp_modify_watcher. split; [done|]. intros _. split; [done|]. split; [done|].
    simpl. rewrite deleted_names_cons. rewrite decide_False; [set_solver|].
    unfold lonely. rewrite Hks. intros [= ->]. by discriminate (proj2 Hb).
  - apply wp_on_host. eapply wp_mono; [apply law_ft_DelPeer|]. intros o w Ho.
    destruct o as [[]|e|m]; simpl in *; [|done|done]. apply wp_modify_watcher. split; [done|].
    intros _. split; [done|]. split; [done|]. simpl. rewrite Ho, deleted_names_cons, decide_True; [set_solver|].
    unfold lonely. by rewrite Hks, (proj1 Hb).
Qed.

Lemma wp_delIPs key ips p : NoDup (IP_String <$> ips) → Forall (indexed key (peers p.1)) ips →
  wp (for_each (delIP key) ips) (λ o p', (∀ m, o ≠ Panicked m) ∧ (o = Ok tt → deleted key ips p p')) p.
Proof.
  revert p. induction ips as [|a ips IH]; intros p Hnd Hix.
  - apply wp_ret. split; [done|]. intros _. split; [done|]. split; [done|]. unfold deleted_names. simpl. set_solver.
  - rewrite fmap_cons in Hnd. apply NoDup_cons in Hnd as [Hna Hnd]. apply Forall_cons in Hix as [Ha Hix].
    cbn [for_each]. apply wp_bind. eapply wp_mono; [by apply wp_delIP|]. intros o p1 [Hnp Hp1].
    destruct o as [[]|e|m]; simpl; [|done|by destruct (Hnp m)]. destruct (Hp1 eq_refl) as (HA & HP & HT).
    assert (Hsame : ∀ ip, ip ∈ ips → peers p1.1 !! IP_String ip = peers p.1 !! IP_String ip).
    { intros ip Hip. rewrite HP, decide_False; [done|]. intros Heq%list_elem_of_singleton. apply Hna.
      rewrite <-Heq. by apply list_elem_of_fmap_2. }
    eapply wp_mono; [apply (IH p1 Hnd)|].
    + rewrite Forall_forall in Hix |- *. intros ip Hip. unfold indexed, in_index. rewrite Hsame by done. by apply Hix.
    + intros o p2 [Hnp2 Hp2]. split; [done|]. intros Ho. destruct (Hp2 Ho) as (HA2 & HP2 & HT2).
      split; [congruence|]. split.
      * intros i. rewrite HP2, HP. rewrite fmap_cons.
        destruct (decide (i ∈ IP_String <$> ips)) as [Hi|Hi].
        -- assert (i ≠ IP_String a) by (intros ->; done).
           rewrite decide_False by by intros ?%list_elem_of_singleton. rewrite decide_True by by right. done.
        -- destruct (decide (i = IP_String a)) as [->|Hne].
           ++ rewrite !decide_True by by left. done.
           ++ rewrite !decide_False; [done| |]; intros Hin; [|by apply list_elem_of_singleton in Hin].
              apply elem_of_cons in Hin. tauto.
      * rewrite HT2, HT, (deleted_names_ext key (peers p1.1) (peers p.1)) by done.
        rewrite (deleted_names_cons _ _ a ips), (deleted_names_cons _ _ a []). unfold deleted_names at 2. simpl. set_solver.
Qed.
End delete.

(** *** Nothing to do *)
Lemma addIPs_same {W} `{!PeerOps W} ips l (p : PW (W := W)) : l ⊆ ips → for_each (addIP ips) l p = (Ok tt, p).
Proof.
  induction l as [|a l IH]; intros Hl; [done|]. cbn [for_each].
  assert (Ha : existsb (λ ip, IP_Equal a ip) ips = true).
  { apply existsb_exists. exists a. split; [apply list_elem_of_In; set_solver|apply IP_Equal_refl]. }
  unfold mbind, M_bind. replace (addIP ips a p) with (@Ok unit tt, p) by (unfold addIP; by rewrite Ha).
  apply IH. set_solver.
Qed.

Lemma index_ips_same key ips m : Forall (indexed key m) ips → foldl (index_ip key) m ips = m.
Proof.
  induction 1 as [|a ips (ks & Hks & Hin) _ IH]; [done|]. simpl.
  assert (index_ip key m a = m) as ->; [|done]. unfold index_ip. rewrite Hks. simpl.
  replace ({[key]} ∪ ks) with ks by set_solver. by rewrite insert_id.
Qed.

(** *** Runs *)
Lemma delIP_run {W} `{!PeerOps W} key ip r (w : W) : delIP key ip (r, w) =
  match existsOtherLivePeers r key (IP_String ip) with
  | Ok b =>
      match (if negb b then ft_DelPeer ip w else (Ok tt, w)) with
      | (Ok _, w') => (Ok tt, (with_peers (unindex_ip key (IP_String ip) (peers r)) r, w'))
      | (Err e, w') => (Err e, (r, w'))
      | (Panicked m, w') => (Panicked m, (r, w'))
      end
  | Err e => (Err e, (r, w))
  | Panicked m => (Panicked m, (r, w))
  end.
Proof.
  unfold delIP, mbind, M_bind, get_watcher, lift_outcome, on_host, modify_watcher. cbn [fst snd].
  destruct (existsOtherLivePeers _ _ _) as [[]|e|m]; [done| |done..]. cbn [negb fst snd].
  by destruct (ft_DelPeer ip w) as [[]].
Qed.

Lemma delPeer_run {W} `{!PeerOps W} key ips r (w : W) : podAddrs r !! key = Some ips →
  delPeer key (r, w) =
  match for_each (delIP key) ips (r, w) with
  | (Ok _, (r', w')) => (Ok tt, (set_metric (with_podAddrs (delete key (podAddrs r')) r'), w'))
  | (Err e, p') => (Err e, p')
  | (Panicked m, p') => (Panicked m, p')
  end.
Proof.
  intros Hk. unfold delPeer, mbind, M_bind, get_watcher, modify_watcher. cbn [fst snd]. rewrite Hk.
  change (default [] (Some ips)) with ips. by destruct (for_each _ _ _) as [[] []].
Qed.

Lemma for_each_cons_run {W A} (f : A → M W unit) x l w : for_each f (x :: l) w =
  match f x w with
  | (Ok _, w') => for_each f l w'
  | (Err e, w') => (Err e, w')
  | (Panicked m, w') => (Panicked m, w')
  end.
Proof. cbn [for_each]. unfold mbind, M_bind. by destruct (f x w) as [[]]. Qed.

Lemma existsOther_lonely r key i : peers r !! i = Some {[key]} → existsOtherLivePeers r key i = Ok false.
Proof.
  intros Hi. unfold existsOtherLivePeers. rewrite Hi, bool_decide_eq_true_2 by set_solver.
  by rewrite size_singleton.
Qed.

(** *** What a step does to the watcher's own state

    Additions that fail leave it alone; so an addition can be tried again. *)
Definition same_names (r r' : podWatcher) : Prop := myNS r' = myNS r ∧ myName r' = myName r.

Lemma shouldHandle_names r r' pod : same_names r r' → shouldHandle r' pod = shouldHandle r pod.
Proof. intros [Hns Hn]. unfold shouldHandle. by rewrite Hns, Hn. Qed.

Section outcomes.
#[local] Set Default Proof Using "Type*".
Context {W : Type} `{!PeerOps W, !PeerLaws W}.

Lemma addIP_state existing ip (p : PW (W := W)) : wp (addIP existing ip) (λ o p', no_panic o ∧ p'.1 = p.1) p.
Proof.
  unfold addIP. destruct (existsb _ _); [by apply wp_ret|]. apply wp_bind, wp_attempt, wp_on_host.
  eapply wp_mono; [apply law_ft_AddPeer|]. intros o w [_ Ho]. destruct o as [l|e|s]; simpl; [| |done].
  - apply wp_on_host. eapply wp_mono; [apply law_eg_AddClient|]. intros o w' [_ Ho']. by destruct o.
  - destruct (is_mismatch e); [by apply wp_ret|by apply wp_throw].
Qed.

Lemma dropIP_state ips eip (p : PW (W := W)) : wp (dropIP ips eip) (λ o p', no_panic o ∧ p'.1 = p.1) p.
Proof.
  unfold dropIP. destruct (existsb _ _); [by apply wp_ret|]. apply wp_on_host.
  eapply wp_mono; [apply law_ft_DelPeer|]. by intros [] w Ho.
Qed.

Lemma for_each_state {A} (f : A → M (PW (W := W)) unit) l (p : PW (W := W)) :
  (∀ a p, wp (f a) (λ o p', no_panic o ∧ p'.1 = p.1) p) → wp (for_each f l) (λ o p', no_panic o ∧ p'.1 = p.1) p.
Proof.
  intros Hf. apply (wp_for_each f (λ _ p', p'.1 = p.1) (λ o p', no_panic o ∧ p'.1 = p.1)); [done| |done].
  intros a l' p' Hp'. eapply wp_mono; [apply Hf|].
  intros [[]|e|s] p'' [? Hp'']; simpl; [congruence|split; [done|congruence]|done].
Qed.

Lemma addPod_outcome pod (p : PW (W := W)) :
  wp (addPod pod) (λ o p', no_panic o ∧ (o ≠ Ok tt → p'.1 = p.1) ∧
    (o = Ok tt → same_names p.1 p'.1 ∧ podAddrs p'.1 = <[key_of pod := pod_addrs pod]> (podAddrs p.1))) p.
Proof.
  unfold addPod. apply wp_bind, wp_get_watcher. simpl. fold (key_of pod) (pod_addrs pod).
  apply wp_bind. eapply wp_mono; [apply for_each_state; intros; apply addIP_state|].
  intros o p1 [? Hp1]. destruct o as [[]|e|s]; simpl; [|done..].
  apply wp_bind. eapply wp_mono; [apply for_each_state; intros; apply dropIP_state|].
  intros o p2 [? Hp2]. rewrite Hp1 in Hp2. destruct o as [[]|e|s]; simpl; [|done..].
  apply wp_bind, wp_modify_watcher, wp_bind, wp_modify_watcher, wp_modify_watcher.
  split_and!; [done|done|]. intros _. simpl. by rewrite Hp2.
Qed.

Lemma delIP_outcome key ip (p : PW (W := W)) :
  wp (delIP key ip) (λ o p', no_panic o ∧ same_names p.1 p'.1 ∧ podAddrs p'.1 = podAddrs p.1) p.
Proof.
  unfold delIP. apply wp_bind, wp_get_watcher, wp_bind, wp_lift_outcome. pose proof (existsOther_spec p.1 key (IP_String ip)) as Hex.
  destruct (existsOtherLivePeers _ _ _) as [b|e|m]; simpl; [|done..]. apply wp_bind. destruct b; simpl.
  - by apply wp_ret, wp_modify_watcher.
  - apply wp_on_host. eapply wp_mono; [apply law_ft_DelPeer|]. by intros [[]|e|m] w Ho; simpl; [apply wp_modify_watcher|..].
Qed.

Lemma delPeer_outcome key (p : PW (W := W)) : wp (delPeer key) (λ o p', no_panic o ∧ same_names p.1 p'.1 ∧
  podAddrs p'.1 = match o with Ok _ => delete key (podAddrs p.1) | _ => podAddrs p.1 end) p.
Proof.
  unfold delPeer. apply wp_bind, wp_get_watcher, wp_bind.
  apply (wp_for_each (delIP key) (λ _ p', same_names p.1 p'.1 ∧ podAddrs p'.1 = podAddrs p.1)); [done| |].
  - intros ip l p' [[? ?] Hp']. eapply wp_mono; [apply delIP_outcome|]. intros [[]|e|m] p'' (Hno & [? ?] & Hp''); simpl; [|split|done].
    all: (split; [split; congruence|congruence]) || done.
  - intros p' [[? ?] Hp']. simpl. apply wp_bind, wp_modify_watcher, wp_modify_watcher. simpl. by rewrite Hp'.
Qed.
End outcomes.

(** Which pods are handled, whatever the order the annotations are visited in. *)
Lemma shouldHandle_iff r pod :
  shouldHandle r pod = true ↔
  HostNetwork pod = false ∧ ∃ v, (AnnEgressPrefix +:+ myNS r, v) ∈ Annotations pod ∧
    (v = myName r ∨ myName r ∈ Split v ","%char).
Proof.
  unfold shouldHandle. destruct (HostNetwork pod); [naive_solver|]. rewrite existsb_exists. split.
  - intros ([k v] & Hin & H). split; [done|].
    destruct (HasPrefix k AnnEgressPrefix) eqn:Hp; [|done]. apply HasPrefix_spec in Hp as [t ->].
    rewrite str_drop_app in H. cbn [negb] in H. destruct (String.eqb_spec t (myNS r)) as [->|]; [|done].
    exists v. split; [by apply list_elem_of_In|]. cbn [negb] in H.
    destruct (String.eqb_spec v (myName r)); [by left|right].
    apply existsb_exists in H as (n' & Hn & ->%String.eqb_eq). by apply list_elem_of_In.
  - intros [_ (v & Hin & Hv)]. exists (AnnEgressPrefix +:+ myNS r, v).
    split; [by apply list_elem_of_In|].
    assert (HasPrefix (AnnEgressPrefix +:+ myNS r) AnnEgressPrefix = true) as -> by (apply HasPrefix_spec; eauto).
    rewrite str_drop_app, String.eqb_refl. cbn [negb]. destruct (String.eqb_spec v (myName r)); [done|].
    destruct Hv as [?|Hv]; [done|]. apply existsb_exists. exists (myName r). rewrite String.eqb_refl.
    split; [by apply list_elem_of_In|done].
Qed.


(** C19: a deletion that succeeds forgets exactly this pod: it leaves the index of
    each of its addresses, other pods stay in, and precisely the tunnels to the
    addresses that no other pod has are removed. *)
Theorem delPeer_spec {W} `{!PeerOps W, !PeerLaws W} key ips (p : PW (W := W)) :
  podAddrs p.1 !! key = Some ips → NoDup (IP_String <$> ips) → Forall (indexed key (peers p.1)) ips →
  wp (delPeer key) (λ o p', o = Ok tt →
    podAddrs p'.1 = delete key (podAddrs p.1) ∧
    metric p'.1 = Z.of_nat (size (podAddrs p'.1)) ∧
    (∀ i, peers p'.1 !! i =
       if decide (i ∈ IP_String <$> ips) then peers p.1 !! i ≫= drop_key key else peers p.1 !! i) ∧
    tunnels p'.2 = tunnels p.2 ∖ deleted_names key (peers p.1) ips) p.
Proof.
  intros Hips Hnd Hix. unfold delPeer. apply wp_bind, wp_get_watcher. simpl. rewrite Hips. simpl.
  apply wp_bind. eapply wp_mono; [by apply wp_delIPs|]. intros o p1 [Hnp Hp1].
  destruct o as [[]|e|m]; simpl; [|done|done]. destruct (Hp1 eq_refl) as (HA & HP & HT).
  apply wp_bind, wp_modify_watcher. simpl. apply wp_modify_watcher. intros _. simpl. by rewrite HA.
Qed.

(** Reconciling a pod that is tracked with the addresses it has changes nothing,
    neither the watcher's maps nor the host, and succeeds. *)
Theorem Reconcile_idempotent {W} `{!PeerOps W} pod ns name (p : PW (W := W)) :
  action_of p.1 (inl pod) ns name = Some (Add pod) →
  podAddrs p.1 !! key_of pod = Some (pod_addrs pod) →
  Forall (indexed (key_of pod) (peers p.1)) (pod_addrs pod) →
  metric p.1 = Z.of_nat (size (podAddrs p.1)) →
  Reconcile (inl pod) ns name p = (Ok tt, p).
Proof.
  intros Ha Hips Hix Hm. rewrite Reconcile_action, Ha. destruct p as [r w]. simpl in *.
  unfold addPod. fold (key_of pod). fold (pod_addrs pod).
  unfold get_watcher, modify_watcher, mbind, M_bind. simpl. rewrite Hips. simpl.
  rewrite addIPs_same, dropIPs_same by done. simpl. rewrite index_ips_same by done.
  unfold with_podAddrs, with_peers, set_metric. simpl. rewrite insert_id by done. by destruct r; simpl in *; subst.
Qed.

(** C20: when the tunnel to the second address of a pod cannot be removed, the pod can
    never be deleted again: the first address has left the index, and every retry
    fails on it and changes nothing. *)
Theorem delPeer_stuck {W} `{!PeerOps W} key a b e (r : podWatcher) (w w1 w2 : W) :
  podAddrs r !! key = Some [a; b] → IP_String a ≠ IP_String b →
  lonely key (peers r) a → lonely key (peers r) b →
  ft_DelPeer a w = (Ok tt, w1) → ft_DelPeer b w1 = (Err e, w2) →
  ∃ r', delPeer key (r, w) = (Err e, (r', w2)) ∧
    ∀ w', ∃ e', delPeer key (r', w') = (Err e', (r', w')).
Proof.
  intros Hk Hab Ha Hb H1 H2. unfold lonely in Ha, Hb.
  set (r' := with_peers (unindex_ip key (IP_String a) (peers r)) r).
  assert (Hr' : ∀ i, peers r' !! i = if bool_decide (i = IP_String a) then None else peers r !! i).
  { intros i. unfold r'. cbn [peers with_peers]. rewrite lookup_unindex_ip, Ha.
    case_bool_decide; [|done]. by rewrite bool_decide_eq_true_2 by set_solver. }
  exists r'. split.
  - rewrite (delPeer_run key [a; b]), for_each_cons_run, delIP_run by done.
    rewrite (existsOther_lonely r key) by done. cbn [negb]. rewrite H1. fold r'.
    rewrite for_each_cons_run, delIP_run, (existsOther_lonely r' key).
    + cbn [negb]. by rewrite H2.
    + rewrite Hr', bool_decide_eq_false_2 by done. done.
  - intros w'. eexists. rewrite (delPeer_run key [a; b]), for_each_cons_run, delIP_run by done.
    unfold existsOtherLivePeers. rewrite Hr', bool_decide_eq_true_2 by done. done.
Qed.

(** A pod that comes back with another address takes the tunnel of its old
    address away, also when another tracked pod has that address, and stays in the
    index of the old address for good. *)
Theorem addPod_steals_tunnel {W} `{!PeerOps W, !PeerLaws W} pod other a b (p : PW (W := W)) :
  podAddrs p.1 !! key_of pod = Some [a] → pod_addrs pod = [b] → IP_Equal a b = false →
  podAddrs p.1 !! other = Some [a] → other ≠ key_of pod → indexed other (peers p.1) a →
  indexed (key_of pod) (peers p.1) a →
  wp (addPod pod) (λ o p', o = Ok tt →
    tunnel_name a ∉ tunnels p'.2 ∧ podAddrs p'.1 !! other = Some [a] ∧
    indexed (key_of pod) (peers p'.1) a) p.
Proof.
  intros Hk Hb Hab Ho Hne _ Hix. unfold addPod. apply wp_bind, wp_get_watcher. simpl.
  fold (key_of pod). fold (pod_addrs pod). rewrite Hk, Hb. simpl.
  apply wp_bind. change (_ ← addIP [a] b; mret ()) with (for_each (addIP (W := W) [a]) [b]).
  assert (Hloop : wp (for_each (addIP [a]) [b]) (λ o p', (∀ m, o ≠ Panicked m) ∧ p'.1 = p.1) p).
  { unfold for_each, addIP. simpl. rewrite IP_Equal_sym, Hab. simpl. apply wp_bind, wp_bind, wp_attempt, wp_on_host.
    eapply wp_mono; [apply law_ft_AddPeer|]. intros o w [_ H]. destruct o as [l|e|m]; simpl; [| |done].
    - apply wp_on_host. eapply wp_mono; [apply law_eg_AddClient|]. intros o w' [_ H'].
      destruct o as [[]|e|m]; simpl in *; [apply wp_ret; by split|by split|done].
    - destruct (is_mismatch e); [apply wp_ret; simpl; apply wp_ret; by split|apply wp_throw; by split]. }
  eapply wp_mono; [exact Hloop|]. intros o p1 [Hnp Hp1]. destruct o as [[]|e|m]; simpl; [|done|by destruct (Hnp m)].
  apply wp_bind, wp_bind. unfold dropIP. simpl. rewrite Hab. simpl. apply wp_on_host.
  eapply wp_mono; [apply law_ft_DelPeer|]. intros o w Ho'. destruct o as [[]|e|m]; simpl in *; [|done|done].
  apply wp_ret. simpl. apply wp_bind, wp_modify_watcher. simpl. apply wp_bind, wp_modify_watcher. simpl.
  apply wp_modify_watcher. intros _. simpl. rewrite Hp1. split; [|split].
  - rewrite Ho'. set_solver.
  - by rewrite lookup_insert_ne.
  - destruct Hix as (ks & Hks & Hin). unfold indexed, in_index. rewrite lookup_index_ip.
    case_bool_decide as Heq; [|eauto]. eexists. split; [done|]. set_solver.
Qed.

(** ** Witnesses: the tunnels and the egress component on the executable host *)
Section witnesses.
#[local] Instance wit_ops : PeerOps host := fou_peers Fou.sample_tunnel EgressNat.sample_egress.
#[local] Instance wit_laws : PeerLaws host := fou_peers_laws Fou.sample_tunnel EgressNat.sample_egress.

Definition good4 (a : IP) : Prop := wf_ip a ∧ To4 a ≠ [].
Definition sample_pod (name : string) (ips : list string) : Pod :=
  mkPod "default" name false [("egress.ysksuzuki.com/internet", "nat,other")] ips "Running".
Definition pod_a : Pod := sample_pod "a" ["10.1.2.3"].
Definition pod_b : Pod := sample_pod "b" ["10.1.2.3"].
Definition pod_a' : Pod := sample_pod "a" ["10.1.2.4"].
Definition pod_d : Pod := sample_pod "d" ["10.1.2.3"; "fd01::3"].

Definition start (faults : list bool) : PW (W := host) :=
  (SetupPodWatcher "internet" "nat", host_with faults empty_net).
Definition run (pods : list Pod) (p : PW (W := host)) : PW (W := host) :=
  foldl (λ p pod, (Reconcile (inl pod) "" "" p).2) p pods.

Lemma good4_name a b : good4 a → good4 b → tunnel_name a = tunnel_name b → IP_Equal a b = true.
Proof. intros [Ha H4a] [Hb H4b] H. apply IP_Equal_canon; [apply Ha|apply Hb|]. by apply fouName_v4_inj. Qed.
Lemma good4_pod ip : To4 (ParseIP ip) ≠ [] → good4 (ParseIP ip).
Proof. intros H. split; [apply ParseIP_wf_ip|done]. Qed.

(** The pod is added at the second attempt, the first one fails in [AddPeer]; then
    another pod comes, and the first one gets another address. *)
Definition pod_c : Pod := sample_pod "c" ["10.1.2.5"].
Definition moved_on : sys (W := host) := react_all ((λ pod, (inl pod, ("", ""))) <$> [pod_a; pod_a; pod_c; pod_a']) (start [false; true], no_past).


Lemma delPeer_spec_witness :
  let p := run [pod_a; pod_b] (start []) in
  wp (delPeer "default/a") (λ o p', o = Ok tt ∧ peers p'.1 !! "10.1.2.3" = Some {["default/b"]} ∧
    tunnels p'.2 = tunnels p.2) p.
Proof.
  intros p. pose proof (delPeer_spec "default/a" [ParseIP "10.1.2.3"] p) as H.
  assert (Hix : Forall (indexed "default/a" (peers p.1)) [ParseIP "10.1.2.3"]).
  { apply Forall_singleton. exists {["default/a"; "default/b"]}. split; [by vm_compute|clear; set_solver]. }
  specialize (H ltac:(by vm_compute) ltac:(apply NoDup_singleton) Hix).
  assert (Ho : (delPeer "default/a" p).1 = Ok tt) by by vm_compute.
  destruct (H Ho) as (_ & _ & HP & HT). split; [done|]. split.
  - rewrite HP. by vm_compute.
  - rewrite HT. assert (deleted_names "default/a" (peers p.1) [ParseIP "10.1.2.3"] = ∅) as ->; [|set_solver].
    unfold deleted_names. rewrite filter_cons_False; [done|]. unfold lonely.
    apply (bool_decide_eq_false_1 _). by vm_compute.
Defined.

Lemma Reconcile_idempotent_witness :
  let p := run [pod_a] (start []) in Reconcile (inl pod_a) "default" "a" p = (Ok tt, p).
Proof.
  intros p. apply Reconcile_idempotent; [by vm_compute|by vm_compute| |by vm_compute].
  apply Forall_singleton. exists {["default/a"]}. split; [by vm_compute|clear; set_solver].
Defined.

(** A dual-stack pod; the seventh call after it is added, the removal of the IPv6
    tunnel, fails. *)
Definition dual : PW (W := host) := run [pod_d] (start []).
Definition dual_faulty : host := mkHost (h_net dual.2) [false; false; false; true] (h_next dual.2).
Lemma delPeer_stuck_witness :
  ∃ r' w2, delPeer "default/d" (dual.1, dual_faulty) = (Err einval, (r', w2)) ∧
    ∀ w', ∃ e', delPeer "default/d" (r', w') = (Err e', (r', w')).
Proof.
  destruct (delPeer_stuck "default/d" (ParseIP "10.1.2.3") (ParseIP "fd01::3") einval dual.1 dual_faulty
    (ft_DelPeer (ParseIP "10.1.2.3") dual_faulty).2
    (ft_DelPeer (ParseIP "fd01::3") (ft_DelPeer (ParseIP "10.1.2.3") dual_faulty).2).2) as (r' & H1 & H2);
    [by vm_compute|by vm_compute|by vm_compute|by vm_compute|by vm_compute|by vm_compute|].
  eauto.
Defined.

Lemma addPod_steals_tunnel_witness :
  let p := run [pod_a; pod_b] (start []) in let p' := (addPod pod_a' p).2 in
  (addPod pod_a' p).1 = Ok tt ∧
  tunnel_name (ParseIP "10.1.2.3") ∉ tunnels p'.2 ∧ podAddrs p'.1 !! "default/b" = Some [ParseIP "10.1.2.3"].
Proof.
  intros p p'. assert (Ho : (addPod pod_a' p).1 = Ok tt) by by vm_compute. split; [done|].
  assert (Hix : ∀ k, k = "default/a" ∨ k = "default/b" → indexed k (peers p.1) (ParseIP "10.1.2.3")).
  { intros k Hk. exists {["default/a"; "default/b"]}. split; [by vm_compute|clear -Hk; destruct Hk as [-> | ->]; set_solver]. }
  destruct (addPod_steals_tunnel pod_a' "default/b" (ParseIP "10.1.2.3") (ParseIP "10.1.2.4") p
    ltac:(by vm_compute) ltac:(by vm_compute) ltac:(by vm_compute) ltac:(by vm_compute) ltac:(done)
    (Hix "default/b" ltac:(by right)) (Hix "default/a" ltac:(by left)) Ho) as (H1 & H2 & _).
  split; [exact H1|exact H2].
Defined.
End witnesses.
