(* ===== verification/AgentSetup.v ===== *)
(** * Setting a client pod up ([runners/agent.go], [setupEgressGW])

    The agent runs the tunnel component and the NAT client one after the other
    inside the pod's network namespace: one tunnel per gateway and one route per
    destination over it. *)
From S2P Require Import Prelude GoStrings GoNet Netlink Kernel Frames NatClient Fou EgressNat Peers FouPeers.

Record GWNets := mkGWNets { Gateway : IP; Networks : list IPNet }.

Section setup.
Context {W : Type} `{!HostOps W}.

(** The body of the loop over the gateways. *)
Definition setupGW (ft : fouTunnel) (cl : natClient) (gwn : GWNets) : M W unit :=
  r ← attempt (Fou.AddPeer ft (Gateway gwn));
  match r with
  | inr err => if errors_Is err ErrIPFamilyMismatch then mret tt else throw err
  | inl link => NatClient.AddEgress cl link (Networks gwn)
  end.

Definition setupEgressGW (egressPort : Z) (ipv4 ipv6 : IP) (l : list GWNets) : M W unit :=
  ft ← lift_outcome (Fou.NewFoUTunnel 0 egressPort ipv4 ipv6);
  _ ← Fou.Init ft;
  cl ← lift_outcome (NatClient.NewNatClient ipv4 ipv6 []);
  _ ← NatClient.Init cl;
  for_each (setupGW ft cl) l.
End setup.

(** ** The components [setupEgressGW] makes *)
Definition pod_tunnel (port : Z) (ipv4 ipv6 : IP) : fouTunnel := mkFouTunnel 0 port ipv4 ipv6.
Definition pod_client (ipv4 ipv6 : IP) : natClient :=
  mkNatClient (bool_decide (ipv4 ≠ [])) (bool_decide (ipv6 ≠ [])) v4PrivateList v6PrivateList.

(** Addresses of the right families, or none. *)
Definition families_ok (ipv4 ipv6 : IP) : Prop := (ipv4 ≠ [] → To4 ipv4 ≠ []) ∧ To4 ipv6 = [].

Lemma NewFoUTunnel_ok port ipv4 ipv6 : families_ok ipv4 ipv6 →
  Fou.NewFoUTunnel 0 port ipv4 ipv6 = Ok (pod_tunnel port ipv4 ipv6).
Proof.
  intros [H4 H6]. unfold NewFoUTunnel.
  repeat (case_bool_decide || case_decide); naive_solver.
Qed.

Lemma NewNatClient_ok ipv4 ipv6 : families_ok ipv4 ipv6 → NatClient.NewNatClient ipv4 ipv6 [] = Ok (pod_client ipv4 ipv6).
Proof.
  intros [H4 H6]. unfold NewNatClient, pod_client.
  repeat (case_bool_decide || case_decide); naive_solver.
Qed.

Lemma pod_client_initable ipv4 ipv6 : initable (pod_client ipv4 ipv6).
Proof. intros f _. pose proof (private_ok f). by destruct f. Qed.
Lemma pod_client_short ipv4 ipv6 f : (length (nc_priv (pod_client ipv4 ipv6) f) ≤ 100)%nat.
Proof. destruct f; simpl; lia. Qed.

(** ** What the loop has reached

    [progress t c n1 gs n]: from the state [n1] the gateways [gs] were served.
    Each supported one has its device, a new one with the parameters of the
    tunnel; each of its networks has a route over that device, in order; the
    rest of the pod is as it was. *)
Definition on_tunnel (t : fouTunnel) (g : GWNets) : Prop := peer_local t (Gateway g) ≠ [].
#[global] Instance on_tunnel_dec t g : Decision (on_tunnel t g).
Proof. unfold on_tunnel. apply _. Defined.

Definition gw_name (g : GWNets) : string := fouName (Gateway g).

Definition device_of (t : fouTunnel) (n1 : Net) (gs : list GWNets) (n : Net) (g : GWNets) (lk : Link) : Prop :=
  links n !! gw_name g = Some lk ∧
  (links n1 !! gw_name g = Some lk ∨ ∃ g' idx, g' ∈ gs ∧ gw_name g' = gw_name g ∧ lk = peer_link t (Gateway g') idx).

Definition routes_over (c : natClient) (f : family) (gs : list GWNets) (lks : list Link) : list kroute :=
  mjoin (zip_with (λ g lk, egress_routes c lk f (Networks g)) gs lks).

Definition progress (t : fouTunnel) (c : natClient) (n1 : Net) (gs : list GWNets) (n : Net) : Prop :=
  ∃ lks, let sup := filter (on_tunnel t) gs in
    Forall2 (device_of t n1 sup n) sup lks ∧
    (∀ f, pf_get f (rules n) = pf_get f (rules n1) ∧
          pf_get f (routes n) = pf_get f (routes n1) ++ routes_over c f sup lks) ∧
    (∀ k, k ∉ aux → Forall (λ g, gw_name g ≠ k) sup → links n !! k = links n1 !! k) ∧ fous n = fous n1.

Lemma routes_over_snoc c f gs lks g lk : length gs = length lks →
  routes_over c f (gs ++ [g]) (lks ++ [lk]) = routes_over c f gs lks ++ egress_routes c lk f (Networks g).
Proof.
  intros Hl. unfold routes_over. rewrite zip_with_app by done. simpl. rewrite join_app. simpl. by rewrite app_nil_r.
Qed.

Lemma gw_name_not_aux g : gw_name g ∉ aux.
Proof. apply fouName_not_aux. Qed.

Lemma progress_start t c n1 : progress t c n1 [] n1.
Proof. exists []. simpl. split; [constructor|]. split; [|done]. intros f. by rewrite app_nil_r. Qed.

Lemma progress_skip t c n1 gs g n : ¬ on_tunnel t g → progress t c n1 gs n → progress t c n1 (gs ++ [g]) n.
Proof. intros Hg (lks & H). exists lks. by rewrite filter_app, filter_cons_False, filter_nil, app_nil_r by done. Qed.

(** [AddPeer] loses no route of a pod that has none over the devices it
    manages. *)
Lemma add_post_quiet t addr n lk n2 : add_post t addr n (Ok lk) n2 → quiet aux n →
  quiet aux n2 ∧ routes n2 = routes n ∧ rules n2 = rules n ∧ fous n2 = fous n.
Proof.
  intros (Hf & _ & Hold & _) Hq. destruct (links n !! fouName addr) as [l|] eqn:E; [by destruct (Hold l eq_refl) as [-> _]|].
  destruct (frame_quiet _ _ _ Hf) as [Hq' Heq]; [by apply quiet_absent|].
  split; [|by rewrite Heq]. eapply quiet_mono; [|exact Hq']. set_solver.
Qed.

(** Nor do the client's routes lead over one of those. *)
Lemma egress_net_quiet c lk nets k n : quiet aux n → k ∉ aux → links n !! k = Some lk → quiet aux (egress_net c lk nets n).
Proof.
  intros [Hu Hq] Hk Hl. split; [done|]. intros f r Hr (k' & l' & Hk' & Hl' & Hi).
  assert (r ∈ pf_get f (routes n) ∨ kt_LinkIndex r = Index lk) as [Hin|Hidx].
  { assert (pf_get f (routes (egress_net c lk nets n)) = pf_get f (routes n) ++ egress_routes c lk f nets) as E by by destruct f.
    rewrite E in Hr. apply elem_of_app in Hr as [?|Hr]; [by left|right]. by apply list_elem_of_fmap in Hr as (s & -> & _). }
  - apply (Hq f r Hin). by exists k', l'.
  - assert (k' = k) as -> by (eapply Hu; [exact Hl'|exact Hl|congruence]). done.
Qed.

(** One more gateway: its device [lk] is in place and its routes are added. *)
Lemma progress_snoc t c n1 gs g n n2 lk : on_tunnel t g → progress t c n1 gs n → quiet aux n →
  add_post t (Gateway g) n (Ok lk) n2 →
  progress t c n1 (gs ++ [g]) (egress_net c lk (Networks g) n2) ∧ quiet aux (egress_net c lk (Networks g) n2).
Proof.
  intros Hg (lks & HF & Hr & Ho & Hfou) Hq Hpost. destruct (add_post_quiet _ _ _ _ _ Hpost Hq) as (Hq2 & Hrt & Hrl & Hfou2).
  destruct Hpost as (Hfr & _ & Hold & Hnew & Hlk).
  split; [|by eapply egress_net_quiet; [|apply (gw_name_not_aux g)|exact Hlk]]. exists (lks ++ [lk]). cbn zeta in *.
  rewrite filter_app, filter_cons_True, filter_nil by done. set (sup := filter (on_tunnel t) gs) in *.
  assert (Hother : ∀ k, k ∉ aux → k ≠ gw_name g → links n2 !! k = links n !! k).
  { intros k Hk Hne. apply Hfr. unfold gw_name in Hne. set_solver. }
  assert (Hkeep : ∀ k l, k ∉ aux → links n !! k = Some l → links n2 !! k = Some l).
  { intros k l Hk Hl. destruct (decide (k = gw_name g)) as [->|Hne]; [|by rewrite Hother].
    destruct (Hold l Hl) as [-> _]. done. }
  split_and!.
  - apply Forall2_app.
    + eapply Forall2_impl; [exact HF|]. intros g' l' [Hl' Hor]. split; [apply Hkeep; [apply gw_name_not_aux|done]|].
      destruct Hor as [?|(g0&idx&?&?&?)]; [by left|right; exists g0, idx]. split; [set_solver|done].
    + constructor; [|constructor]. split; [done|]. destruct (links n !! gw_name g) as [l|] eqn:E.
      * destruct (Hold l E) as [Heq Hl]. assert (lk = l) as -> by by apply Hl.
        destruct (decide (Exists (λ g', gw_name g' = gw_name g) sup)) as [Hex|Hnex].
        -- apply Exists_exists in Hex as (g' & Hg' & En). apply list_elem_of_lookup in Hg' as [i Hi].
           destruct (Forall2_lookup_l _ _ _ _ _ HF Hi) as (l' & _ & [Hl' Hor]). rewrite En in Hl', Hor.
           assert (l' = l) as -> by congruence. destruct Hor as [?|(g0&idx&?&?&?)]; [by left|right; exists g0, idx].
           split; [set_solver|done].
        -- left. rewrite <-Ho; [done|apply gw_name_not_aux|]. by apply not_Exists_Forall in Hnex; [|apply _].
      * right. destruct (Hnew E lk Hlk) as [idx ->]. exists g, idx. split; [set_solver|done].
  - intros f. destruct (Hr f) as [Hru Hro].
    rewrite routes_over_snoc by (by eapply Forall2_length). rewrite app_assoc, <-Hro, <-Hru, <-Hrt, <-Hrl. by destruct f.
  - intros k Hk [Hs [Hne _]%Forall_cons]%Forall_app. cbn. rewrite Hother; [by apply Ho|done|congruence].
  - simpl. by rewrite Hfou2.
Qed.

(** ** The loop *)
Section loop.
#[local] Set Default Proof Using "Type*".
Context {W : Type} `{!HostOps W, !HostLaws W}.

Lemma wp_setupGW t c n1 gs g (w : W) : progress t c n1 gs (view w) → quiet aux (view w) →
  wp (setupGW t c g) (λ o w', done_or_same True (λ _, progress t c n1 (gs ++ [g]) (view w') ∧ quiet aux (view w')) o) w.
Proof.
  intros Hp Hq. unfold setupGW. wp_steps. destruct (decide (on_tunnel t g)) as [Hg|Hg].
  - eapply wp_mono; [apply wp_and; [apply wp_AddPeer|by apply foreign_AddPeer]|].
    intros [lk|e|m] w1 [Ha Hf]; simpl in *; [| |by destruct Ha as (_&_&_&_&[])].
    + eapply wp_mono; [apply (spec_laws _ _ _ _ _ (@spec_AddEgress W _ _ unreliable c lk (Networks g) w1))|].
      intros o w2 Ho. eapply done_or_same_mono; [exact Ho|done|]. intros _ ->. by eapply progress_snoc.
    + by rewrite Hf.
  - assert (E : Fou.AddPeer t (Gateway g) w = (Err ErrIPFamilyMismatch, w)).
    { rewrite AddPeer_eq, bool_decide_eq_true_2; [done|]. by destruct (decide (peer_local t (Gateway g) = [])). }
    unfold wp at 1. rewrite E. simpl. apply wp_ret. split; [by apply progress_skip|done].
Qed.

Lemma wp_setupGWs t c n1 l (w : W) : progress t c n1 [] (view w) → quiet aux (view w) →
  wp (for_each (setupGW t c) l) (λ o w', done_or_same True (λ _, progress t c n1 l (view w')) o) w.
Proof.
  intros Hp Hq. eapply (wp_for_each _ (λ l' w', ∃ pre, l = pre ++ l' ∧ progress t c n1 pre (view w') ∧ quiet aux (view w'))).
  - by exists [].
  - intros g l' w0 (pre & -> & Hpre & Hqpre). eapply wp_mono; [by apply wp_setupGW|].
    intros [[]|e|m] w1 H1; simpl in *; [|done..]. exists (pre ++ [g]). by rewrite <-app_assoc.
  - intros w0 (pre & -> & Hpre & _). simpl. by rewrite app_nil_r.
Qed.
End loop.

(** ** The whole call

    The pod's network namespace to begin with: its rules are in order of
    priority, its links have indices of their own, and no route leads over a
    device that the tunnel component makes, renames or deletes. *)
Definition pod_ok (n : Net) : Prop := (∀ f, rules_sorted f n) ∧ quiet aux n.

Definition setup_done (port : Z) (ipv4 ipv6 : IP) (l : list GWNets) (n n' : Net) : Prop :=
  let t := pod_tunnel port ipv4 ipv6 in let c := pod_client ipv4 ipv6 in
  ∃ n0 n1, (n0 = n ∧ is_Some (links n !! fouDummy) ∨ links n !! fouDummy = None ∧ Fou.init_done t n n0) ∧
    NatClient.init_ok c n0 n1 ∧ progress t c n1 l n'.

Section whole.
#[local] Set Default Proof Using "Type*".
Context {W : Type} `{!HostOps W, !HostLaws W}.

Lemma wp_tunnel_Init t (w : W) : wp (Fou.Init t) (λ o w', done_or_same True (λ _,
  view w' = view w ∧ is_Some (links (view w) !! fouDummy) ∨ links (view w) !! fouDummy = None ∧ Fou.init_done t (view w) (view w')) o) w.
Proof.
  eapply wp_mono; [apply (@Fou.wp_Init W _ _ unreliable)|]. intros o w'. case_bool_decide as Hd.
  - intros (Hv & Ho & _). eapply done_or_same_mono; [exact Ho|done|]. by left.
  - intros [Ho _]. eapply done_or_same_mono; [exact Ho|done|]. right. split; [|done].
    destruct (links (view w) !! fouDummy) eqn:E; [destruct Hd; by eexists|done].
Qed.

Lemma tunnel_rules_kept t n n0 : n0 = n ∧ is_Some (links n !! fouDummy) ∨ links n !! fouDummy = None ∧ Fou.init_done t n n0 →
  ∀ f, pf_get f (rules n0) = pf_get f (rules n) ∧ pf_get f (routes n0) = pf_get f (routes n).
Proof.
  intros [[-> _]|(_ & ls & idx & -> & _)] f; [done|]. simpl. unfold Fou.init_net, init_net4, init_net6.
  by repeat case_bool_decide.
Qed.

(** The pod as [Init] and the NAT client leave it. *)
Lemma tunnel_quiet t n n0 : n0 = n ∧ is_Some (links n !! fouDummy) ∨ links n !! fouDummy = None ∧ Fou.init_done t n n0 →
  quiet aux n → quiet aux n0.
Proof.
  intros [[-> _]|(Hno & ls & idx & -> & _ & Hf & _)] Hq; [done|].
  destruct (frame_quiet _ _ _ Hf) as [Hq' _]; [by apply quiet_absent|].
  apply (quiet_ext _ (set_links ls n)); [done| |by eapply quiet_mono; [|exact Hq']; set_solver].
  simpl. unfold Fou.init_net, init_net4, init_net6. by repeat case_bool_decide.
Qed.
Lemma client_quiet c n n' : NatClient.init_ok c n n' → quiet aux n → quiet aux n'.
Proof.
  intros [[[(Hl & _) Ho] Hun] Hused] [Hu Hq]. unfold quiet, uses in *. rewrite Hl. split; [done|].
  intros f r Hr. apply (Hq f r). destruct (nc_uses c f) eqn:U; [|by destruct (Hun f U) as [_ <-]].
  destruct (Ho f) as (_ & E & _). destruct (Hused f U) as [_ Hnone].
  assert (Hr' : r ∈ foreign_routes (pf_get f (routes n))).
  { rewrite <-E. unfold foreign_routes. apply list_elem_of_filter. split; [|done].
    intros Hnc. assert (r ∈ filter nc_route (pf_get f (routes n'))) as Hx by by apply list_elem_of_filter.
    rewrite Hnone in Hx. by apply not_elem_of_nil in Hx. }
  by apply list_elem_of_filter in Hr' as [_ ?].
Qed.

Lemma wp_setupEgressGW port ipv4 ipv6 l (w : W) : families_ok ipv4 ipv6 → pod_ok (view w) →
  wp (setupEgressGW port ipv4 ipv6 l)
    (λ o w', done_or_same True (λ _, setup_done port ipv4 ipv6 l (view w) (view w')) o) w.
Proof.
  intros Hfam [Hs Hq]. unfold setupEgressGW. rewrite NewFoUTunnel_ok, NewNatClient_ok by done. wp_steps.
  eapply wp_mono; [apply wp_tunnel_Init|]. intros [[]|e|m] w1 H1; simpl in *; [|done..]. wp_steps.
  pose proof (tunnel_rules_kept _ _ _ H1) as Hk.
  eapply wp_mono; [apply (spec_laws _ _ _ _ _ (@spec_Init W _ _ unreliable (pod_client ipv4 ipv6) w1
    (λ f, eq_ind_r (StronglySorted by_prio) (Hs f) (proj1 (Hk f))) (pod_client_short ipv4 ipv6)))|].
  intros [[]|e|m] w2 H2; simpl in *; [|done..].
  eapply wp_mono; [apply (wp_setupGWs _ _ (view w2)); [apply progress_start|by eapply client_quiet, tunnel_quiet]|]. intros o w3 Ho.
  eapply done_or_same_mono; [exact Ho|done|]. intros [] Hp. by exists (view w1), (view w2).
Qed.
End whole.

(** ** On a working host *)
Definition net_key (c : natClient) (s : IPNet) : Z * option (IP * Z) := (egress_table c s, canon_dst (Some s)).
Definition fam_nets (c : natClient) (f : family) (gs : list GWNets) : list IPNet :=
  filter (λ s, net_family s = f ∧ nc_uses c f = true) (gs ≫= Networks).

Lemma keys_over c f gs lks : length gs = length lks →
  route_key <$> routes_over c f gs lks = net_key c <$> fam_nets c f gs.
Proof.
  revert lks. induction gs as [|g gs IH]; intros [|lk lks] Hl; simplify_eq/=; [done|].
  unfold routes_over, fam_nets in *. simpl. rewrite fmap_app, filter_app, fmap_app, IH by done. f_equal.
  unfold egress_routes. by rewrite <-list_fmap_compose.
Qed.

Lemma routes_over_client c f gs lks : Forall nc_route (routes_over c f gs lks).
Proof.
  revert lks. induction gs as [|g gs IH]; intros [|lk lks]; try constructor. apply Forall_app. split; [|apply IH].
  unfold egress_routes, egress_route, nc_route, egress_table. apply Forall_fmap, Forall_true. intros s. simpl.
  destruct (narrow_for c s); auto.
Qed.

(** When everything can be set up: the FoU ports are free or in use by this
    tunnel, the fallback devices are the kernel's, and no destination is asked
    for twice. *)
Record setup_able (t : fouTunnel) (c : natClient) (l : list GWNets) (n : Net) : Prop := {
  able_fallbacks : fallbacks_ok (links n);
  able_ports : is_Some (links n !! fouDummy) ∨ ports_free t n;
  able_nets : Forall net_ok (filter (on_tunnel t) l ≫= Networks);
  able_distinct : ∀ f, NoDup (net_key c <$> fam_nets c f (filter (on_tunnel t) l));
  able_unused : ∀ f, nc_uses c f = false → NoDup (route_key <$> filter nc_route (pf_get f (routes n))) }.

Lemma progress_addable t c l n n1 n2 pre g post lks lk :
  l = pre ++ g :: post → on_tunnel t g → setup_able t c l n →
  (∀ f, filter nc_route (pf_get f (routes n1)) = if nc_uses c f then [] else filter nc_route (pf_get f (routes n))) →
  (∀ f, pf_get f (routes n2) = pf_get f (routes n1) ++ routes_over c f (filter (on_tunnel t) pre) lks) →
  length (filter (on_tunnel t) pre) = length lks → links n2 !! gw_name g = Some lk →
  addable c lk (Networks g) n2.
Proof.
  intros -> Hg Hable H1 H2 Hlen Hlk. destruct Hable as [_ _ Hnets Hdist Hun].
  rewrite filter_app, filter_cons_True in Hnets, Hdist by done. split; [by exists (gw_name g), lk|]. split.
  { rewrite bind_app, bind_cons in Hnets. apply Forall_app in Hnets as [_ Hnets]. by apply Forall_app in Hnets as [? _]. }
  intros f. rewrite H2, filter_app, H1, (filter_id_Forall nc_route (routes_over _ _ _ _)) by apply routes_over_client.
  destruct (nc_uses c f) eqn:U.
  - rewrite <-(app_nil_r (_ ++ egress_routes _ _ _ _)). simpl. rewrite app_nil_r, fmap_app, keys_over by done.
    specialize (Hdist f). unfold fam_nets in *. rewrite bind_app, bind_cons, !filter_app, !fmap_app in Hdist.
    rewrite app_assoc in Hdist. apply NoDup_app in Hdist as [Hd _].
    unfold egress_routes. by rewrite <-list_fmap_compose.
  - assert (Hno : ∀ l0, filter (λ s, net_family s = f ∧ nc_uses c f = true) l0 = []).
    { intros l0. apply filter_none_intro. intros s _ [_ ?]. congruence. }
    assert (routes_over c f (filter (on_tunnel t) pre) lks = []) as ->.
    { apply (fmap_nil_inv route_key). rewrite keys_over by done. unfold fam_nets. by rewrite Hno. }
    unfold egress_routes. rewrite Hno, !app_nil_r. by apply Hun.
Qed.

Section working_loop.
#[local] Set Default Proof Using "Type*".
Context {W : Type} `{!HostOps W, !HostLaws W, !HostReliable W}.

(** [AddPeer]: what the laws say and what a working host adds. *)
Lemma hspec_AddPeer_post t addr (w : W) : peer_local t addr ≠ [] → fallbacks_ok (links (view w)) →
  hspec (λ lk n', add_post t addr (view w) (Ok lk) n' ∧ fallbacks_ok (links n')) (Fou.AddPeer t addr) w.
Proof.
  intros Hl Hf. eapply hspec_mono; [eapply (hspec_and _ (λ lk n', add_post t addr (view w) (Ok lk) n') (λ _, True) False)|].
  - unfold spec. eapply wp_mono; [apply wp_AddPeer|]. intros o w' Ho. split; [|done].
    destruct o as [lk|e|m]; [done..|]. by destruct Ho as (_&_&_&_&[]).
  - by apply hspec_AddPeer.
  - by intros lk n' [? [? _]].
Qed.

Lemma hspec_setupGW t c l n n1 pre g post (w : W) :
  l = pre ++ g :: post → setup_able t c l n →
  (∀ f, filter nc_route (pf_get f (routes n1)) = if nc_uses c f then [] else filter nc_route (pf_get f (routes n))) →
  progress t c n1 pre (view w) → quiet aux (view w) → fallbacks_ok (links (view w)) →
  hspec (λ _ n', progress t c n1 (pre ++ [g]) n' ∧ quiet aux n' ∧ fallbacks_ok (links n')) (setupGW t c g) w.
Proof.
  intros Hl Hable H1 Hp Hq Hf. unfold setupGW. destruct (decide (on_tunnel t g)) as [Hg|Hg].
  - eapply hspec_bind; [by apply hspec_attempt, hspec_AddPeer_post|]. intros r w1 (lk & -> & Hpost & Hf1).
    eapply hspec_mono; [eapply hspec_spec; [apply (spec_AddEgress c lk (Networks g) w1)|]|].
    + destruct Hp as (lks & HF & Hr & _). eapply (progress_addable t c l n n1 _ pre g post lks); [done..| | |].
      * intros f. destruct (add_post_quiet _ _ _ _ _ Hpost Hq) as (_ & -> & _). by destruct (Hr f).
      * by eapply Forall2_length.
      * apply Hpost.
    + intros _ n' ->. destruct (progress_snoc t c n1 pre g _ _ lk Hg Hp Hq Hpost). done.
  - assert (E : Fou.AddPeer t (Gateway g) = throw ErrIPFamilyMismatch).
    { rewrite AddPeer_eq, bool_decide_eq_true_2; [done|]. by destruct (decide (peer_local t (Gateway g) = [])). }
    rewrite E. apply (hspec_ret _ tt). split; [by apply progress_skip|done].
Qed.

Lemma hspec_tunnel_Init t (w : W) : fallbacks_ok (links (view w)) →
  is_Some (links (view w) !! fouDummy) ∨ ports_free t (view w) →
  hspec (λ _ n', fallbacks_ok (links n') ∧ (n' = view w ∧ is_Some (links (view w) !! fouDummy) ∨
    links (view w) !! fouDummy = None ∧ Fou.init_done t (view w) n')) (Fou.Init t) w.
Proof.
  intros Hf Hp Hh. eapply wp_mono; [apply (wp_and _ _ _ _ (Fou.wp_Init t w) (wp_tunnel_Init t w))|].
  intros o w' [Ho Hd]. assert (o = Ok tt ∧ healthy w') as [-> Hh'].
  { case_bool_decide as E; [by apply Ho|]. apply Ho; [by destruct Hp|done]. }
  exists tt. simpl in Hd. split; [done|]. split; [|done]. split; [|done].
  destruct Hd as [[-> _]|(_ & ls & idx & -> & _ & _ & Hok)]; [done|]. by apply Hok.
Qed.

Lemma hspec_setupEgressGW port ipv4 ipv6 l (w : W) : families_ok ipv4 ipv6 → pod_ok (view w) →
  setup_able (pod_tunnel port ipv4 ipv6) (pod_client ipv4 ipv6) l (view w) →
  hspec (λ _ _, True) (setupEgressGW port ipv4 ipv6 l) w.
Proof.
  intros Hfam [Hs Hq] Hable. unfold setupEgressGW. rewrite NewFoUTunnel_ok, NewNatClient_ok by done.
  set (t := pod_tunnel port ipv4 ipv6) in *. set (c := pod_client ipv4 ipv6) in *.
  eapply (hspec_bind (λ a n', a = t ∧ n' = view w)); [by intros Hh; exists t|]. intros ? w0 [-> Hv0]. rewrite <-Hv0 in *.
  eapply hspec_bind; [by apply (hspec_tunnel_Init t); apply Hable|]. intros [] w1 [Hf1 H1].
  pose proof (tunnel_rules_kept _ _ _ H1) as Hk.
  eapply (hspec_bind (λ a n', a = c ∧ n' = view w1)); [by intros Hh; exists c|]. intros ? w1' [-> Hv1]. rewrite <-Hv1 in *.
  eapply hspec_bind.
  { eapply hspec_spec; [apply (spec_Init c w1'); [|apply pod_client_short]|apply pod_client_initable].
    intros f. unfold rules_sorted. rewrite (proj1 (Hk f)). apply Hs. }
  intros [] w2 [[Hfr Hun] Hused]. eapply hspec_mono; [|done].
  apply (hspec_for_each (λ pre n', progress t c (view w2) pre n' ∧ quiet aux n' ∧ fallbacks_ok (links n'))).
  - split; [apply progress_start|]. split; [|by destruct Hfr as [(-> & _) _]].
    apply (client_quiet c (view w1')); [by split; [split|]|by eapply tunnel_quiet].
  - intros pre g post w3 Hl (Hp & Hqp & Hf). eapply hspec_setupGW; [done|done| |done..].
    intros f. destruct (nc_uses c f) eqn:U; [by apply Hused|]. destruct (Hun f U) as [_ ->]. by rewrite (proj2 (Hk f)).
Qed.
End working_loop.

(** ** Properties *)
(** Given addresses of their own families and a tidy pod, [setupEgressGW] never panics; when
    it returns nil the pod has the tunnel component's ports, exactly the client's
    rules, the device of every gateway of a family the pod has, and in the
    client's tables exactly one route per destination over that gateway's device,
    in order, while other links, rules and routes are as they were; and on a
    working host with nothing asked for twice it does return nil. *)
Theorem setupEgressGW_spec {W} `{!HostOps W, !HostLaws W, !HostReliable W} port ipv4 ipv6 l (w : W) :
  families_ok ipv4 ipv6 → pod_ok (view w) →
  wp (setupEgressGW port ipv4 ipv6 l) (λ o w',
    done_or_same True (λ _, setup_done port ipv4 ipv6 l (view w) (view w')) o ∧
    (setup_able (pod_tunnel port ipv4 ipv6) (pod_client ipv4 ipv6) l (view w) → healthy w →
       o = Ok tt ∧ healthy w')) w.
Proof.
  intros Hfam Hs. apply wp_and; [by apply wp_setupEgressGW|]. unfold wp. intros Hable Hh.
  by destruct (hspec_setupEgressGW port ipv4 ipv6 l w Hfam Hs Hable Hh) as ([] & ? & _ & ?).
Qed.

(** ** Witnesses *)
Definition gw (addr : IP) (nets : list string) : GWNets :=
  mkGWNets addr (omap ParseCIDR nets).
Definition pod_gws : list GWNets :=
  [gw [10; 96; 0; 7] ["10.9.0.0/16"; "8.8.0.0/16"]; gw (ParseIP "fd02::7") ["::/0"]].
Definition pod_ipv4 : IP := [10; 1; 1; 1].

Lemma pod_families : families_ok pod_ipv4 [].
Proof. split; [by vm_compute|done]. Qed.
Lemma empty_pod_ok : pod_ok (view empty_host).
Proof.
  split; [by intros []; constructor|]. split; [intros k k' l l' H; simpl in H; by rewrite lookup_empty in H|].
  intros [] r Hr; by apply not_elem_of_nil in Hr.
Qed.
Lemma pod_able : setup_able (pod_tunnel 5555 pod_ipv4 []) (pod_client pod_ipv4 []) pod_gws (view empty_host).
Proof.
  split.
  - exact empty_fallbacks.
  - right. split; [intros _; by apply not_elem_of_nil|done].
  - apply (bool_decide_eq_true_1 _). by vm_compute.
  - intros f. apply (bool_decide_eq_true_1 _). by destruct f; vm_compute.
  - intros f _. destruct f; constructor.
Qed.

Lemma setupEgressGW_spec_witness :
  setup_able (pod_tunnel 5555 pod_ipv4 []) (pod_client pod_ipv4 []) pod_gws (view empty_host) ∧ healthy empty_host ∧
  wp (setupEgressGW 5555 pod_ipv4 [] pod_gws) (λ o w',
    done_or_same True (λ _, setup_done 5555 pod_ipv4 [] pod_gws (view empty_host) (view w')) o ∧
    (setup_able (pod_tunnel 5555 pod_ipv4 []) (pod_client pod_ipv4 []) pod_gws (view empty_host) → healthy empty_host →
       o = Ok tt ∧ healthy w')) empty_host.
Proof.
  split; [exact pod_able|]. split; [exact empty_healthy|].
  apply (setupEgressGW_spec 5555 pod_ipv4 [] pod_gws empty_host pod_families empty_pod_ok).
Defined.

(** Two gateways that share one destination cannot both be set up: the
    kernel refuses the second route, and the pod is left with the first. *)
Example shared_destination_fails :
  let r := setupEgressGW 5555 pod_ipv4 [] [gw [10; 96; 0; 7] ["10.9.0.0/16"]; gw [10; 96; 0; 8] ["10.9.0.0/16"]] empty_host in
  (∃ e, r.1 = Err e) ∧ length (pf_get V4 (routes (view r.2))) = 1%nat ∧
  is_Some (links (view r.2) !! fouName [10; 96; 0; 8]).
Proof. vm_compute. split; [by eexists|]. split; [done|by eexists]. Qed.
