(* ===== verification/Agent.v ===== *)
(** * The node agent ([runners/agent.go])

    The server of the CNI calls: it looks the pod's egress gateways up, reads
    the configuration the runtime passed on and sets the pod up.  The CNI
    library, encoding/json on its types, the switch of network namespaces and the
    API clients are not in the repository: they are the classes [CniLib] and
    [AgentEnv]. *)
From Stdlib Require Import Ascii.
From S2P Require Import Prelude Constants GoStrings GoNet Corev1 Netlink Kernel NatClient Fou EgressNat EgressApi AgentSetup.

(** ** CNI data *)
Record CNIArgs := mkCNIArgs {
  ContainerId : string; Netns : string; Ifname : string; CArgs : gmap string string; CPath : string;
  StdinData : string }.

(** [current.Result] of the CNI library, as far as the agent reads it; the entries
    are pointers. *)
Record Interface := mkInterface { if_Name : string; Sandbox : string }.
Record IPConfig := mkIPConfig { ip_Interface : option Z; Address : IPNet }.
Record Result := mkResult { Interfaces : list (option Interface); IPs : list (option IPConfig); res_rest : string }.

(** [types.NetConf]: the raw previous result and the parsed one. *)
Record NetConf (P : Set) := mkNetConf { RawPrevResult : option string; PrevResult : option P }.
Arguments mkNetConf {_} _ _.
Arguments RawPrevResult {_} _.
Arguments PrevResult {_} _.

Class CniLib := {
  PrevRes : Set;
  json_Unmarshal : string → outcome (NetConf PrevRes);
  ParsePrevResult : NetConf PrevRes → outcome (NetConf PrevRes);
  NewResultFromResult : option PrevRes → outcome (option Result);
  json_Marshal : option Result → outcome string }.

(** What the agent relies on: the field PrevResult is not decoded from the
    configuration (its tag is [json:"-"]) but set by [ParsePrevResult] when there
    is one to parse; nothing panics; and, of the plugins before it, that the
    addresses and interfaces of their results are objects, as the CNI specification
    has them. *)
Class CniLibLaws `{!CniLib} : Prop := {
  law_Unmarshal s : no_panic (json_Unmarshal s) ∧ ∀ c, json_Unmarshal s = Ok c → PrevResult c = None;
  law_ParsePrevResult c : no_panic (ParsePrevResult c) ∧
    ∀ c', ParsePrevResult c = Ok c' → RawPrevResult c ≠ None → PrevResult c' ≠ None;
  law_NewResult p : match NewResultFromResult p with
    | Ok (Some r) => Forall is_Some (IPs r) ∧ Forall is_Some (Interfaces r)
    | Err _ => True
    | _ => False
    end;
  law_Marshal r : no_panic (json_Marshal r) }.

(** [fmt.Errorf] with [%v]: the text of the error, not the error. *)
Definition relabel {A} (e' : error → error) (o : outcome A) : outcome A :=
  match o with Err e => Err (e' e) | o => o end.

(** ** Configuration *)
Record PluginConf := mkPluginConf { ContIPv4 : IPNet; ContIPv6 : IPNet }.
Definition no_IPNet : IPNet := mkIPNet [] [].

Definition isIPv4 (ip : IPConfig) : bool := negb (bool_decide (To4 (net_IP (Address ip)) = [])).
Definition has_addr (n : IPNet) : bool := negb (bool_decide (net_IP n = [])).

Definition nil_dereference {A} : outcome A := Panicked "invalid memory address or nil pointer dereference".

(** "Skip known non-sandbox interfaces". *)
Definition non_sandbox (result : Result) (ifName : string) (ip : IPConfig) : outcome bool :=
  match ip_Interface ip with
  | None => Ok false
  | Some intIdx =>
      if (0 <=? intIdx) && (intIdx <? Z.of_nat (length (Interfaces result))) then
        match Interfaces result !! Z.to_nat intIdx with
        | Some (Some i) => Ok (negb (String.eqb (if_Name i) ifName) || String.eqb (Sandbox i) "")
        | _ => nil_dereference
        end
      else Ok false
  end.

(** The loop over [result.IPs]. *)
Definition takeIP (result : Result) (ifName : string) (conf : PluginConf) (ip : option IPConfig) : outcome PluginConf :=
  match ip with
  | None => nil_dereference
  | Some ip =>
      if negb (isIPv4 ip) && has_addr (ContIPv6 conf) then Ok conf
      else if isIPv4 ip && has_addr (ContIPv4 conf) then Ok conf
      else
        skip ← non_sandbox result ifName ip;
        Ok (if skip : bool then conf
            else if isIPv4 ip then mkPluginConf (Address ip) (ContIPv6 conf)
            else mkPluginConf (ContIPv4 conf) (Address ip))
  end.
Fixpoint takeIPs (result : Result) (ifName : string) (conf : PluginConf) (ips : list (option IPConfig)) : outcome PluginConf :=
  match ips with
  | [] => Ok conf
  | ip :: ips => conf ← takeIP result ifName conf ip; takeIPs result ifName conf ips
  end.

(** The previous result, when the configuration carries one. *)
Definition prevResult `{!CniLib} (conf : NetConf PrevRes) : outcome (NetConf PrevRes * option Result) :=
  match RawPrevResult conf with
  | None => Ok (conf, None)
  | Some _ =>
      conf ← relabel (λ _, ErrNew "could not parse prevResult: %v") (ParsePrevResult conf);
      result ← relabel (λ _, ErrNew "could not convert result to current version: %v")
                 (NewResultFromResult (PrevResult conf));
      Ok (conf, result)
  end.

(** The addresses of the pod; the range over a nil result panics. *)
Definition podAddresses {P} (ifName : string) (conf : NetConf P) (result : option Result) : outcome PluginConf :=
  let plugin := mkPluginConf no_IPNet no_IPNet in
  match PrevResult conf with
  | None => Ok plugin
  | Some _ =>
      match result with
      | None => nil_dereference
      | Some r => takeIPs r ifName plugin (IPs r)
      end
  end.

Definition parseConfig `{!CniLib} (stdin ifName : string) : outcome (PluginConf * option Result) :=
  conf ← relabel (λ _, ErrNew "failed to parse network configuration: %v") (json_Unmarshal stdin);
  pr ← prevResult conf;
  plugin ← podAddresses ifName pr.1 pr.2;
  Ok (plugin, pr.2).

(** ** Errors of the server *)
Definition ErrorCode_UNKNOWN_CONTAINER : Z := 3.
Definition ErrorCode_INVALID_ENVIRONMENT_VARIABLES : Z := 4.
Definition ErrorCode_DECODING_FAILURE : Z := 6.
Definition ErrorCode_INTERNAL : Z := 999.

(** [status.New(c, msg).WithDetails(...)]; [WithDetails] fails only for code OK. *)
Definition newError (c : grpc_code) (cniCode : Z) (msg details : string) : error :=
  ErrStatus c msg [DetailCNI (mkCNIError cniCode msg details)].

(** What the agent reaches: the text of an error, the API, the pod's namespace. *)
Class AgentEnv (W : Type) := {
  Error : error → string;
  sprint_args : gmap string string → string;     (* fmt.Sprintf("%+v", args.Args) *)
  api_Pod : ObjectKey → outcome Pod;
  api_Egress : ObjectKey → outcome Egress;
  api_Service : ObjectKey → outcome Service;
  WithNetNSPath : string → M W unit → M W unit }.

Section agent.
Context {W : Type} `{!HostOps W, !AgentEnv W, !CniLib}.

Definition newInternalError (err : error) (msg : string) : error :=
  newError Internal ErrorCode_INTERNAL msg (Error err).

(** ** Gateways of a pod *)
(** The names the annotations list, in the order Go ranges over them. *)
Definition egNames (annotations : list (string * string)) : list ObjectKey :=
  annotations ≫= λ kv,
    if negb (HasPrefix kv.1 AnnEgressPrefix) then []
    else (λ name, (str_drop (String.length AnnEgressPrefix) kv.1, name)) <$> Split kv.2 ","%char.

(** The subnets of the service's family, with the error of the first bad one. *)
Fixpoint subnets (v4 : bool) (n : ObjectKey) (ds : list string) : outcome (list IPNet) :=
  match ds with
  | [] => Ok []
  | sn :: ds =>
      match ParseCIDR sn with
      | None => Err (newInternalError (ErrExternal ("invalid CIDR address: " +:+ sn))
                       ("invalid network in Egress " +:+ ObjectKey_String n))
      | Some subnet =>
          l ← subnets v4 n ds;
          Ok (if Bool.eqb v4 (negb (bool_decide (To4 (net_IP subnet) = []))) then subnet :: l else l)
      end
  end.

(** One round of the loop over the names. *)
Definition getGW (n : ObjectKey) : outcome (option GWNets) :=
  eg ← relabel (λ e, newError FailedPrecondition ErrorCode_INTERNAL
         ("failed to get Egress " +:+ ObjectKey_String n) (Error e)) (api_Egress n);
  svc ← relabel (λ e, newError FailedPrecondition ErrorCode_INTERNAL
          ("failed to get Service " +:+ ObjectKey_String n) (Error e)) (api_Service n);
  let svcIP := ParseIP (ClusterIP svc) in
  if bool_decide (svcIP = []) then
    Err (newError Internal ErrorCode_INTERNAL ("invalid ClusterIP in Service " +:+ ObjectKey_String n) (ClusterIP svc))
  else
    let v4 := negb (bool_decide (To4 svcIP = [])) in
    let svcIP := if v4 then To4 svcIP else svcIP in
    l ← subnets v4 n (Destinations (Spec eg));
    Ok (if (0 <? length l)%nat then Some (mkGWNets svcIP l) else None).

Fixpoint gwlist (ns : list ObjectKey) : outcome (list GWNets) :=
  match ns with
  | [] => Ok []
  | n :: ns => g ← getGW n; l ← gwlist ns; Ok (match g with Some g => g :: l | None => l end)
  end.

Definition getGWNets (pod : Pod) : outcome (list GWNets) :=
  if HostNetwork pod then Ok [] else gwlist (egNames (Annotations pod)).

(** ** The three calls *)
Definition lookup_arg (k : string) (args : CNIArgs) : string := default "" (CArgs args !! k).

Definition Add (egressPort : Z) (args : CNIArgs) : M W string :=
  let podName := lookup_arg PodNameKey args in
  let podNS := lookup_arg PodNamespaceKey args in
  if String.eqb podName "" || String.eqb podNS "" then
    throw (newError InvalidArgument ErrorCode_INVALID_ENVIRONMENT_VARIABLES "missing pod name/namespace" (sprint_args (CArgs args)))
  else
    pod ← lift_outcome (relabel (λ err,
            if apierrors_IsNotFound err then newError NotFound ErrorCode_UNKNOWN_CONTAINER "pod not found" (Error err)
            else newInternalError err "failed to get pod") (api_Pod (podNS, podName)));
    g ← lift_outcome (relabel (λ err, newInternalError err "failed to get egress GW") (getGWNets pod));
    pr ← lift_outcome (relabel (λ _, newError InvalidArgument ErrorCode_DECODING_FAILURE
           "unable to parse CNI configuration" (sprint_args (CArgs args))) (parseConfig (StdinData args) (Ifname args)));
    let n := pr.1 in let prevRes := pr.2 in
    _ ← (if negb (bool_decide (g = [])) then
           r ← attempt (WithNetNSPath (Netns args)
                 (setupEgressGW egressPort (net_IP (ContIPv4 n)) (net_IP (ContIPv6 n)) g));
           match r with
           | inl _ => mret tt
           | inr err => throw (newInternalError err "failed to setup egress GW")
           end
         else mret tt);
    lift_outcome (relabel (λ err, newInternalError err "failed to marshal the result") (json_Marshal prevRes)).

Definition Del (args : CNIArgs) : M W unit := mret tt.
Definition Check (args : CNIArgs) : M W unit := mret tt.
End agent.

(** [fieldExtractor]: the fields a call is logged with. *)
Definition fieldExtractor (args : CNIArgs) : gmap string string :=
  <["container_id" := ContainerId args]> (<["ifname" := Ifname args]> (<["netns" := Netns args]>
    (match CArgs args !! PodNamespaceKey with Some v => <["pod.namespace" := v]> | None => id end
      (match CArgs args !! PodNameKey with Some v => <["pod.name" := v]> | None => id end ∅)))).

(** ** The addresses the configuration gives *)
(** The entry is on an interface the result lists that is not the pod's. *)
Definition other_interface (r : Result) (ifName : string) (ip : IPConfig) : bool :=
  match ip_Interface ip with
  | Some i => match (if 0 <=? i then Interfaces r !! Z.to_nat i else None) with
              | Some (Some i) => negb (String.eqb (if_Name i) ifName) || String.eqb (Sandbox i) ""
              | _ => false
              end
  | None => false
  end.
Definition candidate (r : Result) (ifName : string) (v4 : bool) (ip : IPConfig) : Prop :=
  isIPv4 ip = v4 ∧ has_addr (Address ip) = true ∧ other_interface r ifName ip = false.
#[global] Instance candidate_dec r n b ip : Decision (candidate r n b ip).
Proof. unfold candidate. apply _. Defined.

(** The first candidate's address, nil when there is none. *)
Definition first_addr (r : Result) (ifName : string) (v4 : bool) (ips : list (option IPConfig)) : IP :=
  match filter (candidate r ifName v4) (omap id ips) with ip :: _ => net_IP (Address ip) | [] => [] end.

Lemma non_sandbox_objects r ifName ip : Forall is_Some (Interfaces r) → non_sandbox r ifName ip = Ok (other_interface r ifName ip).
Proof.
  intros Hi. unfold non_sandbox, other_interface. destruct (ip_Interface ip) as [i|]; [|done].
  destruct (Z.leb_spec 0 i) as [H0|]; [|done]. destruct (Z.ltb_spec i (Z.of_nat (length (Interfaces r)))) as [Hl|Hl]; simpl.
  - destruct (lookup_lt_is_Some_2 (Interfaces r) (Z.to_nat i)) as [x Hx]; [lia|]. rewrite Hx.
    rewrite Forall_lookup in Hi. by destruct (Hi _ _ Hx) as [y ->].
  - by rewrite lookup_ge_None_2 by lia.
Qed.

Lemma isIPv4_has_addr ip : isIPv4 ip = true → has_addr (Address ip) = true.
Proof. unfold isIPv4, has_addr. rewrite !negb_true_iff, !bool_decide_eq_false. intros H E. by rewrite E in H. Qed.

Lemma has_addr_false n : has_addr n = false → net_IP n = [].
Proof. unfold has_addr. rewrite negb_false_iff. apply bool_decide_eq_true_1. Qed.

Lemma first_addr_cons r n b ip ips : first_addr r n b (Some ip :: ips) =
  if Bool.eqb (isIPv4 ip) b && has_addr (Address ip) && negb (other_interface r n ip)
  then net_IP (Address ip) else first_addr r n b ips.
Proof.
  unfold first_addr. cbn [omap list_omap id]. rewrite filter_cons.
  assert (candidate r n b ip ↔ Bool.eqb (isIPv4 ip) b && has_addr (Address ip) && negb (other_interface r n ip) = true) as Hc.
  { unfold candidate. rewrite !andb_true_iff, negb_true_iff, eqb_true_iff. tauto. }
  destruct (_ && _ && _); case_decide as H; naive_solver.
Qed.

Lemma takeIPs_first r ifName ips conf : Forall is_Some ips → Forall is_Some (Interfaces r) →
  ∃ conf', takeIPs r ifName conf ips = Ok conf' ∧
    net_IP (ContIPv4 conf') = (if has_addr (ContIPv4 conf) then net_IP (ContIPv4 conf) else first_addr r ifName true ips) ∧
    net_IP (ContIPv6 conf') = (if has_addr (ContIPv6 conf) then net_IP (ContIPv6 conf) else first_addr r ifName false ips).
Proof.
  intros Hips Hi. revert conf. induction Hips as [|x ips [ip ->] _ IH]; intros conf; simpl.
  { exists conf. unfold first_addr. simpl. by destruct (has_addr (ContIPv4 conf)) eqn:E4, (has_addr (ContIPv6 conf)) eqn:E6;
      rewrite ?(has_addr_false _ E4), ?(has_addr_false _ E6). }
  rewrite (non_sandbox_objects r ifName ip Hi), !first_addr_cons. pose proof (isIPv4_has_addr ip) as Ha.
  destruct (isIPv4 ip), (has_addr (ContIPv4 conf)) eqn:C4, (has_addr (ContIPv6 conf)) eqn:C6,
    (other_interface r ifName ip), (has_addr (Address ip)) eqn:A; simpl; try (by specialize (Ha eq_refl));
    (edestruct IH as (conf' & Hc & E4 & E6); exists conf'; rewrite E4, E6; split; [exact Hc|]; simpl; by rewrite ?C4, ?C6, ?A).
Qed.

Lemma first_addr_families r n ips : families_ok (first_addr r n true ips) (first_addr r n false ips).
Proof.
  assert (∀ b, first_addr r n b ips = [] ∨ negb (bool_decide (To4 (first_addr r n b ips) = [])) = b) as H.
  { intros b. unfold first_addr. destruct (filter _ _) as [|ip l] eqn:E; [by left|]. right.
    assert (ip ∈ filter (candidate r n b) (omap id ips)) as Hin by (rewrite E; left).
    by apply list_elem_of_filter in Hin as [[Hc _] _]. }
  split.
  - intros Hne. destruct (H true) as [?|E]; [done|]. apply negb_true_iff, bool_decide_eq_false in E. done.
  - destruct (H false) as [->|E]; [done|]. by apply negb_false_iff, bool_decide_eq_true in E.
Qed.

Section config.
Context `{!CniLib, !CniLibLaws}.

(** What [parseConfig] returns. *)
Definition config_post (stdin ifName : string) (o : outcome (PluginConf * option Result)) : Prop :=
  match o with
  | Ok (conf, res) => (∃ c, json_Unmarshal stdin = Ok c ∧ (res = None ↔ RawPrevResult c = None)) ∧
      match res with
      | Some r => net_IP (ContIPv4 conf) = first_addr r ifName true (IPs r) ∧
                  net_IP (ContIPv6 conf) = first_addr r ifName false (IPs r)
      | None => conf = mkPluginConf no_IPNet no_IPNet
      end
  | Err e => ∃ msg, e = ErrNew msg
  | Panicked _ => False
  end.

Lemma parseConfig_post stdin ifName : config_post stdin ifName (parseConfig stdin ifName).
Proof using All.
  unfold parseConfig. destruct (law_Unmarshal stdin) as [Hp Hnone].
  destruct (json_Unmarshal stdin) as [c|e|m] eqn:Ej; simpl; [|by eexists|done].
  unfold prevResult. specialize (Hnone c eq_refl). destruct (RawPrevResult c) as [raw|] eqn:Eraw; simpl.
  - destruct (law_ParsePrevResult c) as [Hpp Hset]. destruct (ParsePrevResult c) as [c'|e|m] eqn:Epp; simpl; [|by eexists|done].
    specialize (Hset c' eq_refl). rewrite Eraw in Hset. pose proof (law_NewResult (PrevResult c')) as Hn.
    destruct (NewResultFromResult (PrevResult c')) as [[r|]|e|m]; simpl; [|done|by eexists|done]. destruct Hn as [Hips Hi].
    unfold podAddresses. destruct (PrevResult c'); simpl; [|by destruct (Hset ltac:(done))].
    destruct (takeIPs_first r ifName (IPs r) (mkPluginConf no_IPNet no_IPNet) Hips Hi) as (conf & -> & H4 & H6). simpl.
    split; [exists c; by rewrite Eraw|]. by split.
  - unfold podAddresses. rewrite Hnone. simpl. split; [by exists c|done].
Qed.

Lemma config_post_families stdin ifName conf res : config_post stdin ifName (Ok (conf, res)) →
  families_ok (net_IP (ContIPv4 conf)) (net_IP (ContIPv6 conf)).
Proof.
  intros [_ Hr]. destruct res as [r|]; [destruct Hr as [-> ->]; apply first_addr_families|by subst].
Qed.
End config.

(** ** The gateways *)
Class AgentEnvLaws (W : Type) `{!AgentEnv W} : Prop := {
  law_api_Pod k : no_panic (api_Pod k);
  law_api_Egress k : no_panic (api_Egress k);
  law_api_Service k : no_panic (api_Service k);
  (* the function runs once in the named namespace, or not at all *)
  law_WithNetNSPath path f w : WithNetNSPath path f w = f w ∨ ∃ e, WithNetNSPath path f w = (Err e, w) }.

Definition addr_v4 (ip : IP) : bool := negb (bool_decide (To4 ip = [])).
Definition same_family (gw : IP) (s : IPNet) : Prop := addr_v4 (net_IP s) = addr_v4 gw.
#[global] Instance same_family_dec gw s : Decision (same_family gw s).
Proof. unfold same_family. apply _. Defined.

(** A service is reached through the egress of the same name. *)
Lemma egNames_spec anns n : n ∈ egNames anns ↔
  ∃ v, (AnnEgressPrefix +:+ n.1, v) ∈ anns ∧ n.2 ∈ Split v ","%char.
Proof.
  unfold egNames. rewrite list_elem_of_bind. split.
  - intros ([k v] & Hn & Hin). cbv beta in Hn. cbn [fst snd] in Hn.
    destruct (HasPrefix k AnnEgressPrefix) eqn:Hp; cbn [negb] in Hn; [|by apply not_elem_of_nil in Hn].
    apply HasPrefix_spec in Hp as [t ->]. rewrite str_drop_app in Hn.
    apply list_elem_of_fmap in Hn as (name & -> & Hname). by exists v.
  - intros (v & Hin & Hn). exists (AnnEgressPrefix +:+ n.1, v). split; [|done].
    assert (HasPrefix (AnnEgressPrefix +:+ n.1) AnnEgressPrefix = true) as Hp by (apply HasPrefix_spec; eauto).
    cbv beta. cbn [fst snd]. rewrite Hp, str_drop_app. cbn [negb]. apply list_elem_of_fmap. exists n.2. by destruct n.
Qed.

Section gateways.
Context {W : Type} `{!AgentEnv W, !AgentEnvLaws W}.

Definition bad_destination (n : ObjectKey) (ds : list string) (e : error) : Prop := ∃ d, d ∈ ds ∧ ParseCIDR d = None ∧
  e = newInternalError (ErrExternal ("invalid CIDR address: " +:+ d)) ("invalid network in Egress " +:+ ObjectKey_String n).

Lemma subnets_spec b n ds : match subnets b n ds with
  | Ok l => l = filter (λ s, addr_v4 (net_IP s) = b) (omap ParseCIDR ds)
  | Err e => bad_destination n ds e
  | Panicked _ => False
  end.
Proof.
  induction ds as [|d ds IH]; simpl; [done|]. destruct (ParseCIDR d) as [s|] eqn:E; simpl; [|exists d; split_and!; [left|done..]].
  destruct (subnets b n ds) as [l|e|m]; simpl; [|destruct IH as (d' & ? & ? & ?); exists d'; split; [by right|done]|done].
  rewrite filter_cons, IH. unfold addr_v4 at 2. destruct b, (negb _) eqn:Eb; simpl; by rewrite ?decide_True, ?decide_False by (unfold addr_v4; congruence).
Qed.

(** What the Egress and the Service named [n] ask for. *)
Definition wanted_gw (n : ObjectKey) (g : GWNets) : Prop := ∃ eg svc,
  api_Egress n = Ok eg ∧ api_Service n = Ok svc ∧ ParseIP (ClusterIP svc) ≠ [] ∧
  Gateway g = canonIP (ParseIP (ClusterIP svc)) ∧
  Networks g = filter (same_family (Gateway g)) (omap ParseCIDR (Destinations (Spec eg))).

(** Why a lookup fails. *)
Definition lookup_error (n : ObjectKey) (e : error) : Prop :=
  (∃ e0, api_Egress n = Err e0 ∧
     e = newError FailedPrecondition ErrorCode_INTERNAL ("failed to get Egress " +:+ ObjectKey_String n) (Error e0)) ∨
  (∃ e0, api_Service n = Err e0 ∧
     e = newError FailedPrecondition ErrorCode_INTERNAL ("failed to get Service " +:+ ObjectKey_String n) (Error e0)) ∨
  (∃ svc, api_Service n = Ok svc ∧ ParseIP (ClusterIP svc) = [] ∧
     e = newError Internal ErrorCode_INTERNAL ("invalid ClusterIP in Service " +:+ ObjectKey_String n) (ClusterIP svc)) ∨
  (∃ eg, api_Egress n = Ok eg ∧ bad_destination n (Destinations (Spec eg)) e).

Lemma addr_v4_canonIP ip : addr_v4 (canonIP ip) = addr_v4 ip.
Proof. unfold addr_v4. by rewrite To4_canonIP. Qed.

Lemma getGW_spec n : match getGW n with
  | Ok og => ∃ g, wanted_gw n g ∧ og = (if bool_decide (Networks g = []) then None else Some g)
  | Err e => lookup_error n e
  | Panicked _ => False
  end.
Proof using All.
  unfold getGW, lookup_error. pose proof (law_api_Egress n). pose proof (law_api_Service n).
  destruct (api_Egress n) as [eg|e|m] eqn:Ee; simpl; [|left; by exists e|done].
  destruct (api_Service n) as [svc|e|m] eqn:Es; simpl; [|right; left; by exists e|done].
  case_bool_decide as Hip; [right; right; left; by exists svc|].
  set (b := negb _). pose proof (subnets_spec b n (Destinations (Spec eg))) as Hs.
  destruct (subnets _ _ _) as [l|e|m]; simpl; [|do 3 right; by exists eg|done].
  exists (mkGWNets (canonIP (ParseIP (ClusterIP svc))) l). split.
  - exists eg, svc. split_and!; [done..|]. simpl. rewrite Hs. apply list_filter_iff. intros s. unfold same_family. by rewrite addr_v4_canonIP.
  - simpl. unfold canonIP, b. case_bool_decide as H4; destruct l; simpl; [done| |done|].
    + by rewrite H4.
    + by destruct (To4 _).
Qed.

Lemma gwlist_spec ns : match gwlist ns with
  | Ok l => ∀ g, g ∈ l ↔ Networks g ≠ [] ∧ ∃ n, n ∈ ns ∧ wanted_gw n g
  | Err e => ∃ n, n ∈ ns ∧ lookup_error n e
  | Panicked _ => False
  end.
Proof using All.
  induction ns as [|n ns IH]; simpl; [intros g; rewrite elem_of_nil; set_solver|].
  pose proof (getGW_spec n) as Hn. destruct (getGW n) as [og|e|m]; simpl; [|exists n; split; [left|done]|done].
  destruct (gwlist ns) as [l|e|m]; simpl; [|destruct IH as (n' & ? & ?); exists n'; split; [by right|done]|done].
  destruct Hn as (g0 & Hg0 & ->). intros g.
  assert (Huniq : wanted_gw n g → g = g0).
  { intros (eg & svc & He & Hs & _ & Hg & Hnets). destruct Hg0 as (eg' & svc' & He' & Hs' & _ & Hg' & Hnets').
    destruct g as [gi gn], g0 as [gi0 gn0]. simpl in *. assert (eg' = eg) as -> by congruence.
    assert (svc' = svc) as -> by congruence. subst gi gi0. by rewrite Hnets, Hnets'. }
  setoid_rewrite elem_of_cons. case_bool_decide as Hnil; [rewrite IH|rewrite elem_of_cons, IH]; naive_solver.
Qed.
End gateways.

(** ** [Add] *)
(** The codes of the server's errors, of the status and of its CNI detail. *)
Definition error_codes : list (grpc_code * Z) :=
  [(InvalidArgument, ErrorCode_INVALID_ENVIRONMENT_VARIABLES); (InvalidArgument, ErrorCode_DECODING_FAILURE);
   (NotFound, ErrorCode_UNKNOWN_CONTAINER); (Internal, ErrorCode_INTERNAL)].
Definition server_error (e : error) (P : grpc_code → Prop) : Prop := ∃ c cni msg details,
  e = newError c cni msg details ∧ (c, cni) ∈ error_codes ∧ P c.

Section add.
#[local] Set Default Proof Using "Type*".
Context {W : Type} `{!HostOps W, !HostLaws W, !AgentEnv W, !AgentEnvLaws W, !CniLib, !CniLibLaws}.

Lemma getGWNets_no_panic pod : no_panic (getGWNets pod).
Proof.
  unfold getGWNets. destruct (HostNetwork pod); [done|]. pose proof (gwlist_spec (egNames (Annotations pod))) as Hg.
  by destruct (gwlist _).
Qed.

Lemma wp_WithNetNSPath path (f : M W unit) (Q : outcome unit → W → Prop) w :
  wp f Q w → (∀ e, Q (Err e) w) → wp (WithNetNSPath path f) Q w.
Proof. intros Hf He. unfold wp. destruct (law_WithNetNSPath path f w) as [->|[e ->]]; [exact Hf|apply He]. Qed.

(** What a successful call has computed and done. *)
Definition add_done (port : Z) (args : CNIArgs) (n : Net) (same : Prop) (data : string) (n' : Net) : Prop :=
  ∃ pod g conf res, api_Pod (lookup_arg PodNamespaceKey args, lookup_arg PodNameKey args) = Ok pod ∧
    getGWNets pod = Ok g ∧ parseConfig (StdinData args) (Ifname args) = Ok (conf, res) ∧ json_Marshal res = Ok data ∧
    (g = [] ∧ same ∨ g ≠ [] ∧ setup_done port (net_IP (ContIPv4 conf)) (net_IP (ContIPv6 conf)) g n n').

Lemma wp_Add port args (w : W) : pod_ok (view w) →
  wp (Add port args) (λ o w', match o with
    | Ok data => add_done port args (view w) (w' = w) data (view w')
    | Err e => server_error e (λ c, c = Internal ∨ w' = w)
    | Panicked _ => False
    end) w.
Proof.
  intros Hs. unfold Add. set (podName := lookup_arg _ _). set (podNS := lookup_arg _ _).
  destruct (String.eqb podName "" || String.eqb podNS "").
  { apply wp_throw. eexists _, _, _, _. split; [done|]. split; [by left|by right]. }
  wp_steps. pose proof (law_api_Pod (podNS, podName)) as Hp. destruct (api_Pod _) as [pod|e|m] eqn:Ep; simpl; [| |done].
  2: { destruct (apierrors_IsNotFound e); (eexists _, _, _, _; split; [done|]; split; [|by right]).
       - by do 2 right; left.
       - by do 3 right; left. }
  wp_steps. pose proof (getGWNets_no_panic pod) as Hg. destruct (getGWNets pod) as [g|e|m] eqn:Eg; simpl; [| |done].
  2: { eexists _, _, _, _. split; [done|]. split; [by do 3 right; left|by right]. }
  wp_steps. pose proof (parseConfig_post (StdinData args) (Ifname args)) as Hc.
  destruct (parseConfig _ _) as [[conf res]|e|m] eqn:Ec; simpl; [| |done].
  2: { eexists _, _, _, _. split; [done|]. split; [by right; left|by right]. }
  apply config_post_families in Hc. cbn zeta.
  set (ipv4 := net_IP (ContIPv4 conf)) in *. set (ipv6 := net_IP (ContIPv6 conf)) in *.
  assert (Hend : ∀ w', g = [] ∧ w' = w ∨ g ≠ [] ∧ setup_done port ipv4 ipv6 g (view w) (view w') →
    wp (lift_outcome (relabel (λ err, newInternalError err "failed to marshal the result") (json_Marshal res)))
      (λ o w', match o with
       | Ok data => add_done port args (view w) (w' = w) data (view w')
       | Err e => server_error e (λ c, c = Internal ∨ w' = w)
       | Panicked _ => False
       end) w').
  { intros w' Hw'. apply wp_lift_outcome. pose proof (law_Marshal res) as Hm. destruct (json_Marshal res) as [data|e|m] eqn:Em; simpl; [| |done].
    - by exists pod, g, conf, res.
    - eexists _, _, _, _. split; [done|]. split; [by do 3 right; left|by left]. }
  apply wp_bind. destruct (bool_decide_reflect (g = [])) as [Hnil|Hne]; simpl; [apply wp_ret, Hend; by left|].
  wp_steps. apply wp_WithNetNSPath.
  - eapply wp_mono; [by apply wp_setupEgressGW|]. intros [[]|e|m] w1 H1; simpl in *; [apply Hend; by right| |done].
    eexists _, _, _, _. split; [done|]. split; [by do 3 right; left|by left].
  - intros e. eexists _, _, _, _. split; [done|]. split; [by do 3 right; left|by left].
Qed.
End add.


(** Of an entry that is null, the first look at it ends the process. *)
Example null_entry_panics r ifName conf : ∃ m, takeIPs r ifName conf [None] = Panicked m.
Proof. by eexists. Qed.

(** C32: the gateways of a pod are exactly what the Egresses and Services that its
    annotations name ask for: one per name, at the service's address, with the
    destinations of that address's family, and only if there are any; a pod of the
    host network has none.  An error names a listed Egress and why its lookup
    failed. *)
Theorem getGWNets_spec {W} `{!AgentEnv W, !AgentEnvLaws W} pod :
  match getGWNets pod with
  | Ok l => ∀ g, g ∈ l ↔ HostNetwork pod = false ∧ Networks g ≠ [] ∧ ∃ n v,
      (AnnEgressPrefix +:+ n.1, v) ∈ Annotations pod ∧ n.2 ∈ Split v ","%char ∧ wanted_gw n g
  | Err e => HostNetwork pod = false ∧ ∃ n, n ∈ egNames (Annotations pod) ∧ lookup_error n e
  | Panicked _ => False
  end.
Proof.
  unfold getGWNets. destruct (HostNetwork pod); [intros g; rewrite elem_of_nil; naive_solver|].
  pose proof (gwlist_spec (egNames (Annotations pod))) as Hgl. destruct (gwlist _) as [l|e|m]; [|done..].
  intros g. rewrite Hgl. setoid_rewrite egNames_spec. naive_solver.
Qed.

(** C34: when every Egress in the cluster passed the admission webhooks, no lookup
    fails on a destination: the only errors are a missing or unreadable Egress or
    Service and a service without an IP address. *)
Theorem stored_lookup_errors {W} `{!AgentEnv W, !AgentEnvLaws W} vl vn ni pod e :
  (∀ n eg, api_Egress n = Ok eg → ∃ r0, stored vl vn ni r0 eg) → getGWNets pod = Err e →
  ∃ n, n ∈ egNames (Annotations pod) ∧
    ((∃ e0, api_Egress n = Err e0) ∨ (∃ e0, api_Service n = Err e0) ∨
     ∃ svc, api_Service n = Ok svc ∧ ParseIP (ClusterIP svc) = []).
Proof.
  intros Hst. unfold getGWNets. destruct (HostNetwork pod); [done|]. intros Hg.
  pose proof (gwlist_spec (egNames (Annotations pod))) as Hgl. rewrite Hg in Hgl.
  destruct Hgl as (n & Hn & He). exists n. split; [done|]. destruct He as [?|[?|[?|(eg & Heg & d & Hd & Hbad & _)]]]; [naive_solver..|].
  destruct (Hst n eg Heg) as [r0 Hr0]. apply stored_spec_ok in Hr0 as (_ & HF & _). rewrite Forall_forall in HF.
  destruct (HF d Hd) as [? ?]. congruence.
Qed.

(** C31: [Add] never panics.  When it succeeds it has set the pod up for the
    gateways its annotations ask for (or has touched nothing when there are none)
    with the addresses of the previous result, which it returns.  Every error is a
    gRPC status with one CNI detail and a code out of four; before the setup the
    pod is untouched.  The code is never FailedPrecondition, also when the lookup
    of an Egress failed with it. *)
Theorem Add_spec {W} `{!HostOps W, !HostLaws W, !AgentEnv W, !AgentEnvLaws W, !CniLib, !CniLibLaws} port args (w : W) :
  pod_ok (view w) →
  wp (Add port args) (λ o w', match o with
    | Ok data => add_done port args (view w) (w' = w) data (view w')
    | Err e => server_error e (λ c, (c = Internal ∨ w' = w) ∧ c ≠ FailedPrecondition)
    | Panicked _ => False
    end) w.
Proof.
  intros Hs. eapply wp_mono; [by apply wp_Add|]. intros [data|e|m] w'; [done| |done].
  intros (c & cni & msg & details & -> & Hin & Hc). exists c, cni, msg, details. split_and!; [done..|].
  unfold error_codes in Hin. set_solver.
Qed.

(** ** Witnesses *)
Definition sample_result : Result := mkResult [Some (mkInterface "veth0" ""); Some (mkInterface "eth0" "/var/run/netns/p")]
  [Some (mkIPConfig (Some 0) (mkIPNet [10; 1; 1; 254] (CIDRMask 32 32)));
   Some (mkIPConfig (Some 1) (mkIPNet [10; 1; 1; 1] (CIDRMask 32 32)))] "".

Section witnesses.
#[local] Instance wit_cni : CniLib := {
  PrevRes := Result;
  json_Unmarshal s := if String.eqb s "" then Err (ErrExternal "unexpected end of JSON input") else Ok (mkNetConf (Some s) None);
  ParsePrevResult c := Ok (mkNetConf None (Some sample_result));
  NewResultFromResult p := match p with
    | Some r => if bool_decide (Forall is_Some (IPs r) ∧ Forall is_Some (Interfaces r)) then Ok (Some r) else Err (ErrExternal "null")
    | None => Err (ErrExternal "no result")
    end;
  json_Marshal r := Ok "{}" }.
#[local] Instance wit_cni_laws : CniLibLaws.
Proof.
  split; intros; simpl; try done.
  - destruct (String.eqb s ""); [done|]. split; [done|]. by intros c [= <-].
  - split; [done|]. by intros c' [= <-].
  - destruct p as [r|]; [|done]. by case_bool_decide.
Qed.

#[local] Instance wit_env : AgentEnv host := {
  Error e := "error"; sprint_args m := "map[]";
  api_Pod k := if String.eqb k.2 "client"
               then Ok (mkPod k.1 k.2 false [("egress.ysksuzuki.com/internet", "nat,gone")] [] "Running")
               else if String.eqb k.2 "user" then Ok (mkPod k.1 k.2 false [("egress.ysksuzuki.com/internet", "nat")] [] "Running")
               else Err (ErrAPINotFound "pod");
  api_Egress k := if String.eqb k.2 "nat" then Ok (sample_Egress "nat" ["10.9.0.0/16"; "8.8.0.0/16"; "fd00::/8"])
                  else Err (ErrAPINotFound "egress");
  api_Service k := Ok (mkService k.1 k.2 false true ∅ [] "" ∅ [] "" None "10.96.0.7");
  WithNetNSPath p f := f }.
#[local] Instance wit_env_laws : AgentEnvLaws host.
Proof.
  split; intros; simpl; try done; [| |by left].
  - by repeat destruct (String.eqb _ _).
  - by destruct (String.eqb _ _).
Qed.

Definition sample_args (pod : string) : CNIArgs := mkCNIArgs "c1" "/var/run/netns/p" "eth0"
  (<[PodNameKey := pod]> (<[PodNamespaceKey := "default"]> ∅)) "" "{}".


Definition sample_user : Pod := mkPod "default" "user" false [("egress.ysksuzuki.com/internet", "nat")] [] "Running".
Definition sample_broken : Pod := mkPod "default" "client" false [("egress.ysksuzuki.com/internet", "nat,gone")] [] "Running".

Lemma getGWNets_spec_witness :
  getGWNets sample_user = Ok [gw [10; 96; 0; 7] ["10.9.0.0/16"; "8.8.0.0/16"]] ∧
  match getGWNets sample_user with
  | Ok l => ∀ g, g ∈ l ↔ HostNetwork sample_user = false ∧ Networks g ≠ [] ∧ ∃ n v,
      (AnnEgressPrefix +:+ n.1, v) ∈ Annotations sample_user ∧ n.2 ∈ Split v ","%char ∧ wanted_gw n g
  | Err e => HostNetwork sample_user = false ∧ ∃ n, n ∈ egNames (Annotations sample_user) ∧ lookup_error n e
  | Panicked _ => False
  end.
Proof. split; [by vm_compute|apply (getGWNets_spec sample_user)]. Defined.

Lemma stored_lookup_errors_witness :
  ∃ n, n ∈ egNames (Annotations sample_broken) ∧
    ((∃ e0, api_Egress n = Err e0) ∨ (∃ e0, api_Service n = Err e0) ∨
     ∃ svc, api_Service n = Ok svc ∧ ParseIP (ClusterIP svc) = []).
Proof.
  apply (stored_lookup_errors no_label_errors no_name_errors sample_invalid sample_broken
    (newError FailedPrecondition ErrorCode_INTERNAL "failed to get Egress internet/gone" "error")); [|by vm_compute].
  intros n eg. simpl. destruct (String.eqb n.2 "nat"); [|done]. intros [= <-].
  exists (sample_Egress "nat" ["10.9.0.0/16"; "8.8.0.0/16"; "fd00::/8"]).
  exact (stored_create _ _ _ (sample_Egress "nat" ["10.9.0.0/16"; "8.8.0.0/16"; "fd00::/8"]) eq_refl).
Defined.

Lemma Add_spec_witness :
  (Add 5555 (sample_args "user") empty_host).1 = Ok "{}" ∧
  (Add 5555 (sample_args "client") empty_host).1 =
    Err (newError Internal ErrorCode_INTERNAL "failed to get egress GW" "error") ∧
  wp (Add 5555 (sample_args "user")) (λ o w', match o with
    | Ok data => add_done 5555 (sample_args "user") (view empty_host) (w' = empty_host) data (view w')
    | Err e => server_error e (λ c, (c = Internal ∨ w' = empty_host) ∧ c ≠ FailedPrecondition)
    | Panicked _ => False
    end) empty_host.
Proof.
  split; [by vm_compute|]. split; [by vm_compute|]. apply (Add_spec 5555 (sample_args "user") empty_host empty_pod_ok).
Defined.
End witnesses.
