(* ===== verification/PodSteering.v ===== *)
(** * Where the packets of a client pod go after CNI ADD

    The agent's setup ([Agent.v], [AgentSetup.v]) against the kernel's routing
    lookup ([Steering.v]): from the annotations of a pod to the tunnel device a
    packet leaves by, with any number of gateways. *)
From Stdlib Require Import Ascii.
From S2P Require Import Prelude GoStrings GoNet Netlink Kernel Rpdb NatClient Steering Fou EgressNat Constants Corev1 EgressApi AgentSetup Agent.

(** ** The networks [ParseCIDR] gives *)
Lemma simple_CIDRMask n len : len = 4%nat ∨ len = 16%nat → 0 ≤ n ≤ 8 * Z.of_nat len →
  length (CIDRMask n (8 * Z.of_nat len)) = len ∧ is_Some (simpleMaskLength (CIDRMask n (8 * Z.of_nat len))).
Proof.
  intros Hb Hn. pose proof (Mask_Size_CIDRMask n (8 * Z.of_nat len) ltac:(lia) Hn) as Hs. unfold Mask_Size in Hs.
  destruct (simpleMaskLength _) eqn:E; [|destruct Hb; simplify_eq]. split; [|done]. injection Hs as _ Hl. lia.
Qed.

Lemma length_IP_Mask ip m : length m = 16%nat → length ip = 16%nat → length (IP_Mask ip m) = 16%nat.
Proof.
  intros Hm Hi. unfold IP_Mask. cbv zeta. rewrite (bool_decide_eq_false_2 (length m = 16%nat ∧ _)) by (intros (? & ? & _); lia).
  rewrite (bool_decide_eq_false_2 (length m = 4%nat ∧ _)) by (intros [? _]; lia). rewrite bool_decide_eq_true_2 by congruence.
  unfold and_bytes. rewrite length_zip_with. lia.
Qed.

Lemma length_IP_Mask4 ip m : length m = 4%nat → length ip = 16%nat → To4 ip ≠ [] → length (IP_Mask ip m) = 4%nat.
Proof.
  intros Hm Hi H4. unfold IP_Mask. cbv zeta. rewrite (bool_decide_eq_false_2 (length m = 16%nat ∧ _)) by (intros [? _]; lia).
  destruct (To4_cases ip) as [[? _]|[[? _]|[Heq Hl]]]; [done|lia|].
  rewrite (bool_decide_eq_true_2 (length m = 4%nat ∧ _)) by (split_and!; [done|done|by rewrite Heq]).
  rewrite bool_decide_eq_true_2 by (rewrite length_drop; lia).
  unfold and_bytes. rewrite length_zip_with, length_drop. lia.
Qed.

(** Not an IPv4 network written as an IPv6 one. *)
Definition unmapped (s : IPNet) : Prop := To4 (net_IP s) = [] ∨ length (net_IP s) = 4%nat.

Lemma ParseCIDR_net_ok s n : ParseCIDR s = Some n → unmapped n → net_ok n.
Proof.
  unfold ParseCIDR. destruct (cut_slash s) as [[addr mask]|]; [|done]. cbn [mbind option_bind].
  set (pa := match parseIPv4 addr with Some _ => _ | None => _ end).
  assert (∀ iplen ip, pa = Some (iplen, ip) → length ip = 16%nat ∧ (iplen = 4 ∧ To4 ip ≠ [] ∨ iplen = 16)) as Hpa.
  { intros iplen ip. unfold pa. destruct (parseIPv4 addr) eqn:E.
    - intros [= <- <-]. apply parseIPv4_wf in E as (? & _ & H4). split; [done|]. left. split; [done|]. by intros Hn; rewrite Hn in H4.
    - destruct (parseIPv6 addr) eqn:E6; [|done]. intros [= <- <-]. apply parseIPv6_wf in E6 as [? _]. auto. }
  destruct pa as [[iplen ip]|]; [|done]. destruct (Hpa _ _ eq_refl) as [Hip Hlen]. cbn [mbind option_bind].
  destruct (dtoi mask) as [[[k i] rest]|] eqn:Ed; [|done]. cbn [mbind option_bind].
  destruct (bool_decide _ || _) eqn:Eb; [done|]. intros [= <-] Hun.
  apply dtoi_nonneg in Ed. apply orb_false_iff in Eb as [_ Hk%Z.ltb_ge]. unfold net_ok, unmapped in *. cbn [net_IP net_Mask] in *.
  destruct Hlen as [[-> H4] | -> ].
  - destruct (simple_CIDRMask k 4) as [Hl Hs]; [by left|lia|]. change (8 * Z.of_nat 4) with (8 * 4) in *.
    pose proof (length_IP_Mask4 ip _ Hl Hip H4) as Hlm. split; [by right; left|]. split; [by intros Hn; rewrite Hn in Hlm|].
    split; [|done]. rewrite canonIP_v4; rewrite To4_v4 by done; [lia|]. by intros Hn; rewrite Hn in Hlm.
  - destruct (simple_CIDRMask k 16) as [Hl Hs]; [by right|lia|]. change (8 * Z.of_nat 16) with (8 * 16) in *.
    pose proof (length_IP_Mask ip _ Hl Hip) as Hlm. split; [by right; right|]. split; [by intros Hn; rewrite Hn in Hlm|].
    split; [|done]. destruct Hun as [Hun|Hun]; [|lia]. rewrite canonIP_v6 by done. lia.
Qed.

(** ** From gateways to routes *)
Definition served_pairs (gs : list GWNets) (lks : list Link) : list (Link * IPNet) :=
  mjoin (zip_with (λ g lk, pair lk <$> Networks g) gs lks).

Lemma routes_over_pairs c f gs lks : routes_over c f gs lks = pair_routes c f (served_pairs gs lks).
Proof.
  unfold routes_over, served_pairs. revert lks. induction gs as [|g gs IH]; intros [|lk lks]; [done..|].
  cbn [zip_with mjoin list_join]. rewrite IH, egress_routes_pairs. unfold pair_routes. by rewrite filter_app, fmap_app.
Qed.

Lemma elem_of_served (R : GWNets → Link → Prop) gs lks lk s : Forall2 R gs lks →
  (lk, s) ∈ served_pairs gs lks → ∃ g, g ∈ gs ∧ R g lk ∧ s ∈ Networks g.
Proof.
  unfold served_pairs. induction 1 as [|g lk' gs lks Hg HF IH]; [by intros ?%elem_of_nil|]. cbn [zip_with mjoin list_join].
  rewrite elem_of_app, list_elem_of_fmap. intros [(s' & [= -> ->] & Hs)|(g' & ? & ? & ?)%IH]; [exists g|exists g'];
    split_and!; try done; by constructor.
Qed.

Lemma served_all (R : GWNets → Link → Prop) gs lks g s : Forall2 R gs lks → g ∈ gs → s ∈ Networks g →
  ∃ lk, (lk, s) ∈ served_pairs gs lks.
Proof.
  unfold served_pairs. intros HF Hg Hs. induction HF as [|g' lk gs lks _ HF IH]; [by apply elem_of_nil in Hg|].
  cbn [zip_with mjoin list_join]. setoid_rewrite elem_of_app. apply elem_of_cons in Hg as [<-|Hg].
  - exists lk. left. by apply list_elem_of_fmap_2.
  - destruct (IH Hg) as [lk' ?]. exists lk'. by right.
Qed.

(** The device of a gateway: made for it, or for another one of its name. *)
Definition tunnel_to (t : fouTunnel) (l : list GWNets) (n : Net) (g : GWNets) (lk : Link) : Prop :=
  links n !! gw_name g = Some lk ∧ ∃ g' idx, g' ∈ l ∧ gw_name g' = gw_name g ∧ lk = peer_link t (Gateway g') idx.

Lemma setup_no_tunnels t c n n0 n1 : no_tunnels n →
  n0 = n ∧ is_Some (links n !! fouDummy) ∨ links n !! fouDummy = None ∧ Fou.init_done t n n0 →
  NatClient.init_ok c n0 n1 → no_tunnels n1.
Proof.
  intros Hn H0 [[[[Hl _] _] _] _] k Hk. rewrite Hl. destruct H0 as [[-> _]|(_ & ls & idx & -> & _ & [_ Hls] & _)]; [by apply Hn|].
  cbn [links set_links] in *. rewrite Hls; [by apply Hn|]. intros [->%elem_of_singleton|?%aux_not_prefixed]%elem_of_union; [|done].
  destruct Hk as [s [Hs|Hs]]; discriminate.
Qed.

(** The routes of a pod after the setup: one pair per gateway and network. *)
Definition pod_pairs (t : fouTunnel) (l : list GWNets) (n' : Net) (ps : list (Link * IPNet)) : Prop :=
  (∀ lk s, (lk, s) ∈ ps → ∃ g, g ∈ l ∧ s ∈ Networks g ∧ tunnel_to t l n' g lk) ∧
  (∀ g s, g ∈ l → on_tunnel t g → s ∈ Networks g → ∃ lk, (lk, s) ∈ ps).

Lemma setup_steers port ipv4 ipv6 l n n' f x : let t := pod_tunnel port ipv4 ipv6 in let c := pod_client ipv4 ipv6 in
  setup_done port ipv4 ipv6 l n n' → no_tunnels n → (∀ f, rules_sorted f n) → Forall (λ g, Forall net_ok (Networks g)) l →
  ip_len x → x ≠ [] → net_family (mkIPNet x []) = f → nc_uses c f = true →
  unclaimed f x n → Contains (nc_linkLocal f) x = false →
  ∃ ps, pod_pairs t l n' ps ∧
    steers c f x ps (longest (canonIP x) (in_table mainTableID (pf_get f (routes n)))) (route_to f x n').
Proof.
  intros t c (n0 & n1 & H0 & Hok & lks & HF & Hr & Ho) Hn Hs Hnets Hx Hne Hxf Hu Hq Hll.
  pose proof (tunnel_rules_kept _ _ _ H0) as Hk. pose proof (setup_no_tunnels _ _ _ _ _ Hn H0 Hok) as Hn1.
  exists (served_pairs (filter (on_tunnel t) l) lks). cbv zeta in HF, Hr. fold t in H0, HF, Hr. fold c in Hok, Hr.
  assert (pod_pairs t l n' (served_pairs (filter (on_tunnel t) l) lks)) as Hps.
  { split.
    - intros lk s Hin. destruct (elem_of_served _ _ _ _ _ HF Hin) as (g & [_ Hg]%list_elem_of_filter & [Hl Hd] & Hsg).
      exists g. split_and!; [done..|]. split; [done|]. destruct Hd as [Hd|(g' & idx & [_ Hg']%list_elem_of_filter & Hd)].
      + by rewrite Hn1 in Hd by apply fouName_prefixed.
      + by exists g', idx.
    - intros g s Hg Ht Hsg. eapply served_all; [exact HF| |exact Hsg]. by apply list_elem_of_filter. }
  split; [done|]. destruct (Hk f) as [Hkr Hkt]. rewrite <-Hkt. apply (steers_installed c _ f x n0 n1); try done.
  - apply pod_client_initable.
  - apply Forall_forall. intros [lk s] Hin. destruct (proj1 Hps lk s Hin) as (g & Hg & Hsg & _).
    rewrite Forall_forall in Hnets. specialize (Hnets g Hg). rewrite Forall_forall in Hnets. by apply Hnets.
  - unfold rules_sorted. rewrite Hkr. apply Hs.
  - intros k. rewrite Hkr, Hkt. apply Hq.
  - intros f'. destruct (Hr f') as [-> ->]. by rewrite routes_over_pairs.
Qed.

(** ** From annotations to tunnels *)
Section packets.
Context {W : Type} `{!AgentEnv W}.

(** The gateways the annotations of a pod ask for. *)
Definition asks (pod : Pod) (g : GWNets) : Prop := HostNetwork pod = false ∧ Networks g ≠ [] ∧ ∃ n v,
  (AnnEgressPrefix +:+ n.1, v) ∈ Annotations pod ∧ n.2 ∈ Split v ","%char ∧ wanted_gw n g.

(** A destination of one of them that claims [x], in the narrow ([b]) or wide table. *)
Definition dest (c : natClient) (f : family) (x : IP) (pod : Pod) (b : bool) (g : GWNets) (s : IPNet) : Prop :=
  asks pod g ∧ s ∈ Networks g ∧ net_family s = f ∧ narrow_for c s = b ∧ Contains s x = true.

(** The packet takes the route of the most specific of them, over the tunnel
    device of its gateway. *)
Definition tunnelled (t : fouTunnel) (c : natClient) (f : family) (x : IP) (pod : Pod) (b : bool) (n' : Net) : Prop :=
  ∃ g s lk, dest c f x pod b g s ∧ (∀ g' s', dest c f x pod b g' s' → ones s' ≤ ones s) ∧
    route_to f x n' = Some (egress_route c lk s) ∧ links n' !! fouName (Gateway g) = Some lk ∧
    ∃ g' idx, asks pod g' ∧ fouName (Gateway g') = fouName (Gateway g) ∧ lk = peer_link t (Gateway g') idx ∧
      (f = V4 → Gateway g' = Gateway g).

Lemma asks_v4_name pod g g' s : asks pod g → asks pod g' → s ∈ Networks g → net_family s = V4 →
  fouName (Gateway g') = fouName (Gateway g) → Gateway g' = Gateway g.
Proof.
  intros (_ & _ & n & v & _ & _ & eg & svc & _ & _ & _ & Hg & Hns) (_ & _ & n' & v' & _ & _ & eg' & svc' & _ & _ & _ & Hg' & _) Hs Hf Hn.
  rewrite Hns in Hs. apply list_elem_of_filter in Hs as [Hsame _]. unfold same_family, addr_v4 in Hsame.
  assert (To4 (Gateway g) ≠ []) as H4.
  { intros E. unfold net_family in Hf. by repeat case_bool_decide. }
  assert (To4 (Gateway g') ≠ []) as H4' by (by apply (fouName_family _ _ Hn)).
  clear Hns Hsame. rewrite Hg, To4_canonIP in H4. rewrite Hg', To4_canonIP in H4'. rewrite Hg, Hg', !fouName_canonIP in Hn.
  rewrite Hg, Hg'. apply fouName_v4_inj; [apply ParseIP_wf_ip|apply ParseIP_wf_ip|done..].
Qed.

Lemma asks_on_tunnel port ipv4 ipv6 pod g s : asks pod g → s ∈ Networks g →
  nc_uses (pod_client ipv4 ipv6) (net_family s) = true → on_tunnel (pod_tunnel port ipv4 ipv6) g.
Proof.
  intros (_ & _ & n & v & _ & _ & eg & svc & _ & _ & _ & _ & Hns) Hs Hu. rewrite Hns in Hs.
  apply list_elem_of_filter in Hs as [Hsame _]. unfold same_family, addr_v4 in Hsame.
  unfold on_tunnel, peer_local, is4. unfold net_family in Hu. repeat case_bool_decide; simpl in *; naive_solver.
Qed.

Context `{!AgentEnvLaws W}.

Lemma getGWNets_asks pod l : getGWNets pod = Ok l → ∀ g, g ∈ l ↔ asks pod g.
Proof using All.
  unfold getGWNets, asks. destruct (HostNetwork pod); [intros [= <-] g; rewrite elem_of_nil; naive_solver|].
  intros Hl g. pose proof (gwlist_spec (egNames (Annotations pod))) as Hgl. rewrite Hl in Hgl. rewrite Hgl.
  setoid_rewrite egNames_spec. naive_solver.
Qed.

Lemma asks_nets_ok pod g : asks pod g → Forall unmapped (Networks g) → Forall net_ok (Networks g).
Proof.
  intros (_ & _ & n & v & _ & _ & eg & svc & _ & _ & _ & _ & Hns) Hu. rewrite Forall_forall in *. intros s Hs.
  specialize (Hu s Hs). rewrite Hns in Hs. apply list_elem_of_filter in Hs as [_ (d & _ & Hd)%list_elem_of_omap].
  by eapply ParseCIDR_net_ok.
Qed.
End packets.

(** ** The whole call *)
Lemma wp_pod_packets {W} `{!HostOps W, !HostLaws W, !AgentEnv W, !AgentEnvLaws W, !CniLib, !CniLibLaws}
    port args pod conf res f x (w : W) :
  let t := pod_tunnel port (net_IP (ContIPv4 conf)) (net_IP (ContIPv6 conf)) in
  let c := pod_client (net_IP (ContIPv4 conf)) (net_IP (ContIPv6 conf)) in
  let main := longest (canonIP x) (in_table mainTableID (pf_get f (routes (view w)))) in
  let private := existsb (λ p, Contains p x) (nc_priv c f) in
  pod_ok (view w) → no_tunnels (view w) →
  api_Pod (lookup_arg PodNamespaceKey args, lookup_arg PodNameKey args) = Ok pod →
  parseConfig (StdinData args) (Ifname args) = Ok (conf, res) →
  (∃ g, asks pod g) → (∀ g, asks pod g → Forall unmapped (Networks g)) →
  ip_len x → x ≠ [] → net_family (mkIPNet x []) = f → nc_uses c f = true →
  unclaimed f x (view w) → Contains (nc_linkLocal f) x = false →
  wp (Add port args) (λ o w', ∀ data, o = Ok data →
    let claimed b := ∃ g s, dest c f x pod b g s in
    (claimed true → tunnelled t c f x pod true (view w')) ∧
    (¬ claimed true → private = true → is_Some main → route_to f x (view w') = main) ∧
    (¬ claimed true → private = false ∨ main = None → claimed false → tunnelled t c f x pod false (view w'))) w.
Proof.
  intros t c main private Hs Hn Hpod Hconf [g0 Hg0] Hun Hx Hne Hxf Hu Hq Hll.
  eapply wp_mono; [by apply wp_Add|]. intros o w' Ho data ->. destruct Ho as (pod' & l & conf' & res' & Hpod' & Hl & Hconf' & _ & Hdone).
  assert (pod' = pod) as -> by congruence. assert (conf' = conf) as -> by congruence. clear Hpod' Hconf'.
  pose proof (getGWNets_asks pod l Hl) as Hasks.
  destruct Hdone as [[-> _]|[_ Hdone]]; [by apply Hasks, elem_of_nil in Hg0|].
  destruct (setup_steers _ _ _ _ _ _ f x Hdone) as (ps & [Hps Hall] & H1 & H2 & H3); try done.
  { apply Hs. }
  { apply Forall_forall. intros g Hg%Hasks. apply (asks_nets_ok pod); auto. }
  fold t c in Hps, Hall. cbv zeta.
  assert (Hex : ∀ b g s, dest c f x pod b g s → ∃ lk, pair_claims c f b x ps (lk, s)).
  { intros b g s (Hg & Hs' & Hf & Hb & Hc). destruct (Hall g s) as [lk Hin]; [by apply Hasks| |done|by exists lk].
    eapply asks_on_tunnel; [done..|]. by rewrite Hf. }
  assert (Hdest : ∀ b p, pair_claims c f b x ps p → ∃ g, dest c f x pod b g p.2 ∧ tunnel_to t l (view w') g p.1).
  { intros b [lk s] (Hin & Hf & Hb & Hc). destruct (Hps lk s Hin) as (g & Hg & Hsg & Ht). exists g. split; [|done].
    by split; [apply Hasks|]. }
  assert (Hbest : ∀ b, (∃ p, pair_best c f b x ps p ∧ route_to f x (view w') = Some (egress_route c p.1 p.2)) →
    tunnelled t c f x pod b (view w')).
  { intros b ([lk s] & [Hcl Hmax] & Hr). destruct (Hdest b _ Hcl) as (g & Hd & Hlk & g' & idx & Hg' & Hname & Hpl).
    exists g, s, lk. split_and!; try done; [|exists g', idx; split_and!; try done].
    - intros g1 s1 H'. destruct (Hex b g1 s1 H') as [lk1 Hc1]. by apply (Hmax (lk1, s1)).
    - by apply Hasks.
    - intros ->. destruct Hd as (Hg & Hsg & Hf & _). eapply asks_v4_name; [exact Hg|by apply Hasks|done..]. }
  assert (Hiff : ∀ b, (∃ g s, dest c f x pod b g s) ↔ ∃ p, pair_claims c f b x ps p).
  { intros b. split; [intros (g & s & Hd); destruct (Hex b g s Hd) as [lk ?]; by exists (lk, s)|].
    intros [p Hp]. destruct (Hdest b p Hp) as (g & ? & _). by exists g, p.2. }
  rewrite !Hiff. auto.
Qed.

(** ** Property *)
(** C2: a CNI ADD that succeeds steers the packets of the pod as its annotations
    ask.  For an address of a family the pod has, outside the link-local network
    and not claimed by a rule in front: the most specific destination that leaves
    by the narrow table wins; else a private address with a route keeps it; else
    the most specific other destination wins.  A destination's packets leave by
    the tunnel device of its gateway's name, which leads to that gateway's service
    address (always over IPv4; over IPv6 if no two names collide). *)
Theorem pod_packets {W} `{!HostOps W, !HostLaws W, !AgentEnv W, !AgentEnvLaws W, !CniLib, !CniLibLaws}
    port args pod conf res f x (w : W) :
  let t := pod_tunnel port (net_IP (ContIPv4 conf)) (net_IP (ContIPv6 conf)) in
  let c := pod_client (net_IP (ContIPv4 conf)) (net_IP (ContIPv6 conf)) in
  let main := longest (canonIP x) (in_table mainTableID (pf_get f (routes (view w)))) in
  let private := existsb (λ p, Contains p x) (nc_priv c f) in
  pod_ok (view w) → no_tunnels (view w) →
  api_Pod (lookup_arg PodNamespaceKey args, lookup_arg PodNameKey args) = Ok pod →
  parseConfig (StdinData args) (Ifname args) = Ok (conf, res) →
  (∃ g, asks pod g) → (∀ g, asks pod g → Forall unmapped (Networks g)) →
  ip_len x → x ≠ [] → net_family (mkIPNet x []) = f → nc_uses c f = true →
  unclaimed f x (view w) → Contains (nc_linkLocal f) x = false →
  wp (Add port args) (λ o w', ∀ data, o = Ok data →
    let claimed b := ∃ g s, dest c f x pod b g s in
    (claimed true → tunnelled t c f x pod true (view w')) ∧
    (¬ claimed true → private = true → is_Some main → route_to f x (view w') = main) ∧
    (¬ claimed true → private = false ∨ main = None → claimed false → tunnelled t c f x pod false (view w'))) w.
Proof. apply wp_pod_packets. Qed.

(** *** Witness: a pod with two destinations behind one gateway; the packets to
    the private one leave by the tunnel to 10.96.0.7. *)
#[local] Existing Instances wit_cni wit_cni_laws wit_env wit_env_laws.

Definition new_pod : host :=
  host_with [] (set_links {["eth0" := mkLink "eth0" 2 true (OtherLink "veth")]} pod_net).
Definition sample_conf : PluginConf := mkPluginConf (mkIPNet [10; 1; 1; 1] (CIDRMask 32 32)) no_IPNet.

Lemma sample_gateways : getGWNets sample_user = Ok [gw [10; 96; 0; 7] ["10.9.0.0/16"; "8.8.0.0/16"]].
Proof. by vm_compute. Qed.

Lemma sample_unclaimed x : unclaimed V4 x (view new_pod).
Proof.
  intros k Hk Hp _ _. apply elem_of_cons in Hk as [->|Hk]; [done|].
  apply list_elem_of_singleton in Hk as ->. simpl in Hp. lia.
Qed.

(** Only [eth0], which has the pod's own route. *)
Lemma new_pod_ok : pod_ok (view new_pod).
Proof.
  split; [intros []; repeat constructor; unfold by_prio; simpl; lia|]. simpl. split.
  - intros k k' l l' H H'. simpl in *. apply lookup_singleton_Some in H as [<- _], H' as [<- _]. done.
  - intros f r _ (k & l & Hk & H & _). simpl in H. apply lookup_singleton_Some in H as [<- _]. revert Hk. by vm_compute.
Qed.

Lemma pod_packets_witness :
  let t := pod_tunnel 5555 [10; 1; 1; 1] [] in let c := pod_client [10; 1; 1; 1] [] in
  ∃ w', Add 5555 (sample_args "user") new_pod = (Ok "{}", w') ∧
    tunnelled t c V4 [10; 9; 1; 1] sample_user true (view w') ∧
    (route_to V4 [10; 9; 1; 1] (view w') ≫= λ r, Some (kt_LinkIndex r)) =
      (links (view w') !! "fou4_0a600007" ≫= λ lk, Some (Index lk)).
Proof.
  intros t c. exists (Add 5555 (sample_args "user") new_pod).2. split; [by vm_compute|]. split; [|by vm_compute].
  pose proof (getGWNets_asks _ _ sample_gateways) as Hasks.
  assert (Hg : asks sample_user (gw [10; 96; 0; 7] ["10.9.0.0/16"; "8.8.0.0/16"])) by (apply Hasks; left).
  destruct (pod_packets (W := host) 5555 (sample_args "user") sample_user sample_conf (Some sample_result) V4
    [10; 9; 1; 1] new_pod) with (data := "{}") as [H _]; try done.
  - exact new_pod_ok.
  - intros k [s Hk]. simpl. apply lookup_singleton_None. intros <-. by destruct Hk.
  - by exists (gw [10; 96; 0; 7] ["10.9.0.0/16"; "8.8.0.0/16"]).
  - intros g Hg'%Hasks%list_elem_of_singleton. subst g. repeat constructor; right; by vm_compute.
  - by right; left.
  - apply sample_unclaimed.
  - apply H. exists (gw [10; 96; 0; 7] ["10.9.0.0/16"; "8.8.0.0/16"]), (mkIPNet [10; 9; 0; 0] (CIDRMask 16 32)).
    split; [done|]. split; [left|]. by vm_compute.
Defined.
