(* ===== verification/CniPlugin.v ===== *)
(** * The CNI plugin ([cmd/egress-gw-cni])

    The binary the container runtime runs: it passes the call on to the agent
    and turns the agent's errors into CNI errors.  The server it talks to is
    [Agent.v]; the CNI library and gRPC are the class [PluginEnv]. *)
From S2P Require Import Prelude Constants GoStrings GoNet Corev1 Netlink Kernel NatClient Fou EgressNat EgressApi AgentSetup Agent.

(** ** Data *)
Record PluginEnvArgs := mkPluginEnvArgs {
  K8S_POD_NAMESPACE : string; K8S_POD_NAME : string; K8S_POD_INFRA_CONTAINER_ID : string }.

Definition Map (e : PluginEnvArgs) : gmap string string :=
  <[PodNamespaceKey := K8S_POD_NAMESPACE e]> (<[PodNameKey := K8S_POD_NAME e]>
    (<[PodContainerKey := K8S_POD_INFRA_CONTAINER_ID e]> ∅)).

(** [skel.CmdArgs]. *)
Record CmdArgs := mkCmdArgs {
  cmd_ContainerID : string; cmd_Netns : string; cmd_IfName : string; cmd_Args : string; cmd_Path : string;
  cmd_StdinData : string }.

Record PluginNetConf (P : Set) := mkPluginNetConf { pn_NetConf : NetConf P; CNIVersion : string; Socket : string }.
Arguments mkPluginNetConf {_} _ _ _.
Arguments pn_NetConf {_} _.
Arguments CNIVersion {_} _.
Arguments Socket {_} _.


(** Codes of the CNI library. *)
Definition ErrInvalidEnvironmentVariables : Z := 4.
Definition ErrDecodingFailure : Z := 6.
Definition ErrInvalidNetworkConfig : Z := 7.
Definition ErrTryAgainLater : Z := 11.
Definition ErrInternal : Z := 999.

(** [uint(c)] of an int32 enum on a 64-bit machine. *)
Definition uint (c : Z) : Z := c mod 2 ^ 64.

Class PluginEnv (W : Type) `{!CniLib} := {
  json_PluginConf : string → string → outcome (PluginNetConf PrevRes);  (* data, default of the socket *)
  LoadArgs : string → outcome PluginEnvArgs;
  Dial : string → outcome unit;
  status_Convert : error → string * list detail;      (* status.Convert: message and details *)
  err_text : error → string;                          (* err.Error() *)
  call : ∀ {A}, M W A → M W A;                        (* a unary RPC that runs the handler *)
  NewResult : string → outcome PrevRes;
  PrintResult : PrevRes → string → outcome unit }.

Section plugin.
Context {W : Type} `{!HostOps W, !AgentEnv W, !CniLib, !PluginEnv W}.

Definition plugin_parseConfig (stdin : string) : outcome (PluginNetConf PrevRes) :=
  conf ← relabel (Errorf "failed to parse network configuration: %w") (json_PluginConf stdin DefaultSocketPath);
  nc ← relabel (Errorf "failed to parse prev result: %w") (ParsePrevResult (pn_NetConf conf));
  Ok (mkPluginNetConf nc (CNIVersion conf) (Socket conf)).

Definition makeCNIArgs (args : CmdArgs) : outcome CNIArgs :=
  env ← relabel (λ e, ErrCNI ErrInvalidEnvironmentVariables "failed to load CNI_ARGS" (err_text e)) (LoadArgs (cmd_Args args));
  Ok (mkCNIArgs (cmd_ContainerID args) (cmd_Netns args) (cmd_IfName args) (Map env) (cmd_Path args) (cmd_StdinData args)).

Definition connect (sock : string) : outcome unit :=
  relabel (λ e, ErrCNI ErrTryAgainLater ("failed to connect to " +:+ sock) (err_text e)) (Dial sock).

(** A detail of another type leaves [cniErr] nil: the branch that notices it
    builds an error, drops it and goes on. *)
Definition convertError (err : error) : outcome error :=
  let st := status_Convert err in
  let details := st.2 in
  if negb (length details =? 1)%nat then Ok (ErrCNI ErrInternal st.1 (err_text err))
  else match details with
       | DetailCNI cniErr :: _ => Ok (ErrCNI (uint (Code cniErr)) (Msg cniErr) (Details cniErr))
       | _ => Panicked "invalid memory address or nil pointer dereference"
       end.

(** Any failed call ends with the converted error. *)
Definition converting {A} (m : M W A) : M W A :=
  r ← attempt m;
  match r with
  | inl a => mret a
  | inr err => e ← lift_outcome (convertError err); throw e
  end.

Definition cmdAdd (port : Z) (args : CmdArgs) : M W unit :=
  conf ← lift_outcome (plugin_parseConfig (cmd_StdinData args));
  if bool_decide (PrevResult (pn_NetConf conf) = None) then
    throw (ErrCNI ErrInvalidNetworkConfig "egress-gw must be called next to the cilium-cni" "")
  else
    cniArgs ← lift_outcome (makeCNIArgs args);
    _ ← lift_outcome (connect (Socket conf));
    resp ← converting (call (Agent.Add port cniArgs));
    result ← lift_outcome (relabel (λ e, ErrCNI ErrDecodingFailure "failed to unmarshal result" (err_text e)) (NewResult resp));
    lift_outcome (PrintResult result (CNIVersion conf)).

Definition cmdDel (args : CmdArgs) : M W unit :=
  conf ← lift_outcome (plugin_parseConfig (cmd_StdinData args));
  cniArgs ← lift_outcome (makeCNIArgs args);
  _ ← lift_outcome (connect (Socket conf));
  converting (call (Agent.Del cniArgs)).

Definition cmdCheck (args : CmdArgs) : M W unit :=
  conf ← lift_outcome (plugin_parseConfig (cmd_StdinData args));
  cniArgs ← lift_outcome (makeCNIArgs args);
  _ ← lift_outcome (connect (Socket conf));
  converting (call (Agent.Check cniArgs)).
End plugin.

(** ** What the plugin relies on *)
Definition is_status (e : error) : Prop := ∃ c m ds, e = ErrStatus c m ds.

Class PluginLaws (W : Type) `{!CniLib, !PluginEnv W} : Prop := {
  law_PluginConf s d : no_panic (json_PluginConf s d);
  law_LoadArgs s : no_panic (LoadArgs s);
  law_Dial s : no_panic (Dial s);
  law_PluginNewResult s : no_panic (NewResult s);
  law_PrintResult r v : no_panic (PrintResult r v);
  law_status_Convert c m ds : status_Convert (ErrStatus c m ds) = (m, ds);
  (* the handler's answer, or a status of gRPC's own: then it ran or it did not *)
  law_call {A} (m : M W A) w :
    (call m w = m w ∧ match (m w).1 with Ok _ => True | Err e => is_status e | Panicked _ => False end) ∨
    ∃ c msg w', call m w = (Err (ErrStatus c msg []), w') ∧ (w' = w ∨ w' = (m w).2) }.

Definition is_CNIError (d : detail) : bool := match d with DetailCNI _ => true | DetailOther _ => false end.

Section convert.
#[local] Set Default Proof Using "Type*".
Context {W : Type} `{!CniLib, !PluginEnv W, !PluginLaws W}.

Lemma convertError_cases (err : error) : match convertError (W := W) err with
  | Ok e => ∃ code msg details, e = ErrCNI code msg details
  | Err _ => False
  | Panicked _ => ∃ d, (status_Convert err).2 = [d] ∧ is_CNIError d = false
  end.
Proof.
  unfold convertError. destruct ((status_Convert err).2) as [|[c|u] [|d' l]]; simpl; eauto 6.
Qed.

Lemma convertError_newError c cni msg details : 0 ≤ cni < 2 ^ 64 →
  convertError (W := W) (newError c cni msg details) = Ok (ErrCNI cni msg details).
Proof.
  intros Hc. unfold convertError, newError. rewrite law_status_Convert. simpl. unfold uint. by rewrite Z.mod_small.
Qed.

Lemma convertError_no_detail c msg : ∃ e, convertError (W := W) (ErrStatus c msg []) = Ok e ∧ e = ErrCNI ErrInternal msg (err_text (ErrStatus c msg [])).
Proof. eexists. unfold convertError. rewrite law_status_Convert. by split. Qed.
End convert.

Lemma error_codes_range c cni : (c, cni) ∈ error_codes → 0 ≤ cni < 2 ^ 64.
Proof. unfold error_codes. intros H. repeat (apply elem_of_cons in H as [[= -> ->]|H]; [done|]). by apply not_elem_of_nil in H. Qed.

Section end_to_end.
#[local] Set Default Proof Using "Type*".
Context {W : Type} `{!HostOps W, !HostLaws W, !AgentEnv W, !AgentEnvLaws W, !CniLib, !CniLibLaws, !PluginEnv W, !PluginLaws W}.

(** A remote [Add]: the errors that come back are CNI errors. *)
Lemma wp_remote_Add port args (w : W) : pod_ok (view w) →
  wp (converting (call (Agent.Add port args))) (λ o w', match o with
    | Ok data => add_done port args (view w) (w' = w) data (view w')
    | Err e => ∃ code msg details, e = ErrCNI code msg details
    | Panicked _ => False
    end) w.
Proof.
  intros Hs. unfold converting. wp_steps. pose proof (wp_Add port args w Hs) as Ha. unfold wp in *.
  destruct (law_call (Agent.Add port args) w) as [[-> _]|(c & msg & w' & -> & _)]; simpl.
  - destruct ((Agent.Add port args w).1) as [data|e|m]; simpl; [done| |done].
    destruct Ha as (c & cni & msg & details & -> & Hin & _). unfold lift_outcome, mbind, M_bind, throw.
    rewrite convertError_newError by (by eapply error_codes_range). simpl. by eexists _, _, _.
  - unfold lift_outcome, mbind, M_bind, throw. destruct (convertError_no_detail (W := W) c msg) as (e & -> & ->).
    simpl. by eexists _, _, _.
Qed.
End end_to_end.

(** ** Properties *)
(** C36: [convertError] gives back exactly the code, message and details the agent
    put into its error, gives a CNI error for any other status with no detail or
    several, and panics precisely when the one detail is of another type. *)
Theorem convertError_spec {W} `{!CniLib, !PluginEnv W, !PluginLaws W} :
  (∀ c cni msg details, 0 ≤ cni < 2 ^ 64 →
     convertError (W := W) (newError c cni msg details) = Ok (ErrCNI cni msg details)) ∧
  (∀ err, (∃ s, convertError (W := W) err = Panicked s) ↔ ∃ d, (status_Convert err).2 = [d] ∧ is_CNIError d = false) ∧
  (∀ err, (∃ s, convertError (W := W) err = Panicked s) ∨
     ∃ code msg details, convertError (W := W) err = Ok (ErrCNI code msg details)).
Proof.
  split; [intros; by apply convertError_newError|]. split.
  - intros err. split.
    + intros [s Hs]. pose proof (convertError_cases (W := W) err) as Hc. by rewrite Hs in Hc.
    + intros ([c|u] & Hd & Hn); [done|]. unfold convertError. rewrite Hd. simpl. by eexists.
  - intros err. pose proof (convertError_cases (W := W) err) as Hc.
    destruct (convertError err) as [e|e|m]; [right|done|left; by eexists]. destruct Hc as (?&?&?&->). eauto.
Qed.

(** C35: plugin and agent together: a CNI ADD never panics; when it succeeds the
    agent has set the pod up for its gateways; after the configuration is read
    every error but one of printing the result is a CNI error, and without a
    previous result the pod is not touched. *)
Theorem cmdAdd_spec {W} `{!HostOps W, !HostLaws W, !AgentEnv W, !AgentEnvLaws W, !CniLib, !CniLibLaws, !PluginEnv W, !PluginLaws W}
    port args (w : W) :
  pod_ok (view w) →
  wp (cmdAdd port args) (λ o w', match o with
    | Ok _ => ∃ cniArgs data, makeCNIArgs args = Ok cniArgs ∧ add_done port cniArgs (view w) (w' = w) data (view w')
    | Err e => (∃ code msg details, e = ErrCNI code msg details) ∨
               plugin_parseConfig (cmd_StdinData args) = Err e ∧ w' = w ∨
               ∃ r v, PrintResult r v = Err e
    | Panicked _ => False
    end ∧
    ((∀ conf, plugin_parseConfig (cmd_StdinData args) = Ok conf → PrevResult (pn_NetConf conf) = None) → w' = w)) w.
Proof.
  intros Hs. unfold cmdAdd. wp_steps.
  assert (no_panic (plugin_parseConfig (cmd_StdinData args))) as Hp.
  { unfold plugin_parseConfig. pose proof (law_PluginConf (cmd_StdinData args) DefaultSocketPath) as H1.
    destruct (json_PluginConf _ _) as [c|e|m]; simpl; [|done..]. destruct (law_ParsePrevResult (pn_NetConf c)) as [H2 _].
    by destruct (ParsePrevResult _). }
  destruct (plugin_parseConfig _) as [conf|e|m] eqn:Ec; simpl; [|split; [right; by left|done]|done].
  case_bool_decide as Hprev; [apply wp_throw; split; [left; by eexists _, _, _|done]|].
  apply (wp_mono _ (λ o w', match o with
    | Ok _ => ∃ cniArgs data, makeCNIArgs args = Ok cniArgs ∧ add_done port cniArgs (view w) (w' = w) data (view w')
    | Err e => (∃ code msg details, e = ErrCNI code msg details) ∨ ∃ r v, PrintResult r v = Err e
    | Panicked _ => False end)).
  2: { intros o w' Ho. split; [|intros Hall; by destruct (Hprev (Hall conf eq_refl))]. destruct o; naive_solver. }
  wp_steps. unfold makeCNIArgs. pose proof (law_LoadArgs (cmd_Args args)) as Hl.
  destruct (LoadArgs _) as [env|e|m]; simpl; [|left; by eexists _, _, _|done].
  wp_steps. unfold connect. pose proof (law_Dial (Socket conf)) as Hd.
  destruct (Dial _) as [[]|e|m]; simpl; [|left; by eexists _, _, _|done].
  wp_steps. eapply wp_mono; [by apply wp_remote_Add|]. intros [data|e|m] w1 H1; simpl; [|by left|done].
  wp_steps. pose proof (law_PluginNewResult data) as Hr. destruct (NewResult data) as [res|e|m]; simpl; [|left; by eexists _, _, _|done].
  apply wp_lift_outcome. pose proof (law_PrintResult res (CNIVersion conf)) as Hpr.
  destruct (PrintResult _ _) as [[]|e|m] eqn:E; [eauto|right; eauto|done].
Qed.

(** ** Witnesses *)
Section witnesses.
#[local] Existing Instances wit_cni wit_cni_laws wit_env wit_env_laws.
#[local] Instance wit_plugin : PluginEnv host := {
  json_PluginConf s d := if String.eqb s "" then Err (ErrExternal "unexpected end of JSON input")
                         else Ok (mkPluginNetConf (mkNetConf (Some s) None) "1.0.0" d);
  LoadArgs s := Ok (mkPluginEnvArgs "default" s "");
  Dial s := Ok tt;
  status_Convert e := match e with ErrStatus _ m ds => (m, ds) | _ => ("error", []) end;
  err_text e := "error";
  call A m w := match m w with
                | (Ok a, w') => (Ok a, w')
                | (Err (ErrStatus c msg ds), w') => (Err (ErrStatus c msg ds), w')
                | (_, w') => (Err (ErrStatus (OtherCode 2) "error" []), w')
                end;
  NewResult s := Ok sample_result;
  PrintResult r v := Ok tt }.
#[local] Instance wit_plugin_laws : PluginLaws host.
Proof.
  split; intros; simpl; try done; [by destruct (String.eqb _ _)|].
  destruct (m w) as [[a|[]|s] w']; simpl; try (left; split; [done|]; try done; by eexists _, _, _);
    right; eexists _, _, _; (split; [done|by right]).
Qed.

Definition sample_cmd (pod : string) : CmdArgs := mkCmdArgs "c1" "/var/run/netns/p" "eth0" pod "" "{}".

Lemma convertError_spec_witness :
  convertError (W := host) (ErrStatus Internal "m" [DetailOther "type.googleapis.com/google.rpc.RetryInfo"]) =
    Panicked "invalid memory address or nil pointer dereference" ∧
  (∀ c cni msg details, 0 ≤ cni < 2 ^ 64 →
     convertError (W := host) (newError c cni msg details) = Ok (ErrCNI cni msg details)) ∧
  (∀ err, (∃ s, convertError (W := host) err = Panicked s) ↔ ∃ d, (status_Convert err).2 = [d] ∧ is_CNIError d = false) ∧
  (∀ err, (∃ s, convertError (W := host) err = Panicked s) ∨
     ∃ code msg details, convertError (W := host) err = Ok (ErrCNI code msg details)).
Proof. split; [by vm_compute|apply (convertError_spec (W := host))]. Defined.

Lemma cmdAdd_spec_witness :
  (cmdAdd 5555 (sample_cmd "user") empty_host).1 = Ok tt ∧
  (cmdAdd 5555 (sample_cmd "client") empty_host).1 = Err (ErrCNI 999 "failed to get egress GW" "error") ∧
  wp (cmdAdd 5555 (sample_cmd "user")) (λ o w', match o with
    | Ok _ => ∃ cniArgs data, makeCNIArgs (sample_cmd "user") = Ok cniArgs ∧
                add_done 5555 cniArgs (view empty_host) (w' = empty_host) data (view w')
    | Err e => (∃ code msg details, e = ErrCNI code msg details) ∨
               plugin_parseConfig (cmd_StdinData (sample_cmd "user")) = Err e ∧ w' = empty_host ∨
               ∃ r v, PrintResult r v = Err e
    | Panicked _ => False
    end ∧
    ((∀ conf, plugin_parseConfig (cmd_StdinData (sample_cmd "user")) = Ok conf → PrevResult (pn_NetConf conf) = None) → w' = empty_host)) empty_host.
Proof.
  split; [by vm_compute|]. split; [by vm_compute|]. apply (cmdAdd_spec 5555 (sample_cmd "user") empty_host empty_pod_ok).
Defined.
End witnesses.
