(* ===== verification/Agreement.v ===== *)
(** * The two ends agree

    The agent decides from a pod's annotations which gateways it uses
    ([runners/agent.go]); every egress pod decides from the same annotations
    whether the pod is its client ([controllers/pod_watcher.go]), with the
    identity the controller gave it ([controllers/egress_controller.go]). *)
From Stdlib Require Import Ascii.
From S2P Require Import Prelude Constants GoStrings GoNet Corev1 EgressApi EgressController Agent PodWatcher.

(** The agent looks the Egress [n] up for the pod. *)
Definition looks_up (pod : Pod) (n : ObjectKey) : Prop :=
  HostNetwork pod = false ∧ n ∈ egNames (Annotations pod).

(** The environment of a container: of several entries the last one counts. *)
Definition env_value (l : list EnvVar) (k : string) : string :=
  foldl (λ v e, if String.eqb (env_Name e) k then env_Value e else v) "" l.
(** The watcher of an egress pod whose main container is [c]. *)
Definition watcher_of (c : Container) : podWatcher :=
  SetupPodWatcher (env_value (Env c) EnvPodNamespace) (env_value (Env c) EnvEgressName).

Lemma looks_up_annotation pod n : looks_up pod n ↔
  HostNetwork pod = false ∧ ∃ v, (AnnEgressPrefix +:+ n.1, v) ∈ Annotations pod ∧ n.2 ∈ Split v ","%char.
Proof. unfold looks_up. by rewrite egNames_spec. Qed.

Lemma handles_looks_up r pod : ","%char ∉ String.list_ascii_of_string (myName r) →
  shouldHandle r pod = true ↔ looks_up pod (myNS r, myName r).
Proof.
  intros Hc. rewrite shouldHandle_iff, looks_up_annotation. simpl.
  apply and_iff_compat_l. split; intros (v & Hin & Hv); exists v; (split; [done|]); [|by right].
  destruct Hv as [->|Hv]; [|done]. rewrite Split_no_sep by done. left.
Qed.

Lemma watcher_of_egress rc eg c : watcher_of (egressContainer rc eg c) = SetupPodWatcher (eg_Namespace eg) (eg_Name eg).
Proof. unfold watcher_of, env_value. simpl. by rewrite !foldl_app. Qed.

(** ** Properties *)
(** C37: an egress pod handles a client pod exactly when the client is off the host
    network and has an annotation for the egress's namespace whose value is the
    egress's name or lists it; for a name without a comma, as every object name
    is, these are exactly the pods for which the agent looks this egress up.  In
    particular the pods the controller makes for an Egress, whatever environment
    its template sets, serve exactly the pods that look this Egress up. *)
Theorem watcher_agent_agree r pod :
  (shouldHandle r pod = true ↔
   HostNetwork pod = false ∧ ∃ v, (AnnEgressPrefix +:+ myNS r, v) ∈ Annotations pod ∧
     (v = myName r ∨ myName r ∈ Split v ","%char)) ∧
  (","%char ∉ String.list_ascii_of_string (myName r) → shouldHandle r pod = true ↔ looks_up pod (myNS r, myName r)) ∧
  ∀ rc eg c, ","%char ∉ String.list_ascii_of_string (eg_Name eg) →
    shouldHandle (watcher_of (egressContainer rc eg c)) pod = true ↔ looks_up pod (eg_key eg).
Proof.
  split; [apply shouldHandle_iff|]. split; [apply handles_looks_up|].
  intros rc eg c Hc. rewrite watcher_of_egress. by apply handles_looks_up.
Qed.
