(* ===== verification/EgressPod.v ===== *)
(** * The egress pod's program ([cmd/egress-gw/sub])

    Reads its identity and addresses from the environment and brings up the
    tunnel, the NAT and the pod watcher. *)
From Stdlib Require Import Ascii.
From S2P Require Import Prelude Constants GoStrings GoNet Corev1 Netlink Kernel NatClient Fou EgressNat AgentSetup Agent PodWatcher.

(** ** Flags ([root.go]) *)
Record config := mkConfig { metricsAddr : string; healthAddr : string; fouPort : Z }.
Definition default_config : config := mkConfig ":8080" ":8081" 5555.

(** ** The start *)

(** The loop over the addresses: the last one of each family stays. *)
Definition takeAddr (acc : IP * IP) (addr : string) : outcome (IP * IP) :=
  let n := ParseIP addr in
  if bool_decide (n = []) then Err (ErrNew (EnvAddresses +:+ "contains invalid address: " +:+ addr))
  else if bool_decide (To4 n = []) then Ok (acc.1, n) else Ok (To4 n, acc.2).

Fixpoint takeAddrs (acc : IP * IP) (l : list string) : outcome (IP * IP) :=
  match l with
  | [] => Ok acc
  | addr :: l => acc ← takeAddr acc addr; takeAddrs acc l
  end.

(** What controller-runtime answered: to the making of the manager with its health
    checks, and to the registration that ends [SetupPodWatcher]. *)
Record mgr_calls := mkMgrCalls { mgr_New : outcome unit; mgr_Complete : outcome unit }.
Definition healthy_mgr : mgr_calls := mkMgrCalls (Ok tt) (Ok tt).
Definition mgr_sound (mgr : mgr_calls) : Prop := no_panic (mgr_New mgr) ∧ no_panic (mgr_Complete mgr).

Section main.
Context {W : Type} `{!HostOps W}.
Context (Getenv : string → string) (mgr : mgr_calls).

(** Everything before the manager runs. *)
Definition prepare (port : Z) : M W podWatcher :=
  let myNS := Getenv EnvPodNamespace in
  if String.eqb myNS "" then throw (ErrNew (EnvPodNamespace +:+ " environment variable must be set"))
  else
    let myName := Getenv EnvEgressName in
    if String.eqb myName "" then throw (ErrNew (EnvEgressName +:+ " environment variable must be set"))
    else
      let myAddresses := Split (Getenv EnvAddresses) ","%char in
      if bool_decide (length myAddresses = 0%nat) then throw (ErrNew (EnvAddresses +:+ " environment variable must be set"))
      else
        ips ← lift_outcome (takeAddrs ([], []) myAddresses);
        _ ← lift_outcome (mgr_New mgr);
        ft ← lift_outcome (Fou.NewFoUTunnel 0 port ips.1 ips.2);
        _ ← Fou.Init ft;
        eg ← lift_outcome (EgressNat.NewEgress "eth0" ips.1 ips.2);
        _ ← EgressNat.Init eg;
        _ ← lift_outcome (mgr_Complete mgr);
        mret (SetupPodWatcher myNS myName).

(** The program: [mgr.Start] hands the watcher its requests until the process is
    told to end; what a run of them does is [PodWatcher.step]'s matter. *)
Definition subMain (mgr_Start : podWatcher → M W unit) (port : Z) : M W unit :=
  r ← prepare port;
  mgr_Start r.
End main.

(** ** The addresses *)
Definition is_v4 (a : string) : Prop := To4 (ParseIP a) ≠ [].
#[global] Instance is_v4_dec a : Decision (is_v4 a).
Proof. unfold is_v4. apply _. Defined.

(** The last address of the list in each family, nil without one. *)
Definition last_v4 (d : IP) (l : list string) : IP :=
  match last (filter is_v4 l) with Some a => To4 (ParseIP a) | None => d end.
Definition last_v6 (d : IP) (l : list string) : IP :=
  match last (filter (λ a, ¬ is_v4 a) l) with Some a => ParseIP a | None => d end.

Lemma takeAddrs_spec l acc : match takeAddrs acc l with
  | Ok r => Forall (λ a, ParseIP a ≠ []) l ∧ r = (last_v4 acc.1 l, last_v6 acc.2 l)
  | Err _ => ∃ a, a ∈ l ∧ ParseIP a = []
  | Panicked _ => False
  end.
Proof.
  revert acc. induction l as [|a l IH]; intros [v4 v6]; simpl; [by split|]. unfold takeAddr.
  case_bool_decide as Ha; simpl; [exists a; split; [left|done]|].
  assert (∃ v4' v6', (if bool_decide (To4 (ParseIP a) = []) then Ok (v4, ParseIP a) else Ok (To4 (ParseIP a), v6)) = Ok (v4', v6') ∧
    last_v4 v4 (a :: l) = last_v4 v4' l ∧ last_v6 v6 (a :: l) = last_v6 v6' l) as (v4' & v6' & -> & -> & ->).
  { unfold last_v4, last_v6. rewrite !filter_cons. destruct (decide (is_v4 a)) as [H4|H4].
    - rewrite bool_decide_eq_false_2 by done. eexists _, _. split; [done|].
      rewrite decide_False, last_cons by tauto. by destruct (last (filter is_v4 l)).
    - rewrite bool_decide_eq_true_2 by by apply dec_stable. eexists _, _. split; [done|].
      rewrite decide_True, last_cons by done. by destruct (last (filter (λ a, ¬ is_v4 a) l)). }
  simpl. specialize (IH (v4', v6')). simpl in IH.
  destruct (takeAddrs _ _) as [r|e|m]; [|destruct IH as (b & ? & ?); exists b; split; [by right|done]|done].
  destruct IH as [HF ->]. split; [by constructor|done].
Qed.

Lemma last_families l : families_ok (last_v4 [] l) (last_v6 [] l).
Proof.
  unfold last_v4, last_v6. split.
  - destruct (last (filter is_v4 l)) as [a|] eqn:E; [|done]. intros _.
    apply last_Some_elem_of, list_elem_of_filter in E as [E _]. by rewrite To4_To4.
  - destruct (last (filter _ l)) as [a|] eqn:E; [|done].
    apply last_Some_elem_of, list_elem_of_filter in E as [E _]. unfold is_v4 in E.
    by destruct (decide (To4 (ParseIP a) = [])).
Qed.

(** ** Bringing the pod up *)
Definition pod_egress (v4 v6 : IP) : egress := mkEgress "eth0" v4 v6.

(** A component whose marker device is there is left alone, else it is set up. *)
Definition tunnel_up (t : fouTunnel) (n n' : Net) : Prop :=
  n' = n ∧ is_Some (links n !! fouDummy) ∨ links n !! fouDummy = None ∧ Fou.init_done t n n'.
Definition nat_up (e : egress) (n n' : Net) : Prop :=
  n' = n ∧ is_Some (links n !! egressDummy) ∨ links n !! egressDummy = None ∧ EgressNat.init_done e n n'.

Lemma NewEgress_ok v4 v6 : families_ok v4 v6 → EgressNat.NewEgress "eth0" v4 v6 = Ok (pod_egress v4 v6).
Proof. intros [H4 H6]. unfold NewEgress. repeat (case_bool_decide || case_decide); naive_solver. Qed.

Lemma split_last_addr (s : string) (sep : ascii) : Forall (λ a, ParseIP a ≠ []) (Split s sep) →
  last_v4 [] (Split s sep) ≠ [] ∨ last_v6 [] (Split s sep) ≠ [].
Proof.
  intros HF. destruct (Split_cons s sep) as (x & l & E). rewrite E in *. unfold last_v4, last_v6.
  assert (∀ (P : string → Prop) `{!∀ a, Decision (P a)}, P x → ∃ a, last (filter P (x :: l)) = Some a ∧ P a ∧ a ∈ x :: l) as H.
  { intros P ? Hx. destruct (last (filter P (x :: l))) as [a|] eqn:El.
    - pose proof (last_Some_elem_of _ _ El) as [? ?]%list_elem_of_filter. eauto.
    - apply last_None in El. by rewrite filter_cons_True in El. }
  destruct (decide (is_v4 x)) as [Hx|Hx].
  - destruct (H is_v4 _ Hx) as (a & -> & Ha & _). by left.
  - destruct (H (λ a, ¬ is_v4 a) _ Hx) as (a & -> & _ & Ha). right. rewrite Forall_forall in HF. auto.
Qed.

Section bring_up.
#[local] Set Default Proof Using "Type*".
Context {W : Type} `{!HostOps W, !HostLaws W}.

Lemma wp_nat_Init e (w : W) : wp (EgressNat.Init e) (λ o w', done_or_same True (λ _, nat_up e (view w) (view w')) o) w.
Proof.
  eapply wp_mono; [apply (@EgressNat.wp_egress_Init W _ _ unreliable)|]. intros o w'. case_bool_decide as Hd.
  - intros (Hv & Ho & _). eapply done_or_same_mono; [exact Ho|done|]. by left.
  - intros [Ho _]. eapply done_or_same_mono; [exact Ho|done|]. right. split; [|done].
    destruct (links (view w) !! egressDummy) eqn:E; [destruct Hd; by eexists|done].
Qed.
End bring_up.

Definition env_ok (Getenv : string → string) : Prop :=
  Getenv EnvPodNamespace ≠ "" ∧ Getenv EnvEgressName ≠ "" ∧
  Forall (λ a, ParseIP a ≠ []) (Split (Getenv EnvAddresses) ","%char).

Lemma wp_prepare {W} `{!HostOps W, !HostLaws W} Getenv mgr port (w : W) :
  mgr_sound mgr →
  wp (prepare Getenv mgr port) (λ o w',
    let l := Split (Getenv EnvAddresses) ","%char in let v4 := last_v4 [] l in let v6 := last_v6 [] l in
    (¬ env_ok Getenv → (∃ e, o = Err e) ∧ w' = w) ∧
    match o with
    | Ok r => r = SetupPodWatcher (Getenv EnvPodNamespace) (Getenv EnvEgressName) ∧ (v4 ≠ [] ∨ v6 ≠ []) ∧
        ∃ n1, tunnel_up (pod_tunnel port v4 v6) (view w) n1 ∧ nat_up (pod_egress v4 v6) n1 (view w')
    | Err _ => True
    | Panicked _ => False
    end) w.
Proof.
  intros [Hm Hcm]. unfold prepare, env_ok.
  destruct (String.eqb_spec (Getenv EnvPodNamespace) "") as [?|Hns]; [apply wp_throw; split; [by eauto|done]|].
  destruct (String.eqb_spec (Getenv EnvEgressName) "") as [?|Hname]; [apply wp_throw; split; [by eauto|done]|].
  set (l := Split _ _). case_bool_decide as Hlen; [apply wp_throw; split; [by eauto|done]|].
  wp_steps. pose proof (takeAddrs_spec l ([], [])) as Ha. destruct (takeAddrs _ _) as [ips|e|m]; simpl; [|by eauto|done].
  destruct Ha as [HF ->]. simpl. wp_steps. destruct (mgr_New mgr) as [[]|e|m]; simpl; [|split; [naive_solver|done]|done].
  rewrite NewFoUTunnel_ok, NewEgress_ok by apply last_families. wp_steps.
  eapply wp_mono; [apply wp_tunnel_Init|]. intros [[]|e|m] w1 H1; simpl in *; [|split; [naive_solver|done]|done]. wp_steps.
  eapply wp_mono; [apply wp_nat_Init|]. intros [[]|e|m] w2 H2; simpl in *; [|split; [naive_solver|done]|done].
  wp_steps. destruct (mgr_Complete mgr) as [[]|e|m]; simpl; [|split; [naive_solver|done]|done].
  apply wp_ret. split; [naive_solver|]. split; [done|]. split; [by apply split_last_addr|]. by exists (view w1).
Qed.

(** The program never panics while it starts, and starts the manager only on a host
    it prepared: an environment without a name, a namespace or with anything but
    addresses in its list (an empty list included) stops it before it touches the
    host; otherwise the manager runs the watcher of this Egress on a host where first
    the tunnel and then the NAT on eth0 were brought up, or found up, for the last
    address of each family. *)
Theorem subMain_spec {W} `{!HostOps W, !HostLaws W} Getenv mgr mgr_Start port (Q : outcome unit → W → Prop) (w : W) :
  let l := Split (Getenv EnvAddresses) ","%char in let v4 := last_v4 [] l in let v6 := last_v6 [] l in
  mgr_sound mgr →
  (∀ e w', (¬ env_ok Getenv → w' = w) → Q (Err e) w') →
  (∀ n1 w', env_ok Getenv → (v4 ≠ [] ∨ v6 ≠ []) → tunnel_up (pod_tunnel port v4 v6) (view w) n1 → nat_up (pod_egress v4 v6) n1 (view w') →
     wp (mgr_Start (SetupPodWatcher (Getenv EnvPodNamespace) (Getenv EnvEgressName))) Q w') →
  wp (subMain Getenv mgr mgr_Start port) Q w.
Proof.
  intros l v4 v6 Hm Herr Hstart. unfold subMain. apply wp_bind. eapply wp_mono; [by apply (wp_prepare Getenv mgr port w)|].
  intros [r|e|s] w' [Hbad Ho]; simpl; [|by apply Herr; intros []%Hbad|done].
  destruct Ho as (-> & Hv & n1 & Ht & Hn). apply (Hstart n1); [|done..]. apply dec_stable. by intros [[e [=]] _]%Hbad.
Qed.

(** ** Witnesses *)
Definition sample_env (k : string) : string :=
  if String.eqb k EnvPodNamespace then "internet" else if String.eqb k EnvEgressName then "nat"
  else if String.eqb k EnvAddresses then "10.1.1.9,fd01::9" else "".

(** The environment that starts the pod, and one that is refused. *)
Lemma subMain_spec_witness :
  (prepare sample_env healthy_mgr 5555 empty_host).1 = Ok (SetupPodWatcher "internet" "nat") ∧
  (prepare (λ _, "x") healthy_mgr 5555 empty_host).2 = empty_host ∧
  wp (subMain sample_env healthy_mgr (λ r, mret tt) 5555) (λ o w', no_panic o ∧ (o = Ok tt → ∃ n1,
    tunnel_up (pod_tunnel 5555 [10; 1; 1; 9] (ParseIP "fd01::9")) (view empty_host) n1 ∧
    nat_up (pod_egress [10; 1; 1; 9] (ParseIP "fd01::9")) n1 (view w'))) empty_host.
Proof.
  split; [by vm_compute|]. split; [by vm_compute|].
  apply (subMain_spec sample_env healthy_mgr (λ r, mret tt) 5555 _ empty_host (conj I I)); [done|].
  intros n1 w' _ _ Ht Hn. apply wp_ret. split; [done|]. intros _. by exists n1.
Defined.
