(* ===== verification/EgressPaths.v ===== *)
(** * The way back to every client of an egress pod

    The whole egress pod: [EgressPod.prepare] brings the tunnel and the NAT up,
    then the pod watcher reconciles for ever against [Fou] and [EgressNat] (through
    [FouPeers]).  The invariant says what the namespace holds meanwhile; the
    property, where the replies to a client go. *)
From Stdlib Require Import Ascii.
From S2P Require Import Prelude Constants GoStrings GoNet Corev1 Netlink Kernel Frames Rpdb Fou EgressNat Peers FouPeers AgentSetup Agent PodSteering PodWatcher EgressPod.

(** ** The client table as a set of routes *)
Lemma client_route_inj f a i b j : client_route f (a, i) = client_route f (b, j) → a = b ∧ i = j.
Proof. by intros [= -> ->]. Qed.

Section table.
Context (f : family) (m : gmap IP Z) (n : Net) (Hrep : clients_rep f m n).

Lemma clients_rep_route r : r ∈ pf_get f (routes n) → kt_Table r = egressTableID →
  ∃ a i, r = client_route f (a, i) ∧ m !! a = Some i.
Proof using Hrep.
  destruct Hrep as (lc & Ht & Hnd & _ & <-). intros Hr Htab.
  assert (r ∈ client_route f <$> lc) as ([a i] & -> & Hin)%list_elem_of_fmap by (rewrite <-Ht; by apply list_elem_of_filter).
  exists a, i. split; [done|]. by apply elem_of_list_to_map_1.
Qed.

Lemma clients_rep_elem a i : m !! a = Some i ↔ client_route f (a, i) ∈ pf_get f (routes n).
Proof using Hrep.
  split.
  - destruct Hrep as (lc & Ht & Hnd & _ & <-). intros Hin%elem_of_list_to_map_2.
    assert (client_route f (a, i) ∈ in_table egressTableID (pf_get f (routes n))) as [_ ?]%list_elem_of_filter; [|done].
    rewrite Ht. by apply list_elem_of_fmap_2.
  - intros Hr. by destruct (clients_rep_route _ Hr eq_refl) as (b & j & [-> ->]%client_route_inj & ?).
Qed.

Lemma clients_rep_ext n' : pf_get f (routes n') = pf_get f (routes n) → clients_rep f m n'.
Proof using Hrep. intros E. destruct Hrep as (lc & H). exists lc. by rewrite E. Qed.

(** Routes over deleted links leave the table. *)
Lemma clients_rep_flush gone : ∃ m', clients_rep f m' (flush gone n) ∧
  ∀ a i, m' !! a = Some i ↔ m !! a = Some i ∧ i ∉ gone.
Proof using Hrep.
  destruct Hrep as (lc & Ht & Hnd & Hw & <-). set (lc' := filter (λ c, c.2 ∉ gone) lc).
  assert (Hnd' : NoDup lc'.*1).
  { eapply sublist_NoDup; [exact Hnd|]. apply fmap_sublist, sublist_filter. }
  exists (list_to_map lc'). split.
  - exists lc'. split; [|split; [done|split; [|done]]].
    + assert (E : in_table egressTableID (pf_get f (routes (flush gone n))) =
        filter (λ r, kt_LinkIndex r ∉ gone) (client_route f <$> lc)).
      { rewrite <-Ht, routes_flush. unfold in_table. rewrite !list_filter_filter. apply list_filter_iff. intros r. tauto. }
      rewrite E. unfold lc'. clear. induction lc as [|[a i] lc IH]; [done|]. rewrite fmap_cons, !filter_cons. simpl. case_decide; simpl; by rewrite IH.
    + apply Forall_forall. intros c [_ Hc]%list_elem_of_filter. rewrite Forall_forall in Hw. by apply Hw.
  - intros a i. rewrite <-!elem_of_list_to_map by done. unfold lc'. rewrite list_elem_of_filter. naive_solver.
Qed.
End table.

(** ** What the namespace holds while the watcher runs

    Since the state [n0] the watcher started from: no route leads over a device
    the tunnel component juggles with; every tunnel device was made for a client;
    every entry of the client table points to the device of its client; rules and
    other routes are those of [n0], up to routes that went with a device. *)
Definition served (n : Net) (ip : IP) : Prop :=
  ∃ i, client_route (addr_family ip) (canonIP ip, i) ∈ pf_get (addr_family ip) (routes n).

Definition at_device (n : Net) (a : IP) (i : Z) : Prop := ∃ l, links n !! fouName a = Some l ∧ Index l = i.

Record paths (t : fouTunnel) (good : IP → Prop) (n0 n : Net) : Prop := {
  paths_quiet : quiet aux n;
  paths_links : ∀ k l, is_fou k = true → links n !! k = Some l → ∃ a idx, good a ∧ fouName a = k ∧ l = peer_link t a idx;
  paths_table : ∀ f, ∃ m, clients_rep f m n ∧ ∀ a i, m !! a = Some i → at_device n a i;
  paths_rules : rules n = rules n0;
  paths_fous : fous n = fous n0;
  paths_routes : ∀ f r, r ∈ pf_get f (routes n) → kt_Table r ≠ egressTableID → r ∈ pf_get f (routes n0) }.

Lemma fouName_is_fou a : is_fou (fouName a) = true.
Proof. apply is_fou_prefixed, fouName_prefixed. Qed.

Lemma served_route t good n0 n ip : paths t good n0 n → served n ip ↔
  ∃ m i, clients_rep (addr_family ip) m n ∧ m !! canonIP ip = Some i ∧ at_device n ip i.
Proof.
  intros HP. destruct (paths_table _ _ _ _ HP (addr_family ip)) as (m & Hm & Hd). split.
  - intros [i Hi]. apply (clients_rep_elem _ _ _ Hm) in Hi. exists m, i. split; [done|]. split; [done|].
    specialize (Hd _ _ Hi). unfold at_device in *. by rewrite fouName_canonIP in Hd.
  - intros (m' & i & Hm' & Hi & _). exists i. by apply (clients_rep_elem _ _ _ Hm').
Qed.

(** *** [AddPeer] *)
Lemma paths_add t (good : IP → Prop) n0 a n o n' : good a → add_post t a n o n' → paths t good n0 n →
  paths t good n0 n' ∧ ∀ b, served n b → served n' b.
Proof.
  intros Hg (Hf & _ & Hold & Hnew & _) [Hq Hl Hm Hr Hfo Hrt].
  destruct (links n !! fouName a) as [l|] eqn:E; [by destruct (Hold l eq_refl) as [-> _]|]. specialize (Hnew eq_refl).
  destruct (frame_quiet _ _ _ Hf) as [Hq' Heq]; [by apply quiet_absent|]. destruct Hf as [_ Hf].
  assert (Erl : rules n' = rules n) by by rewrite Heq. assert (Efo : fous n' = fous n) by by rewrite Heq. assert (Ert : routes n' = routes n) by by rewrite Heq. clear Heq.
  split; [|intros b; unfold served; by rewrite Ert]. split.
  - eapply quiet_mono; [|exact Hq']. set_solver.
  - intros k l Hk Hkl. destruct (decide (k = fouName a)) as [->|Hne].
    + destruct (Hnew l Hkl) as [idx ->]. by exists a, idx.
    + apply Hl; [done|]. rewrite <-Hf; [done|]. apply is_fou_prefixed in Hk.
      intros [?%elem_of_singleton|?%aux_not_prefixed]%elem_of_union; done.
  - intros f. destruct (Hm f) as (m & Hrep & Hd). exists m. split; [apply (clients_rep_ext f m n Hrep); by rewrite Ert|].
    intros b i Hb. destruct (Hd b i Hb) as (lb & Hlb & <-). exists lb. split; [|done]. rewrite Hf; [done|].
    intros [Heq%elem_of_singleton|?%fouName_not_aux]%elem_of_union; [congruence|done].
  - by rewrite Erl.
  - by rewrite Efo.
  - rewrite Ert. done.
Qed.

(** *** [AddClient] *)
Lemma paths_client t good n0 a lk m n n' : let f := addr_family a in
  paths t good n0 n → links n !! fouName a = Some lk → clients_rep f m n →
  clients_rep f (add_client (canonIP a) (Index lk) m) n' → routes_appended f n n' →
  paths t good n0 n' ∧ (∀ b, served n b → served n' b) ∧ served n' a.
Proof.
  intros f [Hq Hl Hm Hr Hfo Hrt] Hlk Hrep Hrep' Happ.
  destruct (Hm f) as (m0 & Hrep0 & Hd0).
  assert (Hd : ∀ b i, m !! b = Some i → at_device n b i).
  { intros b i Hb. apply Hd0, (clients_rep_elem _ _ _ Hrep0). by apply (clients_rep_elem _ _ _ Hrep). }
  assert (links n' = links n ∧ rules n' = rules n ∧ ∀ g, g ≠ f → pf_get g (routes n') = pf_get g (routes n)) as (Elk & Erl & Eoth).
  { destruct Happ as (l & -> & _). split_and!; [done..|]. intros g Hg. by destruct f, g. }
  assert (Hsub : ∀ g r, r ∈ pf_get g (routes n) → r ∈ pf_get g (routes n')).
  { intros g r Hin. destruct (decide (g = f)) as [->|Hne]; [|by rewrite Eoth].
    destruct Happ as (l & -> & _). rewrite routes_set_routes, pf_get_set_eq. apply elem_of_app. by left. }
  assert (Hd' : ∀ b i, add_client (canonIP a) (Index lk) m !! b = Some i → at_device n' b i).
  { intros b i. unfold at_device. rewrite Elk. unfold add_client. destruct (m !! canonIP a) eqn:E; [apply Hd|].
    intros [[<- <-]|[_ Hb]]%lookup_insert_Some; [|by apply Hd]. exists lk. by rewrite fouName_canonIP. }
  assert (Htab : ∀ g, ∃ m, clients_rep g m n' ∧ ∀ b i, m !! b = Some i → at_device n' b i).
  { intros g. destruct (decide (g = f)) as [->|Hne]; [by eexists|]. destruct (Hm g) as (mg & Hg & Hdg).
    exists mg. split; [apply (clients_rep_ext g mg n Hg); by apply Eoth|]. intros b i Hb. unfold at_device. rewrite Elk. by apply Hdg. }
  split; [split|split].
  - destruct Hq as [Hu Hq]. split; [by rewrite Elk|]. intros g r Hin (k & l & Hk & Hkl & Hi). rewrite Elk in Hkl.
    destruct (decide (kt_Table r = egressTableID)) as [Ht|Ht].
    + destruct (Htab g) as (mg & Hg & Hdg). destruct (clients_rep_route _ _ _ Hg r Hin Ht) as (b & i & -> & Hb).
      destruct (Hdg b i Hb) as (lb & Hlb & Hib). rewrite Elk in Hlb. simpl in Hi.
      assert (k = fouName b) as -> by (eapply Hu; [exact Hkl|exact Hlb|congruence]). by apply fouName_not_aux in Hk.
    + apply (Hq g r); [by eapply routes_appended_other|]. by exists k, l.
  - rewrite Elk. done.
  - done.
  - by rewrite Erl.
  - rewrite <-Hfo. by destruct Happ as (l & -> & _), f.
  - intros g r Hin Ht. apply Hrt; [|done]. by eapply routes_appended_other.
  - intros b [i Hi]. exists i. by apply Hsub.
  - unfold served. fold f. assert (∃ i, add_client (canonIP a) (Index lk) m !! canonIP a = Some i) as [i Hi].
    { unfold add_client. destruct (m !! canonIP a) as [i|] eqn:E; [by exists i|]. exists (Index lk). by rewrite lookup_insert_eq. }
    exists i. by apply (clients_rep_elem _ _ _ Hrep').
Qed.

(** *** [DelPeer] *)
Lemma paths_del t good n0 a n : paths t good n0 n →
  paths t good n0 (del_link (fouName a) n) ∧
  ∀ b, served n b → fouName b ≠ fouName a → served (del_link (fouName a) n) b.
Proof.
  intros HP. destruct (links n !! fouName a) as [l|] eqn:E; [|by rewrite del_link_absent].
  pose proof HP as [[Hu Hq] Hl Hm Hr Hfo Hrt]. unfold del_link. rewrite E.
  set (n' := set_links _ _).
  assert (Hin : ∀ f r, r ∈ pf_get f (routes n') ↔ kt_LinkIndex r ∉ ({[Index l]} : gset Z) ∧ r ∈ pf_get f (routes n)).
  { intros f r. change (routes n') with (routes (flush {[Index l]} n)). rewrite routes_flush. rewrite list_elem_of_filter. done. }
  assert (Hlinks : ∀ k l', links n' !! k = Some l' ↔ fouName a ≠ k ∧ links n !! k = Some l') by (intros k l'; apply lookup_delete_Some).
  split.
  - split.
    + split; [by apply uniq_delete|]. intros f r Hr' (k & l' & Hk & Hkl & Hi). apply (Hin f r) in Hr' as [_ Hr'].
      apply Hlinks in Hkl as [_ Hkl]. apply (Hq f r Hr'). by exists k, l'.
    + intros k l' Hk Hkl. apply Hlinks in Hkl as [_ Hkl]. by apply Hl.
    + intros f. destruct (Hm f) as (m & Hrep & Hd). destruct (clients_rep_flush f m n Hrep {[Index l]}) as (m' & Hrep' & Hm').
      exists m'. split; [exact Hrep'|]. intros b i [Hb Hi]%Hm'. destruct (Hd b i Hb) as (lb & Hlb & Hib).
      exists lb. split; [|done]. apply Hlinks. split; [|done]. intros Heq. apply Hi, elem_of_singleton. congruence.
    + done.
    + done.
    + intros f r Hr' Ht. apply (Hin f r) in Hr' as [_ Hr']. by apply Hrt.
  - intros b Hs Hne. apply (served_route _ _ _ _ b HP) in Hs as (m & i & Hrep & Hi & lb & Hlb & Hib).
    exists i. apply Hin. split; [|by apply (clients_rep_elem _ _ _ Hrep)]. simpl. intros ->%elem_of_singleton.
    apply Hne. by eapply Hu.
Qed.

(** ** The watcher keeps it *)
Section watcher.
#[local] Set Default Proof Using "Type*".
Context {W : Type} `{!HostOps W, !HostLaws W}.
Context (t : fouTunnel) (e : egress) (good : IP → Prop) (n0 : Net).
Context (Hgood : ∀ a, good a → wf_ip a ∧ a ≠ []).
#[local] Instance pod_peers : PeerOps W := fou_peers t e.
#[local] Instance pod_peers_laws : PeerLaws W := fou_peers_laws t e.

Lemma addIP_paths ip (p : PW (W := W)) : good ip → paths t good n0 (view p.2) → wp (addIP [] ip) (λ o p', no_panic o ∧
  p'.1 = p.1 ∧ paths t good n0 (view p'.2) ∧ (∀ a, served (view p.2) a → served (view p'.2) a) ∧
  (o = Ok tt → supported ip = true → served (view p'.2) ip)) p.
Proof.
  intros Hg HP. unfold addIP. cbn [existsb]. apply wp_bind, wp_attempt, wp_on_host. simpl.
  assert (H : wp (Fou.AddPeer t ip) (λ o w', add_post t ip (view p.2) o (view w') ∧ (peer_local t ip ≠ [] → foreign o)) p.2).
  { apply wp_and; [apply wp_AddPeer|]. unfold wp. exact (foreign_AddPeer t ip p.2). }
  eapply wp_mono; [exact H|]. clear H. intros o w1 [Hpost Hfor]. destruct (paths_add _ _ _ _ _ _ _ Hg Hpost HP) as [HP1 Hs1].
  destruct o as [lk|err|m]; simpl in *; [| |by destruct Hpost as (_ & _ & _ & _ & [])].
  - apply wp_on_host. simpl. destruct Hpost as (_ & _ & _ & _ & Hlk).
    destruct (paths_table _ _ _ _ HP1 (addr_family ip)) as (m & Hm & _). destruct (Hgood ip Hg) as [Hw Hne].
    eapply wp_mono; [apply (@wp_AddClient W _ _ unreliable e ip lk m w1 Hw Hne Hm)|]. intros o w2 (_ & Ho & _).
    destruct o as [[]|err|s]; simpl in *; [|rewrite Ho; by split_and!|done]. destruct Ho as [Hm2 Happ].
    destruct (paths_client _ _ _ _ _ _ _ _ HP1 Hlk Hm Hm2 Happ) as (HP2 & Hs2 & Hip). split_and!; auto.
  - destruct (is_mismatch err) eqn:E; [apply wp_ret|apply wp_throw]; simpl; split_and!; auto; [|done].
    intros _ Hs. apply negb_true_iff, bool_decide_eq_false in Hs. specialize (Hfor Hs). unfold is_mismatch in E. congruence.
Qed.

Lemma DelPeer_paths ip (w : W) : paths t good n0 (view w) → wp (ft_DelPeer ip) (λ o w', no_panic o ∧ paths t good n0 (view w') ∧
  ∀ a, served (view w) a → (o = Ok tt → tunnel_name a ≠ tunnel_name ip) → served (view w') a) w.
Proof.
  intros HP. simpl. eapply wp_mono; [apply wp_DelPeer|]. intros o w' Ho.
  destruct o as [[]|err|m]; simpl in *; [|by rewrite Ho|done]. rewrite Ho.
  destruct (paths_del t good n0 ip (view w) HP) as [HP' Hs]. split_and!; auto.
Qed.

Lemma reachable_paths ns name (w : W) s :
  (∀ a b, good a → good b → fouName a = fouName b → canonIP a = canonIP b) →
  paths t good n0 (view w) → reachable good ns name w s →
  paths t good n0 (view s.1.2) ∧
  ∀ key ip, live s key ip → good ip ∧ (supported ip = true → served (view s.1.2) ip).
Proof.
  intros Hname HP Hr.
  assert (HI : inv good (λ w, paths t good n0 (view w)) (λ w, served (view w)) s).
  { apply (inv_reachable _ _ _) with ns name w; try done.
  - intros a b Ha Hb Hn. apply IP_Equal_canon; [apply Hgood, Ha|apply Hgood, Hb|]. by apply Hname.
  - intros ip p. apply addIP_paths.
  - intros ip w' _. apply DelPeer_paths. }
  split; [apply HI|]. intros key ip Hl. split; [|by apply (inv_has _ _ _ _ HI key)].
  by apply (inv_live_known _ _ _ _ _ _ HI (proj1 Hl)).
Qed.
End watcher.

(** ** How the namespace looks when the watcher starts *)
Definition fresh_pod (n : Net) : Prop :=
  quiet aux n ∧ no_tunnels n ∧ links n !! fouDummy = None ∧ links n !! egressDummy = None ∧
  ∀ f, in_table egressTableID (pf_get f (routes n)) = [].

Lemma brought_up t e good n n1 n2 : fresh_pod n → tunnel_up t n n1 → nat_up e n1 n2 →
  paths t good n2 n2 ∧ ∀ f, own_addr e f ≠ [] →
    pf_get f (rules n2) = rule_insert (canon_rule (newRule e f)) (pf_get f (rules n)) ∧
    pf_get f (routes n2) = pf_get f (routes n) ∧ fous n2 = fous n1.
Proof.
  intros (Hq & Hnt & Hfd & Hed & Htab) Ht Hn.
  pose proof (tunnel_quiet t n n1 Ht Hq) as Hq1. pose proof (tunnel_rules_kept t n n1 Ht) as Hk.
  assert (Hl1 : ∀ k, k ∉ ({[fouDummy]} ∪ aux : gset string) → links n1 !! k = links n !! k).
  { intros k Hk1. destruct Ht as [[-> _]|(_ & ls & idx & -> & _ & [_ Hf] & _)]; [done|by apply Hf]. }
  assert (Hed1 : links n1 !! egressDummy = None) by (rewrite Hl1; [done|by vm_compute]).
  destruct Hn as [[-> [x Hx]]|(_ & ls & idx & -> & _ & Hf)]; [congruence|].
  assert (Ert : routes (init_net e n1) = routes n1) by (unfold init_net; by repeat case_bool_decide).
  assert (Hq2 : quiet ({[egressDummy]} ∪ fallback_names) n1).
  { eapply quiet_mono; [|by apply (quiet_absent aux egressDummy)]. pose proof fallback_aux. set_solver. }
  split; [split|].
  - apply (quiet_ext _ (set_links ls n1)); [done|by simpl; rewrite Ert|].
    destruct (frame_quiet ({[egressDummy]} ∪ aux) n1 (set_links ls n1)) as [Hq3 _].
    + eapply frame_mono; [exact Hf|]. pose proof fallback_aux. set_solver.
    + by apply quiet_absent.
    + eapply quiet_mono; [|exact Hq3]. set_solver.
  - intros k l Hfk Hkl. exfalso. apply is_fou_prefixed in Hfk. destruct Hf as [_ Hf]. simpl in Hf, Hkl.
    rewrite Hf, Hl1, Hnt in Hkl; [done|done| |].
    + intros [->%elem_of_singleton|?%aux_not_prefixed]%elem_of_union; [|done]. by destruct Hfk as [s [?|?]].
    + intros [->%elem_of_singleton|?%fallback_aux%aux_not_prefixed]%elem_of_union; [|done]. by destruct Hfk as [s [?|?]].
  - intros f. exists ∅. split; [|intros a i Hi; by rewrite lookup_empty in Hi]. exists [].
    simpl. rewrite Ert, (proj2 (Hk f)), Htab. split_and!; [done|constructor|constructor|done].
  - done.
  - done.
  - done.
  - intros f Hown. simpl. destruct (init_net_rules e f n1 Hown) as [-> ->]. destruct (Hk f) as [-> ->].
    split_and!; [done..|]. unfold init_net. by repeat case_bool_decide.
Qed.

Lemma peer_link_canon t a b idx : canonIP a = canonIP b → fouName a = fouName b → peer_link t a idx = peer_link t b idx.
Proof.
  intros Hc Hn. pose proof (fouName_family _ _ Hn) as Hfam. unfold peer_link, peer_kind, peer_local, is4. rewrite Hc, Hn.
  by rewrite (bool_decide_ext _ _ Hfam).
Qed.

Lemma peer_local_own port v4 v6 a : peer_local (pod_tunnel port v4 v6) a = own_addr (pod_egress v4 v6) (addr_family a).
Proof. unfold peer_local, own_addr, is4, addr_family, net_family. simpl. by repeat case_bool_decide. Qed.

(** ** On a working host *)
Section working.
#[local] Set Default Proof Using "Type*".
Context {W : Type} `{!HostOps W, !HostLaws W, !HostReliable W}.
Context (t : fouTunnel) (e : egress) (good : IP → Prop) (n0 : Net).
Context (Hgood : ∀ a, good a → wf_ip a ∧ a ≠ []).
Context (Hown : ∀ a, peer_local t a ≠ [] → own_addr e (addr_family a) ≠ []).
#[local] Instance work_peers : PeerOps W := fou_peers t e.

Definition works (w : W) : Prop := paths t good n0 (view w) ∧ healthy w ∧ fallbacks_ok (links (view w)).

Lemma addIP_works existing ip (p : PW (W := W)) : good ip → works p.2 → wp (addIP existing ip) (λ o p', o = Ok tt ∧ works p'.2) p.
Proof.
  intros Hg (HP & Hh & Hf). unfold addIP. destruct (existsb _ existing); [by apply wp_ret|].
  apply wp_bind, wp_attempt, wp_on_host. simpl. destruct (decide (peer_local t ip = [])) as [Hl|Hl].
  { rewrite AddPeer_eq, bool_decide_eq_true_2 by done. apply wp_throw. simpl. by apply wp_ret. }
  eapply wp_mono; [apply (hspec_AddPeer_post t ip p.2 Hl Hf Hh)|]. intros o w1 (lk & -> & [Hpost Hf1] & Hh1). simpl.
  destruct (paths_add _ _ _ _ _ _ _ Hg Hpost HP) as [HP1 _]. destruct Hpost as (_ & _ & _ & _ & Hlk). apply wp_on_host. simpl.
  destruct (paths_table _ _ _ _ HP1 (addr_family ip)) as (m & Hm & _). destruct (Hgood ip Hg) as [Hw Hne].
  eapply wp_mono; [apply wp_and; [apply (wp_AddClient e ip lk m w1 Hw Hne Hm)|apply (AddClient_links e ip lk w1)]|].
  intros o w2 [(_ & Ho & Hr) [El _]]. destruct (Hr (Hown ip Hl) (λ _, ex_intro _ _ (ex_intro _ _ (conj Hlk eq_refl))) Hh1) as [-> Hh2]. destruct Ho as [Hm2 Happ].
  destruct (paths_client _ _ _ _ _ _ _ _ HP1 Hlk Hm Hm2 Happ) as (HP2 & _). split; [done|]. unfold works. simpl. by rewrite El.
Qed.

Lemma dropIP_works ips eip (p : PW (W := W)) : works p.2 → wp (dropIP ips eip) (λ o p', o = Ok tt ∧ works p'.2) p.
Proof.
  intros (HP & Hh & Hf). unfold dropIP. destruct (existsb _ ips); [by apply wp_ret|]. apply wp_on_host. simpl.
  eapply wp_mono; [apply wp_and; [apply (hspec_DelPeer eip p.2 Hf Hh)|apply (DelPeer_paths t e good n0 Hgood eip p.2 HP)]|].
  intros o w1 [([] & -> & ? & ?) (_ & ? & _)]. by split; [|split_and!].
Qed.

Lemma addPod_works pod (p : PW (W := W)) : Forall good (pod_addrs pod) → works p.2 →
  wp (addPod pod) (λ o p', o = Ok tt ∧ works p'.2 ∧ podAddrs p'.1 !! key_of pod = Some (pod_addrs pod)) p.
Proof.
  intros Hg Hw. unfold addPod. apply wp_bind, wp_get_watcher. simpl. fold (key_of pod) (pod_addrs pod).
  set (existing := default [] (podAddrs p.1 !! key_of pod)) in *.
  apply wp_bind. eapply wp_mono.
  { apply (wp_for_each (addIP existing) (λ l p', Forall good l ∧ works p'.2) (λ o p', o = Ok tt ∧ works p'.2)); [done| |by intros p' [_ ?]].
    intros ip l p' [[Hip Hl]%Forall_cons Hw']. eapply wp_mono; [by apply addIP_works|]. by intros o p'' [-> ?]. }
  intros o p1 [-> Hw1]. simpl. apply wp_bind. eapply wp_mono.
  { apply (wp_for_each (dropIP (pod_addrs pod)) (λ _ p', works p'.2) (λ o p', o = Ok tt ∧ works p'.2)); [done| |by intros p' ?].
    intros eip l p' Hw'. eapply wp_mono; [by apply dropIP_works|]. by intros o p'' [-> ?]. }
  intros o p2 [-> Hw2]. simpl. apply wp_bind, wp_modify_watcher. simpl. apply wp_bind, wp_modify_watcher. simpl. apply wp_modify_watcher.
  split; [done|]. split; [done|]. simpl. apply lookup_insert_eq.
Qed.
End working.

(** ** From the start of the pod *)
Record pod_runs `{!HostOps W, !HostLaws W} (t : fouTunnel) (e : egress) (good : IP → Prop) (w0 : W) (s : sys (W := W)) : Prop := {
  runs_paths : ∃ n0, paths t good n0 (view s.1.2) ∧ ∀ f, own_addr e f ≠ [] →
    pf_get f (rules n0) = rule_insert (canon_rule (newRule e f)) (pf_get f (rules (view w0))) ∧
    pf_get f (routes n0) = pf_get f (routes (view w0)) ∧ ∃ n1, tunnel_up t (view w0) n1 ∧ fous n0 = fous n1;
  runs_live : ∀ key ip, live s key ip → good ip ∧ (peer_local t ip ≠ [] → served (view s.1.2) ip) }.

(** The replies to [ip] take the tunnel to it. *)
Definition returns (t : fouTunnel) (e : egress) (n : Net) (ip : IP) : Prop :=
  ∃ idx, links n !! fouName ip = Some (peer_link t ip idx) ∧
    route_from e (addr_family ip) ip n = Some (client_route (addr_family ip) (canonIP ip, idx)).

Section from_start.
#[local] Set Default Proof Using "Type*".
Context {W : Type} `{!HostOps W, !HostLaws W}.
Context (Getenv : string → string) (mgr : mgr_calls) (port : Z) (good : IP → Prop).
Let l := Split (Getenv EnvAddresses) ","%char.
Let t := pod_tunnel port (last_v4 [] l) (last_v6 [] l).
Let e := pod_egress (last_v4 [] l) (last_v6 [] l).
Context (Hgood : ∀ a, good a → wf_ip a ∧ a ≠ []).
Context (Hname : ∀ a b, good a → good b → fouName a = fouName b → canonIP a = canonIP b).

Lemma started_runs r (w0 w : W) s : mgr_sound mgr → fresh_pod (view w0) →
  prepare Getenv mgr port w0 = (Ok r, w) → rtc (@step W (fou_peers t e) good) (r, w, no_past) s → pod_runs t e good w0 s.
Proof.
  intros Hm Hfresh Hmain Hr. pose proof (wp_prepare Getenv mgr port w0 Hm) as Hs. unfold wp in Hs. rewrite Hmain in Hs.
  destruct Hs as (_ & -> & _ & n1 & Ht & Hn). simpl in Ht, Hn. fold l in Ht, Hn. fold t in Ht. fold e in Hn.
  destruct (brought_up t e good _ _ _ Hfresh Ht Hn) as [HP Hrules].
  destruct (reachable_paths t e good _ Hgood _ _ w s Hname HP Hr) as [HPs Hlives].
  split; [exists (view w); split; [done|]; intros f Hf; destruct (Hrules f Hf) as (? & ? & ?); eauto 6|].
  intros key ip Hl. destruct (Hlives key ip Hl) as [Hg Hs]. split; [done|].
  intros Hloc. apply Hs, negb_true_iff, bool_decide_eq_false. done.
Qed.

Lemma runs_return (w0 : W) s key ip : pod_runs t e good w0 s → live s key ip → peer_local t ip ≠ [] →
  unclaimed_from e (addr_family ip) ip (view w0) → returns t e (view s.1.2) ip.
Proof.
  intros [(n0 & HPs & Hrules) Hlives] Hlive Hloc Hq. destruct (Hlives key ip Hlive) as [Hg Hserved].
  apply (served_route _ _ _ _ _ HPs) in Hserved as (m & i & Hrep & Hi & lk & Hlk & <-); [|done].
  destruct (paths_links _ _ _ _ HPs _ lk (fouName_is_fou ip) Hlk) as (a & idx & Ha & Hna & ->).
  exists idx. split; [by rewrite <-(peer_link_canon t a ip idx (Hname a ip Ha Hg Hna) Hna)|].
  assert (Hown : own_addr e (addr_family ip) ≠ []) by (unfold e; by rewrite <-(peer_local_own port)).
  destruct (Hrules _ Hown) as (Hru & Hro & _). destruct (Hgood ip Hg) as [Hw Hne].
  apply (route_from_clients e _ ip m (view w0)); try done.
  - by rewrite (paths_rules _ _ _ _ HPs), Hru.
  - intros x Hx Hxt. rewrite <-Hro. by apply (paths_routes _ _ _ _ HPs).
Qed.
End from_start.

(** ** Properties *)
(** C6: in an egress pod that started in a new namespace, after any sequence of
    reconciliations, whichever calls failed and however pods changed: the replies to
    every live address of a client, of a family the egress pod has an address of,
    take the tunnel to exactly that address.  An address of a tracked pod is live
    unless a deletion of the pod has begun and not ended, or its tunnel was stolen
    ([PodWatcher.stolen]: another pod with the address lost it, or an addition
    failed, and nobody got the address since).  Provided no two clients share a
    tunnel name and no rule in front claims the replies. *)
Theorem client_return_paths {W} `{!HostOps W, !HostLaws W} Getenv mgr port (good : IP → Prop) r (w0 w : W) s :
  let l := Split (Getenv EnvAddresses) ","%char in
  let t := pod_tunnel port (last_v4 [] l) (last_v6 [] l) in let e := pod_egress (last_v4 [] l) (last_v6 [] l) in
  (∀ a, good a → wf_ip a ∧ a ≠ []) →
  (∀ a b, good a → good b → fouName a = fouName b → canonIP a = canonIP b) →
  mgr_sound mgr → fresh_pod (view w0) → prepare Getenv mgr port w0 = (Ok r, w) →
  rtc (@step W (fou_peers t e) good) (r, w, no_past) s →
  ∀ key ip, live s key ip → peer_local t ip ≠ [] → unclaimed_from e (addr_family ip) ip (view w0) →
  returns t e (view s.1.2) ip.
Proof.
  intros l t e Hgood Hname Hm Hfresh Hmain Hr key ip Hlive. eapply runs_return; [done|done| |done].
  by eapply started_runs.
Qed.

(** ** Witness

    The pods a and b have one address.  Pod a is seen before it has it; adding it
    then fails in [AddPeer] and is retried, b is added, a is deleted and b gets
    another address; the replies to it take the new tunnel. *)
Section witness.
Definition gw_env : list string := Split (sample_env EnvAddresses) ","%char.
Definition gw_tunnel : fouTunnel := pod_tunnel 5555 (last_v4 [] gw_env) (last_v6 [] gw_env).
Definition gw_egress : egress := pod_egress (last_v4 [] gw_env) (last_v6 [] gw_env).
#[local] Instance gw_ops : PeerOps host := fou_peers gw_tunnel gw_egress.

(** The second library call after the start fails. *)
Definition gw_host : host := host_with (replicate 23 false ++ [true]) (h_net new_pod).
Definition gw_start : host := (prepare sample_env healthy_mgr 5555 gw_host).2.
Definition pod_pending : Pod := sample_pod "a" [].
Definition pod_b' : Pod := sample_pod "b" ["10.1.2.4"].
Definition gw_end : sys (W := host) := react_all
  (((λ pod, (inl pod, ("", ""))) <$> [pod_pending; pod_a; pod_a; pod_b]) ++
     [(inr (ErrAPINotFound ""), ("default", "a")); (inl pod_b', ("", ""))])
  (SetupPodWatcher "internet" "nat", gw_start, no_past).

Lemma good4_wf a : good4 a → wf_ip a ∧ a ≠ [].
Proof. intros [? H]. split; [done|]. by intros ->. Qed.
Lemma good4_canon a b : good4 a → good4 b → fouName a = fouName b → canonIP a = canonIP b.
Proof. intros [Ha H4a] [Hb H4b]. by apply fouName_v4_inj. Qed.

Lemma gw_fresh : fresh_pod (view gw_host).
Proof.
  split; [exact (proj2 new_pod_ok)|]. split.
  - intros k [x Hk]. simpl. apply lookup_singleton_None. intros <-. by destruct Hk.
  - split; [by vm_compute|]. split; [by vm_compute|]. by intros [].
Qed.

Lemma gw_reaches : rtc (step good4) (SetupPodWatcher "internet" "nat", gw_start, no_past) gw_end.
Proof.
  apply react_steps. simpl. rewrite !Forall_cons, Forall_nil. split_and!; [..|done]; simpl; intros ? [= <-];
    (by apply Forall_nil) || (apply Forall_singleton, good4_pod; by vm_compute).
Qed.

Definition client : IP := ParseIP "10.1.2.3".
Lemma gw_unclaimed x : unclaimed_from gw_egress V4 x (view gw_host).
Proof.
  intros k Hk Hp _ _. apply elem_of_cons in Hk as [->|Hk]; [done|].
  apply list_elem_of_singleton in Hk as ->. by destruct Hp.
Qed.

Lemma gw_main : prepare sample_env healthy_mgr 5555 gw_host = (Ok (SetupPodWatcher "internet" "nat"), gw_start).
Proof. by vm_compute. Qed.

Definition client' : IP := ParseIP "10.1.2.4".
Lemma client_return_paths_witness :
  (prepare sample_env healthy_mgr 5555 gw_host).1 = Ok (SetupPodWatcher "internet" "nat") ∧
  returns gw_tunnel gw_egress (view gw_end.1.2) client'.
Proof.
  split; [by rewrite gw_main|].
  assert (Hlive : live gw_end "default/b" client').
  { split; [split; [apply (bool_decide_unpack _); by vm_compute|exists [client']; split; [by vm_compute|left]]|].
    apply (bool_decide_unpack _); by vm_compute. }
  exact (client_return_paths sample_env healthy_mgr 5555 good4 _ gw_host gw_start gw_end good4_wf good4_canon (conj I I) gw_fresh gw_main
    gw_reaches "default/b" client' Hlive ltac:(by vm_compute) (gw_unclaimed client')).
Defined.

End witness.
