(* ===== verification/EgressRetries.v ===== *)
(** * An egress pod on a host whose failures pass

    [EgressPaths.v] says what holds in every state the pod reaches, whatever
    fails.  Here failures are finite in number ([HostTransient]): each failed
    addition of a client uses one up, so additions stop failing, and retrying one
    ends with the client served. *)
From Stdlib Require Import Ascii.
From S2P Require Import Prelude Constants GoStrings GoNet Corev1 Netlink Kernel Transient Frames Rpdb Fou EgressNat Peers FouPeers AgentSetup Agent PodSteering PodWatcher EgressPod EgressPaths.

(** ** The fallback devices, whatever fails

    [fallbacks_ok] is what a working host needs to add a tunnel. *)
Section fallbacks.
#[local] Set Default Proof Using "Type*".
Context {W : Type} `{!HostOps W, !HostLaws W}.
Implicit Types w : W.

Let fine : outcome () → W → Prop := λ _ w, fallbacks_ok (links (view w)).

Lemma fallbacks_LinkAdd d w : Name d ∉ takeover_names → fallbacks_ok (links (view w)) → wp (LinkAdd d) fine w.
Proof.
  intros Hd Hok. eapply wp_mono; [apply law_LinkAdd|]. intros o w' (fb & Hfb & Ho). unfold fine.
  pose proof (fallbacks_ok_union _ _ Hfb Hok) as Hu. destruct o as [[]|e|s]; simpl in Ho; [|by rewrite Ho|done].
  destruct Ho as (_ & idx & _ & ->). by apply fallbacks_ok_insert.
Qed.

Lemma fallbacks_setupDevice d w : Name d ∉ takeover_names → fallbacks_ok (links (view w)) → wp (setupDevice d) fine w.
Proof.
  intros Hd Hok. unfold setupDevice, configureDevice, fine. apply wp_bind, wp_attempt.
  eapply wp_mono; [apply law_LinkByName|]. intros r w1 [Hv Hr].
  assert (Hup : ∀ l w, links (view w) !! Name d = Some l ∧ Name l = Name d → fallbacks_ok (links (view w)) →
    wp (wrapping ("failed to set up device " +:+ Name l +:+ ": %w")
      (wrapping ("netlink: failed to set link " +:+ Name l +:+ " up: %w") (LinkSetUp l))) fine w).
  { intros l w0 [Hl Hn] Hok0. apply wp_wrapping, wp_wrapping. eapply wp_mono; [apply law_LinkSetUp; congruence|].
    intros o w2 Ho. unfold fine. destruct o as [[]|e|s]; simpl in Ho; [|by rewrite Ho|done].
    rewrite Ho. apply fallbacks_ok_insert; [by rewrite Hn|done]. }
  rewrite <-Hv in Hok, Hr. destruct r as [l|e|s]; simpl; [|clear Hr|done].
  - apply wp_bind, wp_ret. simpl. by apply Hup.
  - apply wp_bind, wp_bind, wp_wrapping. eapply wp_mono; [by apply fallbacks_LinkAdd|].
    intros o w2 Hok2. destruct o as [[]|e'|s]; simpl; [|done..]. apply wp_wrapping.
    eapply wp_mono; [apply law_LinkByName|]. intros o w3 [Hv3 Ho]. unfold fine in Hok2. rewrite <-Hv3 in Hok2, Ho.
    destruct o as [l|e'|s]; simpl; [by apply Hup|done..].
Qed.

Lemma fallbacks_removeDevice k w : k ∉ takeover_names → fallbacks_ok (links (view w)) → wp (removeDevice k) fine w.
Proof.
  intros Hk Hok. unfold removeDevice. apply wp_bind, wp_attempt. eapply wp_mono; [apply law_LinkByName|].
  intros r w1 [Hv Hr]. rewrite <-Hv in Hok, Hr. destruct r as [l|e|s]; simpl; [|by apply wp_ret|done].
  destruct Hr as [Hl Hn]. apply wp_wrapping. eapply wp_mono; [apply law_LinkDel; congruence|].
  intros o w2 Ho. unfold fine. destruct o as [[]|e|s]; simpl in Ho; [|by rewrite Ho|done].
  rewrite Ho. apply fallbacks_ok_delete; [by rewrite Hn|done].
Qed.

Lemma fallbacks_renameDevice from to k w : (from, to, k) ∈ takeovers → fallbacks_ok (links (view w)) →
  wp (renameDevice from to) fine w.
Proof.
  intros Hin Hok. unfold renameDevice. apply wp_bind, wp_attempt. eapply wp_mono; [apply law_LinkByName|].
  intros r w1 [Hv Hr]. rewrite <-Hv in Hok, Hr. destruct r as [l|e|s]; simpl; [|by apply wp_ret|done].
  destruct Hr as [Hl Hn]. apply wp_wrapping. eapply wp_mono; [apply law_LinkSetName; congruence|].
  intros o w2 Ho. unfold fine. destruct o as [[]|e|s]; simpl in Ho; [|by rewrite Ho|done].
  destruct Ho as [_ ->]. rewrite Hn. by eapply fallbacks_ok_rename.
Qed.

(** One command after another. *)
Lemma fallbacks_seq (m k : M W unit) w : wp m fine w → (∀ w, fallbacks_ok (links (view w)) → wp k fine w) →
  wp (_ ← m; k) fine w.
Proof. intros Hm Hk. apply wp_bind. eapply wp_mono; [exact Hm|]. intros [[]|e|s] w' Hw; simpl; [by apply Hk|done..]. Qed.

Lemma fallbacks_setupIPIPDevices b4 b6 w : fallbacks_ok (links (view w)) → wp (setupIPIPDevices b4 b6) fine w.
Proof.
  assert (H4 : ipip4Device ∉ takeover_names) by by vm_compute.
  assert (H6 : ipip6Device ∉ takeover_names) by by vm_compute.
  intros Hok. unfold setupIPIPDevices. apply fallbacks_seq; [|intros w1 Hok1].
  - destruct b4; [apply fallbacks_seq; [|intros w1 Hok1]|]; apply wp_wrapping;
      [by apply fallbacks_setupDevice|by apply (fallbacks_renameDevice _ _ "ipip"); [left|]|by apply fallbacks_removeDevice].
  - destruct b6; [apply fallbacks_seq; [|intros w2 Hok2]|]; apply wp_wrapping;
      [by apply fallbacks_setupDevice|by apply (fallbacks_renameDevice _ _ "ip6tnl"); [right; left|]|by apply fallbacks_removeDevice].
Qed.

Lemma fallbacks_AddPeer t addr w : fallbacks_ok (links (view w)) →
  wp (Fou.AddPeer t addr) (λ _ w', fallbacks_ok (links (view w'))) w.
Proof.
  intros Hok. rewrite AddPeer_eq. case_bool_decide; [by apply wp_throw|].
  apply wp_bind, wp_attempt. eapply wp_mono; [apply law_LinkByName|]. intros r w1 [Hv _]. rewrite <-Hv in Hok.
  destruct r as [l|e|s]; simpl; [by apply wp_ret| |done].
  destruct (is_link_not_found e); simpl; [|by apply wp_throw]. apply wp_bind, wp_wrapping.
  eapply wp_mono; [apply fallbacks_LinkAdd; [apply fouName_not_takeover|done]|].
  intros o w2 Hok2. destruct o as [[]|e'|s]; simpl; [|done..]. apply wp_bind, wp_wrapping.
  eapply wp_mono; [by apply fallbacks_setupIPIPDevices|]. intros o w3 Hok3. destruct o as [[]|e'|s]; simpl; [|done..].
  eapply wp_mono; [apply law_LinkByName|]. intros o w4 [-> _]. done.
Qed.

Lemma fallbacks_DelPeer addr w : fallbacks_ok (links (view w)) → wp (Fou.DelPeer addr) fine w.
Proof.
  intros Hok. eapply wp_mono; [apply wp_DelPeer|]. intros o w' Ho. unfold fine.
  destruct o as [[]|e|s]; simpl in Ho; [|by rewrite Ho|done]. rewrite Ho. unfold del_link. simpl.
  apply fallbacks_ok_delete; [apply fouName_not_takeover|done].
Qed.
End fallbacks.

(** ** The operations of the egress pod are transient *)
Section operations.
#[local] Set Default Proof Using "Type*".
Context {W : Type} `{!HostOps W, !HostLaws W, !HostReliable W, !Faults W, !HostTransient W}.

Lemma tr_setupIPIPDevices b4 b6 : transient (setupIPIPDevices b4 b6 : M W unit).
Proof.
  assert (Hs : ∀ d, transient (setupDevice d : M W unit)).
  { intros d. unfold setupDevice, configureDevice. apply transient_bind; [auto with s2p|].
    intros r. apply transient_bind; [destruct r|]; auto 6 with s2p. }
  assert (Hr : ∀ a b, transient (renameDevice a b : M W unit)).
  { intros a b. unfold renameDevice. apply transient_bind; [auto with s2p|]. intros [l|x]; auto with s2p. }
  assert (Hd : ∀ a, transient (removeDevice a : M W unit)).
  { intros a. unfold removeDevice. apply transient_bind; [auto with s2p|]. intros [l|x]; auto with s2p. }
  unfold setupIPIPDevices. auto 8 with s2p.
Qed.

Lemma tr_AddPeer t addr : transient (Fou.AddPeer t addr : M W Link).
Proof.
  rewrite AddPeer_eq. apply transient_if; [auto with s2p|]. apply transient_bind; [auto with s2p|].
  pose proof tr_setupIPIPDevices. intros [l|e]; [auto with s2p|]. apply transient_if; auto 8 with s2p.
Qed.

Lemma tr_DelPeer addr : transient (Fou.DelPeer addr : M W unit).
Proof. unfold Fou.DelPeer. apply transient_bind; [auto with s2p|]. intros [l|e]; auto with s2p. Qed.

Lemma tr_AddClient e addr l : transient (EgressNat.AddClient e addr l : M W unit).
Proof. unfold EgressNat.AddClient. auto 8 with s2p. Qed.

Lemma tr_fou_Init t : transient (Fou.Init t : M W unit).
Proof.
  unfold Fou.Init, initFou4, initFou6, modProbe. apply transient_bind; [auto with s2p|]. intros [l|e]; [auto with s2p|].
  apply transient_if; [auto with s2p|]. auto 20 with s2p.
Qed.

Lemma tr_egress_Init e : transient (EgressNat.Init e : M W unit).
Proof.
  unfold EgressNat.Init, EgressNat.initFamily. apply transient_bind; [auto with s2p|]. intros [l|x]; [auto with s2p|].
  apply transient_if; auto 12 with s2p.
Qed.

Lemma tr_prepare Getenv mgr port : transient (prepare Getenv mgr port : M W podWatcher).
Proof.
  pose proof tr_fou_Init. pose proof tr_egress_Init. unfold prepare.
  do 3 (apply transient_if; [auto with s2p|]). auto 12 with s2p.
Qed.
End operations.

(** The start leaves the fallback devices as a working host needs them. *)
Section start.
#[local] Set Default Proof Using "Type*".
Context {W : Type} `{!HostOps W, !HostLaws W}.
Implicit Types w : W.
Let fine : outcome () → W → Prop := λ _ w, fallbacks_ok (links (view w)).

(** A call that changes no link. *)
Lemma fallbacks_update (m : M W unit) n w : fallbacks_ok (links (view w)) →
  wp m (λ o w', done_or_same (view w' = view w) (λ _, view w' = n) o) w → links n = links (view w) → wp m fine w.
Proof.
  intros Hok Hm Hn. eapply wp_mono; [exact Hm|]. intros o w' Ho. unfold fine.
  destruct o as [[]|e|s]; simpl in Ho; [by rewrite Ho, Hn|by rewrite Ho|done].
Qed.

Lemma fallbacks_egress_Init e w : fallbacks_ok (links (view w)) → wp (EgressNat.Init e) fine w.
Proof.
  intros Hok. unfold EgressNat.Init. apply wp_bind, wp_attempt. eapply wp_mono; [apply law_LinkByName|].
  intros r w1 [Hv _]. rewrite <-Hv in Hok. destruct r as [l|x|s]; simpl; [by apply wp_ret| |done].
  assert (Hfam : ∀ f v a w, fallbacks_ok (links (view w)) → wp (EgressNat.initFamily e f v a) fine w).
  { intros f v a w2 Hok2. unfold EgressNat.initFamily. apply (fallbacks_seq (W := W)).
    - apply (fallbacks_update _ (view w2)); [done| |done]. eapply wp_mono; [apply law_iptables_New|].
      intros o w' [Hv' Ho]. by destruct o.
    - intros w3 Hok3. apply (fallbacks_seq (W := W)); [|intros w4 Hok4]; apply wp_wrapping.
      + eapply wp_mono; [by eapply (fallbacks_update _ _ w3 Hok3 (law_iptables_Append _ _ _ _ _))|done].
      + eapply wp_mono; [by eapply (fallbacks_update _ _ w4 Hok4 (law_RuleAdd _ _))|done]. }
  destruct (is_link_not_found x); simpl; [|by apply wp_throw].
  apply (fallbacks_seq (W := W)); [case_bool_decide; [by apply Hfam|by apply wp_ret]|intros w2 Hok2].
  apply (fallbacks_seq (W := W)); [case_bool_decide; [by apply Hfam|by apply wp_ret]|intros w3 Hok3].
  apply fallbacks_LinkAdd; [by vm_compute|done].
Qed.

Lemma fallbacks_fou_Init t w : fallbacks_ok (links (view w)) →
  wp (Fou.Init t) (λ o w', o = Ok tt → fallbacks_ok (links (view w'))) w.
Proof.
  intros Hok. eapply wp_mono; [apply (@wp_Init W _ _ unreliable)|]. intros o w' Ho ->. revert Ho.
  case_bool_decide; [by intros [-> _]|]. intros [(ls & idx & -> & _ & _ & Hls) _]. by apply Hls.
Qed.

Lemma fallbacks_prepare Getenv mgr port w : fallbacks_ok (links (view w)) →
  wp (prepare Getenv mgr port) (λ o w', ∀ r, o = Ok r → fallbacks_ok (links (view w'))) w.
Proof.
  intros Hok. unfold prepare. repeat (case_match; [by apply wp_throw|]).
  apply wp_bind, wp_lift_outcome. destruct (takeAddrs _ _) as [ips|x|s]; simpl; [|done..].
  apply wp_bind, wp_lift_outcome. destruct (mgr_New mgr) as [[]|x|s]; simpl; [|done..].
  apply wp_bind, wp_lift_outcome. destruct (NewFoUTunnel _ _ _ _) as [ft|x|s]; simpl; [|done..].
  apply wp_bind. eapply wp_mono; [by apply fallbacks_fou_Init|]. intros [[]|x|s] w1 Hok1; simpl; [|done..].
  apply wp_bind, wp_lift_outcome. destruct (NewEgress _ _ _) as [eg|x|s]; simpl; [|done..].
  apply wp_bind. eapply wp_mono; [by apply fallbacks_egress_Init, Hok1|]. intros [[]|x|s] w2 Hok2; simpl; [|done..].
  apply wp_bind, wp_lift_outcome. destruct (mgr_Complete mgr) as [[]|x|s]; simpl; [|done..].
  by apply wp_ret.
Qed.
End start.

(** ** The watcher is transient, over any transient tunnels *)
#[global] Instance watcher_faults {W} `{!Faults W} : Faults (PW (W := W)) := {|
  heal p := (p.1, heal p.2); failures p := failures p.2; intact p := intact p.2 |}.

Section watcher.
#[local] Set Default Proof Using "Type*".
Context {W : Type} `{!PeerOps W, !Faults W}.
Context (Hadd : ∀ ip, transient (ft_AddPeer ip : M W Link)) (Hdel : ∀ ip, transient (ft_DelPeer ip : M W unit)).
Context (Hcl : ∀ ip l, transient (eg_AddClient ip l : M W unit)).

Lemma tr_on_host {A} (m : M W A) : transient m → transient (on_host m).
Proof.
  intros Hm [r w] Hw. unfold on_host. simpl in *. destruct (Hm w Hw) as [Hi Hc]. destruct (m w) as [o w'] eqn:E. simpl in *.
  split; [done|]. destruct Hc as [Hc|[Hc ->]]; auto.
Qed.
Lemma tr_get_watcher : transient (get_watcher : M PW podWatcher).
Proof. intros p Hp. split; [done|]. by right. Qed.
Lemma tr_modify_watcher f : transient (modify_watcher f : M PW unit).
Proof. intros p Hp. split; [done|]. by right. Qed.

Lemma tr_addPod pod : transient (addPod pod : M PW unit).
Proof.
  pose proof @tr_on_host. pose proof tr_get_watcher. pose proof tr_modify_watcher. unfold addPod.
  apply transient_bind; [done|]. intros r. apply transient_bind; [|intros _; apply transient_bind; [|auto with s2p]].
  - apply transient_for_each. intros ip. unfold addIP. apply transient_if; [auto with s2p|].
    apply transient_bind; [auto with s2p|]. intros [l|e]; auto with s2p.
  - apply transient_for_each. intros ip. unfold dropIP. auto with s2p.
Qed.

Lemma tr_delPeer key : transient (delPeer key : M PW unit).
Proof.
  pose proof @tr_on_host. pose proof tr_get_watcher. pose proof tr_modify_watcher. unfold delPeer.
  apply transient_bind; [done|]. intros r. apply transient_bind; [|auto with s2p].
  apply transient_for_each. intros ip. unfold delIP. auto 10 with s2p.
Qed.

Lemma tr_Reconcile got ns name : transient (PodWatcher.Reconcile got ns name : M PW unit).
Proof.
  pose proof tr_addPod. pose proof tr_delPeer. pose proof tr_get_watcher.
  unfold PodWatcher.Reconcile, delTerminatedPod, delPod. destruct got; [|auto with s2p].
  apply transient_bind; auto with s2p.
Qed.
End watcher.

(** ** Executions with their failed additions counted *)
Section count.
Context {W : Type} `{!PeerOps W}.

Inductive execution (good : IP → Prop) : nat → sys (W := W) → sys (W := W) → Prop :=
| exec_done s : execution good 0 s s
| exec_step n s s' s'' : step good s s' → execution good n s' s'' → execution good n s s''
| exec_fail n got ns name pod p h e p' s'' :
    action_of p.1 got ns name = Some (Add pod) → Forall good (pod_addrs pod) →
    PodWatcher.Reconcile got ns name p = (Err e, p') →
    execution good n (p', added p.1 pod (Err e) h) s'' → execution good (S n) (p, h) s''.
End count.

Section retries.
#[local] Set Default Proof Using "Type*".
Context {W : Type} `{!HostOps W, !HostLaws W, !HostReliable W, !Faults W, !HostTransient W}.
Context (t : fouTunnel) (e : egress) (good : IP → Prop) (n0 : Net).
Context (Hgood : ∀ a, good a → wf_ip a ∧ a ≠ []).
Context (Hname : ∀ a b, good a → good b → fouName a = fouName b → canonIP a = canonIP b).
Context (Hown : ∀ a, peer_local t a ≠ [] → own_addr e (addr_family a) ≠ []).
#[local] Hint Extern 0 (PeerOps W) => exact (fou_peers t e) : typeclass_instances.
#[local] Hint Extern 0 (PeerLaws W) => exact (fou_peers_laws t e) : typeclass_instances.

(** What every reached world keeps, and what makes an addition succeed on it once
    it is healed. *)
Definition ready (w : W) : Prop := paths t good n0 (view w) ∧ intact w ∧ fallbacks_ok (links (view w)).

Lemma ready_works w : ready w → works t good n0 (heal w).
Proof. intros (HP & Hi & Hf). unfold works. rewrite view_heal. split_and!; [done|by apply healthy_heal|done]. Qed.

Lemma reachable_ready ns name w s : ready w → reachable good ns name w s → ready s.1.2.
Proof.
  intros Hw Hr. destruct (inv_reachable good ready (λ _ _, True)) with ns name w s as [_ _ _ _ _ _ I7]; try done.
  - intros a b Ha Hb Hn. apply IP_Equal_canon; [apply Hgood, Ha|apply Hgood, Hb|]. by apply Hname.
  - intros ip p Hg (HP & Hi & Hf). eapply wp_mono.
    { apply wp_and; [by apply (addIP_paths t e good n0 Hgood ip p)|].
      instantiate (1 := λ _ p', intact p'.2 ∧ fallbacks_ok (links (view p'.2))). 
      unfold addIP. simpl. apply wp_bind, wp_attempt, wp_on_host. simpl.
      eapply wp_mono; [apply wp_and; [by apply (fallbacks_AddPeer t ip)|by apply (wp_intact _ _ (tr_AddPeer t ip))]|].
      intros o w1 [Hf1 Hi1]. destruct o as [l|x|m]; simpl; [|case_match; [by apply wp_ret|by apply wp_throw]|done].
      apply wp_on_host. simpl. eapply wp_mono; [apply wp_and; [apply (AddClient_links e ip l)|by apply (wp_intact _ _ (tr_AddClient e ip l))]|].
      intros o w2 [[El _] Hi2]. simpl. by rewrite El. }
    intros o p' [(? & ? & ? & ? & ?) [? ?]]. unfold ready. by split_and!.
  - intros ip w' _ (HP & Hi & Hf). eapply wp_mono.
    { apply wp_and; [by apply (DelPeer_paths t e good n0 Hgood ip w')|].
      apply wp_and; [by apply (fallbacks_DelPeer ip)|by apply (wp_intact _ _ (tr_DelPeer ip))]. }
    intros o w1 [(? & ? & ?) [? ?]]. unfold ready. by split_and!.
Qed.

Lemma Reconcile_transient got ns name : transient (PodWatcher.Reconcile got ns name : M PW unit).
Proof using HostTransient0. apply tr_Reconcile; simpl; intros; [apply tr_AddPeer|apply tr_DelPeer|apply tr_AddClient]. Qed.

(** An addition that fails on a ready world used up a failure. *)
Lemma addition_pays got ns name pod (p p' : PW (W := W)) x : ready p.2 → Forall good (pod_addrs pod) →
  action_of p.1 got ns name = Some (Add pod) → PodWatcher.Reconcile got ns name p = (Err x, p') → (failures p'.2 < failures p.2)%nat.
Proof.
  intros Hp Hg Ha Hr. destruct (Reconcile_transient got ns name p (proj1 (proj2 Hp))) as [_ Hc].
  rewrite Hr in Hc. destruct Hc as [Hc|[_ Hc]]; [done|exfalso].
  pose proof (addPod_works t e good n0 Hgood Hown pod (heal p) Hg (ready_works _ Hp) : wp (addPod pod) _ (heal p)) as Hw. unfold wp in Hw.
  rewrite Reconcile_action in Hc. replace (heal p).1 with p.1 in Hc by done. rewrite Ha in Hc.
  cbn [perform] in Hc. rewrite Hc in Hw. by destruct Hw.
Qed.
End retries.

(** ** From the start of the pod *)
Section from_start.
#[local] Set Default Proof Using "Type*".
Context {W : Type} `{!HostOps W, !HostLaws W, !HostReliable W, !Faults W, !HostTransient W}.
Context (Getenv : string → string) (mgr : mgr_calls) (port : Z) (good : IP → Prop).
Let l := Split (Getenv EnvAddresses) ","%char.
Let t := pod_tunnel port (last_v4 [] l) (last_v6 [] l).
Let e := pod_egress (last_v4 [] l) (last_v6 [] l).
#[local] Hint Extern 0 (PeerOps W) => exact (fou_peers t e) : typeclass_instances.
#[local] Hint Extern 0 (PeerLaws W) => exact (fou_peers_laws t e) : typeclass_instances.

(** The pod started in a new namespace of a host that fails finitely often. *)
Record started (w0 : W) (s : sys (W := W)) : Prop := {
  st_manager : mgr_sound mgr;
  st_fresh : fresh_pod (view w0);
  st_fallbacks : fallbacks_ok (links (view w0));
  st_intact : intact w0;
  st_main : prepare Getenv mgr port w0 = (Ok s.1.1, s.1.2);
  st_nothing : s.2 = no_past }.

(** No two clients share a tunnel name. *)
Definition distinct_names : Prop :=
  (∀ a, good a → wf_ip a ∧ a ≠ []) ∧ (∀ a b, good a → good b → fouName a = fouName b → canonIP a = canonIP b).

Lemma own_peer a : peer_local t a ≠ [] → own_addr e (addr_family a) ≠ [].
Proof. unfold t, e. by rewrite peer_local_own. Qed.

Lemma started_ready w0 s0 : started w0 s0 →
  ready t good (view s0.1.2) s0.1.2 ∧ (failures s0.1.2 ≤ failures w0)%nat ∧ s0 = initial (Getenv EnvPodNamespace) (Getenv EnvEgressName) s0.1.2.
Proof.
  intros [Hm Hfr Hfb Hi Hmain Hd]. destruct s0 as [[r w] h]. simpl in *. subst h.
  pose proof (wp_prepare Getenv mgr port w0 Hm) as Hs. pose proof (fallbacks_prepare Getenv mgr port w0 Hfb) as Hf.
  destruct (transient_failures _ w0 (tr_prepare Getenv mgr port) Hi) as [Hi' Hle].
  unfold wp in Hs, Hf. rewrite Hmain in Hs, Hf, Hi', Hle. destruct Hs as (_ & -> & _ & n1 & Ht & Hn).
  destruct (brought_up t e good _ _ _ Hfr Ht Hn) as [HP _]. unfold ready. split_and!; try done. by eapply Hf.
Qed.

Lemma execution_ready w0 s0 s : distinct_names → started w0 s0 → rtc (step good) s0 s → ready t good (view s0.1.2) s.1.2.
Proof.
  intros [Hgood Hname] Hst Hr. destruct (started_ready _ _ Hst) as (Hrdy & _ & E0). rewrite E0 in Hr.
  eapply (reachable_ready t e good _ Hgood Hname own_peer); [exact Hrdy|exact Hr].
Qed.

Lemma execution_pays n w0 s0 s s' : distinct_names → started w0 s0 → rtc (step good) s0 s → execution good n s s' →
  (n + failures s'.1.2 ≤ failures s.1.2)%nat.
Proof.
  intros Hdist Hst Hr Hx. pose proof Hdist as [Hgood Hname].
  assert (Hready : ∀ s, rtc (step good) s0 s → ready t good (view s0.1.2) s.1.2) by (intros x; by apply (execution_ready w0)).
  induction Hx as [s|n s s' s'' Hstep Hx IH|n got ns name pod p h x p' s'' Ha Hg Hrec Hx IH].
  - lia.
  - specialize (IH ltac:(by eapply rtc_r)). enough (failures s'.1.2 ≤ failures s.1.2)%nat by lia.
    assert (H : ∀ got ns name p o p', intact p.2 → Reconcile got ns name p = (o, p') → (failures p'.2 ≤ failures p.2)%nat).
    { intros got ns name p o p' Hi Hrec. pose proof (transient_failures _ p (Reconcile_transient t e got ns name : transient (Reconcile got ns name)) Hi) as [_ Hle].
      by rewrite Hrec in Hle. }
    destruct (Hready _ Hr) as (_ & Hi & _). destruct Hstep; by eapply H.
  - pose proof (Hready _ Hr) as Hrd.
    pose proof (addition_pays t e good _ Hgood Hname own_peer got ns name pod _ _ x Hrd Hg Ha Hrec) as Hlt.
    assert (Hstep : step good (p, h) (p', added p.1 pod (Err x) h)).
    { pose proof (step_reconcile good got ns name p h (Err x) p') as H. rewrite Ha in H. apply H; [by intros ? [= <-]|done]. }
    specialize (IH ltac:(by eapply rtc_r)). simpl in *. lia.
Qed.

Lemma retried_addition w0 s0 p h pod ns name : distinct_names → started w0 s0 → rtc (step good) s0 (p, h) →
  action_of p.1 (inl pod) ns name = Some (Add pod) → Forall good (pod_addrs pod) →
  ∃ p' h', requeue (failures p.2) (Reconcile (inl pod) ns name) p = (Ok tt, p') ∧
    rtc (step good) s0 (p', h') ∧ podAddrs p'.1 !! key_of pod = Some (pod_addrs pod) ∧ dying h' = dying h ∧
    ∀ ip, ip ∈ pod_addrs pod → (ip ∈ tracked_ips p.1 (key_of pod) → ip ∉ stolen h) → ip ∉ stolen h'.
Proof.
  intros Hdist Hst Hr Ha Hg. pose proof Hdist as [Hgood Hname].
  set (past_of (h' : past) := dying h' = dying h ∧ stolen h' ⊆ stolen h ∪ lost p.1 pod).
  set (P (q : PW (W := W)) := q.1 = p.1 ∧ ∃ h', rtc (step good) s0 (q, h') ∧ past_of h').
  assert (Hready : ∀ q, P q → ready t good (view s0.1.2) q.2).
  { intros q (_ & h' & Hq & _). exact (execution_ready w0 s0 (q, h') Hdist Hst Hq). }
  assert (Hrec : ∀ q : PW (W := W), q.1 = p.1 → Reconcile (inl pod) ns name q = addPod pod q) by (intros q Hq; by rewrite Reconcile_action, Hq, Ha).
  assert (Hstep : ∀ (q : PW (W := W)) h' o q', q.1 = p.1 → rtc (step good) s0 (q, h') → Reconcile (inl pod) ns name q = (o, q') →
            rtc (step good) s0 (q', added p.1 pod o h')).
  { intros q h' o q' Hq Hq2 Hrun. eapply rtc_r; [exact Hq2|]. pose proof (step_reconcile good (inl pod) ns name q h' o q') as H.
    rewrite Hq, Ha in H. apply H; [by intros ? [= <-]|done]. }
  destruct (requeue_ends (Reconcile (inl pod) ns name) P p) as (q & p' & HPq & Hi & Hrun & Hreq).
  - apply (Reconcile_transient t e).
  - apply (Hready p). split; [done|]. exists h. split; [done|]. split; [done|set_solver].
  - split; [done|]. exists h. split; [done|]. split; [done|set_solver].
  - intros q HPq _. pose proof HPq as [Hq _]. rewrite Hrec by done.
    pose proof (addPod_works t e good _ Hgood own_peer pod (heal q) Hg (ready_works t e good _ Hgood Hname own_peer _ (Hready q HPq)) :
      wp (addPod pod) _ (heal q)) as Hw. by destruct Hw.
  - intros q x q' (Hq & h' & Hrq & Hd & Hs) _ Hrun. split.
    + rewrite Hrec in Hrun by done. destruct (wp_run _ _ _ _ _ Hrun (addPod_outcome pod q)) as (_ & H & _). rewrite H; done.
    + exists (added p.1 pod (Err x) h'). split; [by eapply Hstep|]. unfold added, past_of. simpl. split; [done|set_solver].
  - intros q x q' (Hq & _) _ Hrun. rewrite Hrec in Hrun by done.
    by destruct (wp_run _ _ _ _ _ Hrun (addPod_outcome pod q)) as ([] & _).
  - destruct HPq as (Hq & h' & Hrq & Hd & Hs). exists p', (added p.1 pod (Ok tt) h'). split; [done|]. split; [by eapply Hstep|].
    rewrite Hrec in Hrun by done. destruct (wp_run _ _ _ _ _ Hrun (addPod_outcome pod q)) as (_ & _ & H).
    destruct (H eq_refl) as [_ ->]. split; [apply lookup_insert_eq|]. split; [done|]. intros ip Hip Hold Hin. simpl in Hin.
    assert (Hnl : ip ∉ lost p.1 pod) by (unfold lost; set_solver). unfold gained in Hin. set_solver.
Qed.
End from_start.

(** ** Properties *)
(** C7: on a host on which only finitely many calls fail, in any state an egress
    pod has reached after any reconciliations, whatever failed before: a running pod
    with the egress's annotation is reconciled successfully after at most as many
    retries as failures are left; and unless a deletion under its key had begun and
    not ended, the replies to each of its addresses, of a family the egress pod has
    an address of, then take the tunnel to it, except for an address the watcher had
    it with already whose tunnel was stolen ([PodWatcher.stolen]): that one is not
    asked for again.  (No two clients share a tunnel name; no rule in front claims
    the replies.) *)
Theorem Reconcile_retries_serve {W} `{!HostOps W, !HostLaws W, !HostReliable W, !Faults W, !HostTransient W}
    Getenv mgr port (good : IP → Prop) (w0 : W) s0 p h pod ns name :
  let l := Split (Getenv EnvAddresses) ","%char in
  let t := pod_tunnel port (last_v4 [] l) (last_v6 [] l) in let e := pod_egress (last_v4 [] l) (last_v6 [] l) in
  distinct_names good → started Getenv mgr port w0 s0 → rtc (@step W (fou_peers t e) good) s0 (p, h) →
  shouldHandle p.1 pod = true → isTerminated pod = false → Forall good (pod_addrs pod) →
  ∃ p', requeue (failures p.2) (@Reconcile W (fou_peers t e) (inl pod) ns name) p = (Ok tt, p') ∧
    ∀ ip, ip ∈ pod_addrs pod → key_of pod ∉ dying h → (ip ∈ tracked_ips p.1 (key_of pod) → ip ∉ stolen h) →
      peer_local t ip ≠ [] → unclaimed_from e (addr_family ip) ip (view w0) → returns t e (view p'.2) ip.
Proof.
  intros l t e Hdist Hst Hr Hsh Hterm Hg.
  assert (Ha : action_of p.1 (inl pod) ns name = Some (Add pod)) by (simpl; by rewrite Hsh, Hterm).
  destruct (retried_addition Getenv mgr port good w0 s0 p h pod ns name Hdist Hst Hr Ha Hg) as (p' & h' & Hreq & Hr' & Hips & Hd & Hstl).
  exists p'. split; [done|]. intros ip Hip Hkd Hold Hloc Hq. destruct Hdist as [Hgood Hname], Hst as [Hm Hfr _ _ Hmain Hno].
  apply (runs_return Getenv port good Hgood Hname w0 (p', h') (key_of pod)); [| |done|done].
  - destruct s0 as [[r w] h0]. simpl in *. subst h0. by eapply started_runs.
  - split; [split; [simpl; congruence|by exists (pod_addrs pod)]|by apply Hstl].
Qed.

(** C11: an egress pod starts in a new namespace of a host on which finitely many
    calls fail, and no two clients share a tunnel name.  In every execution of it,
    whatever its reconciliations are and in whatever order, the additions of clients
    that return an error are at most as many as the calls of the host that fail:
    additions do not fail for ever. *)
Theorem additions_fail_boundedly {W} `{!HostOps W, !HostLaws W, !HostReliable W, !Faults W, !HostTransient W}
    Getenv mgr port (good : IP → Prop) (w0 : W) s0 s n :
  let l := Split (Getenv EnvAddresses) ","%char in
  let t := pod_tunnel port (last_v4 [] l) (last_v6 [] l) in let e := pod_egress (last_v4 [] l) (last_v6 [] l) in
  distinct_names good → started Getenv mgr port w0 s0 → @execution W (fou_peers t e) good n s0 s →
  (n + failures s.1.2 ≤ failures w0)%nat.
Proof.
  intros l t e Hdist Hst Hx. destruct (started_ready Getenv mgr port good w0 s0 Hst) as (_ & Hle & _).
  pose proof (execution_pays Getenv mgr port good n w0 s0 s0 s Hdist Hst (rtc_refl _ _) Hx). lia.
Qed.

(** ** Witnesses: two calls fail, after the start *)
Section witnesses.
#[local] Hint Extern 0 (PeerOps host) => exact (fou_peers gw_tunnel gw_egress) : typeclass_instances.

Definition flaky_host : host := host_with (replicate 23 false ++ [true; false; false; true]) (h_net new_pod).
Definition flaky_start : PW (W := host) :=
  (SetupPodWatcher "internet" "nat", (prepare sample_env healthy_mgr 5555 flaky_host).2).
Definition flaky_once : PW (W := host) := (Reconcile (inl pod_a) "" "" flaky_start).2.

Lemma flaky_started : started sample_env healthy_mgr 5555 flaky_host (flaky_start, no_past).
Proof.
  split; [done|exact gw_fresh| |by apply (host_healthyb_ok (host_with [] (h_net new_pod))); vm_compute|by vm_compute|done].
  intros from to k [[= -> -> ->]|[= -> -> ->]%list_elem_of_singleton]%elem_of_cons; (split; [|split]);
    try (intros l' Hl; vm_compute in Hl; by simplify_eq); by vm_compute; left.
Qed.
Lemma good4_distinct : distinct_names good4.
Proof. split; [exact good4_wf|exact good4_canon]. Qed.
Lemma flaky_good : Forall good4 (pod_addrs pod_a).
Proof. apply Forall_singleton, good4_pod. by vm_compute. Qed.
(** The first two attempts fail, the third one succeeds. *)
Lemma Reconcile_retries_serve_witness :
  failures flaky_start.2 = 2%nat ∧ failures flaky_once.2 = 1%nat ∧
  ∃ p', requeue 2 (Reconcile (inl pod_a) "default" "a") flaky_start = (Ok tt, p') ∧
    returns gw_tunnel gw_egress (view p'.2) client.
Proof.
  split; [by vm_compute|]. split; [by vm_compute|].
  destruct (Reconcile_retries_serve sample_env healthy_mgr 5555 good4 flaky_host (flaky_start, no_past) flaky_start no_past pod_a "default" "a"
    good4_distinct flaky_started (rtc_refl _ _) ltac:(by vm_compute) ltac:(by vm_compute)
    flaky_good) as (p' & Hr & Hret).
  exists p'. split; [exact Hr|]. apply Hret; [left|apply not_elem_of_empty|intros _; apply not_elem_of_empty|by vm_compute|exact (gw_unclaimed _)].
Defined.

Lemma flaky_fails : ∃ x, Reconcile (inl pod_a) "" "" flaky_start = (Err x, flaky_once).
Proof.
  assert (H : match (Reconcile (inl pod_a) "" "" flaky_start).1 with Err _ => true | _ => false end = true) by (vm_compute; reflexivity).
  unfold flaky_once. revert H. generalize (Reconcile (inl pod_a) "" "" flaky_start). intros [[]]; [discriminate|eauto|discriminate].
Qed.

Lemma additions_fail_boundedly_witness :
  execution good4 1 (flaky_start, no_past) (flaky_once, no_past) ∧ (1 + failures flaky_once.2 ≤ failures flaky_host)%nat.
Proof.
  assert (Hx : execution good4 1 (flaky_start, no_past) (flaky_once, no_past)).
  { destruct flaky_fails as [x Hx].
    eapply (exec_fail good4 0 (inl pod_a) "" "" pod_a flaky_start); [by vm_compute|exact flaky_good|exact Hx|].
    assert (added flaky_start.1 pod_a (Err x) no_past = no_past) as -> by by vm_compute. apply exec_done. }
  split; [exact Hx|].
  exact (additions_fail_boundedly sample_env healthy_mgr 5555 good4 flaky_host (flaky_start, no_past) (flaky_once, no_past) 1
    good4_distinct flaky_started Hx).
Defined.
End witnesses.
