(* ===== verification/Deployed.v ===== *)
(** * What the controller deploys and what the egress pod expects

    The controller writes a container for the egress pod's program
    ([controllers/egress_controller.go]); the kubelet starts it with the
    environment of that container; the program reads it ([cmd/egress-gw]). *)
From Stdlib Require Import Ascii.
From S2P Require Import Prelude Constants GoStrings GoNet GoAddr Corev1 Netlink Kernel NatClient Steering Fou EgressNat EgressApi Api FakeApi EgressController AgentSetup Agent PodSteering PodWatcher EgressPod EgressPaths.

(** ** The environment of a container

    [resolve] is the kubelet's part: the value of a source, such as a field of the
    pod.  Of several entries of one name the last one counts. *)
Section kubelet.
Context (resolve : EnvVarSource → string).

Definition env_entry (e : EnvVar) : string := match ValueFrom e with Some s => resolve s | None => env_Value e end.
Definition env_of (c : Container) (k : string) : string :=
  foldl (λ v e, if String.eqb (env_Name e) k then env_entry e else v) "" (Env c).

Lemma env_of_egress l eg c : Env c = l ++ egress_env eg →
  env_of c EnvPodNamespace = eg_Namespace eg ∧ env_of c EnvEgressName = eg_Name eg ∧
  env_of c EnvAddresses = resolve (FieldRef "status.podIPs").
Proof. intros Hc. unfold env_of. rewrite Hc, !foldl_app. done. Qed.
End kubelet.

(** The kubelet gives the addresses of the pod separated by commas. *)
Definition gives_addresses (resolve : EnvVarSource → string) (ips : list string) : Prop :=
  resolve (FieldRef "status.podIPs") = Join ips ","%char ∧ ips ≠ [] ∧ Forall (λ a, ParseIP a ≠ []) ips.

Lemma gives_split resolve ips : gives_addresses resolve ips → Split (resolve (FieldRef "status.podIPs")) ","%char = ips.
Proof.
  intros (-> & Hne & HF). apply Split_Join; [done|]. eapply Forall_impl; [exact HF|]. intros a. apply ParseIP_no_comma.
Qed.

(** A server that binds [addr] is reached at this port. *)
Definition binds (addr : string) (port : Z) : Prop := ∃ host s, SplitHostPort addr = Ok (host, s) ∧ Atoi s = Ok port.

(** ** The container in the deployment *)

(** As far as the program depends on it; [c0] is the template's container. *)
Record egress_container (rc : EgressReconciler) (eg : Egress) (c0 c : Container) : Prop := {
  ec_Name : c_Name c = "egress-gw";
  ec_Env : Env c = Env c0 ++ egress_env eg;
  ec_Args : Args c = if bool_decide (length (Args c0) = 0%nat) then ["--zap-stacktrace-level=panic"] else Args c0;
  ec_Ports : Ports c = egress_ports;
  ec_Liveness : probe_kept (Some (http_probe "/healthz")) (LivenessProbe c);
  ec_Readiness : probe_kept (Some (http_probe "/readyz")) (ReadinessProbe c) }.

Lemma deployed_container rc eg d : deployment_ok rc eg d →
  ∃ c0 c, c ∈ Containers (pt_Spec (depl_Template d)) ∧ egress_container rc eg c0 c.
Proof.
  intros (_ & _ & _ & Hk). destruct (setContainer_spec rc eg (Containers (desired_PodSpec eg))) as (_ & [c0 Hc0] & _).
  pose proof (kept_Containers _ _ Hk) as HF. unfold reconcilePodTemplate in HF. cbn [pt_Spec Containers] in HF.
  apply list_elem_of_lookup in Hc0 as [i Hi]. destruct (Forall2_lookup_l _ _ _ _ _ HF Hi) as (c & Hc & Hck).
  exists c0, c. split; [by eapply list_elem_of_lookup_2|]. destruct Hck. split; try done.
Qed.

(** ** The start on a working host *)
Section start.
Context {W : Type} `{!HostOps W, !HostLaws W, !HostReliable W}.
Implicit Types w : W.

(** A namespace in which a tunnel and a NAT for these addresses can be set up. *)
Definition startable (t : fouTunnel) (e : egress) (w : W) : Prop :=
  fresh_pod (view w) ∧ ports_free t (view w) ∧ prio_free e (view w) ∧ healthy w.

Lemma prepare_ok Getenv port w : let l := Split (Getenv EnvAddresses) ","%char in
  env_ok Getenv → startable (pod_tunnel port (last_v4 [] l) (last_v6 [] l)) (pod_egress (last_v4 [] l) (last_v6 [] l)) w →
  wp (prepare Getenv healthy_mgr port) (λ o _, ∃ r, o = Ok r) w.
Proof.
  intros l (Hns & Hname & Hips) (Hfr & Hp & Hq & Hh). unfold prepare.
  rewrite (proj2 (String.eqb_neq _ _) Hns), (proj2 (String.eqb_neq _ _) Hname). fold l.
  case_bool_decide as Hlen; [by apply nil_length_inv, Split_not_nil in Hlen|].
  wp_steps. pose proof (takeAddrs_spec l ([], [])) as Ha. destruct (takeAddrs _ _) as [ips|x|m]; simpl; [| |done].
  2:{ destruct Ha as (a & Ha & Hn). rewrite Forall_forall in Hips. by destruct (Hips a Ha). }
  destruct Ha as [_ ->]. simpl. rewrite NewFoUTunnel_ok, NewEgress_ok by apply last_families. wp_steps.
  destruct Hfr as (_ & _ & Hd & He & _).
  eapply wp_mono; [apply (wp_and _ _ _ _ (wp_Init _ w) (wp_tunnel_Init _ w))|]. intros o w1 [Hi Ht]. revert Hi.
  rewrite bool_decide_eq_false_2 by (rewrite Hd; by intros []). intros [_ Hi]. destruct (Hi Hp Hh) as [-> Hh1]. simpl in *.
  wp_steps. pose proof (tunnel_rules_kept _ _ _ Ht) as Hk.
  eapply wp_mono; [apply wp_egress_Init|]. intros o w2. rewrite bool_decide_eq_false_2.
  - intros [_ Hi2]. destruct Hi2 as [-> _]; [|done|by simpl; eexists].
    intros f Hf. rewrite (proj1 (Hk f)). by apply Hq.
  - destruct Ht as [[_ Ht]|(_ & ls & idx & -> & _ & [_ Hf] & _)]; [rewrite Hd in Ht; by destruct Ht|].
    simpl in *. rewrite Hf, He; [by intros []|by vm_compute].
Qed.
End start.

(** ** Property *)
(** C28: in the deployment of a reconciled Egress there is a container that its
    program can run in: whatever environment the template sets, the program finds
    the Egress's namespace and name and the pod's addresses, the ports named for
    health and metrics are those its default flags bind, and on a working host in a
    new namespace it starts: it serves exactly this Egress, with tunnel and NAT up
    for the last address of each family.  But nothing in the pod depends on the
    controller's port, which only the service has: the program always listens on
    its own default unless the template passes another. *)
Theorem deployed_pod_starts {W} `{!HostOps W, !HostLaws W, !HostReliable W} resolve rc eg d ips :
  deployment_ok rc eg d → eg_Namespace eg ≠ "" → eg_Name eg ≠ "" → gives_addresses resolve ips →
  (∃ c0 c, c ∈ Containers (pt_Spec (depl_Template d)) ∧ egress_container rc eg c0 c ∧
    (∃ p, p ∈ Ports c ∧ cp_Name p = "health" ∧ binds (healthAddr default_config) (cp_Port p)) ∧
    (∃ p, p ∈ Ports c ∧ cp_Name p = "metrics" ∧ binds (metricsAddr default_config) (cp_Port p)) ∧
    ∀ port (w : W), let v4 := last_v4 [] ips in let v6 := last_v6 [] ips in
      startable (pod_tunnel port v4 v6) (pod_egress v4 v6) w →
      wp (prepare (env_of resolve c) healthy_mgr port) (λ o w', o = Ok (SetupPodWatcher (eg_Namespace eg) (eg_Name eg)) ∧
        (v4 ≠ [] ∨ v6 ≠ []) ∧ ∃ n1, tunnel_up (pod_tunnel port v4 v6) (view w) n1 ∧ nat_up (pod_egress v4 v6) n1 (view w')) w) ∧
  ∀ port t, reconcilePodTemplate (mkEgressReconciler (r_Image rc) port) eg t = reconcilePodTemplate rc eg t.
Proof.
  intros Hd Hns Hname Hips. split; [|done]. destruct (deployed_container rc eg d Hd) as (c0 & c & Hc & Hec).
  exists c0, c. pose proof (gives_split _ _ Hips) as Hsplit. destruct Hips as (_ & _ & HF).
  destruct (env_of_egress resolve (Env c0) eg c (ec_Env _ _ _ _ Hec)) as (E1 & E2 & E3).
  split_and!; [done|done| | |].
  - rewrite (ec_Ports _ _ _ _ Hec). eexists. split; [right; left|]. split; [done|]. by eexists _, _.
  - rewrite (ec_Ports _ _ _ _ Hec). eexists. split; [left|]. split; [done|]. by eexists _, _.
  - intros port w v4 v6 Hw. assert (Hok : env_ok (env_of resolve c)) by (unfold env_ok; by rewrite E1, E2, E3, Hsplit).
    pose proof (prepare_ok (env_of resolve c) port w) as H. cbv zeta in H. rewrite E3, Hsplit in H. specialize (H Hok Hw).
    pose proof (wp_prepare (env_of resolve c) healthy_mgr port w (conj I I)) as H'. cbv zeta in H'. rewrite E1, E2, E3, Hsplit in H'.
    eapply wp_mono; [apply (wp_and _ _ _ _ H H')|]. intros o w' [[r ->] [_ (-> & ? & ?)]]. done.
Qed.

(** ** Witness: the deployment of a sample Egress, the pod's namespace new *)
Definition kubelet (s : EnvVarSource) : string :=
  match s with FieldRef "status.podIPs" => "10.1.1.9,fd01::9" | _ => "" end.
Definition sample_deployment : Deployment := accept_Deployment (get_ok made_deployment mutated_deployment).
Definition quiet_host : host := host_with [] (h_net new_pod).

Lemma sample_deployment_ok : deployment_ok sample_reconciler sample_nat sample_deployment.
Proof.
  eapply (mutate_deployment_ok own _ _ made_deployment (get_ok made_deployment mutated_deployment)); [by vm_compute|apply accept_Deployment_ok|by vm_compute].
Qed.
Lemma kubelet_gives : gives_addresses kubelet ["10.1.1.9"; "fd01::9"].
Proof. split; [done|]. split; [done|]. by repeat constructor. Qed.

Lemma sample_startable : let l := ["10.1.1.9"; "fd01::9"] in
  startable (pod_tunnel 5555 (last_v4 [] l) (last_v6 [] l)) (pod_egress (last_v4 [] l) (last_v6 [] l)) quiet_host.
Proof.
  split; [exact gw_fresh|]. split; [split; intros _; apply not_elem_of_nil|].
  split; [|apply host_healthyb_ok; by vm_compute]. intros f _. apply (bool_decide_unpack _). by destruct f; vm_compute.
Qed.

Lemma deployed_pod_starts_witness :
  (∃ c, c ∈ Containers (pt_Spec (depl_Template sample_deployment)) ∧ c_Name c = "egress-gw" ∧ Args c = ["--zap-stacktrace-level=panic"] ∧
    (prepare (env_of kubelet c) healthy_mgr 5555 quiet_host).1 = Ok (SetupPodWatcher "internet" "nat")) ∧
  reconcilePodTemplate (mkEgressReconciler "egress-gw:1" 6666) sample_nat empty_PodTemplateSpec =
    reconcilePodTemplate sample_reconciler sample_nat empty_PodTemplateSpec.
Proof.
  destruct (deployed_pod_starts (W := host) kubelet sample_reconciler sample_nat sample_deployment ["10.1.1.9"; "fd01::9"]
    sample_deployment_ok ltac:(done) ltac:(done) kubelet_gives) as [(c0 & c & Hc & Hec & _ & _ & H) Hport].
  split; [|apply Hport]. exists c. split; [exact Hc|]. split; [apply Hec|]. split.
  - vm_compute in Hc. apply list_elem_of_singleton in Hc as ->. done.
  - apply (H 5555 quiet_host sample_startable).
Defined.
