(* ===== verification/RoundTrip.v ===== *)
(** * From a client pod through the egress pod and back

    The node agent's setup of a client ([runners/agent.go]), the service the
    controller made ([controllers/egress_controller.go]) and the egress pod
    ([cmd/egress-gw], [controllers/pod_watcher.go]) put together: where the packets
    of the client are sent, who receives them, and where the replies are sent. *)
From Stdlib Require Import Ascii.
From S2P Require Import Prelude Constants GoStrings GoNet Corev1 Netlink Kernel Frames Rpdb NatClient Steering Fou EgressNat EgressApi Api FakeApi EgressController Peers FouPeers AgentSetup Agent PodSteering PodWatcher Agreement EgressPod EgressPaths Deployed.

(** ** Sending and receiving *)

(** The link sends what is routed over it in UDP to [port] of [to]. *)
Definition sends (lk : Link) (from to : IP) (port : Z) : Prop :=
  ∃ t, (Kind lk = Iptun t ∨ Kind lk = Ip6tnl t) ∧ Local t = from ∧ Remote t = to ∧ EncapDport t = port.
(** A Foo-over-UDP socket of the family is open. *)
Definition listens (n : Net) (f : family) (port : Z) : Prop := (f, port) ∈ fou_key <$> fous n.
(** The service passes UDP packets on. *)
Definition forwards (svc : Service) (port target : Z) : Prop :=
  ∃ p, p ∈ svc_Ports svc ∧ sp_Port p = port ∧ sp_TargetPort p = target ∧ sp_Protocol p = "UDP".

Definition tunnel_addr (t : fouTunnel) (f : family) : IP := match f with V4 => local4 t | V6 => local6 t end.

Lemma peer_local_family t a : peer_local t a = tunnel_addr t (addr_family a).
Proof.
  unfold peer_local, is4, addr_family, net_family. cbn [net_IP].
  destruct (decide (To4 a = [])) as [E|E].
  - by rewrite (bool_decide_eq_false_2 (To4 a ≠ [])), bool_decide_eq_true_2 by tauto.
  - by rewrite (bool_decide_eq_true_2 (To4 a ≠ [])), bool_decide_eq_false_2 by tauto.
Qed.

Lemma peer_link_sends t a idx : sends (peer_link t a idx) (canonIP (tunnel_addr t (addr_family a))) (canonIP a) (uint16 (dport t)).
Proof.
  rewrite <-peer_local_family. unfold sends, peer_link, peer_kind. eexists. split; [destruct (is4 a); [by left|by right]|done].
Qed.

Lemma init_listens t n f : tunnel_addr t f ≠ [] → listens (Fou.init_net t n) f (dport t).
Proof.
  intros Hf. unfold listens, Fou.init_net. cbv zeta. destruct f; simpl in Hf.
  - rewrite (bool_decide_eq_true_2 (local4 t ≠ [])) by done.
    assert (H : (V4, dport t) ∈ fou_key <$> fous (init_net4 t n)) by (simpl; rewrite fmap_app; apply elem_of_app; right; left).
    case_bool_decide; [|done]. simpl in *. rewrite fmap_app. apply elem_of_app. by left.
  - rewrite (bool_decide_eq_true_2 (local6 t ≠ [])) by done. simpl. rewrite fmap_app. apply elem_of_app. right. left.
Qed.

Lemma tunnel_listens t n n1 f : tunnel_up t n n1 → links n !! fouDummy = None → tunnel_addr t f ≠ [] → listens n1 f (dport t).
Proof.
  intros [[_ [l Hl]]|(_ & ls & idx & -> & _)] Hd Hf; [congruence|]. unfold listens. simpl. by apply init_listens.
Qed.

Lemma setup_listens port ipv4 ipv6 l n n' f : let t := pod_tunnel port ipv4 ipv6 in
  setup_done port ipv4 ipv6 l n n' → links n !! fouDummy = None → tunnel_addr t f ≠ [] → listens n' f port.
Proof.
  intros t (n0 & n1 & H0 & [[[(_ & _ & Hfo & _) _] _] _] & lks & _ & _ & _ & Hfo') Hd Hf.
  unfold listens. rewrite Hfo', Hfo. by apply (tunnel_listens t n n0).
Qed.

Lemma runs_listen {W} `{!HostOps W, !HostLaws W} t e good (w0 : W) s f : pod_runs t e good w0 s → fresh_pod (view w0) →
  own_addr e f ≠ [] → tunnel_addr t f ≠ [] → listens (view s.1.2) f (dport t).
Proof.
  intros [(n0 & HP & Hn0) _] (_ & _ & Hd & _) He Ht. destruct (Hn0 f He) as (_ & _ & n1 & Hup & Hfo).
  unfold listens. rewrite (paths_fous _ _ _ _ HP), Hfo. by apply (tunnel_listens t (view w0) n1).
Qed.

Lemma service_forwards rc eg svc : service_ok rc eg svc → forwards svc (r_Port rc) (r_Port rc).
Proof.
  intros (_ & _ & _ & (p & Hp & Hport & Htarget & Hproto) & _). exists p. rewrite Hp. split; [left|]. done.
Qed.

(** The names in an annotation have no comma. *)
Lemma Split_pieces s sep x : x ∈ Split s sep → sep ∉ String.list_ascii_of_string x.
Proof.
  revert x. induction s as [|c s IH]; simpl; intros x; [intros ->%list_elem_of_singleton; apply not_elem_of_nil|].
  case_bool_decide as Hc; [intros [->|Hx]%elem_of_cons; [apply not_elem_of_nil|by apply IH]|].
  destruct (Split_cons s sep) as (y & l & E). rewrite E in *. intros [->|Hx]%elem_of_cons; [|apply IH; by right].
  simpl. apply not_elem_of_cons. split; [congruence|]. apply IH. left.
Qed.

(** ** The client *)
Section client.
Context {W : Type} `{!HostOps W, !HostLaws W, !AgentEnv W, !AgentEnvLaws W, !CniLib, !CniLibLaws}.
Implicit Types w : W.

(** The pod is annotated for this Egress alone, whose service has an address. *)
Record client_of (pod : Pod) (eg : Egress) (svc : Service) : Prop := {
  co_network : HostNetwork pod = false;
  co_names : egNames (Annotations pod) = [eg_key eg];
  co_egress : api_Egress (eg_key eg) = Ok eg;
  co_service : api_Service (eg_key eg) = Ok svc;
  co_address : ParseIP (ClusterIP svc) ≠ [];
  co_nets : Forall unmapped (omap ParseCIDR (Destinations (Spec eg))) }.

(** CNI ADD in its new namespace succeeded. *)
Record client_added (port : Z) (args : CNIArgs) (pod : Pod) (conf : PluginConf) w w' : Prop := {
  ca_pod : api_Pod (lookup_arg PodNamespaceKey args, lookup_arg PodNameKey args) = Ok pod;
  ca_conf : ∃ res, parseConfig (StdinData args) (Ifname args) = Ok (conf, res);
  ca_ok : pod_ok (view w);
  ca_new : no_tunnels (view w);
  ca_dummy : links (view w) !! fouDummy = None;
  ca_added : ∃ data, Agent.Add port args w = (Ok data, w') }.

Definition service_ip (svc : Service) : IP := canonIP (ParseIP (ClusterIP svc)).

(** [x] is in a destination of the Egress, and not a private address with a route
    unless the destination is private too. *)
Record destined (c : natClient) (eg : Egress) (svc : Service) (n : Net) (f : family) (x : IP) : Prop := {
  de_len : ip_len x;
  de_some : x ≠ [];
  de_family : net_family (mkIPNet x []) = f;
  de_uses : nc_uses c f = true;
  de_unclaimed : unclaimed f x n;
  de_local : Contains (nc_linkLocal f) x = false;
  de_covered : ∃ d s, d ∈ Destinations (Spec eg) ∧ ParseCIDR d = Some s ∧ net_family s = f ∧ Contains s x = true ∧
    same_family (service_ip svc) s ∧
    (narrow_for c s = true ∨ existsb (λ p, Contains p x) (nc_priv c f) = false ∨
     longest (canonIP x) (in_table mainTableID (pf_get f (routes n))) = None) }.

Definition gateway_of (eg : Egress) (svc : Service) : GWNets :=
  mkGWNets (service_ip svc) (filter (same_family (service_ip svc)) (omap ParseCIDR (Destinations (Spec eg)))).

Lemma asks_only pod eg svc g : client_of pod eg svc → asks pod g ↔ g = gateway_of eg svc ∧ Networks g ≠ [].
Proof using Type.
  intros [Hh Hn He Hs Hip _]. split.
  - intros (_ & Hne & n & v & Hin & Hv & eg' & svc' & He' & Hs' & _ & Hg & Hns). split; [|done].
    assert (Hk : n ∈ egNames (Annotations pod)) by (apply egNames_spec; eauto). rewrite Hn in Hk.
    apply list_elem_of_singleton in Hk as ->.
    assert (eg' = eg) as -> by congruence. assert (svc' = svc) as -> by congruence.
    unfold gateway_of, service_ip. rewrite <-Hg, <-Hns. by destruct g.
  - intros [-> Hne]. split; [done|]. split; [done|].
    assert (Hk : eg_key eg ∈ egNames (Annotations pod)) by (rewrite Hn; left). apply egNames_spec in Hk as (v & Hin & Hv).
    exists (eg_key eg), v. split; [done|]. split; [done|]. by exists eg, svc.
Qed.

Lemma service_ip_family svc s f : same_family (service_ip svc) s → net_family s = f → addr_family (service_ip svc) = f.
Proof using Type.
  unfold same_family, addr_v4, net_family, addr_family, net_family. cbn [net_IP]. intros Hs Hf.
  by destruct (bool_decide (To4 (net_IP s) = [])), (bool_decide (To4 (service_ip svc) = [])).
Qed.

Lemma client_uses ipv4 ipv6 port f : nc_uses (pod_client ipv4 ipv6) f = true → tunnel_addr (pod_tunnel port ipv4 ipv6) f ≠ [].
Proof using Type. by destruct f; simpl; intros ?%bool_decide_eq_true. Qed.

(** Its packets are sent to the service, and it can receive. *)
Lemma client_sends port args pod conf eg svc w w' f x :
  let t := pod_tunnel port (net_IP (ContIPv4 conf)) (net_IP (ContIPv6 conf)) in
  let c := pod_client (net_IP (ContIPv4 conf)) (net_IP (ContIPv6 conf)) in
  client_of pod eg svc → client_added port args pod conf w w' → destined c eg svc (view w) f x →
  ∃ lk s, route_to f x (view w') = Some (egress_route c lk s) ∧ links (view w') !! Name lk = Some lk ∧
    sends lk (canonIP (tunnel_addr t f)) (service_ip svc) (uint16 port) ∧ listens (view w') f port.
Proof using All.
  intros t c Hco [Hpod [res Hconf] Hok Hnew Hdummy [data Hadd]] [Hlen Hsome Hfam Huses Hun Hll (d & s & Hd & Hs & Hsf & Hx & Hsame & Hcase)].
  set (g := gateway_of eg svc).
  assert (Hsg : s ∈ Networks g) by (apply list_elem_of_filter; split; [done|]; apply list_elem_of_omap; eauto).
  assert (Hasks : ∀ g', asks pod g' ↔ g' = g).
  { intros g'. rewrite (asks_only pod eg svc) by done. split; [by intros [-> _]|]. intros ->. split; [done|]. by intros E; rewrite E in Hsg; apply elem_of_nil in Hsg. }
  pose proof (proj2 (Hasks g) eq_refl) as Hg.
  assert (Hdest : dest c f x pod (narrow_for c s) g s) by done.
  pose proof (wp_run _ _ _ _ _ Hadd (wp_Add port args w Hok)) as (pod' & l & conf' & res' & Hpod' & Hl & Hconf' & _ & Hdone).
  assert (pod' = pod) as -> by congruence. assert (conf' = conf) as -> by congruence.
  assert (Hlis : listens (view w') f port).
  { destruct Hdone as [[-> _]|[_ Hdone]]; [by apply (getGWNets_asks pod _ Hl), elem_of_nil in Hg|].
    eapply setup_listens; [exact Hdone|done|]. by apply client_uses. }
  assert (Hun' : ∀ g', asks pod g' → Forall unmapped (Networks g')).
  { intros g' ->%Hasks. apply Forall_forall. intros s' [_ Hs']%list_elem_of_filter. pose proof (co_nets _ _ _ Hco) as HF.
    rewrite Forall_forall in HF. by apply HF. }
  pose proof (wp_run _ _ _ _ _ Hadd (wp_pod_packets port args pod conf res f x w Hok Hnew Hpod Hconf (ex_intro _ g Hg) Hun'
    Hlen Hsome Hfam Huses Hun Hll) data eq_refl) as (Hnar & _ & Hwide). fold t c in Hnar, Hwide.
  assert (Ht : ∃ b, tunnelled t c f x pod b (view w')).
  { destruct (narrow_for c s) eqn:En; [exists true; apply Hnar; by exists g, s|].
    destruct (decide (Exists (λ s', net_family s' = f ∧ narrow_for c s' = true ∧ Contains s' x = true) (Networks g))) as [Hex|Hno].
    - exists true. apply Hnar. apply Exists_exists in Hex as (s' & ? & ?). by exists g, s'.
    - exists false. apply Hwide; [|by destruct Hcase as [?|[?|?]]; [done|left|right]|by exists g, s].
      intros (g' & s' & ->%Hasks & ? & ?). apply Hno, Exists_exists. by exists s'. }
  destruct Ht as (b & g1 & s1 & lk & (Hg1 & _) & _ & Hr & Hlk & g' & idx & Hg' & _ & Hpl & _).
  apply Hasks in Hg1, Hg'. subst g1 g'. exists lk, s1. split; [done|].
  assert (Hname : Name lk = fouName (Gateway g)) by by rewrite Hpl. split; [by rewrite Hname|]. split; [|done]. rewrite Hpl.
  pose proof (peer_link_sends t (Gateway g) idx) as Hsend. simpl in Hsend. rewrite (service_ip_family svc s f) in Hsend by done.
  replace (canonIP (service_ip svc)) with (service_ip svc) in Hsend by (unfold service_ip; by rewrite canonIP_idemp). done.
Qed.
End client.

(** ** The egress pod *)
Section egress_pod.
Context {W : Type} `{!HostOps W, !HostLaws W}.

(** A container the controller deployed for the Egress, started in a new namespace
    with this port, has reached the state [s]; [good] are the addresses of clients,
    no two of which share a tunnel name. *)
Record egress_runs (resolve : EnvVarSource → string) (rc : EgressReconciler) (eg : Egress) (c : Container) (ips : list string)
    (port : Z) (good : IP → Prop) (w0 : W) (s : sys (W := W)) : Prop := {
  er_container : ∃ c0, egress_container rc eg c0 c;
  er_addresses : gives_addresses resolve ips;
  er_fresh : fresh_pod (view w0);
  er_reached : let t := pod_tunnel port (last_v4 [] ips) (last_v6 [] ips) in let e := pod_egress (last_v4 [] ips) (last_v6 [] ips) in
    ∃ r w1, prepare (env_of resolve c) healthy_mgr port w0 = (Ok r, w1) ∧ rtc (@step W (fou_peers t e) good) (r, w1, no_past) s;
  er_good : ∀ a, good a → wf_ip a ∧ a ≠ [];
  er_names : ∀ a b, good a → good b → fouName a = fouName b → canonIP a = canonIP b }.

(** Its replies to a live client are sent to the client, and it can receive. *)
Lemma egress_replies resolve rc eg c ips port good (w0 : W) s key ip :
  let e := pod_egress (last_v4 [] ips) (last_v6 [] ips) in let f := addr_family ip in
  egress_runs resolve rc eg c ips port good w0 s → live s key ip → own_addr e f ≠ [] → unclaimed_from e f ip (view w0) →
  ∃ lk, route_from e f ip (view s.1.2) = Some (client_route f (canonIP ip, Index lk)) ∧
    links (view s.1.2) !! Name lk = Some lk ∧ sends lk (canonIP (own_addr e f)) (canonIP ip) (uint16 port) ∧ listens (view s.1.2) f port.
Proof.
  intros e f [[c0 Hc] Hips Hfr (r & w1 & Hmain & Hr) Hgood Hnames] Hlive Hown Hun.
  destruct (env_of_egress resolve (Env c0) eg c (ec_Env _ _ _ _ Hc)) as (_ & _ & E3).
  set (t := pod_tunnel port (last_v4 [] ips) (last_v6 [] ips)) in Hr. fold e in Hr.
  assert (Hloc : tunnel_addr t f = own_addr e f) by by destruct f.
  pose proof (started_runs (env_of resolve c) healthy_mgr port good Hgood Hnames r w0 w1 s (conj I I) Hfr Hmain) as Hruns.
  pose proof (runs_return (env_of resolve c) port good Hgood Hnames w0 s key ip) as Hret.
  rewrite E3, (gives_split _ _ Hips) in Hruns, Hret. specialize (Hruns Hr).
  destruct (Hret Hruns Hlive) as (idx & Hl & Hroute); [rewrite peer_local_family; fold t f; by rewrite Hloc|done|].
  exists (peer_link t ip idx). split; [exact Hroute|]. split; [exact Hl|]. split.
  - rewrite <-Hloc. apply peer_link_sends.
  - by apply (runs_listen t e good w0 s f Hruns Hfr); rewrite ?Hloc.
Qed.
End egress_pod.

(** ** Property *)
(** C3: the path of a client's packets is closed.  With one port in the flags of the
    agent, the controller and the egress pods: the client, annotated for an Egress
    and set up by CNI ADD, sends its packets for a destination of the Egress in UDP
    to that port of the Egress's service; the service forwards it to the same port
    of its pods; an egress pod listens there, takes the client for its own, and once
    it has reconciled it, in any state it reaches in which the client's address is live
    ([PodWatcher.live]), sends the replies in UDP to the port of the client's own address,
    where the client listens. *)
Theorem egress_round_trip {W W'} `{!HostOps W, !HostLaws W, !HostOps W', !HostLaws W', !AgentEnv W, !AgentEnvLaws W, !CniLib, !CniLibLaws}
    rc eg svc args pod conf (w w' : W) f x resolve cont ips good (w0 : W') s ip :
  let port := r_Port rc in
  let t := pod_tunnel port (net_IP (ContIPv4 conf)) (net_IP (ContIPv6 conf)) in
  let c := pod_client (net_IP (ContIPv4 conf)) (net_IP (ContIPv6 conf)) in
  let e := pod_egress (last_v4 [] ips) (last_v6 [] ips) in
  let client := canonIP (tunnel_addr t f) in
  0 ≤ port < 65536 → service_ok rc eg svc →
  client_of pod eg svc → client_added port args pod conf w w' → destined c eg svc (view w) f x →
  egress_runs resolve rc eg cont ips port good w0 s →
  live s (key_of pod) ip → addr_family ip = f → canonIP ip = client → own_addr e f ≠ [] → unclaimed_from e f ip (view w0) →
  (∃ lk n, route_to f x (view w') = Some (egress_route c lk n) ∧ links (view w') !! Name lk = Some lk ∧
    sends lk client (service_ip svc) port) ∧
  (forwards svc port port ∧ listens (view s.1.2) f port ∧ shouldHandle (watcher_of cont) pod = true) ∧
  (∃ lk, route_from e f ip (view s.1.2) = Some (client_route f (client, Index lk)) ∧ links (view s.1.2) !! Name lk = Some lk ∧
    sends lk (canonIP (own_addr e f)) client port) ∧
  listens (view w') f port.
Proof.
  intros port t c e client Hport Hsvc Hco Hadd Hdest Hruns Hlive Hf Hip Hown Hun. subst f.
  assert (Hu : uint16 port = port) by by apply Z.mod_small.
  destruct (client_sends port args pod conf eg svc w w' (addr_family ip) x Hco Hadd Hdest) as (lk & n & Hr & Hl & Hs & Hlis).
  destruct (egress_replies resolve rc eg cont ips port good w0 s (key_of pod) ip Hruns Hlive Hown Hun) as (lk' & Hr' & Hl' & Hs' & Hlis').
  rewrite Hip, Hu in *. split; [by exists lk, n|]. split; [|split; [by exists lk'|done]].
  split; [by apply (service_forwards rc eg)|]. split; [done|].
  destruct (er_container _ _ _ _ _ _ _ _ _ Hruns) as [c0 Hc].
  assert (Hw : watcher_of cont = SetupPodWatcher (eg_Namespace eg) (eg_Name eg)).
  { unfold watcher_of, env_value. by rewrite (ec_Env _ _ _ _ Hc), !foldl_app. }
  assert (Hk : eg_key eg ∈ egNames (Annotations pod)) by (rewrite (co_names _ _ _ Hco); left).
  rewrite Hw. apply handles_looks_up; [|by split; [apply (co_network _ _ _ Hco)|]].
  apply egNames_spec in Hk as (v & _ & Hv). by eapply Split_pieces.
Qed.

(** ** Witness: one client, one egress pod, the port 5555 everywhere *)
Section witness.
#[local] Existing Instances wit_cni wit_cni_laws.

Definition trip_pod : Pod := mkPod "default" "user" false [("egress.ysksuzuki.com/internet", "nat")] ["10.1.1.1"] "Running".
Definition trip_service : Service := accept_Service (get_ok made_service mutated_service).
#[local] Instance trip_env : AgentEnv host := {
  Error e := "error"; sprint_args m := "map[]"; api_Pod k := Ok trip_pod; api_Egress k := Ok sample_nat;
  api_Service k := Ok trip_service; WithNetNSPath p f := f }.
#[local] Instance trip_env_laws : AgentEnvLaws host.
Proof. split; intros; simpl; try done. by left. Qed.

Definition trip_added : host := (Agent.Add 5555 (sample_args "user") new_pod).2.
Definition trip_container : Container :=
  egressContainer sample_reconciler sample_nat empty_Container.
Definition trip_addresses : list string := ["10.1.1.9"; "fd01::9"].
#[local] Hint Extern 0 (PeerOps host) => exact (fou_peers
  (pod_tunnel 5555 (last_v4 [] trip_addresses) (last_v6 [] trip_addresses))
  (pod_egress (last_v4 [] trip_addresses) (last_v6 [] trip_addresses))) : typeclass_instances.
Definition trip_host : host := (prepare (env_of kubelet trip_container) healthy_mgr 5555 quiet_host).2.
Definition trip_start : PW (W := host) := (SetupPodWatcher "internet" "nat", trip_host).
Definition trip_end : sys (W := host) := react (trip_start, no_past) (inl trip_pod) "default" "user".

Lemma trip_client : client_of (W := host) trip_pod sample_nat trip_service.
Proof. split; try done. constructor; [by right; vm_compute|done]. Qed.

Lemma trip_added_ok : client_added (W := host) 5555 (sample_args "user") trip_pod sample_conf new_pod trip_added.
Proof.
  split; [done|by eexists; vm_compute|exact new_pod_ok| |done|].
  - intros k [s Hk]. simpl. apply lookup_singleton_None. intros <-. by destruct Hk.
  - exists "{}". by vm_compute.
Qed.

Lemma trip_destined : destined (pod_client [10; 1; 1; 1] []) sample_nat trip_service (view new_pod) V4 [10; 9; 1; 1].
Proof.
  split; [by right; left|done|by vm_compute|done|apply sample_unclaimed|by vm_compute|].
  exists "10.0.0.0/8", (mkIPNet [10; 0; 0; 0] (CIDRMask 8 32)). split_and!; [left|by vm_compute..|left; by vm_compute].
Qed.

Lemma trip_runs : egress_runs kubelet sample_reconciler sample_nat trip_container trip_addresses 5555 good4 quiet_host trip_end.
Proof.
  split; [|exact kubelet_gives|exact gw_fresh| |exact good4_wf|exact good4_canon].
  - exists empty_Container. split; try done; by eexists.
  - exists (SetupPodWatcher "internet" "nat"), trip_host. split; [by vm_compute|]. apply rtc_once, react_step.
    intros pod [= <-]. apply Forall_singleton, good4_pod. by vm_compute.
Qed.

Lemma egress_round_trip_witness :
  (∃ lk n, route_to V4 [10; 9; 1; 1] (view trip_added) = Some (egress_route (pod_client [10; 1; 1; 1] []) lk n) ∧
    links (view trip_added) !! Name lk = Some lk ∧ sends lk [10; 1; 1; 1] [10; 96; 0; 7] 5555) ∧
  (∃ lk, route_from (pod_egress [10; 1; 1; 9] (ParseIP "fd01::9")) V4 (ParseIP "10.1.1.1") (view trip_end.1.2) =
    Some (client_route V4 ([10; 1; 1; 1], Index lk)) ∧ links (view trip_end.1.2) !! Name lk = Some lk ∧
    sends lk [10; 1; 1; 9] [10; 1; 1; 1] 5555) ∧ listens (view trip_added) V4 5555.
Proof.
  destruct (egress_round_trip (W := host) (W' := host) sample_reconciler sample_nat trip_service (sample_args "user") trip_pod
    sample_conf new_pod trip_added V4 [10; 9; 1; 1] kubelet trip_container trip_addresses good4 quiet_host trip_end
    (ParseIP "10.1.1.1") ltac:(done)) as (H1 & _ & H2 & H3).
  - eapply (mutate_service_ok own _ _ made_service (get_ok made_service mutated_service)); [by vm_compute|apply accept_Service_ok|by vm_compute].
  - exact trip_client.
  - exact trip_added_ok.
  - exact trip_destined.
  - exact trip_runs.
  - split; [split; [apply (bool_decide_unpack _); by vm_compute|exists [ParseIP "10.1.1.1"]; split; [by vm_compute|left]]|apply (bool_decide_unpack _); by vm_compute].
  - by vm_compute.
  - by vm_compute.
  - by vm_compute.
  - exact (gw_unclaimed _).
  - split; [exact H1|]. split; [exact H2|exact H3].
Defined.
End witness.
