(* ===== verification/Memory.v ===== *)
(** * Memory with pointers, and what a deep copy is

    Values elsewhere in the development are immutable; here slices, maps and
    pointers are addresses, so that aliasing can be told from copying.  A Go type
    that can be copied deeply is a [CopyType]: its representation, which may hold
    addresses, the tree it stands for, and its [DeepCopyInto]. *)
From S2P Require Import Prelude.

Abbreviation loc := positive.

(** A pointer to a [T], a slice when [T] is a list, or a map: nil or an address. *)
Record ptr (T : Type) := mkPtr { addr : option loc }.
Arguments mkPtr {_} _.
Arguments addr {_} _.

Section memory.
Context {cell : Type}.
Abbreviation mem := (gmap loc cell).

(** Go types that can lie in memory. *)
Class Storable (T : Type) := {
  wrap : T → cell; unwrap : cell → option T; unwrap_wrap x : unwrap (wrap x) = Some x }.

Definition alloc {T} `{!Storable T} (x : T) : M mem loc := λ m,
  let l := fresh (dom m) in (Ok l, <[l := wrap x]> m).
Definition load {T} `{!Storable T} (l : loc) : M mem T := λ m,
  match m !! l ≫= unwrap with
  | Some x => (Ok x, m)
  | None => (Panicked "invalid memory address or nil pointer dereference", m)
  end.
Definition store {T} `{!Storable T} (l : loc) (x : T) : M mem unit := λ m, (Ok tt, <[l := wrap x]> m).

(** [s[i]] *)
Definition index {T} (s : list T) (i : nat) : M mem T :=
  lift_outcome (match s !! i with Some x => Ok x | None => Panicked "index out of range" end).

(** ** Growing memory

    [grows m P]: the run returned a result that satisfies [P] in the memory [h] it
    added; what was there is as it was. *)
Definition grows {A} (m : mem) (P : A → mem → Prop) (o : outcome A) (m' : mem) : Prop :=
  ∃ y h, o = Ok y ∧ P y h ∧ m ##ₘ h ∧ m' = m ∪ h.

Definition monotone {A} (P : A → mem → Prop) : Prop := ∀ y h h', h ⊆ h' → P y h → P y h'.

Lemma grows_refl {A} m (P : A → mem → Prop) y : P y ∅ → grows m P (Ok y) m.
Proof. intros HP. exists y, ∅. split_and!; [done..|apply map_disjoint_empty_r|by rewrite map_union_empty]. Qed.

(** One step after another. *)
Lemma wp_grows_bind {A B} (c : M mem A) (k : A → M mem B) (P : A → mem → Prop) (Q : B → mem → Prop) m :
  wp c (grows m P) m →
  (∀ y h, P y h → m ##ₘ h → wp (k y) (grows (m ∪ h) (λ z h', Q z (h ∪ h'))) (m ∪ h)) →
  wp (c ≫= k) (grows m Q) m.
Proof.
  intros Hc Hk. apply wp_bind. eapply wp_mono; [exact Hc|]. intros o m1 (y & h & -> & HP & Hd & ->). simpl.
  eapply wp_mono; [by apply Hk|]. intros o m2 (z & h' & -> & HQ & Hd' & ->). exists z, (h ∪ h').
  apply map_disjoint_union_l in Hd' as [? ?]. split_and!; [done..| |by rewrite (assoc_L (∪))].
  by apply map_disjoint_union_r.
Qed.

Lemma wp_load {T} `{!Storable T} l x (Q : outcome T → mem → Prop) m : m !! l = Some (wrap x) → Q (Ok x) m → wp (load l) Q m.
Proof. intros Hl HQ. unfold wp, load. by rewrite Hl; simpl; rewrite unwrap_wrap. Qed.

(** Reading does not add anything. *)
Lemma wp_grows_load {T B} `{!Storable T} l x (k : T → M mem B) Q m : m !! l = Some (wrap x) →
  wp (k x) (grows m Q) m → wp (load l ≫= k) (grows m Q) m.
Proof. intros Hl Hk. apply wp_bind. by eapply wp_load. Qed.

(** [new(T)], then its contents. *)
Definition alloc_filled {T} `{!Storable T} (zero : T) (fill : M mem T) : M mem (ptr T) :=
  l ← alloc zero; y ← fill; _ ← store l y; mret (mkPtr (Some l)).

Definition points_to {T} `{!Storable T} (P : T → mem → Prop) (p : ptr T) (h : mem) : Prop :=
  ∃ l y, addr p = Some l ∧ h !! l = Some (wrap y) ∧ P y h.

Lemma points_to_mono {T} `{!Storable T} (P : T → mem → Prop) : monotone P → monotone (points_to P).
Proof. intros HP p h h' Hh (l & y & ? & ? & ?). exists l, y. split_and!; [done|by eapply lookup_weaken|by eapply HP]. Qed.

Lemma wp_alloc_filled {T} `{!Storable T} (zero : T) fill (P : T → mem → Prop) m : monotone P →
  (∀ m1, m ⊆ m1 → wp fill (grows m1 P) m1) → wp (alloc_filled zero fill) (grows m (points_to P)) m.
Proof.
  intros HP Hfill. unfold alloc_filled. apply wp_bind. unfold wp at 1, alloc. simpl. set (l := fresh (dom m)).
  assert (Hl : m !! l = None) by apply not_elem_of_dom, is_fresh.
  apply wp_bind. eapply wp_mono; [apply Hfill; by apply insert_subseteq|].
  intros o m1 (y & h & -> & Hy & Hd & ->). unfold wp, store, mbind, M_bind, mret, M_ret. simpl.
  apply map_disjoint_insert_l in Hd as [Hlh Hd]. exists (mkPtr (Some l)), (<[l := wrap y]> h). split_and!; [done| | |].
  - exists l, y. rewrite lookup_insert_eq. split_and!; [done..|]. eapply HP; [|exact Hy]. by apply insert_subseteq.
  - by apply map_disjoint_insert_r.
  - rewrite <-insert_union_l, insert_insert_eq. by rewrite insert_union_r.
Qed.

(** ** Types with a deep copy *)
Record CopyType := mkCopyType {
  rep : Type; val : Type; zero : rep;
  denotes : rep → val → mem → Prop;          (* the representation stands for the tree, in this memory *)
  DeepCopyInto : rep → M mem rep }.          (* [in.DeepCopyInto(out)]: what is then in [*out] *)

Class CopyLaws (T : CopyType) : Prop := {
  denotes_mono v : monotone (λ x, denotes T x v);
  (* the copy stands for the same tree, in new memory alone *)
  law_DeepCopyInto x v m : denotes T x v m → wp (DeepCopyInto T x) (grows m (λ y, denotes T y v)) m }.

Section pointers.
Context (T : CopyType) `{!Storable (rep T)}.

(** A pointer, nil or to what stands for a tree. *)
Definition denotes_ptr (p : ptr (rep T)) (v : option (val T)) (m : mem) : Prop :=
  match v with
  | None => addr p = None
  | Some v => points_to (λ x, denotes T x v) p m
  end.

(** [if in != nil { out = new(T); ( *in).DeepCopyInto(out) }] *)
Definition copy_ptr (p : ptr (rep T)) : M mem (ptr (rep T)) :=
  match addr p with
  | None => mret p
  | Some l => alloc_filled (zero T) (x ← load l; DeepCopyInto T x)
  end.

Context `{!CopyLaws T}.

Lemma denotes_ptr_mono v : monotone (λ p, denotes_ptr p v).
Proof using Type*. destruct v as [v|]; [|by intros p h h' _]. apply points_to_mono, denotes_mono. Qed.

Lemma wp_copy_ptr p v m : denotes_ptr p v m → wp (copy_ptr p) (grows m (λ q, denotes_ptr q v)) m.
Proof using Type*.
  unfold copy_ptr. destruct v as [v|]; simpl.
  - intros (l & x & -> & Hl & Hx). apply wp_alloc_filled; [apply denotes_mono|].
    intros m1 Hm1. eapply wp_grows_load; [by eapply lookup_weaken|]. apply law_DeepCopyInto.
    by eapply (denotes_mono v x).
  - intros E. rewrite E. by apply wp_ret, grows_refl.
Qed.

(** ** Slices of such a type *)
Context `{!Storable (list (rep T))}.

Definition denotes_slice (p : ptr (list (rep T))) (v : option (list (val T))) (m : mem) : Prop :=
  match v with
  | None => addr p = None
  | Some vs => points_to (λ xs, λ m, Forall2 (λ x v, denotes T x v m) xs vs) p m
  end.

(** [for i := range *in { ( *in)[i].DeepCopyInto(&( *out)[i]) }] *)
Definition copy_item (l l' : loc) (i : nat) : M mem unit :=
  xs ← load l; x ← index xs i; y ← DeepCopyInto T x; ys ← load l'; store l' (<[i := y]> ys).

(** [if in != nil { out = make([]T, len(in)); ... }] *)
Definition copy_slice (p : ptr (list (rep T))) : M mem (ptr (list (rep T))) :=
  match addr p with
  | None => mret p
  | Some l =>
      xs ← load l;
      l' ← alloc (replicate (length xs) (zero T));
      _ ← for_each (copy_item l l') (seq 0 (length xs));
      mret (mkPtr (Some l'))
  end.

Lemma denotes_slice_mono v : monotone (λ p, denotes_slice p v).
Proof using Type*.
  destruct v as [v|]; [|by intros p h h' _]. apply points_to_mono. intros ys h h' Hh HF.
  eapply Forall2_impl; [exact HF|]. intros x w. by apply (denotes_mono w x).
Qed.

(** The items up to [i] are copied into the slice at [l'] and the memory [h]. *)
Definition copied (m : mem) (l' : loc) (vs : list (val T)) (i : nat) (m' : mem) : Prop := ∃ h ys,
  m' = m ∪ <[l' := wrap ys]> h ∧ m ##ₘ h ∧ h !! l' = None ∧ length ys = length vs ∧
  Forall2 (λ x v, denotes T x v h) (take i ys) (take i vs).

Lemma wp_copy_item m l l' xs vs i m' : m !! l = Some (wrap xs) → m !! l' = None →
  Forall2 (λ x v, denotes T x v m) xs vs → (i < length vs)%nat → copied m l' vs i m' →
  wp (copy_item l l' i) (λ o m'', o = Ok tt ∧ copied m l' vs (S i) m'') m'.
Proof using Type*.
  intros Hl Hl' HF Hi (h & ys & -> & Hd & Hh & Hlen & Hys). unfold copy_item.
  destruct (lookup_lt_is_Some_2 vs i Hi) as [v Hv]. destruct (Forall2_lookup_r _ _ _ _ _ HF Hv) as (x & Hx & Hxv).
  apply wp_bind. eapply wp_load; [by apply lookup_union_Some_l|]. simpl. unfold index. rewrite Hx.
  apply wp_bind, wp_lift_outcome. simpl. apply wp_bind. eapply wp_mono.
  { eapply law_DeepCopyInto, (denotes_mono v x m); [apply map_union_subseteq_l|exact Hxv]. }
  intros o m1 (y & h2 & -> & Hy & [Hd1 [Hl2 Hd2]%map_disjoint_insert_l]%map_disjoint_union_l & ->).
  assert (E : m ∪ <[l' := wrap ys]> h ∪ h2 = <[l' := wrap ys]> (m ∪ (h ∪ h2))).
  { by rewrite insert_union_r, insert_union_l, (assoc_L (∪)) by done. }
  cbn [on_ok]. rewrite E. apply wp_bind. eapply wp_load; [apply lookup_insert_eq|]. cbn [on_ok].
  unfold wp, store. simpl. rewrite insert_insert_eq. split; [done|]. exists (h ∪ h2), (<[i := y]> ys).
  rewrite insert_union_r, length_insert by done. split_and!; [done| |by apply lookup_union_None|done|].
  - by apply map_disjoint_union_r.
  - rewrite (take_S_r vs _ v), (take_S_r (<[i := y]> ys) _ y), take_insert_ge by (done || lia || by apply list_lookup_insert_eq; lia).
    apply Forall2_app; [|by constructor; [eapply (denotes_mono v y h2); [by apply map_union_subseteq_r|]|]].
    eapply Forall2_impl; [exact Hys|]. intros x' v' Hx'. eapply (denotes_mono v' x' h); [apply map_union_subseteq_l|done].
Qed.

Lemma wp_copy_slice p v m : denotes_slice p v m → wp (copy_slice p) (grows m (λ q, denotes_slice q v)) m.
Proof using Type*.
  unfold copy_slice. destruct v as [vs|]; simpl; [|by intros E; rewrite E; apply wp_ret, grows_refl].
  intros (l & xs & -> & Hl & HF). apply wp_bind. eapply wp_load; [exact Hl|]. simpl.
  apply wp_bind. unfold wp at 1, alloc. simpl. set (l' := fresh (dom m)).
  assert (Hl' : m !! l' = None) by apply not_elem_of_dom, is_fresh.
  pose proof (Forall2_length _ _ _ HF) as Hlen. rewrite Hlen.
  apply wp_bind. eapply (wp_for_each _ (λ rem m', ∃ i, rem = seq i (length vs - i) ∧ (i ≤ length vs)%nat ∧ copied m l' vs i m')).
  - exists 0%nat. rewrite Nat.sub_0_r. split_and!; [done|lia|]. exists ∅, (replicate (length vs) (zero T)).
    split_and!; [by rewrite <-insert_union_r, map_union_empty|apply map_disjoint_empty_r|done|by rewrite length_replicate|constructor].
  - intros i rem m' (j & E & Hj & Hc). destruct (decide (j = length vs)) as [->|Hne]; [by rewrite Nat.sub_diag in E|].
    replace (length vs - j)%nat with (S (length vs - S j)) in E by lia. injection E as -> ->.
    eapply wp_mono; [apply (wp_copy_item m l l' xs vs j m'); try done; lia|]. intros o m'' [-> Hc']. simpl.
    exists (S j). split_and!; [done|lia|done].
  - intros m' (j & E & Hj & h & ys & -> & Hd & Hh & Hys & HFy).
    assert (j = length vs) as -> by (destruct (length vs - j)%nat eqn:Ej; [lia|done]).
    rewrite !take_ge in HFy by lia. apply wp_ret. exists (mkPtr (Some l')), (<[l' := wrap ys]> h).
    split_and!; [done| |by apply map_disjoint_insert_r|done]. exists l', ys. rewrite lookup_insert_eq. split_and!; [done..|].
    eapply Forall2_impl; [exact HFy|]. intros x w. apply (denotes_mono w x), insert_subseteq; [done].
Qed.
End pointers.

(** ** Slices of strings and maps: no addresses inside *)
Section flat.
Context {T : Type} `{!Storable T}.

Definition denotes_flat (p : ptr T) (v : option T) (m : mem) : Prop :=
  match v with
  | None => addr p = None
  | Some v => points_to (λ x _, x = v) p m
  end.

Lemma denotes_flat_mono v : monotone (λ p, denotes_flat p v).
Proof. destruct v as [v|]; [|by intros p h h' _]. apply points_to_mono. by intros y h h' _. Qed.

(** What a copy of such a type amounts to: memory for it, filled from the old one. *)
Definition copy_flat (zero : T → T) (fill : T → T) (p : ptr T) : M mem (ptr T) :=
  match addr p with
  | None => mret p
  | Some l => x ← load l; alloc_filled (zero x) (x ← load l; mret (fill x))
  end.

Lemma wp_copy_flat zero fill p v m : (∀ x, fill x = x) → denotes_flat p v m →
  wp (copy_flat zero fill p) (grows m (λ q, denotes_flat q v)) m.
Proof.
  intros Hf. unfold copy_flat. destruct v as [v|]; simpl; [|by intros E; rewrite E; apply wp_ret, grows_refl].
  intros (l & x & -> & Hl & ->). apply wp_bind. eapply wp_load; [exact Hl|]. simpl.
  apply wp_alloc_filled; [by intros y h h' _|]. intros m1 Hm1.
  eapply wp_grows_load; [by eapply lookup_weaken|]. apply wp_ret, grows_refl, Hf.
Qed.
End flat.

(** [out = make([]string, len(in)); copy(out, in)] *)
Definition copy_strings `{!Storable (list string)} : ptr (list string) → M mem (ptr (list string)) :=
  copy_flat (λ l, replicate (length l) "") (λ l, l).

(** [out = make(map[string]string, len(in)); for key, val := range in { out[key] = val }] *)
Definition copy_entries (m : gmap string string) : gmap string string :=
  foldl (λ out kv, <[kv.1 := kv.2]> out) ∅ (map_to_list m).
Definition copy_map `{!Storable (gmap string string)} : ptr (gmap string string) → M mem (ptr (gmap string string)) :=
  copy_flat (λ _, ∅) copy_entries.

(** The entries arrive whatever the order of the range. *)
Lemma copy_entries_any_order (m : gmap string string) l : l ≡ₚ map_to_list m →
  foldl (λ out kv, <[kv.1 := kv.2]> out) ∅ l = m.
Proof.
  intros Hl. assert (Hd : NoDup l.*1) by (rewrite Hl; apply NoDup_fst_map_to_list).
  rewrite <-(list_to_map_to_list m), <-(list_to_map_proper l) by done. clear Hl.
  enough (H : ∀ out : gmap string string, foldl (λ out kv, <[kv.1 := kv.2]> out) out l = list_to_map l ∪ out) by by rewrite H, map_union_empty.
  induction l as [|[k v] l IH]; intros out; simpl in *; [by rewrite map_empty_union|].
  apply NoDup_cons in Hd as [Hk Hd]. rewrite IH by done. rewrite <-insert_union_l, insert_union_r; [done|].
  by apply not_elem_of_list_to_map_1.
Qed.

Lemma copy_entries_eq m : copy_entries m = m.
Proof. by apply copy_entries_any_order. Qed.
End memory.
Arguments denotes : simpl never.
