(* ===== verification/DeepCopy.v ===== *)
(** * The deep copies of the Egress types ([api/v1beta1/zz_generated.deepcopy.go])

    Each Go struct is a record over the kinds of its reference fields: with
    addresses it is what lies in memory, with trees the value it stands for.  The
    copies of [k8s.io] types the code calls are arguments, with the laws of
    [CopyType]. *)
From S2P Require Import Prelude Corev1 EgressApi Memory.

(** ** Shapes *)
Record metadata (M : Type) := mkMeta { m_Annotations : M; m_Labels : M }.
Record template (MD PS : Type) := mkTemplate { t_Metadata : MD; t_Spec : PS }.
Record spec (D S T A : Type) := mkSpec {
  s_Destinations : D; s_Replicas : Z; s_Strategy : S; s_Template : T; s_SessionAffinity : string;
  s_SessionAffinityConfig : A }.
Record resource (OM SP : Type) := mkResource {
  e_TypeMeta : string * string; e_ObjectMeta : OM; e_Spec : SP; e_Status : EgressStatus }.
Record resource_list (LM IS : Type) := mkResourceList { l_TypeMeta : string * string; l_ListMeta : LM; l_Items : IS }.
Arguments mkMeta {_} _ _.
Arguments m_Annotations {_} _.
Arguments m_Labels {_} _.
Arguments mkTemplate {_ _} _ _.
Arguments t_Metadata {_ _} _.
Arguments t_Spec {_ _} _.
Arguments mkSpec {_ _ _ _} _ _ _ _ _ _.
Arguments s_Destinations {_ _ _ _} _.
Arguments s_Replicas {_ _ _ _} _.
Arguments s_Strategy {_ _ _ _} _.
Arguments s_Template {_ _ _ _} _.
Arguments s_SessionAffinity {_ _ _ _} _.
Arguments s_SessionAffinityConfig {_ _ _ _} _.
Arguments mkResource {_ _} _ _ _ _.
Arguments e_TypeMeta {_ _} _.
Arguments e_ObjectMeta {_ _} _.
Arguments e_Spec {_ _} _.
Arguments e_Status {_ _} _.
Arguments mkResourceList {_ _} _ _ _.
Arguments l_TypeMeta {_ _} _.
Arguments l_ListMeta {_ _} _.
Arguments l_Items {_ _} _.

(** [runtime.Object], nil or one of the two kinds. *)
Inductive object := ObjEgress (l : loc) | ObjEgressList (l : loc).

(** Copies made earlier stay what they are while memory grows. *)
Ltac mem_sub :=
  lazymatch goal with
  | |- ?a ⊆ ?a => reflexivity
  | |- _ ⊆ _ ∪ _ => first [apply map_union_subseteq_l'; mem_sub | apply map_union_subseteq_r'; [solve_map_disjoint|mem_sub]]
  end.
Ltac grown :=
  simpl in *; match goal with
  | H : denotes_flat ?p ?v ?h |- denotes_flat ?p _ ?h' => apply (denotes_flat_mono v p h h'); [mem_sub|exact H]
  | H : denotes_ptr ?T ?p ?v ?h |- denotes_ptr ?T ?p _ ?h' => apply (denotes_ptr_mono T v p h h'); [mem_sub|exact H]
  | H : denotes_slice ?T ?p ?v ?h |- denotes_slice ?T ?p _ ?h' => apply (denotes_slice_mono T v p h h'); [mem_sub|exact H]
  | H : denotes ?T ?p ?v ?h |- denotes ?T ?p _ ?h' => apply (denotes_mono (T := T) v p h h'); [mem_sub|exact H]
  end.

Section types.
#[local] Set Default Proof Using "Type*".
Context {cell : Type}.
Abbreviation mem := (gmap loc cell).
Abbreviation stored := (Storable (cell := cell)).
Context (ObjectMeta ListMeta PodSpec DeploymentStrategy SessionAffinityConfig : CopyType (cell := cell)).
Context `{!CopyLaws ObjectMeta, !CopyLaws ListMeta, !CopyLaws PodSpec, !CopyLaws DeploymentStrategy, !CopyLaws SessionAffinityConfig}.
Context `{!stored (list string), !stored (gmap string string), !stored (rep DeploymentStrategy), !stored (rep SessionAffinityConfig)}.

(** ** Metadata *)
Definition Metadata_DeepCopyInto (in_ : metadata (ptr (gmap string string))) : M mem (metadata (ptr (gmap string string))) :=
  annotations ← copy_map (m_Annotations in_);
  labels ← copy_map (m_Labels in_);
  mret (mkMeta annotations labels).

Definition Metadata : CopyType := mkCopyType (metadata (ptr (gmap string string))) (metadata (option (gmap string string)))
  (mkMeta (mkPtr None) (mkPtr None))
  (λ x v m, denotes_flat (m_Annotations x) (m_Annotations v) m ∧ denotes_flat (m_Labels x) (m_Labels v) m)
  Metadata_DeepCopyInto.

#[export] Instance Metadata_laws : CopyLaws Metadata.
Proof.
  split.
  - intros v x h h' Hh [H1 H2]. split; by eapply denotes_flat_mono.
  - intros x v m [Ha Hl]. simpl. unfold Metadata_DeepCopyInto.
    eapply wp_grows_bind; [by apply wp_copy_flat; [apply copy_entries_eq|]|]. intros a h1 Ha1 Hd1.
    eapply wp_grows_bind; [apply wp_copy_flat; [apply copy_entries_eq|grown]|]. intros l h2 Hl2 Hd2.
    apply wp_ret, grows_refl. split; grown.
Qed.
Context `{!stored (rep Metadata)}.
Definition Metadata_DeepCopy : ptr (rep Metadata) → M mem (ptr (rep Metadata)) := copy_ptr Metadata.

(** ** Templates *)
Definition EgressPodTemplate_DeepCopyInto (in_ : template (rep Metadata) (rep PodSpec)) : M mem (template (rep Metadata) (rep PodSpec)) :=
  md ← Metadata_DeepCopyInto (t_Metadata in_);
  sp ← DeepCopyInto PodSpec (t_Spec in_);
  mret (mkTemplate md sp).

Definition EgressPodTemplate : CopyType := mkCopyType (template (rep Metadata) (rep PodSpec)) (template (val Metadata) (val PodSpec))
  (mkTemplate (zero Metadata) (zero PodSpec))
  (λ x v m, denotes Metadata (t_Metadata x) (t_Metadata v) m ∧ denotes PodSpec (t_Spec x) (t_Spec v) m)
  EgressPodTemplate_DeepCopyInto.

#[export] Instance EgressPodTemplate_laws : CopyLaws EgressPodTemplate.
Proof.
  split.
  - intros v x h h' Hh [H1 H2]. split; by eapply denotes_mono.
  - intros x v m [Hm Hs]. simpl. unfold EgressPodTemplate_DeepCopyInto.
    eapply wp_grows_bind; [by apply (law_DeepCopyInto (T := Metadata))|]. intros a h1 Ha1 Hd1.
    eapply wp_grows_bind; [apply law_DeepCopyInto; grown|]. intros l h2 Hl2 Hd2.
    apply wp_ret, grows_refl. split; grown.
Qed.
Context `{!stored (rep EgressPodTemplate)}.
Definition EgressPodTemplate_DeepCopy : ptr (rep EgressPodTemplate) → M mem (ptr (rep EgressPodTemplate)) := copy_ptr EgressPodTemplate.

(** ** Specs; the fields without addresses are those of [*out = *in] *)
Abbreviation spec_rep := (spec (ptr (list string)) (ptr (rep DeploymentStrategy)) (ptr (rep EgressPodTemplate)) (ptr (rep SessionAffinityConfig))).
Definition EgressSpec_DeepCopyInto (in_ : spec_rep) : M mem spec_rep :=
  destinations ← copy_strings (s_Destinations in_);
  strategy ← copy_ptr DeploymentStrategy (s_Strategy in_);
  tmpl ← copy_ptr EgressPodTemplate (s_Template in_);
  affinity ← copy_ptr SessionAffinityConfig (s_SessionAffinityConfig in_);
  mret (mkSpec destinations (s_Replicas in_) strategy tmpl (s_SessionAffinity in_) affinity).

Definition EgressSpec : CopyType := mkCopyType spec_rep
  (spec (option (list string)) (option (val DeploymentStrategy)) (option (val EgressPodTemplate)) (option (val SessionAffinityConfig)))
  (mkSpec (mkPtr None) 0 (mkPtr None) (mkPtr None) "" (mkPtr None))
  (λ x v m, denotes_flat (s_Destinations x) (s_Destinations v) m ∧ s_Replicas x = s_Replicas v ∧
    denotes_ptr DeploymentStrategy (s_Strategy x) (s_Strategy v) m ∧
    denotes_ptr EgressPodTemplate (s_Template x) (s_Template v) m ∧ s_SessionAffinity x = s_SessionAffinity v ∧
    denotes_ptr SessionAffinityConfig (s_SessionAffinityConfig x) (s_SessionAffinityConfig v) m)
  EgressSpec_DeepCopyInto.

#[export] Instance EgressSpec_laws : CopyLaws EgressSpec.
Proof.
  split.
  - intros v x h h' Hh (H1 & H2 & H3 & H4 & H5 & H6). split_and!; try done;
      first [by eapply denotes_flat_mono|by eapply denotes_ptr_mono; [apply _|..]].
  - intros x v m (Hd & Hr & Hs & Ht & Ha & Hc). simpl. unfold EgressSpec_DeepCopyInto.
    eapply wp_grows_bind; [by apply wp_copy_flat|]. intros d h1 H1 Hd1.
    eapply wp_grows_bind; [apply wp_copy_ptr; [apply _|grown]|]. intros s h2 H2 Hd2.
    eapply wp_grows_bind; [apply wp_copy_ptr; [apply _|grown]|]. intros t h3 H3 Hd3.
    eapply wp_grows_bind; [apply wp_copy_ptr; [apply _|grown]|]. intros a h4 H4 Hd4.
    apply wp_ret, grows_refl. split_and!; try done; grown.
Qed.
Context `{!stored (rep EgressSpec)}.
Definition EgressSpec_DeepCopy : ptr (rep EgressSpec) → M mem (ptr (rep EgressSpec)) := copy_ptr EgressSpec.

(** ** Statuses: no addresses *)
Definition EgressStatus_DeepCopyInto (in_ : EgressStatus) : M mem EgressStatus := mret in_.
Definition EgressStatus_type : CopyType :=
  mkCopyType EgressStatus EgressStatus (mkEgressStatus 0 "") (λ x v _, x = v) EgressStatus_DeepCopyInto.
#[export] Instance EgressStatus_laws : CopyLaws EgressStatus_type.
Proof. split; [by intros v x h h' _|]. intros x v m ->. by apply wp_ret, grows_refl. Qed.
Context `{!stored (rep EgressStatus_type)}.
Definition EgressStatus_DeepCopy : ptr (rep EgressStatus_type) → M mem (ptr (rep EgressStatus_type)) := copy_ptr EgressStatus_type.

(** ** Egresses *)
Definition Egress_DeepCopyInto (in_ : resource (rep ObjectMeta) (rep EgressSpec)) : M mem (resource (rep ObjectMeta) (rep EgressSpec)) :=
  om ← DeepCopyInto ObjectMeta (e_ObjectMeta in_);
  sp ← EgressSpec_DeepCopyInto (e_Spec in_);
  mret (mkResource (e_TypeMeta in_) om sp (e_Status in_)).

Definition Egress : CopyType := mkCopyType (resource (rep ObjectMeta) (rep EgressSpec)) (resource (val ObjectMeta) (val EgressSpec))
  (mkResource ("", "") (zero ObjectMeta) (zero EgressSpec) (mkEgressStatus 0 ""))
  (λ x v m, e_TypeMeta x = e_TypeMeta v ∧ denotes ObjectMeta (e_ObjectMeta x) (e_ObjectMeta v) m ∧
    denotes EgressSpec (e_Spec x) (e_Spec v) m ∧ e_Status x = e_Status v)
  Egress_DeepCopyInto.

#[export] Instance Egress_laws : CopyLaws Egress.
Proof.
  split.
  - intros v x h h' Hh (H1 & H2 & H3 & H4). split_and!; try done; by eapply denotes_mono.
  - intros x v m (Ht & Hm & Hs & Hst). simpl. unfold Egress_DeepCopyInto.
    eapply wp_grows_bind; [by apply law_DeepCopyInto|]. intros a h1 Ha1 Hd1.
    eapply wp_grows_bind; [apply (law_DeepCopyInto (T := EgressSpec)); grown|].
    intros l h2 Hl2 Hd2. apply wp_ret, grows_refl. split_and!; try done; grown.
Qed.
Context `{!stored (rep Egress), !stored (list (rep Egress))}.
Definition Egress_DeepCopy : ptr (rep Egress) → M mem (ptr (rep Egress)) := copy_ptr Egress.
Definition Egress_DeepCopyObject (in_ : ptr (rep Egress)) : M mem (option object) :=
  c ← Egress_DeepCopy in_; mret (ObjEgress <$> addr c).

(** ** Lists of Egresses *)
Definition EgressList_DeepCopyInto (in_ : resource_list (rep ListMeta) (ptr (list (rep Egress)))) :
    M mem (resource_list (rep ListMeta) (ptr (list (rep Egress)))) :=
  lm ← DeepCopyInto ListMeta (l_ListMeta in_);
  items ← copy_slice Egress (l_Items in_);
  mret (mkResourceList (l_TypeMeta in_) lm items).

Definition EgressList : CopyType := mkCopyType (resource_list (rep ListMeta) (ptr (list (rep Egress))))
  (resource_list (val ListMeta) (option (list (val Egress)))) (mkResourceList ("", "") (zero ListMeta) (mkPtr None))
  (λ x v m, l_TypeMeta x = l_TypeMeta v ∧ denotes ListMeta (l_ListMeta x) (l_ListMeta v) m ∧
    denotes_slice Egress (l_Items x) (l_Items v) m)
  EgressList_DeepCopyInto.

#[export] Instance EgressList_laws : CopyLaws EgressList.
Proof.
  split.
  - intros v x h h' Hh (H1 & H2 & H3). split_and!; [done|by eapply denotes_mono|by eapply (denotes_slice_mono Egress)].
  - intros x v m (Ht & Hm & Hs). simpl. unfold EgressList_DeepCopyInto.
    eapply wp_grows_bind; [by apply law_DeepCopyInto|]. intros a h1 Ha1 Hd1.
    eapply wp_grows_bind; [apply (wp_copy_slice Egress); grown|].
    intros l h2 Hl2 Hd2. apply wp_ret, grows_refl. split_and!; [done|grown..].
Qed.
Context `{!stored (rep EgressList)}.
Definition EgressList_DeepCopy : ptr (rep EgressList) → M mem (ptr (rep EgressList)) := copy_ptr EgressList.
Definition EgressList_DeepCopyObject (in_ : ptr (rep EgressList)) : M mem (option object) :=
  c ← EgressList_DeepCopy in_; mret (ObjEgressList <$> addr c).

(** ** Property *)

(** [q] is a copy of [p]: it stands for the same tree in new memory alone, so what
    becomes of one is nothing to the other. *)
Definition apart (T : CopyType) `{!stored (rep T)} (v : option (val T)) (p : ptr (rep T)) (m : mem) (q : ptr (rep T)) (m' : mem) : Prop :=
  ∃ h, m' = m ∪ h ∧ m ##ₘ h ∧ denotes_ptr T q v h ∧
    ∀ m'', (m ⊆ m'' → denotes_ptr T p v m'') ∧ (h ⊆ m'' → denotes_ptr T q v m'').

Lemma wp_copy_apart (T : CopyType) `{!stored (rep T), !CopyLaws T} {B} v p m (k : option loc → B) : denotes_ptr T p v m →
  wp (c ← copy_ptr T p; mret (k (addr c))) (λ o m', ∃ q, o = Ok (k (addr q)) ∧ (addr q = None ↔ v = None) ∧ apart T v p m q m') m.
Proof using Type.
  intros Hp. apply wp_bind. eapply wp_mono; [by apply wp_copy_ptr|]. intros o m' (q & h & -> & Hq & Hd & ->). apply wp_ret.
  exists q. split; [done|]. split.
  - destruct v as [v|]; simpl in Hq; [|done]. destruct Hq as (l & y & -> & _). by split.
  - exists h. split_and!; [done..|]. intros m''. split; intros Hm; by eapply denotes_ptr_mono.
Qed.

(** C22: a deep copy of an Egress, or of a list of them, stands for the same tree,
    nil maps and slices included, and shares no memory with the original: nothing
    that is written to the memory of one changes what the other stands for, and
    copying changes nothing that was there.  The copy of nil is a nil object. *)
Theorem DeepCopyObject_independent :
  (∀ p v m, denotes_ptr Egress p v m → wp (Egress_DeepCopyObject p) (λ o m', ∃ q, o = Ok (ObjEgress <$> addr q) ∧
    (addr q = None ↔ v = None) ∧ apart Egress v p m q m') m) ∧
  (∀ p v m, denotes_ptr EgressList p v m → wp (EgressList_DeepCopyObject p) (λ o m', ∃ q, o = Ok (ObjEgressList <$> addr q) ∧
    (addr q = None ↔ v = None) ∧ apart EgressList v p m q m') m).
Proof.
  split; intros p v m Hp; [by apply (wp_copy_apart Egress v p m (fmap ObjEgress))|].
  by apply (wp_copy_apart EgressList v p m (fmap ObjEgressList)).
Qed.
End types.

(** ** Witness

    A list of one Egress with a destination and a template; the [k8s.io] types are
    strings and, for the object's metadata, a map. *)
Section witness.
Abbreviation smap := (gmap string string).
Abbreviation spec_cell := (spec (ptr (list string)) (ptr string) (ptr (template (metadata (ptr smap)) string)) (ptr string)).
Abbreviation egress_cell := (resource (ptr smap) spec_cell).
Inductive cell :=
| CStrings (x : list string) | CMap (x : smap) | CString (x : string) | CMeta (x : metadata (ptr smap))
| CTemplate (x : template (metadata (ptr smap)) string) | CSpec (x : spec_cell) | CStatus (x : EgressStatus)
| CEgress (x : egress_cell) | CEgresses (x : list egress_cell) | CList (x : resource_list string (ptr (list egress_cell))).

#[local] Instance s_strings : Storable (cell := cell) (list string).
Proof. by refine {| wrap := CStrings; unwrap c := match c with CStrings x => Some x | _ => None end |}. Defined.
#[local] Instance s_map : Storable (cell := cell) smap.
Proof. by refine {| wrap := CMap; unwrap c := match c with CMap x => Some x | _ => None end |}. Defined.
#[local] Instance s_string : Storable (cell := cell) string.
Proof. by refine {| wrap := CString; unwrap c := match c with CString x => Some x | _ => None end |}. Defined.
#[local] Instance s_meta : Storable (cell := cell) (metadata (ptr smap)).
Proof. by refine {| wrap := CMeta; unwrap c := match c with CMeta x => Some x | _ => None end |}. Defined.
#[local] Instance s_template : Storable (cell := cell) (template (metadata (ptr smap)) string).
Proof. by refine {| wrap := CTemplate; unwrap c := match c with CTemplate x => Some x | _ => None end |}. Defined.
#[local] Instance s_spec : Storable (cell := cell) spec_cell.
Proof. by refine {| wrap := CSpec; unwrap c := match c with CSpec x => Some x | _ => None end |}. Defined.
#[local] Instance s_status : Storable (cell := cell) EgressStatus.
Proof. by refine {| wrap := CStatus; unwrap c := match c with CStatus x => Some x | _ => None end |}. Defined.
#[local] Instance s_egress : Storable (cell := cell) egress_cell.
Proof. by refine {| wrap := CEgress; unwrap c := match c with CEgress x => Some x | _ => None end |}. Defined.
#[local] Instance s_egresses : Storable (cell := cell) (list egress_cell).
Proof. by refine {| wrap := CEgresses; unwrap c := match c with CEgresses x => Some x | _ => None end |}. Defined.
#[local] Instance s_list : Storable (cell := cell) (resource_list string (ptr (list egress_cell))).
Proof. by refine {| wrap := CList; unwrap c := match c with CList x => Some x | _ => None end |}. Defined.

Definition plain : CopyType (cell := cell) := mkCopyType string string "" (λ x v _, x = v) mret.
#[local] Instance plain_laws : CopyLaws plain.
Proof. split; [by intros v x h h' _|]. intros x v m ->. by apply wp_ret, grows_refl. Qed.
Definition labels : CopyType (cell := cell) := mkCopyType (ptr smap) (option smap) (mkPtr None) denotes_flat copy_map.
#[local] Instance labels_laws : CopyLaws labels.
Proof. split; [apply denotes_flat_mono|]. intros x v m. by apply wp_copy_flat, copy_entries_eq. Qed.

Abbreviation Eg := (Egress (cell := cell) labels plain plain plain).
Abbreviation Egs := (EgressList (cell := cell) labels plain plain plain plain).

(** At 1 the list, at 2 its items, then what they point to. *)
Definition sample_memory : gmap loc cell := list_to_map [
  (1%positive, CList (mkResourceList ("EgressList", "v1beta1") "" (mkPtr (Some 2%positive))));
  (2%positive, CEgresses [mkResource ("Egress", "v1beta1") (mkPtr (Some 3%positive))
     (mkSpec (mkPtr (Some 4%positive)) 1 (mkPtr None) (mkPtr (Some 5%positive)) "ClientIP" (mkPtr None)) (mkEgressStatus 0 "")]);
  (3%positive, CMap {["team" := "net"]}); (4%positive, CStrings ["10.0.0.0/8"]);
  (5%positive, CTemplate (mkTemplate (mkMeta (mkPtr None) (mkPtr (Some 6%positive))) "spec"));
  (6%positive, CMap {["app" := "nat"]})].
Definition sample_tree : val Egs := mkResourceList ("EgressList", "v1beta1") "" (Some [
  mkResource ("Egress", "v1beta1") (Some {["team" := "net"]})
    (mkSpec (Some ["10.0.0.0/8"]) 1 None (Some (mkTemplate (mkMeta None (Some {["app" := "nat"]})) "spec")) "ClientIP" None) (mkEgressStatus 0 "")]).

Lemma sample_denotes : denotes_ptr Egs (mkPtr (Some 1%positive)) (Some sample_tree) sample_memory.
Proof.
  eexists 1%positive, _. split_and!; [done|by vm_compute|]. split_and!; [done|done|].
  eexists 2%positive, _. split_and!; [done|by vm_compute|]. apply Forall2_cons. split; [|done].
  split_and!; [done| | |done]; [by eexists 3%positive, _|].
  split_and!; try done; [by eexists 4%positive, _|].
  eexists 5%positive, _. split_and!; [done|by vm_compute|]. split; [|done]. split; [done|]. by eexists 6%positive, _.
Qed.

(** The copy is made; then all the original's memory is lost, and the copy still
    stands for the tree. *)
Lemma DeepCopyObject_independent_witness : ∃ l m',
  EgressList_DeepCopyObject (cell := cell) labels plain plain plain plain (mkPtr (Some 1%positive)) sample_memory = (Ok (Some (ObjEgressList l)), m') ∧
  size m' = 12%nat ∧ denotes_ptr Egs (mkPtr (Some l)) (Some sample_tree) (m' ∖ sample_memory) ∧
  denotes_ptr Egs (mkPtr (Some 1%positive)) (Some sample_tree) (<[l := CString "x"]> m').
Proof.
  destruct (DeepCopyObject_independent (cell := cell) labels plain plain plain plain) as [_ H].
  specialize (H (mkPtr (Some 1%positive)) (Some sample_tree) sample_memory sample_denotes).
  unfold wp in H. set (run := EgressList_DeepCopyObject _ _ _ _ _ _ sample_memory) in *.
  assert (Hsize : size run.2 = 12%nat) by by vm_compute. clearbody run. destruct run as [o m'].
  destruct H as ([[l|]] & Ho & [Hnil _] & h & Hm' & Hd & Hq & H); [|by discriminate Hnil]. simpl in Ho, Hm', Hsize. subst o.
  exists l, m'. split; [done|]. split; [done|]. destruct (H (m' ∖ sample_memory)) as [_ H1], (H (<[l := CString "x"]> m')) as [H2 _].
  split; [apply H1|apply H2]; subst m'.
  - by rewrite map_difference_union_distr_l, map_difference_diag, map_empty_union, map_difference_disjoint.
  - destruct Hq as (l' & y & [= <-] & Hl & _). apply insert_subseteq_r; [|apply map_union_subseteq_l].
    by eapply map_disjoint_Some_r.
Defined.
End witness.
