(* ===== verification/Manager.v ===== *)
(** * The manager of controller-runtime, as the programs start it

    controller-runtime is outside the repository: [MgrOps] has one operation per
    call the programs make on a manager, [MgrLaws] the documented effect of each on
    what is registered.  The manager runs what was registered when [mgr_Start] was
    called; [started] is that moment's snapshot. *)
From S2P Require Import Prelude Corev1.

(** [ctrl.Options]; the timeout in nanoseconds, the webhook server by host, port
    and certificate directory. *)
Record Options := mkOptions {
  LeaderElection : bool; LeaderElectionID : string; LeaderElectionNamespace : string;
  MetricsBindAddress : string; GracefulShutdownTimeout : Z; HealthProbeBindAddress : string;
  WebhookServer : option (string * Z * string) }.

Inductive kind := KEgress | KDeployment | KService | KPod | KClusterRoleBinding.

(** What the builder of a controller has collected when it is completed. *)
Record Controller (R : Type) := mkController {
  c_For : kind; c_Owns : list kind; c_Filter : option (string → bool); c_Reconciler : R }.
Arguments mkController {_} _ _ _ _.
Arguments c_For {_} _.
Arguments c_Owns {_} _.
Arguments c_Filter {_} _.
Arguments c_Reconciler {_} _.

Record Manager (R X : Type) := mkManager {
  m_Options : Options; m_Healthz : list string; m_Readyz : list string;
  m_Controllers : list (Controller R); m_Webhooks : list kind; m_Runnables : list X }.
Arguments mkManager {_ _} _ _ _ _ _ _.
Arguments m_Options {_ _} _.
Arguments m_Healthz {_ _} _.
Arguments m_Readyz {_ _} _.
Arguments m_Controllers {_ _} _.
Arguments m_Webhooks {_ _} _.
Arguments m_Runnables {_ _} _.

Definition new_manager {R X} (o : Options) : Manager R X := mkManager o [] [] [] [] [].
Definition add_health {R X} (n : string) (m : Manager R X) : Manager R X :=
  mkManager (m_Options m) (m_Healthz m ++ [n]) (m_Readyz m) (m_Controllers m) (m_Webhooks m) (m_Runnables m).
Definition add_ready {R X} (n : string) (m : Manager R X) : Manager R X :=
  mkManager (m_Options m) (m_Healthz m) (m_Readyz m ++ [n]) (m_Controllers m) (m_Webhooks m) (m_Runnables m).
Definition add_controller {R X} (c : Controller R) (m : Manager R X) : Manager R X :=
  mkManager (m_Options m) (m_Healthz m) (m_Readyz m) (m_Controllers m ++ [c]) (m_Webhooks m) (m_Runnables m).
Definition add_webhook {R X} (k : kind) (m : Manager R X) : Manager R X :=
  mkManager (m_Options m) (m_Healthz m) (m_Readyz m) (m_Controllers m) (m_Webhooks m ++ [k]) (m_Runnables m).
Definition add_runnable {R X} (x : X) (m : Manager R X) : Manager R X :=
  mkManager (m_Options m) (m_Healthz m) (m_Readyz m) (m_Controllers m) (m_Webhooks m) (m_Runnables m ++ [x]).

(** The calls; [R] are the reconcilers a program registers, [X] its runnables. *)
Class MgrOps (W R X : Type) := {
  GetConfigOrDie : M W unit;                      (* an error ends the process *)
  NewManager : Options → M W unit;
  AddHealthzCheck : string → M W unit;
  AddReadyzCheck : string → M W unit;
  Complete : Controller R → M W unit;             (* ctrl.NewControllerManagedBy(mgr)...Complete(r) *)
  Complete_Webhook : kind → M W unit;             (* ctrl.NewWebhookManagedBy(mgr).For(r).Complete() *)
  mgr_Add : X → M W unit;
  mgr_Start : M W unit;
  APIReader_Get_Pod : ObjectKey → M W (list Container) }.
#[global] Hint Mode MgrOps ! - - : typeclass_instances.

(** The manager under construction, the one that was started, and the pods of the
    cluster by their containers. *)
Record boot (R X : Type) := mkBoot {
  current : option (Manager R X); started : option (Manager R X); pods : gmap ObjectKey (list Container) }.
Arguments mkBoot {_ _} _ _ _.
Arguments pods {_ _} _.
Arguments current {_ _} _.
Arguments started {_ _} _.

(** A registration: it is made, or the call failed and nothing changed. *)
Definition registers {W R X} (view : W → boot R X) (g : Manager R X → Manager R X) (m : M W unit) : Prop := ∀ w,
  wp m (λ o w', done_or_same (view w' = view w)
    (λ _, view w' = mkBoot (g <$> current (view w)) (started (view w)) (pods (view w))) o) w.

Class MgrLaws (W R X : Type) `{!MgrOps W R X} := {
  boot_view : W → boot R X;
  law_GetConfigOrDie w : wp (GetConfigOrDie (W := W) (R := R) (X := X)) (λ o w', no_panic o ∧ boot_view w' = boot_view w) w;
  law_NewManager o w : wp (NewManager (R := R) (X := X) o) (λ r w', done_or_same (boot_view w' = boot_view w)
    (λ _, boot_view w' = mkBoot (Some (new_manager o)) (started (boot_view w)) (pods (boot_view w))) r) w;
  law_AddHealthzCheck n : registers boot_view (add_health n) (AddHealthzCheck n);
  law_AddReadyzCheck n : registers boot_view (add_ready n) (AddReadyzCheck n);
  law_Complete c : registers boot_view (add_controller c) (Complete c);
  law_Complete_Webhook k : registers boot_view (add_webhook k) (Complete_Webhook k);
  law_mgr_Add x : registers boot_view (add_runnable x) (mgr_Add x);
  (* it blocks until the process is told to stop; an error comes from what it ran *)
  law_mgr_Start w : wp (mgr_Start (W := W) (R := R) (X := X)) (λ o w', no_panic o ∧
    boot_view w' = mkBoot (current (boot_view w)) (current (boot_view w)) (pods (boot_view w))) w;
  law_APIReader_Get_Pod k w : wp (APIReader_Get_Pod (R := R) (X := X) k) (λ o w', boot_view w' = boot_view w ∧
    match o with Ok cs => pods (boot_view w) !! k = Some cs | Err _ => True | Panicked _ => False end) w }.

(** ** One registration after another

    A start-up that fails before [mgr_Start] leaves [started] as it was. *)
Section boots.
Context {W R X : Type} `{!MgrOps W R X, !MgrLaws W R X}.
Implicit Types w : W.

Lemma wp_register_seq g (m k : M W unit) r s ps Q w : registers boot_view g m → boot_view w = mkBoot (Some r) s ps →
  (∀ w', boot_view w' = mkBoot (Some (g r)) s ps → wp k Q w') →
  (∀ e w', started (boot_view w') = s → Q (Err e) w') → wp (_ ← m; k) Q w.
Proof using Type.
  intros Hm Hw Hk He. apply wp_bind. eapply wp_mono; [apply Hm|].
  intros [[]|e|x] w' H; simpl in *; [apply Hk; by rewrite H, Hw|apply He; by rewrite H, Hw|done].
Qed.
End boots.

(** ** An executable instance: failures by script *)
Record machine (R X : Type) := mkMachine { mc_boot : boot R X; mc_faults : list bool }.
Arguments mkMachine {_ _} _ _.
Arguments mc_boot {_ _} _.
Arguments mc_faults {_ _} _.

Section machine.
Context {R X : Type}.

Definition machine_call {A} (op : boot R X → boot R X) (a : outcome A) : M (machine R X) A := λ m,
  match mc_faults m with
  | true :: fs => (Err (ErrExternal "failed"), mkMachine (mc_boot m) fs)
  | _ => (a, mkMachine (op (mc_boot m)) (tail (mc_faults m)))
  end.
Definition machine_register (g : Manager R X → Manager R X) : M (machine R X) unit :=
  machine_call (λ b, mkBoot (g <$> current b) (started b) (pods b)) (Ok tt).

#[global] Instance machine_ops : MgrOps (machine R X) R X := {
  GetConfigOrDie := machine_call id (Ok tt);
  NewManager o := machine_call (λ b, mkBoot (Some (new_manager o)) (started b) (pods b)) (Ok tt);
  AddHealthzCheck n := machine_register (add_health n);
  AddReadyzCheck n := machine_register (add_ready n);
  Complete c := machine_register (add_controller c);
  Complete_Webhook k := machine_register (add_webhook k);
  mgr_Add x := machine_register (add_runnable x);
  mgr_Start := λ m, let b := mkBoot (current (mc_boot m)) (current (mc_boot m)) (pods (mc_boot m)) in
    match mc_faults m with
    | true :: fs => (Err (ErrExternal "failed"), mkMachine b fs)
    | _ => (Ok tt, mkMachine b (tail (mc_faults m)))
    end;
  APIReader_Get_Pod k := λ m,
    machine_call id (match pods (mc_boot m) !! k with Some cs => Ok cs | None => Err (ErrAPINotFound "not found") end) m }.

Lemma machine_registers g : registers mc_boot g (machine_register g).
Proof. intros [b fs]. unfold wp, machine_register, machine_call. simpl. by destruct fs as [|[] fs]. Qed.

#[global] Instance machine_laws : MgrLaws (machine R X) R X.
Proof.
  refine {| boot_view := mc_boot |}; intros; try apply machine_registers;
    destruct w as [b fs]; unfold wp; simpl; unfold machine_call;
    [by destruct fs as [|[] fs]..|destruct fs as [|[] fs]; simpl; by destruct (pods b !! k)].
Defined.
End machine.
