(* ===== verification/ControllerMain.v ===== *)
(** * The controller's program ([cmd/egress-gw-controller])

    Its flags, the registrations of [controllers] and [api/v1beta1], and the start:
    everything is registered before the manager runs. *)
From Stdlib Require Import Ascii.
From S2P Require Import Prelude Constants GoStrings GoAddr Corev1 EgressApi Api Crb EgressController Manager.

(** ** Flags *)
Record config := mkConfig {
  metricsAddr : string; healthAddr : string; webhookAddr : string; certDir : string;
  gcInterval : Z; egressPort : Z }.
Definition default_config : config := mkConfig ":9386" ":9387" ":9443" "/certs" (3600 * 1000000000) 5555.

Definition gracefulTimeout : Z := 20 * 1000000000.

(** ** What is registered *)
Inductive reconciler := EgressRec (r : EgressReconciler) | CrbRec.

Definition egress_controller (r : EgressReconciler) : Controller reconciler :=
  mkController KEgress [KDeployment; KService] None (EgressRec r).
Definition crb_controller : Controller reconciler :=
  mkController KClusterRoleBinding [] (Some crb_filter) CrbRec.

Definition options (cfg : config) (host : string) (port : Z) : Options :=
  mkOptions true "egress-leader" "kube-system" (metricsAddr cfg) gracefulTimeout (healthAddr cfg)
    (Some (host, port, certDir cfg)).

Section program.
Context {W X : Type} `{!MgrOps W reconciler X}.

Definition SetupWithManager (r : EgressReconciler) : M W unit := Complete (egress_controller r).
Definition SetupCRBReconciler : M W unit := Complete crb_controller.
Definition SetupWebhookWithManager : M W unit := Complete_Webhook KEgress.

Definition subMain (cfg : config) (Getenv : string → string) : M W unit :=
  hp ← lift_outcome (wrap_err "invalid webhook address: %w" (SplitHostPort (webhookAddr cfg)));
  port ← lift_outcome (wrap_err "invalid webhook address: %w" (Atoi hp.2));
  _ ← GetConfigOrDie;
  _ ← NewManager (options cfg hp.1 port);
  _ ← AddHealthzCheck "ping";
  _ ← AddReadyzCheck "ping";
  let podNS := Getenv EnvPodNamespace in
  let podName := Getenv EnvPodName in
  cs ← APIReader_Get_Pod (podNS, podName);
  img ← lift_outcome (GetImage (Ok cs));
  _ ← SetupWithManager (mkEgressReconciler img (egressPort cfg));
  _ ← SetupCRBReconciler;
  _ ← SetupWebhookWithManager;
  mgr_Start.

(** [RunE] and [Execute]: the exit status; a panic ends with status 2. *)
Definition Execute (m : M W unit) : W → Z * W := λ w,
  let (o, w') := m w in (match o with Ok _ => 0 | Err _ => 1 | Panicked _ => 2 end, w').
End program.

(** ** The manager that runs *)

(** The webhook's address as the flag gives it. *)
Definition webhook_address (cfg : config) (host : string) (port : Z) : Prop :=
  ∃ s, SplitHostPort (webhookAddr cfg) = Ok (host, s) ∧ Atoi s = Ok port.

(** Both reconcilers, the webhook, both checks; the image is that of the
    controller's own pod. *)
Definition running {X} (cfg : config) (own : option (list Container)) (m : Manager reconciler X) : Prop :=
  ∃ host port c cs, webhook_address cfg host port ∧ own = Some (c :: cs) ∧
    m = mkManager (options cfg host port) ["ping"] ["ping"]
          [egress_controller (mkEgressReconciler (Image c) (egressPort cfg)); crb_controller] [KEgress] [].

Definition own_pod (Getenv : string → string) : ObjectKey := (Getenv EnvPodNamespace, Getenv EnvPodName).

(** ** Properties *)
(** C39: the controller's manager runs with everything registered or not at all:
    when it was started it has the Egress and the binding reconciler, the webhook,
    both checks and leader election, serves the webhook at the host and port of its
    flag, and installs egress pods with the image of its own pod's first container
    and the port of its flag.  A run that never started it ends with an error (or a
    panic, only when the pod has no container), and with a bad webhook address
    before it touched anything. *)
Theorem controller_starts {W X} `{!MgrOps W reconciler X, !MgrLaws W reconciler X} cfg Getenv (w : W) :
  wp (subMain cfg Getenv) (λ o w',
    ((∃ m, started (boot_view w') = Some m ∧ running cfg (pods (boot_view w) !! own_pod Getenv) m ∧ no_panic o) ∨
     started (boot_view w') = started (boot_view w) ∧ o ≠ Ok tt) ∧
    (¬ no_panic o → pods (boot_view w) !! own_pod Getenv = Some []) ∧
    ((¬ ∃ host port, webhook_address cfg host port) → w' = w)) w.
Proof.
  set (own := pods (boot_view w) !! own_pod Getenv). set (s0 := started (boot_view w)). unfold subMain.
  set (Q := λ (o : outcome unit) (w' : W),
    ((∃ m, started (boot_view w') = Some m ∧ running cfg own m ∧ no_panic o) ∨ started (boot_view w') = s0 ∧ o ≠ Ok tt) ∧
    (¬ no_panic o → own = Some [])).
  assert (Hstop : ∀ e w', started (boot_view w') = s0 → Q (Err e) w') by (intros e w' H; split; [by right|intros []; done]).
  assert (Hbad : ∀ e, Q (Err e) w ∧ ((¬ ∃ host port, webhook_address cfg host port) → w = w)) by (intros e; split; [by apply Hstop|done]).
  enough (H : wp (subMain cfg Getenv) (λ o w', Q o w' ∧ ((¬ ∃ host port, webhook_address cfg host port) → w' = w)) w).
  { eapply wp_mono; [exact H|]. intros o w' [[? ?] ?]. done. }
  apply wp_bind, wp_lift_outcome. pose proof (SplitHostPort_no_panic (webhookAddr cfg)) as Hnp.
  destruct (SplitHostPort (webhookAddr cfg)) as [[host s]|e|x] eqn:Es; simpl; [|apply Hbad|done].
  apply wp_bind, wp_lift_outcome. pose proof (Atoi_no_panic s) as Hnp'.
  destruct (Atoi s) as [port|e|x] eqn:Ea; simpl; [|apply Hbad|done].
  assert (Haddr : webhook_address cfg host port) by by exists s.
  apply (wp_mono _ Q); [|intros o w' HQ; split; [done|intros []; by exists host, port]].
  apply wp_bind. eapply wp_mono; [apply law_GetConfigOrDie|].
  intros [[]|e|x] w1 [? H1]; simpl; [|apply Hstop; by rewrite H1|done].
  apply wp_bind. eapply wp_mono; [apply law_NewManager|].
  intros [[]|e|x] w2 H2; simpl in *; [|apply Hstop; by rewrite H2, H1|done]. rewrite H1 in H2.
  eapply wp_register_seq; [apply law_AddHealthzCheck|exact H2| |exact Hstop]. intros w3 H3.
  eapply wp_register_seq; [apply law_AddReadyzCheck|exact H3| |exact Hstop]. intros w4 H4.
  apply wp_bind. eapply wp_mono; [apply law_APIReader_Get_Pod|].
  intros o w5 [H5 Ho]. rewrite H4 in Ho, H5. simpl in Ho.
  destruct o as [cs|e|x]; simpl; [|apply Hstop; by rewrite H5|done].
  apply wp_bind, wp_lift_outcome. destruct cs as [|c cs]; simpl.
  { split; [right; split; [by rewrite H5|done]|]. by intros _. }
  eapply wp_register_seq; [apply law_Complete|exact H5| |exact Hstop]. intros w6 H6.
  eapply wp_register_seq; [apply law_Complete|exact H6| |exact Hstop]. intros w7 H7.
  eapply wp_register_seq; [apply law_Complete_Webhook|exact H7| |exact Hstop]. intros w8 H8.
  eapply wp_mono; [apply law_mgr_Start|]. intros o w9 [Hno H9]. rewrite H8 in H9. split; [left|by intros []].
  eexists. split; [by rewrite H9|]. split; [|done]. by exists host, port, c, cs.
Qed.

(** A whole run: with the default flags the manager serves the webhook on port
    9443 of every address. *)
Example controller_starts_ex :
  let own := mkContainer "controller" "egress-gw:1" [] [] [] [] None ∅ [] None None "" in
  let m : machine reconciler unit := mkMachine (mkBoot None None {[ ("kube-system", "ctl") := [own] ]}) [] in
  let r := subMain default_config (λ k, if String.eqb k EnvPodNamespace then "kube-system" else "ctl") m in
  r.1 = Ok tt ∧ (m_Options <$> started (boot_view r.2)) ≫= WebhookServer = Some ("", 9443, "/certs") ∧
  (c_Reconciler <$> (m_Controllers <$> started (boot_view r.2)) ≫= head) = Some (EgressRec (mkEgressReconciler "egress-gw:1" 5555)).
Proof. by vm_compute. Qed.
