(* ===== verification/Watch.v ===== *)
(** * Watches, work queues, and a cluster that others change too

    A controller registered with the manager ([Manager.v]) is told the keys of the
    objects it watches when they change; they wait in its work queue.  Here the
    requests a change leads to are computed from what was registered, and the
    cluster of [Api.v] gets other users: between any two requests of a reconciler
    anyone may change it.  The code of the reconcilers runs in this world as it
    is, because the world is an instance of [ApiOps] again. *)
From S2P Require Import Prelude Corev1 EgressApi Api Manager.

(** ** The requests a change leads to *)
Definition changed {K A} `{Countable K, EqDecision A} (m m' : gmap K A) : gset K :=
  filter (λ k, m !! k ≠ m' !! k) (dom m ∪ dom m').

Lemma elem_of_changed {K A} `{Countable K, EqDecision A} (m m' : gmap K A) k : k ∈ changed m m' ↔ m !! k ≠ m' !! k.
Proof.
  unfold changed. rewrite elem_of_filter, elem_of_union, !elem_of_dom. split; [by intros [? _]|].
  intros Hne. split; [done|]. destruct (m !! k) eqn:E; [by left|right].
  destruct (m' !! k); [done|congruence].
Qed.

Definition Kind (kd : kind) : string := match kd with
  | KEgress => "Egress" | KDeployment => "Deployment" | KService => "Service" | KPod => "Pod"
  | KClusterRoleBinding => "ClusterRoleBinding"
  end.
(** The objects of a kind that differ; a binding has no namespace, and pods are
    not in the view of the cluster. *)
Definition changed_objects (kd : kind) (c c' : Cluster) : gset ObjectKey := match kd with
  | KEgress => changed (egresses c) (egresses c')
  | KDeployment => changed (deployments c) (deployments c')
  | KService => changed (services c) (services c')
  | KClusterRoleBinding => set_map (λ n : string, ("", n)) (changed (crbs c) (crbs c'))
  | KPod => ∅
  end.
Definition owner_references (kd : kind) (c : Cluster) (k : ObjectKey) : list OwnerReference := match kd with
  | KDeployment => from_option depl_Owners [] (deployments c !! k)
  | KService => from_option svc_Owners [] (services c !! k)
  | _ => []
  end.

(** [handler.EnqueueRequestForOwner] with the controller only. *)
Definition owner_request (kd : kind) (k : ObjectKey) (l : list OwnerReference) : gset ObjectKey :=
  match GetControllerOf l with
  | Some o => if String.eqb (or_Kind o) (Kind kd) then {[(k.1, or_Name o)]} else ∅
  | None => ∅
  end.

Section requests.
Context {R : Type}.

Definition passes (ctl : Controller R) (k : ObjectKey) : bool :=
  match c_Filter ctl with Some f => f k.2 | None => true end.
(** [For] and [Owns], behind the event filter; an update is looked at with the old
    and the new object. *)
Definition requests (ctl : Controller R) (c c' : Cluster) : gset ObjectKey :=
  filter (λ k, passes ctl k = true) (changed_objects (c_For ctl) c c') ∪
  ⋃ (kd ← c_Owns ctl;
     k ← elements (filter (λ k, passes ctl k = true) (changed_objects kd c c'));
     [owner_request (c_For ctl) k (owner_references kd c k); owner_request (c_For ctl) k (owner_references kd c' k)]).

Lemma request_for ctl c c' k : k ∈ changed_objects (c_For ctl) c c' → passes ctl k = true → k ∈ requests ctl c c'.
Proof. intros. apply elem_of_union_l, elem_of_filter. done. Qed.

Lemma request_owned ctl c c' kd k n : kd ∈ c_Owns ctl → k ∈ changed_objects kd c c' → passes ctl k = true →
  controlled_by (Kind (c_For ctl)) n (owner_references kd c k) ∨ controlled_by (Kind (c_For ctl)) n (owner_references kd c' k) →
  (k.1, n) ∈ requests ctl c c'.
Proof.
  intros Hkd Hk Hp Hown. apply elem_of_union_r, elem_of_union_list.
  assert (∀ l, controlled_by (Kind (c_For ctl)) n l → (k.1, n) ∈ owner_request (c_For ctl) k l) as Ho.
  { intros l (o & Ho & Hkind & <-). unfold owner_request. rewrite Ho, Hkind, String.eqb_refl. by apply elem_of_singleton. }
  assert (∀ X, X ∈ [owner_request (c_For ctl) k (owner_references kd c k); owner_request (c_For ctl) k (owner_references kd c' k)] →
    (k.1, n) ∈ X → ∃ X, X ∈ (kd ← c_Owns ctl;
     k ← elements (filter (λ k, passes ctl k = true) (changed_objects kd c c'));
     [owner_request (c_For ctl) k (owner_references kd c k); owner_request (c_For ctl) k (owner_references kd c' k)]) ∧ (k.1, n) ∈ X) as HX.
  { intros X HX Hin. exists X. split; [|done]. apply list_elem_of_bind. exists kd. split; [|done].
    apply list_elem_of_bind. exists k. split; [done|]. by apply elem_of_elements, elem_of_filter. }
  destruct Hown as [H|H]; (eapply HX; [|by apply Ho]); [left|right; left].
Qed.

(** Keys waiting for a controller, by its position among those registered. *)
Definition item : Type := nat * ObjectKey.
Definition enqueued (ctls : list (Controller R)) (c c' : Cluster) : gset item :=
  ⋃ imap (λ i ctl, set_map (pair i) (requests ctl c c')) ctls.

Lemma elem_of_enqueued ctls c c' i k ctl : ctls !! i = Some ctl → k ∈ requests ctl c c' → (i, k) ∈ enqueued ctls c c'.
Proof.
  intros Hi Hk. apply elem_of_union_list. exists (set_map (pair i) (requests ctl c c')).
  split; [apply elem_of_lookup_imap; by exists i, ctl|]. apply elem_of_map. by exists k.
Qed.
End requests.

(** ** A cluster with other users

    [others] holds what the others do: the changes before the first request, those
    before the second, and so on. *)
Record shared (W : Type) {R : Type} (ctls : list (Controller R)) := mkShared {
  base : W; queue : gset item; others : list (list (W → W)) }.
Arguments mkShared {_ _ _} _ _ _.
Arguments base {_ _ _} _.
Arguments queue {_ _ _} _.
Arguments others {_ _ _} _.

Section shared.
Context {W : Type} `{!ApiOps W, !ApiLaws W} {R : Type} {ctls : list (Controller R)}.
Notation world := (shared W ctls).

(** A change of the cluster, with the requests it leads to. *)
Definition act (f : W → W) (s : W * gset item) : W * gset item :=
  (f s.1, s.2 ∪ enqueued ctls (api_view s.1) (api_view (f s.1))).

Definition interleaved {A} (m : M W A) : M world A := λ i,
  let '(w, q) := foldl (λ s f, act f s) (base i, queue i) (default [] (head (others i))) in
  let (o, w') := m w in
  (o, mkShared w' (q ∪ enqueued ctls (api_view w) (api_view w')) (tail (others i))).

#[global] Instance shared_ops : ApiOps world := {
  get_Egress k := interleaved (get_Egress k);
  list_Egress := interleaved list_Egress;
  update_Status eg := interleaved (update_Status eg);
  get_ServiceAccount k := interleaved (get_ServiceAccount k);
  create_ServiceAccount k := interleaved (create_ServiceAccount k);
  get_CRB n := interleaved (get_CRB n);
  update_CRB n l := interleaved (update_CRB n l);
  get_Deployment k := interleaved (get_Deployment k);
  CreateOrUpdate_Deployment k f := interleaved (CreateOrUpdate_Deployment k f);
  get_Service k := interleaved (get_Service k);
  CreateOrUpdate_Service k f := interleaved (CreateOrUpdate_Service k f);
  SetControllerReference := SetControllerReference (W := W);
  LabelSelectorAsSelector_String := LabelSelectorAsSelector_String (W := W);
  DeepDerivative := DeepDerivative (W := W) }.

(** The cluster and the queue, which is all the reconcilers can tell. *)
Definition sysview (i : world) : Cluster * gset item := (api_view (base i), queue i).
Definition cluster (i : world) : Cluster := api_view (base i).

Context (orderly : relation Cluster).

(** What happens to them: changes of a kind that everybody keeps to, each followed
    by its requests. *)
Definition watched (s s' : Cluster * gset item) : Prop := orderly s.1 s'.1 ∧ s.2 ∪ enqueued ctls s.1 s'.1 ⊆ s'.2.
Definition evolves : relation (Cluster * gset item) := rtc watched.
Definition well_behaved (f : W → W) : Prop := ∀ w, orderly (api_view w) (api_view (f w)).
Definition all_well_behaved (i : world) : Prop := Forall (Forall well_behaved) (others i).

(** An assertion no change can break. *)
Definition stable (A : Cluster * gset item → Prop) : Prop := ∀ s s', watched s s' → A s → A s'.

Lemma stable_evolves A s s' : stable A → evolves s s' → A s → A s'.
Proof using Type. intros HA. induction 1; eauto. Qed.

Lemma act_evolves (fs : list (W → W)) (s : W * gset item) : Forall well_behaved fs →
  let s' := foldl (λ s f, act f s) s fs in evolves (api_view s.1, s.2) (api_view s'.1, s'.2).
Proof using Type.
  intros Hfs. revert s. induction Hfs as [|f fs Hf _ IH]; intros s; simpl; [apply rtc_refl|].
  eapply rtc_l; [|apply IH]. split; [apply Hf|done].
Qed.

(** The others act, and then the request is made. *)
Lemma wp_interleaved {A} (m : M W A) (Q : outcome A → Cluster → Cluster → Prop) i :
  (∀ w, wp m (λ o w', Q o (api_view w) (api_view w')) w) → (∀ o c c', Q o c c' → orderly c c') → all_well_behaved i →
  wp (interleaved m) (λ o i', all_well_behaved i' ∧
    ∃ s, evolves (sysview i) s ∧ watched s (sysview i') ∧ Q o s.1 (cluster i')) i.
Proof using Type.
  intros Hm HQ Hi. unfold wp, interleaved.
  assert (Forall well_behaved (default [] (head (others i))) ∧ Forall (Forall well_behaved) (tail (others i))) as [Hh Ht].
  { unfold all_well_behaved in Hi. by destruct Hi. }
  pose proof (act_evolves _ (base i, queue i) Hh) as He. simpl in He.
  destruct (foldl _ _ _) as [w q]. specialize (Hm w). unfold wp in Hm. destruct (m w) as [o w'].
  split; [done|]. exists (api_view w, q). split_and!; [done| |done]. split; [by eapply HQ|done].
Qed.

Context `{!PreOrder orderly}.

Lemma wp_shared_reads {A} (q : Cluster → option A) m i : reads api_view q m → all_well_behaved i →
  wp (interleaved m) (λ o i', all_well_behaved i' ∧ evolves (sysview i) (sysview i') ∧
    match o with
    | Ok a => q (cluster i') = Some a
    | Err e => apierrors_IsNotFound e = true → q (cluster i') = None
    | Panicked _ => False
    end) i.
Proof using All.
  intros Hm Hi. eapply wp_mono.
  - apply (wp_interleaved m (λ o c c', c' = c ∧ match o with
      Ok a => q c = Some a | Err e => apierrors_IsNotFound e = true → q c = None | Panicked _ => False end)); [exact Hm| |done].
    by intros o c c' [-> _].
  - intros o i' [Hi' (s & He & Hw & Hc & Ho)]. split; [done|]. split; [by eapply rtc_r|]. by rewrite Hc.
Qed.

Lemma wp_shared_writes T m i : writes api_view T m → (∀ c c', T c c' → orderly c c') → all_well_behaved i →
  wp (interleaved m) (λ o i', all_well_behaved i' ∧ evolves (sysview i) (sysview i') ∧
    match o with
    | Ok _ => ∃ s, evolves (sysview i) s ∧ watched s (sysview i') ∧ T s.1 (cluster i')
    | Err _ => True
    | Panicked _ => False
    end) i.
Proof using All.
  intros Hm HT Hi. eapply wp_mono.
  - apply (wp_interleaved m (λ o c c', match o with
      Ok a => T c c' | Err e => c' = c ∨ T c c' | Panicked _ => False end)); [exact Hm| |done].
    intros [?|?|?] c c' H; [by apply HT|destruct H as [->|H]; [done|by apply HT]|done].
  - intros o i' [Hi' (s & He & Hw & Ho)]. split; [done|]. split; [by eapply rtc_r|]. destruct o; [by exists s|done..].
Qed.
End shared.
