(* ===== verification/ControlPlane.v ===== *)
(** * The controllers of a running manager, in a cluster others change too

    [EgressController.v] and [Crb.v] say what one call of a reconciler does.  Here
    the manager of [ControllerMain.v] runs: users and the rest of the cluster
    change objects at any time, also between two requests of a reconciler; what
    was registered turns changes into work; the reconcilers take it from their
    queues, and what fails is queued again.  The runs of the two controllers do
    not overlap each other. *)
From S2P Require Import Prelude Constants Corev1 EgressApi Api FakeApi Crb EgressController Manager ControllerMain Watch.

(** ** What everybody keeps to *)

(** An object with the name of an Egress is controlled by it. *)
Definition owns_its_names (c : Cluster) : Prop := ∀ k, is_Some (egresses c !! k) →
  (∀ d, deployments c !! k = Some d → controlled_by "Egress" k.2 (depl_Owners d)) ∧
  (∀ s, services c !! k = Some s → controlled_by "Egress" k.2 (svc_Owners s)).
Definition tidy (c : Cluster) : Prop := named c ∧ owns_its_names c.
(** Nobody takes a name away, or deletes a service account: accounts are not
    watched. *)
Definition orderly (c c' : Cluster) : Prop := (tidy c → tidy c') ∧ serviceaccounts c ⊆ serviceaccounts c'.

#[global] Instance orderly_preorder : PreOrder orderly.
Proof. split; [done|]. intros c1 c2 c3 [? ?] [? ?]. split; [auto|set_solver]. Qed.

Definition crb_item : item := (1%nat, ("", CRBEgress)).
Definition egress_item (k : ObjectKey) : item := (0%nat, k).

(** ** What an Egress is to find *)
Record as_asked {W} `{!ApiOps W} (r : EgressReconciler) (k : ObjectKey) (eg : Egress) (c : Cluster) : Prop := {
  aa_account : (k.1, SAEgress) ∈ serviceaccounts c;
  aa_deployment : ∃ d, deployments c !! k = Some d ∧ (depl_deleted d = false → deployment_ok r eg d) ∧ status_of d (Status eg);
  aa_service : ∃ s, services c !! k = Some s ∧ (svc_deleted s = false → service_ok r eg s) }.
Definition bound_there (ns : string) (c : Cluster) : Prop := ∃ l, crbs c !! CRBEgress = Some l ∧ bound ns l.

(** ** The system *)
Definition run {W} `{!ApiOps W} (rec : reconciler) (k : ObjectKey) : M W unit :=
  match rec with EgressRec r => Reconcile r k | CrbRec => crb_Reconcile k.2 end.

Section system.
Context {W : Type} `{!ApiOps W, !ApiLaws W} (ctls : list (Controller reconciler)).
Notation world := (shared W ctls).

(** The queue after a run: what failed waits again. *)
Definition requeue {A} (o : outcome A) (x : item) (q : gset item) : gset item := match o with Ok _ => q | _ => q ∪ {[x]} end.

(** The others change something; or a key is taken from a queue and reconciled
    while they go on, and queued again when that fails. *)
Inductive step : relation (W * gset item) :=
| step_others w w' q q' : orderly (api_view w) (api_view w') →
    q ∪ enqueued ctls (api_view w) (api_view w') ⊆ q' → step (w, q) (w', q')
| step_work w q i k ctl acts o (s : world) : (i, k) ∈ q → ctls !! i = Some ctl → Forall (Forall (well_behaved orderly)) acts →
    run (c_Reconciler ctl) k (mkShared w (q ∖ {[(i, k)]}) acts) = (o, s) →
    step (w, q) (base s, requeue o (i, k) (queue s)).
End system.

(** ** Assertions that survive the others *)
Section assertions.
Context {W : Type} `{!ApiOps W, !ApiLaws W} (r : EgressReconciler).
Definition ctls : list (Controller reconciler) := [egress_controller r; crb_controller].
Notation world := (shared W ctls).
Notation watched := (watched (ctls := ctls) orderly).
Notation evolves := (evolves (ctls := ctls) orderly).
Notation stable := (stable (ctls := ctls) orderly).
Implicit Types (s : Cluster * gset item) (k : ObjectKey).

Lemma queue_grows s s' x : watched s s' → x ∉ s'.2 → x ∉ s.2.
Proof using Type. intros [_ Hq] Hx Hin. apply Hx, Hq, elem_of_union. by left. Qed.

Lemma told_egress s s' k c c' : watched s s' → c = s.1 → c' = s'.1 → k ∈ requests (egress_controller r) c c' → egress_item k ∈ s'.2.
Proof using Type. intros [_ Hq] -> -> Hk. apply Hq, elem_of_union. right. by eapply elem_of_enqueued. Qed.

Lemma egress_same s s' k : watched s s' → egress_item k ∉ s'.2 → egresses s'.1 !! k = egresses s.1 !! k.
Proof using Type.
  intros Hw Hk. destruct (decide (egresses s.1 !! k = egresses s'.1 !! k)) as [|Hne]; [done|].
  destruct Hk. eapply told_egress; [done..|]. apply request_for; [by apply elem_of_changed|done].
Qed.

(** A change of what belongs to an Egress is seen. *)
Definition same_slot k c c' : Prop := egresses c' !! k = egresses c !! k ∧
  deployments c' !! k = deployments c !! k ∧ services c' !! k = services c !! k.

Lemma slot_same s s' k : watched s s' → tidy s.1 → is_Some (egresses s.1 !! k) → egress_item k ∉ s'.2 → same_slot k s.1 s'.1.
Proof using Type.
  intros Hw Ht Hk Hq. pose proof (egress_same _ _ _ Hw Hq) as He. split; [done|].
  assert (tidy s'.1) as [_ Ht'] by (by apply Hw). destruct Ht as [_ Ht].
  assert (is_Some (egresses s'.1 !! k)) as Hk' by by rewrite He.
  destruct (Ht _ Hk) as [Hd Hs], (Ht' _ Hk') as [Hd' Hs'].
  assert (∀ kd, kd ∈ [KDeployment; KService] → k ∈ changed_objects kd s.1 s'.1 →
    controlled_by "Egress" k.2 (owner_references kd s.1 k) ∨ controlled_by "Egress" k.2 (owner_references kd s'.1 k) → False) as Hno.
  { intros kd Hkd Hc Ho. apply Hq. eapply told_egress; [done..|]. destruct k as [ns n]. by apply (request_owned _ _ _ kd (ns, n) n). }
  split.
  - destruct (decide (deployments s.1 !! k = deployments s'.1 !! k)) as [|Hne]; [done|].
    destruct (Hno KDeployment); [left|by apply elem_of_changed|]. simpl.
    destruct (deployments s.1 !! k) eqn:E; simpl; [left; by apply Hd|]. destruct (deployments s'.1 !! k) eqn:E'; simpl; [right; by apply Hd'|done].
  - destruct (decide (services s.1 !! k = services s'.1 !! k)) as [|Hne]; [done|].
    destruct (Hno KService); [right; left|by apply elem_of_changed|]. simpl.
    destruct (services s.1 !! k) eqn:E; simpl; [left; by apply Hs|]. destruct (services s'.1 !! k) eqn:E'; simpl; [right; by apply Hs'|done].
Qed.

Lemma crb_same s s' : watched s s' → crb_item ∉ s'.2 → crbs s'.1 !! CRBEgress = crbs s.1 !! CRBEgress.
Proof using Type.
  intros [_ Hq] Hk. destruct (decide (crbs s.1 !! CRBEgress = crbs s'.1 !! CRBEgress)) as [|Hne]; [done|].
  destruct Hk. apply Hq, elem_of_union. right. eapply (elem_of_enqueued _ _ _ 1 _ crb_controller); [done|].
  apply request_for; [|done]. apply elem_of_map. exists CRBEgress. split; [done|]. by apply elem_of_changed.
Qed.

(** [φ] holds of the objects of [k], or [k] is waiting. *)
Definition unless k (φ : Cluster → Prop) s : Prop := tidy s.1 ∧ (egress_item k ∉ s.2 → φ s.1).

Lemma stable_unless k φ : (∀ c c', same_slot k c c' → serviceaccounts c ⊆ serviceaccounts c' → φ c → φ c') →
  (∀ c, φ c → is_Some (egresses c !! k)) → stable (unless k φ).
Proof using Type.
  intros Hφ Hk s s' Hw [Ht H]. split; [by apply Hw|]. intros Hq. specialize (H (queue_grows _ _ _ Hw Hq)).
  eapply Hφ; [|by apply Hw|done]. apply slot_same; auto.
Qed.

(** Who is bound stays bound, or the binding is waiting. *)
Definition bound_if k s : Prop := ∀ eg, egresses s.1 !! k = Some eg → eg_deleted eg = false → eg_Namespace eg ≠ "" →
  egress_item k ∉ s.2 → crb_item ∉ s.2 → bound_there (eg_Namespace eg) s.1.

Lemma stable_bound k : stable (bound_if k).
Proof using Type.
  intros s s' Hw H eg He Hl Hns Hk Hc. rewrite (egress_same _ _ _ Hw Hk) in He.
  destruct (H eg) as (l & Hl' & Hb); [done|done|done|by eapply queue_grows..|]. exists l. by rewrite (crb_same _ _ Hw Hc).
Qed.

Definition asked_if k s : Prop := ∀ eg, egresses s.1 !! k = Some eg → eg_deleted eg = false → egress_item k ∉ s.2 → as_asked r k eg s.1.

Lemma stable_asked k : stable (λ s, tidy s.1 ∧ asked_if k s).
Proof using Type.
  intros s s' Hw [Ht H]. split; [by apply Hw|]. intros eg He Hl Hk. rewrite (egress_same _ _ _ Hw Hk) in He.
  destruct (H eg He Hl (queue_grows _ _ _ Hw Hk)) as [Ha (d & Hd & Hok) (sv & Hs & Hsok)].
  assert (is_Some (egresses s.1 !! k)) as Hex by by rewrite He.
  destruct (slot_same _ _ _ Hw Ht Hex Hk) as (_ & Ed & Es). destruct Hw as [[_ Hsa] _].
  split; [by apply Hsa|exists d; by rewrite Ed|exists sv; by rewrite Es].
Qed.

Lemma tidy_evolves s s' : evolves s s' → tidy s.1 → tidy s'.1.
Proof using Type. intros He. by apply (stable_evolves (ctls := ctls) orderly (λ s, tidy s.1)); [intros ?? [[] _]|]. Qed.

Lemma egress_was s s' k : evolves s s' → egress_item k ∉ s'.2 → egresses s'.1 !! k = egresses s.1 !! k ∧ egress_item k ∉ s.2.
Proof using Type.
  induction 1 as [|s1 s2 s3 Hw _ IH]; [done|]. intros Hk. destruct (IH Hk) as [-> Hk2].
  split; [by apply egress_same|by eapply queue_grows].
Qed.
End assertions.

(** ** The reconcilers among the others *)
Section reconcilers.
Context {W : Type} `{!ApiOps W, !ApiLaws W} (r : EgressReconciler).
Notation world := (shared W (ctls r)).
Notation evolves := (evolves (ctls := ctls r) orderly).
Notation watched := (watched (ctls := ctls r) orderly).
Notation stable := (stable (ctls := ctls r) orderly).
Notation fair := (all_well_behaved orderly).
Implicit Types (i : world) (k : ObjectKey).

(** [triple A m B]: from [A], whatever the others do meanwhile, [m] does not panic,
    and establishes [B] when it returns nil. *)
Definition triple (A : Cluster * gset item → Prop) (m : M world unit) (B : Cluster * gset item → Prop) : Prop := ∀ i, fair i → A (sysview i) →
  wp m (λ o i', fair i' ∧ evolves (sysview i) (sysview i') ∧ no_panic o ∧ (o = Ok tt → B (sysview i'))) i.

Lemma triple_seq A B C m m' : stable A → stable B → triple A m B → triple (λ s, A s ∧ B s) m' C →
  triple A (_ ← m; m') (λ s, B s ∧ C s).
Proof using Type.
  intros HA HB Hm Hm' i Hi Ha. apply wp_bind. eapply wp_mono; [by apply Hm|].
  intros [[]|e|x] i1 (Hi1 & He1 & Hno & Hb); simpl; [|done..]. specialize (Hb eq_refl).
  pose proof (stable_evolves _ _ _ _ HA He1 Ha) as Ha1. eapply wp_mono; [by apply Hm'|].
  intros o i2 (Hi2 & He2 & Hno2 & Hc). split_and!; [done|by etrans|done|]. intros Ho.
  split; [by eapply stable_evolves|by apply Hc].
Qed.
Lemma triple_mono A A' B B' m : triple A m B → (∀ s, A' s → A s) → (∀ s, B s → B' s) → triple A' m B'.
Proof using Type.
  intros Hm HA HB i Hi Ha. eapply wp_mono; [by apply Hm, HA|]. intros o i' (? & ? & ? & H). split_and!; auto.
Qed.
Lemma stable_and A B : stable A → stable B → stable (λ s, A s ∧ B s).
Proof using Type. intros HA HB s s' Hw [? ?]. split; eauto. Qed.

Lemma wp_shared_list i : fair i → wp list_Egress (λ o i', fair i' ∧ evolves (sysview i) (sysview i') ∧
  match o with Ok l => l ≡ₚ (map_to_list (egresses (cluster i'))).*2 | Err _ => True | Panicked _ => False end) i.
Proof using Type.
  intros Hi. eapply wp_mono.
  - apply (wp_interleaved orderly list_Egress (λ o c c', c' = c ∧ match o with
      Ok l => l ≡ₚ (map_to_list (egresses c)).*2 | Err _ => True | Panicked _ => False end)); [|by intros o c c' [-> _]|done].
    intros w. eapply wp_mono; [apply law_list_Egress|]. by intros o w' [-> Ho].
  - intros o i' [Hi' (s & He & Hw & Hc & Ho)]. split; [done|]. split; [by eapply rtc_r|]. by rewrite Hc.
Qed.

Lemma wanted_bound items l1 l2 c k eg : items ≡ₚ (map_to_list (egresses c)).*2 → egresses c !! k = Some eg → eg_Namespace eg ≠ "" →
  Forall2 subject_described (crb_subjects items) l1 → bound (eg_Namespace eg) (l1 ++ l2).
Proof using Type.
  intros Hp Hk Hns HF. eapply described_bound; [done..|]. apply crb_subjects_bound, (elem_namespaces c); [done|]. by exists k, eg.
Qed.

Lemma orderly_crb n l c : orderly c (set_crbs (<[n := l]> (crbs c)) c).
Proof using Type. split; [|done]. intros [? ?]. by split. Qed.

Lemma subject_described_refl l : Forall2 subject_described l l.
Proof using Type. apply Forall_Forall2_diag, Forall_true. intros x. unfold subject_described, field_described. auto. Qed.

Lemma triple_reconcileCRB : triple (λ _, True) (reconcileCRB CRBEgress) (λ s, ∀ k, bound_if k s).
Proof using Type.
  intros i Hi _. unfold reconcileCRB. wp_steps. eapply wp_mono; [by apply (wp_shared_reads orderly (λ c, crbs c !! CRBEgress)), Hi; apply law_get_CRB|].
  intros [l0|e|m] i1 (Hi1 & He1 & H1); simpl; [|done..]. wp_steps. eapply wp_mono; [by apply wp_shared_list|].
  intros [items|e|m] i2 (Hi2 & He2 & H2); simpl; [|split_and!; [done|by etrans|done..]|done].
  assert (He12 : evolves (sysview i) (sysview i2)) by by etrans. destruct (DeepDerivative _ _) eqn:E.
  - apply wp_ret. split_and!; [done..|]. intros _ k eg Hk Hl Hns _ Hc. exists l0. split.
    + pose proof (stable_evolves (ctls := ctls r) orderly (λ s, crb_item ∉ s.2 → crbs s.1 !! CRBEgress = Some l0)) as Hst.
      apply (Hst (sysview i1) (sysview i2)); [|done..]. intros s s' Hw H Hq. rewrite (crb_same r _ _ Hw Hq).
      apply H. by eapply queue_grows.
    + destruct (law_DeepDerivative (W := W) _ _ E) as (l1 & l2 & -> & HF). by eapply wanted_bound.
  - eapply wp_mono; [by apply (wp_shared_writes orderly _ _ _ (law_update_CRB CRBEgress (crb_subjects items))); [intros c c' ->; apply orderly_crb|]|].
    intros [[]|e|m] i3 (Hi3 & He3 & H3); [|split_and!; [done|by etrans|done..]|done].
    split_and!; [done|by etrans|done|]. intros _ k eg Hk Hl Hns Hq _. destruct H3 as (s & _ & _ & Hc).
    exists (crb_subjects items). simpl. unfold cluster in Hc. rewrite Hc. split; [apply lookup_insert_eq|].
    destruct (egress_was r _ _ k He3 Hq) as [Hwas _]. rewrite Hwas in Hk.
    rewrite <-(app_nil_r (crb_subjects items)). eapply wanted_bound; [done..|]. apply subject_described_refl.
Qed.

Lemma orderly_account x c : orderly c (set_serviceaccounts ({[x]} ∪ serviceaccounts c) c).
Proof using Type. split; [by intros [? ?]|]. simpl. set_solver. Qed.

Lemma triple_account ns : triple (λ _, True) (reconcileServiceAccount ns) (λ s, (ns, SAEgress) ∈ serviceaccounts s.1).
Proof using Type.
  intros i Hi _. unfold reconcileServiceAccount. wp_steps.
  eapply wp_mono; [by apply (wp_shared_reads orderly (λ c, if bool_decide ((ns, SAEgress) ∈ serviceaccounts c) then Some tt else None)), Hi;
    apply law_get_ServiceAccount|].
  intros [[]|e|m] i1 (Hi1 & He1 & H1); simpl; [| |done].
  - apply wp_ret. split_and!; [done..|]. intros _. by case_bool_decide.
  - destruct (apierrors_IsNotFound e); [|by apply wp_throw].
    eapply wp_mono; [by apply (wp_shared_writes orderly _ _ _ (law_create_ServiceAccount (ns, SAEgress))); [intros c c' ->; apply orderly_account|]|].
    intros [[]|e'|m] i2 (Hi2 & He2 & H2); [|split_and!; [done|by etrans|done..]|done].
    split_and!; [done|by etrans|done|]. intros _. destruct H2 as (s & _ & _ & Hc). unfold cluster in *. rewrite Hc. simpl. set_solver.
Qed.

(** The mutating functions take over a new object, and keep the owners of an old
    one. *)
Lemma mutate_deployment_owners eg c d d' : tidy c →
  mutate_Deployment SetControllerReference r eg (default (new_Deployment (eg_key eg)) (deployments c !! eg_key eg)) = Ok d →
  accepted_Deployment d d' → is_Some (egresses c !! eg_key eg) → controlled_by "Egress" (eg_Name eg) (depl_Owners d').
Proof using All.
  intros [_ Ht] Hm (st & t & n & -> & _) Hk. simpl. destruct (Ht _ Hk) as [Hd _]. unfold mutate_Deployment in Hm.
  destruct (deployments c !! eg_key eg) as [d0|] eqn:E0; simpl in Hm.
  - specialize (Hd _ E0). destruct (depl_deleted d0); [by injection Hm as <-|]. destruct (depl_created d0); simpl in Hm.
    + by injection Hm as <-.
    + destruct (SetControllerReference eg _) eqn:E; simplify_eq/=. by eapply law_SetControllerReference_owner.
  - destruct (SetControllerReference eg _) eqn:E; simplify_eq/=. by eapply law_SetControllerReference_owner.
Qed.

Lemma mutate_service_owners eg c s s' : tidy c →
  mutate_Service SetControllerReference r eg (default (new_Service (eg_key eg)) (services c !! eg_key eg)) = Ok s →
  accepted_Service s s' → is_Some (egresses c !! eg_key eg) → controlled_by "Egress" (eg_Name eg) (svc_Owners s').
Proof using All.
  intros [_ Ht] Hm (ports & sa & sac & ip & -> & _) Hk. simpl. destruct (Ht _ Hk) as [_ Hs]. unfold mutate_Service in Hm.
  destruct (services c !! eg_key eg) as [s0|] eqn:E0; simpl in Hm.
  - specialize (Hs _ E0). destruct (svc_deleted s0); [by injection Hm as <-|]. destruct (svc_created s0); simpl in Hm.
    + by injection Hm as <-.
    + destruct (SetControllerReference eg _) eqn:E; simplify_eq/=. by eapply law_SetControllerReference_owner.
  - destruct (SetControllerReference eg _) eqn:E; simplify_eq/=. by eapply law_SetControllerReference_owner.
Qed.

Definition writes_deployment eg c c' : Prop := ∃ d d',
  mutate_Deployment SetControllerReference r eg (default (new_Deployment (eg_key eg)) (deployments c !! eg_key eg)) = Ok d ∧
  accepted_Deployment d d' ∧ c' = set_deployments (<[eg_key eg := d']> (deployments c)) c.
Definition writes_service eg c c' : Prop := ∃ s s',
  mutate_Service SetControllerReference r eg (default (new_Service (eg_key eg)) (services c !! eg_key eg)) = Ok s ∧
  accepted_Service s s' ∧ c' = set_services (<[eg_key eg := s']> (services c)) c.

Lemma orderly_deployment eg c c' : writes_deployment eg c c' → orderly c c'.
Proof using All.
  intros (d & d' & Hm & Ha & ->). split; [|done]. intros [Hn Ht]. split; [done|]. intros k Hk. simpl in *.
  destruct (Ht k Hk) as [Hd Hs]. split; [|done]. intros d1. destruct (decide (k = eg_key eg)) as [->|Hne].
  - rewrite lookup_insert_eq. intros [= <-]. by eapply (mutate_deployment_owners eg c).
  - rewrite lookup_insert_ne by done. apply Hd.
Qed.
Lemma orderly_service eg c c' : writes_service eg c c' → orderly c c'.
Proof using All.
  intros (d & d' & Hm & Ha & ->). split; [|done]. intros [Hn Ht]. split; [done|]. intros k Hk. simpl in *.
  destruct (Ht k Hk) as [Hd Hs]. split; [done|]. intros d1. destruct (decide (k = eg_key eg)) as [->|Hne].
  - rewrite lookup_insert_eq. intros [= <-]. by eapply (mutate_service_owners eg c).
  - rewrite lookup_insert_ne by done. apply Hs.
Qed.
Lemma orderly_status k st old c : egresses c !! k = Some old → orderly c (set_egresses (<[k := with_Status st old]> (egresses c)) c).
Proof using Type.
  intros Ho. split; [|done]. intros [Hn Ht]. split.
  - intros k' eg'. simpl. destruct (decide (k' = k)) as [->|Hne]; [|rewrite lookup_insert_ne by done; apply Hn].
    rewrite lookup_insert_eq. intros [= <-]. by apply (Hn k old).
  - intros k' Hk'. simpl in *. apply (Ht k'). destruct (decide (k' = k)) as [->|Hne]; [by eexists|].
    by rewrite lookup_insert_ne in Hk' by done.
Qed.

(** What holds of the objects of a current Egress. *)
Definition current (eg : Egress) (φ : Cluster → Prop) : Cluster * gset item → Prop :=
  unless (eg_key eg) (λ c, egresses c !! eg_key eg = Some eg ∧ φ c).
Definition local (eg : Egress) (φ : Cluster → Prop) : Prop :=
  ∀ c c', same_slot (eg_key eg) c c' → φ c → φ c'.

Lemma stable_current eg φ : local eg φ → stable (current eg φ).
Proof using Type.
  intros Hφ. apply (stable_unless r); [|by intros c [-> _]].
  intros c c' Hs _ [He H]. split; [destruct Hs as [-> _]; done|eauto].
Qed.
Lemma local_top eg : local eg (λ _, True).
Proof using Type. done. Qed.
Lemma local_deployment eg P : local eg (λ c, ∃ d, deployments c !! eg_key eg = Some d ∧ P d).
Proof using Type. by intros c c' (_ & -> & _). Qed.
Lemma local_service eg P : local eg (λ c, ∃ s, services c !! eg_key eg = Some s ∧ P s).
Proof using Type. by intros c c' (_ & _ & ->). Qed.

Lemma current_and eg φ ψ s : current eg φ s → current eg ψ s → current eg (λ c, φ c ∧ ψ c) s.
Proof using Type. intros [? H] [_ H']. split; [done|]. intros Hq. destruct (H Hq), (H' Hq). done. Qed.

Notation reaches eg φ m := (triple (current eg (λ _, True)) m (current eg φ)).

Lemma reaches_write eg φ T m : writes api_view T m → (∀ c c', T c c' → orderly c c') → (∀ c c', T c c' → φ c') →
  reaches eg φ (interleaved m).
Proof using Type.
  intros Hm HT Hφ i Hi Hu. eapply wp_mono; [by apply (wp_shared_writes orderly T)|].
  intros [[]|e|x] i' (Hi' & He & H); [|done..]. split_and!; [done..|]. intros _. destruct H as (s & _ & _ & H).
  destruct (stable_evolves _ _ _ _ (stable_current eg _ (local_top eg)) He Hu) as [Ht Heg].
  split; [done|]. intros Hq. split; [by apply Heg|by eapply Hφ].
Qed.

Lemma reaches_deployment eg : reaches eg (λ c, ∃ d, deployments c !! eg_key eg = Some d ∧ (depl_deleted d = false → deployment_ok r eg d))
  (reconcileDeployment r eg).
Proof using All.
  apply (reaches_write eg _ (writes_deployment eg)); [apply law_CreateOrUpdate_Deployment, (mutate_no_panic (W := W))|apply orderly_deployment|].
  intros c c' (d & d' & Hm & Ha & ->). exists d'. simpl. split; [apply lookup_insert_eq|]. by eapply mutate_deployment_ok.
Qed.
Lemma reaches_service eg : reaches eg (λ c, ∃ s, services c !! eg_key eg = Some s ∧ (svc_deleted s = false → service_ok r eg s))
  (reconcileService r eg).
Proof using All.
  apply (reaches_write eg _ (writes_service eg)); [apply law_CreateOrUpdate_Service, (mutate_svc_no_panic (W := W))|apply orderly_service|].
  intros c c' (d & d' & Hm & Ha & ->). exists d'. simpl. split; [apply lookup_insert_eq|]. by eapply mutate_service_ok.
Qed.

Lemma reaches_status eg : reaches eg (λ c, ∃ d, deployments c !! eg_key eg = Some d ∧ status_of (W := W) d (Status eg)) (updateStatus eg).
Proof using All.
  intros i Hi Hu. unfold updateStatus. wp_steps.
  eapply wp_mono; [by apply (wp_shared_reads orderly (λ c, deployments c !! eg_key eg)), Hi; apply law_get_Deployment|].
  intros [d|e|m] i1 (Hi1 & He1 & H1); simpl; [|done..]. wp_steps.
  set (φ := λ c, ∃ d0, deployments c !! eg_key eg = Some d0 ∧ d0 = d).
  assert (Hu1 : current eg φ (sysview i1)).
  { destruct (stable_evolves _ _ _ _ (stable_current eg _ (local_top eg)) He1 Hu) as [Ht H].
    split; [done|]. intros Hq. split; [by apply H|by exists d]. }
  destruct (LabelSelectorAsSelector_String (depl_Selector d)) as [sel|e|m] eqn:Es; simpl;
    [|done|by destruct (law_LabelSelectorAsSelector_String _ _ Es)].
  set (st := mkEgressStatus (AvailableReplicas d) sel). assert (Hst : status_of (W := W) d st) by done.
  destruct (status_changes (Status eg) (AvailableReplicas d) sel) as [-> ->]. fold st. case_bool_decide as E; simpl.
  - apply wp_ret. split_and!; [done..|]. intros _. destruct Hu1 as [Ht H]. split; [done|]. intros Hq. rewrite E.
    split; [by apply H|by exists d].
  - eapply wp_mono; [by apply (wp_shared_writes orderly _ _ _ (law_update_Status (with_Status st eg)));
      [intros c c' (old & Ho & ->); by apply orderly_status|]|].
    intros [[]|e|m] i2 (Hi2 & He2 & H2); [|split_and!; [done|by etrans|done..]|done].
    split_and!; [done|by etrans|done|]. intros _. destruct H2 as (s & _ & _ & old & Ho & Hc).
    destruct (stable_evolves _ _ _ _ (stable_current eg φ (local_deployment eg _)) He2 Hu1) as [Ht Hd]. split; [done|]. intros Hq.
    destruct (Hd Hq) as [Heg (d0 & Hdd & ->)]. split; [done|]. exists d. split; [done|].
    unfold cluster in Hc. simpl in Heg. rewrite Hc in Heg. change (eg_key (with_Status st eg)) with (eg_key eg) in Heg. simpl in Heg.
    rewrite lookup_insert_eq in Heg. injection Heg as Heg. by rewrite <-Heg.
Qed.

(** The steps of [Reconcile] after the Get. *)
Lemma triple_steps eg : triple (current eg (λ _, True))
  (_ ← reconcileServiceAccount (eg_Namespace eg); _ ← reconcileCRB CRBEgress; _ ← reconcileDeployment r eg;
   _ ← reconcileService r eg; updateStatus eg)
  (λ s, asked_if r (eg_key eg) s ∧ ∀ k, bound_if k s).
Proof using All.
  set (U := current eg (λ _, True)). set (A := λ s : Cluster * gset item, (eg_Namespace eg, SAEgress) ∈ serviceaccounts s.1).
  set (B := λ s, ∀ k, bound_if k s).
  set (D := current eg (λ c, ∃ d, deployments c !! eg_key eg = Some d ∧ (depl_deleted d = false → deployment_ok r eg d))).
  set (S := current eg (λ c, ∃ s, services c !! eg_key eg = Some s ∧ (svc_deleted s = false → service_ok r eg s))).
  assert (HU : stable U) by apply stable_current, local_top.
  assert (HA : stable A) by (intros s s' [[_ Hs] _] H; by apply Hs).
  assert (HB : stable B) by (intros s s' Hw H k; by eapply (stable_bound r)).
  assert (HD : stable D) by apply stable_current, local_deployment.
  assert (HS : stable S) by apply stable_current, local_service.
  eapply triple_mono; [|done|].
  - apply (triple_seq U A); [done..|eapply triple_mono; [apply triple_account|done..]|].
    eapply (triple_seq (λ s, U s ∧ A s) B); [by apply stable_and|done|eapply triple_mono; [apply triple_reconcileCRB|done..]|].
    eapply (triple_seq _ D); [|done|eapply triple_mono; [apply reaches_deployment|by intros s [[? _] _]|done]|];
      [repeat first [assumption|apply stable_and]|].
    eapply (triple_seq _ S); [|done|eapply triple_mono; [apply reaches_service|by intros s [[[? _] _] _]|done]|];
      [repeat first [assumption|apply stable_and]|].
    eapply triple_mono; [apply reaches_status|by intros s [[[[? _] _] _] _]|done].
  - intros s (HAs & HBs & HDs & HSs & HTs). split; [|done].
    destruct (current_and _ _ _ _ HDs (current_and _ _ _ _ HSs HTs)) as [Ht H]. intros eg' He' Hl Hq.
    destruct (H Hq) as (He & (d & Hd & Hok) & (sv & Hs & Hsok) & (d' & Hd' & Hst)). simplify_eq.
    split; [done|by exists d|by exists sv].
Qed.

(** All of [Reconcile]. *)
Lemma triple_Reconcile k : triple (λ s, tidy s.1) (Reconcile r k) (λ s, asked_if r k s ∧ bound_if k s).
Proof using All.
  intros i Hi Ht. unfold Reconcile. wp_steps.
  eapply wp_mono; [by apply (wp_shared_reads orderly (λ c, egresses c !! k)), Hi; apply law_get_Egress|].
  intros [eg|e|m] i1 (Hi1 & He1 & H1); simpl; [| |done].
  - pose proof (tidy_evolves r _ _ He1 Ht) as Ht1. assert (Hk : eg_key eg = k) by by apply Ht1. subst k.
    destruct (eg_deleted eg) eqn:Ed.
    + apply wp_ret. split_and!; [done..|]. intros _.
      split; [intros eg' He' Hl|intros eg' He' Hl]; unfold sysview in He'; simpl in He'; unfold cluster in H1; congruence.
    + eapply wp_mono; [apply (triple_steps eg i1 Hi1)|].
      * split; [done|]. intros _. split; done.
      * intros o i2 (Hi2 & He2 & Hno & H). split_and!; [done|by etrans|done|]. intros Ho. destruct (H Ho) as [Ha Hb]. by split.
  - destruct (apierrors_IsNotFound e) eqn:E; [apply wp_ret|by apply wp_throw]. split_and!; [done..|]. intros _.
    specialize (H1 eq_refl). split; intros eg' He'; unfold sysview in He'; simpl in He'; unfold cluster in H1; congruence.
Qed.
End reconcilers.

(** ** The invariant *)
Section invariant.
Context {W : Type} `{!ApiOps W, !ApiLaws W} (r : EgressReconciler).
Notation world := (shared W (ctls r)).
Notation step := (step (ctls r)).

Definition inv_key (k : ObjectKey) (s : Cluster * gset item) : Prop := asked_if (W := W) r k s ∧ bound_if k s.
Definition inv (s : Cluster * gset item) : Prop := tidy s.1 ∧ ∀ k, inv_key k s.

Lemma inv_key_evolves k s s' : evolves (ctls := ctls r) orderly s s' → tidy s.1 → inv_key k s → inv_key k s'.
Proof using Type.
  intros He Ht [Ha Hb]. split.
  - by apply (stable_evolves _ _ _ _ (stable_asked r k) He).
  - by apply (stable_evolves _ _ _ _ (stable_bound r k) He).
Qed.

Lemma inv_key_more k c q q' : q ⊆ q' → inv_key k (c, q) → inv_key k (c, q').
Proof using Type.
  intros Hq [Ha Hb]. split; [intros eg He Hl Hk; apply Ha|intros eg He Hl Hns Hk Hc; apply Hb]; auto.
Qed.
Lemma inv_key_waiting k s : egress_item k ∈ s.2 → inv_key k s.
Proof using Type. intros Hk. split; [intros eg He Hl Hq|intros eg He Hl Hns Hq]; by destruct Hq. Qed.

Lemma requeue_more {A} (o : outcome A) x q : q ⊆ requeue o x q.
Proof using Type. destruct o; simpl; set_solver. Qed.

(** What a run makes of the invariant when its key has been taken from the queue. *)
Lemma egress_run_inv k0 (i i' : world) o : all_well_behaved orderly i → tidy (cluster i) → Reconcile r k0 i = (o, i') →
  (∀ k, k ≠ k0 → inv_key k (sysview i)) →
  evolves (ctls := ctls r) orderly (sysview i) (sysview i') ∧ ∀ k, inv_key k (cluster i', requeue o (egress_item k0) (queue i')).
Proof using Type.
  intros Hi Ht Hrun Hk. destruct (wp_run _ _ _ _ _ Hrun (triple_Reconcile r k0 i Hi Ht)) as (_ & He & Hno & Hok). split; [done|intros k].
  destruct (decide (k = k0)) as [->|Hne].
  - destruct o as [[]|e|x]; [by apply Hok|apply inv_key_waiting; simpl; set_solver|done].
  - eapply inv_key_more; [apply requeue_more|]. apply (inv_key_evolves _ _ _ He Ht). auto.
Qed.

Lemma crb_run_inv k0 (i i' : world) o : all_well_behaved orderly i → tidy (cluster i) → crb_Reconcile k0.2 i = (o, i') →
  (∀ k, asked_if (W := W) r k (sysview i)) → (∀ k, k0 ≠ ("", CRBEgress) → bound_if k (sysview i)) →
  evolves (ctls := ctls r) orderly (sysview i) (sysview i') ∧ ∀ k, inv_key k (cluster i', requeue o (1%nat, k0) (queue i')).
Proof using Type.
  intros Hi Ht Hrun Ha Hb. unfold crb_Reconcile in Hrun. destruct (String.eqb_spec k0.2 CRBEgress) as [Hn|Hn].
  - rewrite Hn in Hrun. destruct (wp_run _ _ _ _ _ Hrun (triple_reconcileCRB r i Hi I)) as (_ & He & Hno & Hok). split; [done|intros k].
    destruct (stable_evolves _ _ _ _ (stable_asked r k) He (conj Ht (Ha k))) as [Ht' Ha'].
    destruct (decide (k0 = ("", CRBEgress))) as [->|Hne].
    + split; [intros eg Heg Hl Hq; apply Ha'; [done..|]; intros Hin; by apply Hq, requeue_more|].
      destruct o as [[]|e|x]; [by apply Hok| |done]. intros eg _ _ _ _ Hc. destruct Hc. simpl. set_solver.
    + eapply inv_key_more; [apply requeue_more|]. split; [done|].
      by apply (stable_evolves _ _ _ _ (stable_bound r k) He), Hb.
  - injection Hrun as <- <-. split; [apply rtc_refl|]. intros k. split; [apply Ha|]. apply Hb. intros ->. by destruct Hn.
Qed.

Lemma step_inv (w w' : W) q q' : step (w, q) (w', q') → inv (api_view w, q) → inv (api_view w', q').
Proof using Type.
  intros Hs [Ht Hk]. simpl in Ht. inversion Hs as [? ? ? ? Ho Hq|? ? i0 k0 ctl acts o i' Hin Hctl Hacts Hrun]; subst.
  - assert (He : evolves (ctls := ctls r) orderly (api_view w, q) (api_view w', q')) by (apply rtc_once; by split).
    split; [by apply Ho|]. intros k. by apply (inv_key_evolves _ _ _ He).
  - set (i := mkShared w (q ∖ {[(i0, k0)]}) acts : world).
    assert (Hother : ∀ x, x ≠ (i0, k0) → x ∉ q ∖ {[(i0, k0)]} → x ∉ q) by (intros x Hx; set_solver).
    assert (Hrun' : evolves (ctls := ctls r) orderly (sysview i) (sysview i') ∧
      ∀ k, inv_key k (cluster i', requeue o (i0, k0) (queue i'))).
    { destruct i0 as [|[|i0]]; simpl in Hctl; [injection Hctl as <-|injection Hctl as <-|done].
      - apply egress_run_inv; [done..|]. intros k Hne. destruct (Hk k) as [Ha Hb].
        split; [intros eg He Hl Hq; apply Ha|intros eg He Hl Hns Hq Hc; apply Hb]; try done.
        all: eapply Hother; [|done]. all: intros [=]; congruence.
      - apply crb_run_inv; [done..| |]; intros k; [|intros Hne]; destruct (Hk k) as [Ha Hb].
        + intros eg He Hl Hq. apply Ha; [done..|]. by eapply Hother.
        + intros eg He Hl Hns Hq Hc. apply Hb; [done..| |]; eapply Hother; try done. intros [=]; congruence. }
    destruct Hrun' as [He Hinv]. split; [by apply (tidy_evolves r _ _ He)|done].
Qed.

Lemma inv_steps s s' : rtc step s s' → inv (api_view s.1, s.2) → inv (api_view s'.1, s'.2).
Proof using Type. induction 1 as [|[w q] [w1 q1] [w2 q2] Hs _ IH]; [done|]. intros Hi. apply IH. by eapply step_inv. Qed.
End invariant.

(** ** Property *)
(** C4: the controllers keep up with every change: at any time after the manager
    has started, whoever changes the cluster in whatever order, also in the middle
    of a reconciliation, and whichever requests fail, an Egress that is not being
    deleted either waits in the queue or has the service account, the deployment,
    the service and the status that go with what it asks for now, with the image
    and the port the controller was started with; and its service account is bound
    unless the binding waits.  Others may do anything but give the names of an
    Egress to objects it does not control, or delete service accounts. *)
Theorem controllers_keep_up {W X} `{!ApiOps W, !ApiLaws W} cfg c cs (m : Manager reconciler X) (w0 w : W) q0 q k eg :
  running cfg (Some (c :: cs)) m → tidy (api_view w0) →
  (∀ k, is_Some (egresses (api_view w0) !! k) → egress_item k ∈ q0) →
  rtc (step (m_Controllers m)) (w0, q0) (w, q) →
  egresses (api_view w) !! k = Some eg → eg_deleted eg = false → egress_item k ∉ q →
  as_asked (mkEgressReconciler (Image c) (egressPort cfg)) k eg (api_view w) ∧
  (eg_Namespace eg ≠ "" → crb_item ∉ q → bound_there (eg_Namespace eg) (api_view w)).
Proof.
  intros (host & port & c' & cs' & _ & [= <- <-] & ->) Ht Hq0 Hs He Hl Hq. simpl in Hs.
  apply (inv_steps (mkEgressReconciler (Image c) (egressPort cfg))) in Hs as [_ Hinv].
  - destruct (Hinv k) as [Ha Hb]. split; [by apply Ha|]. intros Hns Hc. by apply (Hb eg).
  - split; [done|]. intros k' . destruct (egresses (api_view w0) !! k') eqn:E.
    + apply inv_key_waiting, Hq0. by rewrite E.
    + split; intros eg' He'; simpl in He'; congruence.
Qed.

(** ** Witness: a user changes an Egress while it is being reconciled *)
Definition own_container : Container := mkContainer "controller" "egress-gw:1" [] [] [] [] None ∅ [] None None "".
Definition sample_manager : Manager reconciler unit :=
  mkManager (options default_config "" 9443) ["ping"] ["ping"]
    [egress_controller (mkEgressReconciler "egress-gw:1" 5555); crb_controller] [KEgress] [].
Definition scaled (eg : Egress) : Egress :=
  mkEgress (eg_Namespace eg) (eg_Name eg) (eg_deleted eg)
    (mkEgressSpec (Destinations (Spec eg)) 3 (Strategy (Spec eg)) (Template (Spec eg)) (SessionAffinity (Spec eg)) (SessionAffinityConfig (Spec eg)))
    (Status eg).
Definition user_scales (k : ObjectKey) (s : server) : server :=
  with_cluster (set_egresses (alter scaled k (egresses (sv_cluster s))) (sv_cluster s)) s.

Lemma user_well_behaved k : well_behaved orderly (user_scales k).
Proof.
  intros s. split; [|done]. intros [Hn Ht]. split.
  - intros k' eg'. simpl. rewrite lookup_alter_Some. intros [(-> & eg & He & ->)|[_ He]]; by apply (Hn _ _ He).
  - intros k'. simpl. destruct (decide (k = k')) as [->|Hne]; [rewrite lookup_alter_eq, fmap_is_Some|rewrite lookup_alter_ne by done]; apply Ht.
Qed.

(** One run as a function of the state. *)
Definition exec {W} `{!ApiOps W, !ApiLaws W} (ctls : list (Controller reconciler)) (s : W * gset item) (x : item) (acts : list (list (W → W))) : W * gset item :=
  match ctls !! x.1 with
  | Some ctl => let (o, i) := run (c_Reconciler ctl) x.2 (mkShared s.1 (s.2 ∖ {[x]}) acts : shared W ctls) in (base i, requeue o x (queue i))
  | None => s
  end.
Lemma exec_step {W} `{!ApiOps W, !ApiLaws W} (ctls : list (Controller reconciler)) (s : W * gset item) (x : item) (acts : list (list (W → W))) : x ∈ s.2 → is_Some (ctls !! x.1) →
  Forall (Forall (well_behaved orderly)) acts → step ctls s (exec ctls s x acts).
Proof.
  intros Hx [ctl Hctl] Ha. unfold exec. rewrite Hctl. destruct (run _ _ _) as [o i] eqn:E. destruct s as [w q], x as [i0 k]. by eapply step_work.
Qed.

Definition nat_item : item := egress_item ("internet", "nat").
Definition sys0 : server * gset item := (sample_server, {[nat_item]}).
Definition sys1 := exec (m_Controllers sample_manager) sys0 nat_item [[]; [user_scales ("internet", "nat")]].
Definition sys2 := exec (m_Controllers sample_manager) sys1 nat_item [].
Definition sys3 := exec (m_Controllers sample_manager) sys2 nat_item [].
Definition sys4 := exec (m_Controllers sample_manager) sys3 crb_item [].

Lemma sys0_tidy : tidy (api_view sys0.1).
Proof. split; [exact sample_named|]. intros k _. split; intros x Hx; cbn in Hx; by rewrite lookup_empty in Hx. Qed.
Lemma sample_running : running default_config (Some [own_container]) sample_manager.
Proof. exists "", 9443, own_container, []. split; [by exists "9443"|done]. Qed.
Lemma sys_steps : rtc (step (m_Controllers sample_manager)) (sample_server, sys0.2) (sys4.1, sys4.2).
Proof.
  rewrite <-(surjective_pairing sys4). change (sample_server, sys0.2) with sys0.
  assert (Hs : ∀ s x acts, bool_decide (x ∈ s.2 ∧ is_Some (m_Controllers sample_manager !! x.1)) = true →
    Forall (Forall (well_behaved orderly)) acts → step (m_Controllers sample_manager) s (exec (m_Controllers sample_manager) s x acts)).
  { intros s x acts [? ?]%bool_decide_eq_true Ha. by apply exec_step. }
  apply (rtc_l _ _ sys1); [apply Hs; [by vm_compute|]; apply Forall_cons; split; [done|by apply Forall_singleton, Forall_singleton, user_well_behaved]|].
  apply (rtc_l _ _ sys2); [by apply Hs; [vm_compute|]|]. apply (rtc_l _ _ sys3); [by apply Hs; [vm_compute|]|].
  apply (rtc_l _ _ sys4); [by apply Hs; [vm_compute|]|apply rtc_refl].
Qed.

Lemma controllers_keep_up_witness :
  sys4.2 = ∅ ∧ (Replicas ∘ Spec <$> egresses (api_view sys4.1) !! ("internet", "nat")) = Some 3 ∧
  ∀ eg, egresses (api_view sys4.1) !! ("internet", "nat") = Some eg →
    as_asked (mkEgressReconciler "egress-gw:1" 5555) ("internet", "nat") eg (api_view sys4.1) ∧ bound_there "internet" (api_view sys4.1).
Proof.
  split; [by vm_compute|]. split; [by vm_compute|]. intros eg Heg.
  assert (Hk : eg_deleted eg = false ∧ eg_Namespace eg = "internet").
  { vm_compute in Heg. injection Heg as <-. done. }
  destruct Hk as [Hl Hns].
  destruct (controllers_keep_up default_config own_container [] sample_manager sample_server (sys4.1) (sys0.2) (sys4.2) ("internet", "nat") eg) as [Ha Hb].
  - exact sample_running.
  - exact sys0_tidy.
  - intros k [x Hx]. cbn in Hx. apply lookup_singleton_Some in Hx as [<- _]. by apply elem_of_singleton.
  - exact sys_steps.
  - exact Heg.
  - exact Hl.
  - by vm_compute.
  - split; [exact Ha|]. rewrite <-Hns. apply Hb; [by rewrite Hns|by vm_compute].
Defined.

(** Why the others may not do just anything: a deployment that was there before
    the Egress is taken over but stays without its owner, and what becomes of it
    after that is not seen. *)
Definition foreign : Deployment := accept_Deployment (mkDeployment "internet" "nat" false true ∅ [] None None (mkDeploymentStrategy "" "") empty_PodTemplateSpec 0).
Example foreign_is_not_watched :
  let s0 := (mkServer (set_deployments {[("internet", "nat") := foreign]} sample_cluster) [], {[nat_item]}) in
  let s1 := exec (m_Controllers sample_manager) (exec (m_Controllers sample_manager) s0 nat_item []) nat_item [] in
  let c := api_view s1.1 in let c' := set_deployments ∅ c in
  (elements s1.2, depl_Owners <$> deployments c !! ("internet", "nat"), elements (enqueued (m_Controllers sample_manager) c c')) =
    ([crb_item], Some [], []).
Proof. by vm_compute. Qed.
