(* ===== verification/ClientPods.v ===== *)
(** * The pods of the cluster and the egress pod's clients

    [PodWatcher.v] says what one reconciliation does, [EgressPaths.v] what holds of
    the pods the watcher has taken for its clients.  Here the API server is added:
    pods come, get their addresses, end and go; every change puts the pod's key
    into the work queue of the controller that [SetupPodWatcher] registers
    ([For(&corev1.Pod{})]); the watcher takes keys from it, and what fails is queued
    again. *)
From Stdlib Require Import Ascii.
From S2P Require Import Prelude Constants GoStrings GoNet Corev1 Watch Netlink Kernel Frames Rpdb Fou EgressNat Peers FouPeers PodWatcher AgentSetup EgressPod EgressPaths.

(** ** Keys *)
Definition slash : Ascii.ascii := "/"%char.
Definition no_slash (s : string) : Prop := slash ∉ String.list_ascii_of_string s.
Definition watcher_key (k : ObjectKey) : string := pod_key k.1 k.2.

Lemma list_ascii_inj a b : String.list_ascii_of_string a = String.list_ascii_of_string b → a = b.
Proof. intros H. by rewrite <-(String.string_of_list_ascii_of_string a), <-(String.string_of_list_ascii_of_string b), H. Qed.

(** A namespace has no slash, so the watcher's keys tell pods apart. *)
Lemma split_at_slash (l1 l2 m1 m2 : list Ascii.ascii) : slash ∉ l1 → slash ∉ l2 →
  l1 ++ slash :: m1 = l2 ++ slash :: m2 → l1 = l2 ∧ m1 = m2.
Proof.
  revert l2. induction l1 as [|c l1 IH]; intros [|c' l2] H1 H2 E; simpl in *; simplify_eq; [done|set_solver|set_solver|].
  destruct (IH l2) as [-> ->]; [set_solver|set_solver|done|done].
Qed.
Lemma watcher_key_inj k k' : no_slash k.1 → no_slash k'.1 → watcher_key k = watcher_key k' → k = k'.
Proof.
  intros H1 H2 E%(f_equal String.list_ascii_of_string). unfold watcher_key, pod_key in E. rewrite !list_ascii_app in E. simpl in E.
  apply split_at_slash in E as [E1%list_ascii_inj E2%list_ascii_inj]; [|done..]. destruct k, k'. simpl in *. by subst.
Qed.

(** ** The system

    The pods of the cluster, the queue, the keys whose last read failed, and the
    watcher with its past. *)
Section system.
Context {W : Type} `{!PeerOps W}.
Context (good : IP → Prop).
Implicit Types (m : gmap ObjectKey Pod) (q u : gset ObjectKey) (p : PW (W := W)) (h : past).

Definition pods_ok m : Prop := map_Forall (λ k pod, (pod_Namespace pod, pod_Name pod) = k ∧ no_slash k.1 ∧ Forall good (pod_addrs pod)) m.

(** The API server's answer to the Get of a reconciliation. *)
Definition answer m (k : ObjectKey) : Pod + error :=
  match m !! k with Some pod => inl pod | None => inr (ErrAPINotFound "") end.

Definition world : Type := gmap ObjectKey Pod * gset ObjectKey * gset ObjectKey * sys (W := W).

(** Pods change in any way, and their keys and any others are queued; the watcher
    takes a key from the queue and reads the pod as it is, or the read fails. *)
Inductive pods_step : relation world :=
| pods_change m m' q q' u s : pods_ok m' → q ∪ changed m m' ⊆ q' → set_Forall (λ k, no_slash k.1) q' →
    pods_step (m, q, u, s) (m', q', u, s)
| pods_work m q u k p h o p' : k ∈ q → Reconcile (answer m k) k.1 k.2 p = (o, p') →
    pods_step (m, q, u, (p, h))
      (m, if bool_decide (o = Ok tt) then q ∖ {[k]} else q, u ∖ {[k]}, (p', after (action_of p.1 (answer m k) k.1 k.2) p.1 o h))
| pods_unread m q u k e p h o p' : k ∈ q → apierrors_IsNotFound e = false → Reconcile (inr e) k.1 k.2 p = (o, p') →
    pods_step (m, q, u, (p, h)) (m, if bool_decide (o = Ok tt) then q ∖ {[k]} else q, {[k]} ∪ u, (p', h)).
End system.

(** ** The invariant *)
Section invariant.
#[local] Set Default Proof Using "Type*".
Context {W : Type} `{!PeerOps W, !PeerLaws W} (good : IP → Prop) (r : podWatcher).
Implicit Types (m : gmap ObjectKey Pod) (q u : gset ObjectKey) (p : PW (W := W)) (h : past) (s : sys (W := W)).
Notation pods_step := (pods_step (W := W) good).

(** What a key that does not wait, and was read, tells about the watcher. *)
Definition settled m (tracked : gmap string (list IP)) (k : ObjectKey) : Prop := match m !! k with
  | Some pod => shouldHandle r pod = true →
      tracked !! watcher_key k = if isTerminated pod then None else Some (pod_addrs pod)
  | None => tracked !! watcher_key k = None
  end.

Record pods_inv m q u s : Prop := {
  pi_pods : pods_ok good m;
  pi_queue : set_Forall (λ k : ObjectKey, no_slash k.1) q;
  pi_names : same_names r s.1.1;
  pi_settled : ∀ k : ObjectKey, k ∉ q → k ∉ u → no_slash k.1 → settled m (podAddrs s.1.1) k }.

Lemma pods_inv_initial m q w : pods_ok good m → set_Forall (λ k : ObjectKey, no_slash k.1) q → dom m ⊆ q → podAddrs r = ∅ →
  pods_inv m q ∅ (r, w, no_past).
Proof.
  intros Hm Hq Hd Hr. split; [done|done|done|]. intros k Hk _ _. unfold settled. simpl. rewrite Hr, lookup_empty.
  destruct (m !! k) eqn:E; [|done]. destruct Hk. by apply Hd, elem_of_dom.
Qed.

Lemma pods_inv_change m m' q q' u s : pods_ok good m' → q ∪ changed m m' ⊆ q' → set_Forall (λ k : ObjectKey, no_slash k.1) q' →
  pods_inv m q u s → pods_inv m' q' u s.
Proof.
  intros Hok Hq Hs [I1 I2 I3 I4]. split; [done|done|done|]. intros k Hk Hu Hns. assert (m' !! k = m !! k) as E.
  { destruct (decide (m !! k = m' !! k)) as [|Hne]; [done|]. destruct Hk. apply Hq, elem_of_union. right. by apply elem_of_changed. }
  unfold settled. rewrite E. apply I4; [|done..]. intros Hin. apply Hk, Hq, elem_of_union. by left.
Qed.

(** What one reconciliation is, given the answer. *)
Lemma answered m k p : pods_ok good m → same_names r p.1 →
  match action_of p.1 (answer m k) k.1 k.2 with
  | None => ∃ pod, m !! k = Some pod ∧ shouldHandle r pod = false
  | Some (Add pod) => m !! k = Some pod ∧ shouldHandle r pod = true ∧ isTerminated pod = false ∧ key_of pod = watcher_key k
  | Some (Del key) => key = watcher_key k ∧ (m !! k = None ∨ ∃ pod, m !! k = Some pod ∧ isTerminated pod = true)
  end.
Proof.
  intros Hm Hn. unfold answer. destruct (m !! k) as [pod|] eqn:E; simpl; [|by split; [|left]].
  rewrite (shouldHandle_names r) by done. destruct (Hm k pod E) as (<- & _). destruct (shouldHandle r pod) eqn:Es; simpl; [|by exists pod].
  destruct (isTerminated pod) eqn:Et; simpl; [|done]. split; [done|right; by exists pod].
Qed.

(** The watcher's state after a reconciliation: it changes at its key only, and what
    succeeded has settled it. *)
Lemma worked m k p o p' : pods_ok good m → same_names r p.1 → Reconcile (answer m k) k.1 k.2 p = (o, p') →
  same_names r p'.1 ∧ (∀ j, j ≠ watcher_key k → podAddrs p'.1 !! j = podAddrs p.1 !! j) ∧ (o = Ok tt → settled m (podAddrs p'.1) k).
Proof.
  intros Hm Hn Hrun. pose proof (answered m k p Hm Hn) as Ha. rewrite Reconcile_action in Hrun.
  destruct (action_of p.1 (answer m k) k.1 k.2) as [[pod|key]|]; simpl in Hrun.
  - destruct Ha as (Hk & Hsh & Ht & Hkey). destruct (wp_run _ _ _ _ _ Hrun (addPod_outcome pod p)) as (_ & Herr & Hok).
    destruct (decide (o = Ok tt)) as [->|Hne]; [|by rewrite Herr]. destruct (Hok eq_refl) as [[? ?] ->]. rewrite Hkey.
    split; [destruct Hn; split; congruence|]. split; [intros j Hj; by apply lookup_insert_ne|].
    intros _. unfold settled. by rewrite Hk, lookup_insert_eq, Ht.
  - destruct Ha as [-> Hk]. destruct (wp_run _ _ _ _ _ Hrun (delPeer_outcome (watcher_key k) p)) as (_ & [? ?] & Htr).
    split; [destruct Hn; split; congruence|]. split; [intros j Hj; rewrite Htr; destruct o; [by apply lookup_delete_ne|done..]|].
    intros ->. unfold settled. rewrite Htr, lookup_delete_eq. by destruct Hk as [->|(pod & -> & ->)].
  - injection Hrun as <- <-. split; [done|]. split; [done|]. intros _. destruct Ha as (pod & Hk & Hsh). unfold settled. by rewrite Hk, Hsh.
Qed.

Lemma pods_inv_work m q u k p h o p' h' : k ∈ q → Reconcile (answer m k) k.1 k.2 p = (o, p') → pods_inv m q u (p, h) →
  pods_inv m (if bool_decide (o = Ok tt) then q ∖ {[k]} else q) (u ∖ {[k]}) (p', h').
Proof.
  intros Hkq Hrun [I1 I2 I3 I4]. destruct (worked m k p o p' I1 I3 Hrun) as (Hn & Hother & Hset). pose proof (I2 k Hkq) as Hns. simpl in Hns.
  split; [done| |done|].
  - intros j Hj. apply I2. case_bool_decide; set_solver.
  - intros j Hj Hu Hjs. simpl. destruct (decide (j = k)) as [->|Hne]; [apply Hset; case_bool_decide; [done|by destruct Hj]|].
    assert (Hs : settled m (podAddrs p.1) j) by (apply I4; [case_bool_decide; set_solver|set_solver|done]).
    unfold settled in *. rewrite Hother; [done|]. intros E. by apply Hne, watcher_key_inj.
Qed.

Lemma pods_step_inv (x y : world (W := W)) : pods_step x y → pods_inv x.1.1.1 x.1.1.2 x.1.2 x.2 →
  pods_inv y.1.1.1 y.1.1.2 y.1.2 y.2 ∧ rtc (step good) x.2 y.2.
Proof.
  intros Hs HI. destruct Hs as [m m' q q' u s Hok Hq Hns|m q u k p h o p' Hk Hrun|m q u k e p h o p' Hk He Hrun]; simpl in *.
  - split; [by eapply pods_inv_change|apply rtc_refl].
  - split; [by eapply pods_inv_work|]. apply rtc_once. apply step_reconcile; [|done]. intros pod Ha.
    pose proof (answered m k p (pi_pods _ _ _ _ HI) (pi_names _ _ _ _ HI)) as H. rewrite Ha in H. destruct H as [H _].
    by apply (pi_pods _ _ _ _ HI k pod).
  - unfold Reconcile in Hrun. rewrite He in Hrun. injection Hrun as <- <-. rewrite bool_decide_eq_true_2 by done.
    split; [|apply rtc_refl]. destruct HI as [I1 I2 I3 I4]. split; [done|intros j Hj; apply I2; set_solver|done|].
    intros j Hj Hu Hjs. apply I4; [set_solver|set_solver|done].
Qed.

Lemma pods_inv_steps (x y : world (W := W)) : rtc pods_step x y → pods_inv x.1.1.1 x.1.1.2 x.1.2 x.2 →
  pods_inv y.1.1.1 y.1.1.2 y.1.2 y.2 ∧ rtc (step good) x.2 y.2.
Proof.
  induction 1 as [x|x y z Hs _ IH]; intros HI; [by split; [|apply rtc_refl]|].
  destruct (pods_step_inv x y Hs HI) as [HI' Hst]. destruct (IH HI') as [? Hr]. split; [done|]. by etrans.
Qed.
End invariant.


(** ** Witness: pods come, get other addresses and go, and calls and reads fail *)
Section witness.
#[local] Instance clients_ops : PeerOps host := fou_peers gw_tunnel gw_egress.

(** Steps as functions of the state. *)
Inductive move := Put (pod : Pod) | Remove (k : ObjectKey) | Work (k : ObjectKey) | Unread (k : ObjectKey).
Definition pod_name (pod : Pod) : ObjectKey := (pod_Namespace pod, pod_Name pod).
Definition make (v : move) (x : world (W := host)) : world (W := host) :=
  let '(m, q, u, (p, h)) := x in
  let change m' := (m', q ∪ changed m m', u, (p, h)) in
  let leave o k : gset ObjectKey := if bool_decide (o = Ok tt) then q ∖ {[k]} else q in
  match v with
  | Put pod => change (<[pod_name pod := pod]> m)
  | Remove k => change (delete k m)
  | Work k => let (o, p') := Reconcile (answer m k) k.1 k.2 p in
      (m, leave o k, u ∖ {[k]}, (p', after (action_of p.1 (answer m k) k.1 k.2) p.1 o h))
  | Unread k => let (o, p') := Reconcile (inr (ErrExternal "timeout")) k.1 k.2 p in (m, leave o k, {[k]} ∪ u, (p', h))
  end.

(** What the moves need, decided by evaluation. *)
Definition in_default (k : ObjectKey) : bool := String.eqb k.1 "default".
Definition can (v : move) (x : world (W := host)) : bool :=
  match v with
  | Put pod => in_default (pod_name pod) && forallb (λ a, bool_decide (To4 (ParseIP a) ≠ [])) (PodIPs pod)
  | Remove _ => true
  | Work k | Unread k => bool_decide (k ∈ x.1.1.2)
  end && forallb in_default (elements (make v x).1.1.2).

Lemma default_no_slash : no_slash "default".
Proof. apply (bool_decide_unpack _). by vm_compute. Qed.
Lemma in_default_no_slash (k : ObjectKey) : in_default k = true → no_slash k.1.
Proof. intros ->%String.eqb_eq. exact default_no_slash. Qed.
Lemma good_addresses pod : forallb (λ a, bool_decide (To4 (ParseIP a) ≠ [])) (PodIPs pod) = true → Forall good4 (pod_addrs pod).
Proof.
  rewrite forallb_forall. intros H. apply Forall_fmap, Forall_forall. intros a Ha%list_elem_of_In. simpl.
  apply good4_pod. by apply H, bool_decide_eq_true in Ha.
Qed.

Lemma make_step v x : pods_ok good4 x.1.1.1 → can v x = true → pods_step good4 x (make v x) ∧ pods_ok good4 (make v x).1.1.1.
Proof.
  destruct x as [[[m q] u] [p h]]. intros Hok [Hv Hq]%andb_true_iff. simpl in Hok.
  assert (Hq' : set_Forall (λ k : ObjectKey, no_slash k.1) (make v (m, q, u, (p, h))).1.1.2).
  { intros k Hk. rewrite forallb_forall in Hq. by apply in_default_no_slash, Hq, list_elem_of_In, elem_of_elements. }
  clear Hq. destruct v as [pod|k|k|k]; simpl in *.
  - apply andb_true_iff in Hv as [Hd Hg]. assert (Hok' : pods_ok good4 (<[pod_name pod := pod]> m)).
    { apply map_Forall_insert_2; [|done]. split; [done|]. split; [by apply in_default_no_slash|by apply good_addresses]. }
    split; [by apply pods_change|done].
  - assert (Hok' : pods_ok good4 (delete k m)) by by apply map_Forall_delete. split; [by apply pods_change|done].
  - apply bool_decide_eq_true in Hv. destruct (Reconcile _ _ _ _) as [o p'] eqn:E. split; [by apply pods_work|done].
  - apply bool_decide_eq_true in Hv. split; [by apply (pods_unread _ m q u k (ErrExternal "timeout") p h (Ok tt) p)|done].
Qed.

Fixpoint moves (l : list move) (x : world (W := host)) : world (W := host) :=
  match l with [] => x | v :: l => moves l (make v x) end.
Fixpoint can_all (l : list move) (x : world (W := host)) : bool :=
  match l with [] => true | v :: l => can v x && can_all l (make v x) end.
Lemma moves_steps l x : pods_ok good4 x.1.1.1 → can_all l x = true → rtc (pods_step good4) x (moves l x).
Proof.
  revert x. induction l as [|v l IH]; intros x Hok; [intros _; apply rtc_refl|]. intros [Hv Hl]%andb_true_iff.
  destruct (make_step v x Hok Hv) as [Hs Hok']. eapply rtc_l; [exact Hs|]. by apply IH.
Qed.

Definition key_a : ObjectKey := ("default", "a").
Definition key_b : ObjectKey := ("default", "b").
Definition st0 : world (W := host) := (∅, ∅, ∅, (SetupPodWatcher "internet" "nat", gw_start, no_past)).
(** Pod a is seen before it has an address; the first attempt to add it fails; the
    first read of b does too; a goes, comes back under its name, and b gets another
    address. *)
Definition trace : list move :=
  [Put pod_pending; Work key_a; Put pod_a; Work key_a; Work key_a; Put pod_b; Unread key_b; Remove key_a; Work key_a;
   Put pod_b'; Work key_b; Put pod_a; Work key_a].
Definition st_end : world (W := host) := moves trace st0.

Lemma trace_steps : rtc (pods_step good4) st0 st_end.
Proof. apply moves_steps; [by apply map_Forall_empty|by vm_compute]. Qed.


(** A read of the API server that fails for another reason than that the pod is
    gone is logged and ends in nil: the key leaves the queue, and the pod is not
    looked at again before it changes. *)
Example lost_event : let p := (SetupPodWatcher "internet" "nat", gw_start) in
  ∀ e, apierrors_IsNotFound e = false → Reconcile (inr e) "default" "a" p = (Ok tt, p).
Proof. intros p e He. unfold Reconcile. by rewrite He. Qed.
End witness.
