(* ===== verification/AgentMain.v ===== *)
(** * The agent's program ([cmd/egress-gw-agent])

    Its flags and its start: it takes over the UNIX socket the CNI plugin calls
    and runs the gRPC server of [runners/agent.go] under a manager.  The socket and
    the gRPC server are calls of libraries, the class [AgentIO]. *)
From Stdlib Require Import Ascii.
From S2P Require Import Prelude Constants GoStrings Corev1 Manager.

(** ** Flags *)
Record config := mkConfig {
  metricsAddr : string; healthAddr : string; protocolId : Z; socketPath : string; egressPort : Z }.
Definition default_config : config := mkConfig ":9384" ":9385" 30 DefaultSocketPath 5555.

Definition gracefulTimeout : Z := 20 * 1000000000.

(** ** The server *)
Inductive interceptor := CtxTags | Prometheus | Zap.

(** What [grpc.NewServer] and the registrations on it put together. *)
Record GrpcServer := mkGrpcServer { gs_Interceptors : list interceptor; gs_Services : list string }.

Class AgentIO (W L : Type) := {
  os_Remove : string → M W unit;
  net_Listen : string → string → M W L;           (* network, address *)
  grpc_Serve : GrpcServer → L → M W unit }.       (* until the context is done *)
#[global] Hint Mode AgentIO ! - : typeclass_instances.

(** [egressGwAgent]; its API clients are those of the manager. *)
Record egressGwAgent (L : Type) := mkEgressGwAgent { listener : L; ag_egressPort : Z }.
Arguments mkEgressGwAgent {_} _ _.
Arguments listener {_} _.
Arguments ag_egressPort {_} _.

Section program.
Context {W L : Type} `{!AgentIO W L, !MgrOps W Empty_set (egressGwAgent L)}.

Definition NewEgressGwAgent (l : L) (egressPort : Z) : egressGwAgent L := mkEgressGwAgent l egressPort.

Definition Start (e : egressGwAgent L) : M W unit :=
  grpc_Serve (mkGrpcServer [CtxTags; Prometheus; Zap] ["pkg.cnirpc.CNI"; "grpc.reflection.v1alpha.ServerReflection"]) (listener e).

Definition options (cfg : config) : Options :=
  mkOptions false "" "" (metricsAddr cfg) gracefulTimeout (healthAddr cfg) None.

Definition subMain (cfg : config) : M W unit :=
  _ ← GetConfigOrDie;
  _ ← NewManager (options cfg);
  _ ← AddHealthzCheck "ping";
  _ ← AddReadyzCheck "ping";
  _ ← attempt (os_Remove (socketPath cfg));
  l ← net_Listen "unix" (socketPath cfg);
  let server := NewEgressGwAgent l (egressPort cfg) in
  _ ← mgr_Add server;
  mgr_Start.

(** What the start relies on: these calls do not touch the manager, and a
    listener has the address it was asked for. *)
Class AgentIOLaws `{!MgrLaws W Empty_set (egressGwAgent L)} := {
  address : L → string * string;
  law_os_Remove p w : wp (os_Remove p) (λ o w', no_panic o ∧ boot_view w' = boot_view w) w;
  law_net_Listen n a w : wp (net_Listen n a) (λ o w', boot_view w' = boot_view w ∧
    match o with Ok l => address l = (n, a) | Err _ => True | Panicked _ => False end) w }.

(** The manager that runs: the one runnable serves the socket with the port of the
    flag. *)
Definition running `{!MgrLaws W Empty_set (egressGwAgent L), !AgentIOLaws} (cfg : config) (m : Manager Empty_set (egressGwAgent L)) : Prop :=
  ∃ l, address l = ("unix", socketPath cfg) ∧
    m = mkManager (options cfg) ["ping"] ["ping"] [] [] [NewEgressGwAgent l (egressPort cfg)].

(** The agent runs its server on the socket of its flag or does not run at all; a
    socket file that cannot be removed does not stop it by itself. *)
Theorem agent_starts `{!MgrLaws W Empty_set (egressGwAgent L), !AgentIOLaws} cfg (w : W) :
  wp (subMain cfg) (λ o w', no_panic o ∧
    ((∃ m, started (boot_view w') = Some m ∧ running cfg m) ∨
     started (boot_view w') = started (boot_view w) ∧ o ≠ Ok tt)) w.
Proof.
  set (s0 := started (boot_view w)).
  set (Q := λ (o : outcome unit) (w' : W), no_panic o ∧
    ((∃ m, started (boot_view w') = Some m ∧ running cfg m) ∨ started (boot_view w') = s0 ∧ o ≠ Ok tt)).
  assert (Hstop : ∀ e w', started (boot_view w') = s0 → Q (Err e) w') by (intros e w' Hs; split; [done|by right]).
  unfold subMain. apply wp_bind. eapply wp_mono; [apply law_GetConfigOrDie|].
  intros [[]|e|x] w1 [? H1]; simpl; [|apply Hstop; by rewrite H1|done].
  apply wp_bind. eapply wp_mono; [apply law_NewManager|].
  intros [[]|e|x] w2 H2; simpl in *; [|apply Hstop; by rewrite H2, H1|done]. rewrite H1 in H2.
  eapply wp_register_seq; [apply law_AddHealthzCheck|exact H2| |exact Hstop]. intros w3 H3.
  eapply wp_register_seq; [apply law_AddReadyzCheck|exact H3| |exact Hstop]. intros w4 H4.
  apply wp_bind, wp_attempt. eapply wp_mono; [apply law_os_Remove|]. intros o w5 [Hno H5]. rewrite H4 in H5.
  assert (Hrest : wp (l ← net_Listen "unix" (socketPath cfg); _ ← mgr_Add (NewEgressGwAgent l (egressPort cfg)); mgr_Start) Q w5).
  { apply wp_bind. eapply wp_mono; [apply law_net_Listen|]. intros ol w6 [H6 Hl]. rewrite H5 in H6.
    destruct ol as [l|e|x]; simpl; [|apply Hstop; by rewrite H6|done].
    eapply wp_register_seq; [apply law_mgr_Add|exact H6| |exact Hstop]. intros w7 H7.
    eapply wp_mono; [apply law_mgr_Start|]. intros o' w8 [Hno' H8]. rewrite H7 in H8. split; [done|left].
    eexists. split; [by rewrite H8|]. by exists l. }
  by destruct o.
Qed.
End program.

(** An instance: a listener is its address. *)
#[global] Instance machine_io : AgentIO (machine Empty_set (egressGwAgent (string * string))) (string * string) := {
  os_Remove p := machine_call id (Ok tt);
  net_Listen n a := machine_call id (Ok (n, a));
  grpc_Serve s l := machine_call id (Ok tt) }.
#[global] Instance machine_io_laws : AgentIOLaws (W := machine Empty_set (egressGwAgent (string * string))).
Proof.
  refine {| address := id |}; intros; destruct w as [b fs]; unfold wp; simpl; unfold machine_call; by destruct fs as [|[] fs].
Defined.

(** The removal of the old socket fails; the agent starts all the same. *)
Example agent_starts_ex :
  let r := subMain default_config (mkMachine (mkBoot None None ∅) [false; false; false; false; true]) in
  r.1 = Ok tt ∧ m_Runnables <$> started (boot_view r.2) = Some [mkEgressGwAgent ("unix", "/run/egress-gw.sock") 5555].
Proof. by vm_compute. Qed.
