(* ===== verification/Files.v ===== *)
(** * The file operations of Go's [os] package

    The part of [os] and [io] the installer and the certificate generator use, as
    an interface with its documented effect on a view of the file system, and
    [path/filepath]'s Clean and Join, executable.  The files of the view are known by
    their clean paths; a call on any path is about the file of its clean form (there
    are no symbolic links on the way to what the programs write).  An open file is
    named by its path: the programs neither move a file they write to nor share it. *)
From Stdlib Require Import Ascii.
From S2P Require Import Prelude GoStrings.

Inductive node := File (data : string) (mode : Z) | Directory.
Notation FS := (gmap string node).

#[global] Instance node_eq_dec : EqDecision node.
Proof. solve_decision. Defined.

Definition no_slash (n : string) : Prop := "/"%char ∉ String.list_ascii_of_string n.
#[global] Instance no_slash_dec n : Decision (no_slash n).
Proof. unfold no_slash. apply _. Defined.

(** [filepath.Clean] (Unix), by the components between the slashes; [st] is what
    is kept so far, the last one first. *)
Definition clean_step (rooted : bool) (st : list string) (c : string) : list string :=
  if String.eqb c "" || String.eqb c "." then st
  else if String.eqb c ".." then
    match st with
    | [] => if rooted then [] else [".."]
    | x :: st' => if String.eqb x ".." then ".." :: st else st'
    end
  else c :: st.
Definition render (rooted : bool) (st : list string) : string :=
  match st with
  | [] => if rooted then "/" else "."
  | _ => (if rooted then "/" else "") +:+ Join (rev st) "/"%char
  end.
Definition Clean (p : string) : string :=
  let rooted := HasPrefix p "/" in
  render rooted (foldl (clean_step rooted) [] (Split p "/"%char)).

(** [filepath.Join]: the elements that are not empty, joined and cleaned. *)
Definition filepath_Join (elem : list string) : string :=
  match filter (λ e, e ≠ "") elem with
  | [] => ""
  | l => Clean (Join l "/"%char)
  end.

(** The file of a name in a directory. *)
Definition path_join (dir name : string) : string := Clean (filepath_Join [dir; name]).

(** Files of different plain names in one directory have different paths. *)
Definition plain_name (n : string) : Prop := no_slash n ∧ n ≠ "" ∧ n ≠ "." ∧ n ≠ "..".
#[global] Instance plain_name_dec n : Decision (plain_name n).
Proof. unfold plain_name. apply _. Defined.

Lemma Join_snoc l sep : ∃ pre, ∀ a, Join (l ++ [a]) sep = pre +:+ a.
Proof.
  induction l as [|x l [pre IH]]; [by exists ""|]. exists (x +:+ String sep pre). intros a.
  assert (Join ((x :: l) ++ [a]) sep = x +:+ String sep (Join (l ++ [a]) sep)) as -> by by destruct l.
  rewrite IH, <-str_app_assoc. by rewrite str_app_cons.
Qed.

Lemma Split_snoc d sep a : sep ∉ String.list_ascii_of_string a → Split (d +:+ String sep a) sep = Split d sep ++ [a].
Proof.
  intros Ha. induction d as [|c d IH].
  - change ("" +:+ String sep a) with (String sep a). cbn [Split]. rewrite bool_decide_eq_true_2 by done. by rewrite Split_no_sep.
  - rewrite str_app_cons. cbn [Split]. rewrite IH. case_bool_decide; [done|]. by destruct (Split_cons d sep) as (x & l & ->).
Qed.

Lemma filepath_Join_pre d : ∃ pre, ∀ a, plain_name a → filepath_Join [d; a] = pre +:+ a.
Proof.
  assert (Hstep : ∀ r st a, plain_name a → clean_step r st a = a :: st).
  { intros r st a (_ & H1 & H2 & H3). unfold clean_step. by rewrite !(proj2 (String.eqb_neq _ _)). }
  assert (Hr : ∀ r st, ∃ pre, ∀ a, render r (a :: st) = pre +:+ a).
  { intros r st. destruct (Join_snoc (rev st) "/"%char) as [pre Hpre].
    exists ((if r then "/" else "") +:+ pre). intros a. unfold render. cbn [rev]. rewrite Hpre. apply str_app_assoc. }
  destruct (decide (d = "")) as [->|Hd].
  - exists "". intros a Ha. unfold filepath_Join. pose proof Ha as (Hs & H1 & _).
    rewrite filter_cons_False, filter_cons_True by (done || naive_solver). cbn [filter list_filter Join]. unfold Clean.
    rewrite Split_no_sep by exact Hs. cbn [foldl]. rewrite Hstep by done.
    destruct a as [|c a]; [done|]. unfold no_slash in Hs. simpl in Hs. rewrite not_elem_of_cons in Hs.
    simpl. rewrite bool_decide_eq_false_2 by naive_solver. done.
  - destruct (Hr (HasPrefix d "/") (foldl (clean_step (HasPrefix d "/")) [] (Split d "/"%char))) as [pre Hpre].
    exists pre. intros a Ha. unfold filepath_Join. pose proof Ha as (Hs & H1 & _).
    rewrite !filter_cons_True by done. cbn [filter list_filter Join]. unfold Clean.
    rewrite Split_snoc, foldl_app by exact Hs. cbn [foldl]. rewrite Hstep by done.
    assert (HasPrefix (d +:+ String "/" a) "/" = HasPrefix d "/") as ->; [|apply Hpre].
    by destruct d.
Qed.

Lemma filepath_Join_inj d a b : plain_name a → plain_name b → filepath_Join [d; a] = filepath_Join [d; b] → a = b.
Proof.
  intros Ha Hb. destruct (filepath_Join_pre d) as [pre H]. rewrite !H by done. by intros ?%(inj (String.append pre)).
Qed.

(** *** Clean paths stay as they are *)

(** What [clean_step] keeps: plain names over leading [..]s, if the path is not
    rooted. *)
Inductive normal (rooted : bool) : list string → Prop :=
| normal_nil : normal rooted []
| normal_plain c st : plain_name c → normal rooted st → normal rooted (c :: st)
| normal_up st : rooted = false → Forall (.= "..") st → normal rooted (".." :: st).

Lemma clean_step_normal r st c : no_slash c → normal r st → normal r (clean_step r st c).
Proof.
  intros Hc Hn. unfold clean_step. destruct (String.eqb_spec c ""); [done|]. destruct (String.eqb_spec c "."); [done|]. simpl.
  destruct (String.eqb_spec c ".."); [|by apply normal_plain].
  destruct Hn as [|x st Hx Hn|st Hr Hup]; [destruct r; [apply normal_nil|by apply normal_up]| |].
  - destruct Hx as (_ & _ & _ & Hx). by rewrite (proj2 (String.eqb_neq _ _) Hx).
  - simpl. apply normal_up; [done|by constructor].
Qed.
Lemma clean_steps_normal r l st : Forall no_slash l → normal r st → normal r (foldl (clean_step r) st l).
Proof. intros Hl. revert st. induction Hl; intros st Hn; [done|]. simpl. by apply IHHl, clean_step_normal. Qed.

Lemma clean_steps_same r st : normal r st → foldl (clean_step r) [] (rev st) = st.
Proof.
  induction 1 as [|c st Hc _ IH|st -> Hup]; [done|..]; simpl; rewrite foldl_app; simpl.
  - rewrite IH. destruct Hc as (_ & H1 & H2 & H3). unfold clean_step. by rewrite !(proj2 (String.eqb_neq _ _)).
  - assert (foldl (clean_step false) [] (rev st) = st) as ->; [|by destruct Hup as [|x st -> _]].
    induction Hup as [|x st -> Hup IH]; [done|]. simpl. rewrite foldl_app, IH. simpl. by destruct Hup as [|x st -> _].
Qed.

Lemma normal_no_slash r st : normal r st → Forall no_slash st.
Proof.
  assert (no_slash "..") as Hup by by apply (bool_decide_unpack _).
  induction 1 as [|c st Hc _ IH|st _ H]; [done|constructor; [apply Hc|done]|]. constructor; [done|].
  eapply Forall_impl; [exact H|]. by intros x ->.
Qed.
Lemma Split_no_slash p : Forall no_slash (Split p "/"%char).
Proof.
  assert (no_slash "") as He by by apply (bool_decide_unpack _).
  induction p as [|c p IH]; simpl; [by constructor|]. case_bool_decide as Hc; [by constructor|].
  destruct (Split_cons p "/"%char) as (x & l & E). rewrite E in *. apply Forall_cons in IH as [Hx Hl]. constructor; [|done].
  unfold no_slash in *. simpl. rewrite not_elem_of_cons. by split.
Qed.

Lemma normal_not_empty r st : normal r st → "" ∉ st.
Proof.
  induction 1 as [|c st Hc _ IH|st _ Hup]; [apply not_elem_of_nil|..]; rewrite not_elem_of_cons; split; [|done|done|].
  - intros <-. by destruct Hc as (_ & ? & _).
  - intros Hin. rewrite Forall_forall in Hup. by specialize (Hup _ Hin).
Qed.

(** The components of a rendered path. *)
Lemma render_split r st : normal r st → st ≠ [] →
  HasPrefix (render r st) "/" = r ∧ Split (render r st) "/"%char = (if r then [""] else []) ++ rev st.
Proof.
  intros Hn Hne. assert (Hsp : Split (Join (rev st) "/"%char) "/"%char = rev st).
  { apply Split_Join; [intros E%(f_equal (@rev string)); by rewrite rev_involutive in E|].
    apply Forall_rev. exact (normal_no_slash r st Hn). }
  assert (Hhd : ∀ l, rev st ≠ "" :: l).
  { intros l E. apply (normal_not_empty r st Hn), list_elem_of_In, in_rev, list_elem_of_In. rewrite E. left. }
  destruct st as [|c st]; [done|]. unfold render. destruct r.
  - change ("/" +:+ ?s) with (String "/" s). split; [done|]. cbn [Split]. by rewrite bool_decide_eq_true_2, Hsp.
  - change ("" +:+ ?s) with s. split; [|exact Hsp]. rewrite <-Hsp in Hhd. destruct (Join _ _) as [|d s].
    + by destruct (Hhd []).
    + simpl in *. case_bool_decide; [by destruct (Hhd (Split s "/"%char))|]. by rewrite bool_decide_eq_false_2 by congruence.
Qed.

Lemma Clean_render r st : normal r st → Clean (render r st) = render r st.
Proof.
  intros Hn. destruct (decide (st = [])) as [->|Hne]; [by destruct r|].
  destruct (render_split r st Hn Hne) as [Hr Hs]. unfold Clean. rewrite Hr, Hs, foldl_app.
  assert (foldl (clean_step r) [] (if r then [""] else []) = []) as -> by by destruct r.
  by rewrite clean_steps_same.
Qed.

Lemma Clean_Clean p : Clean (Clean p) = Clean p.
Proof. apply Clean_render, clean_steps_normal, normal_nil. apply Split_no_slash. Qed.

Lemma path_join_clean dir name : Clean (path_join dir name) = path_join dir name.
Proof. apply Clean_Clean. Qed.
Lemma filepath_Join_clean dir name : name ≠ "" → Clean (filepath_Join [dir; name]) = filepath_Join [dir; name].
Proof.
  intros Hn. unfold filepath_Join. rewrite filter_cons. case_decide; rewrite filter_cons_True by done; apply Clean_Clean.
Qed.

Lemma path_join_inj d a b : plain_name a → plain_name b → path_join d a = path_join d b → a = b.
Proof.
  intros Ha Hb. unfold path_join. rewrite !filepath_Join_clean by (apply Ha || apply Hb). by apply filepath_Join_inj.
Qed.

(** In a clean directory it is the two names with a slash between them. *)
Lemma Join_app_one l a sep : l ≠ [] → Join (l ++ [a]) sep = Join l sep +:+ String sep a.
Proof.
  intros Hl. induction l as [|x [|y l] IH]; [done|done|]. change (x +:+ String sep (Join ((y :: l) ++ [a]) sep) = (x +:+ String sep (Join (y :: l) sep)) +:+ String sep a).
  rewrite IH by done. by rewrite <-str_app_assoc, str_app_cons.
Qed.

Lemma path_join_dir d n : Clean d = d → d ≠ "/" → d ≠ "." → plain_name n → path_join d n = d +:+ "/" +:+ n.
Proof.
  intros Hd Hs Hdot Hn. unfold path_join. rewrite filepath_Join_clean by apply Hn. pose proof Hn as (Hno & Hne & Hn1 & Hn2).
  assert (d ≠ "") as H0 by (intros ->; done). unfold filepath_Join.
  rewrite !filter_cons_True by done. cbn [filter list_filter Join]. unfold Clean. rewrite Split_snoc, foldl_app by done.
  assert (HasPrefix (d +:+ String "/" n) "/" = HasPrefix d "/") as -> by by destruct d.
  unfold Clean in Hd. set (r := HasPrefix d "/") in *. set (st := foldl (clean_step r) [] _) in *. cbn [foldl].
  unfold clean_step at 1. rewrite !(proj2 (String.eqb_neq _ _)) by done. cbn [orb].
  assert (st ≠ []) as Hst by (intros Hst; rewrite Hst in Hd; by destruct r).
  transitivity (render r st +:+ "/" +:+ n); [|by rewrite Hd]. unfold render. cbn [rev].
  rewrite Join_app_one by (intros E%(f_equal (@rev string)); by rewrite rev_involutive in E). destruct st; [done|]. by rewrite <-str_app_assoc.
Qed.

#[global] Arguments Clean : simpl never.
#[global] Arguments filepath_Join : simpl never.
#[global] Arguments path_join : simpl never.

(** An entry of a directory: its name, and whether it is a directory. *)
Record DirEntry := mkDirEntry { de_Name : string; de_IsDir : bool }.
Definition entry_of (fs : FS) (dir : string) (e : DirEntry) : Prop :=
  plain_name (de_Name e) ∧ ∃ nd, fs !! path_join dir (de_Name e) = Some nd ∧
    de_IsDir e = bool_decide (nd = Directory).

Class FsOps (W : Type) := {
  os_ReadFile : string → M W string;
  os_Open : string → M W unit;
  os_MkdirAll : string → M W unit;
  os_ReadDir : string → M W (list DirEntry);
  os_Remove : string → M W unit;
  os_Stat : string → M W unit;                       (* whether there is such a file *)
  os_IsNotExist : error → bool;
  os_OpenFile : string → Z → Z → M W unit;           (* path, flags, permissions *)
  os_Create : string → M W unit;
  os_CreateTemp : string → string → M W string;      (* directory, pattern; the path *)
  f_Chmod : string → Z → M W unit;
  f_Write : string → string → M W unit;
  f_Sync : string → M W unit;
  io_Copy : string → string → M W unit;              (* to, from *)
  os_Rename : string → string → M W unit }.

(** Only directories appeared. *)
Definition only_dirs (fs fs' : FS) : Prop := ∀ k, fs' !! k = fs !! k ∨ fs !! k = None ∧ fs' !! k = Some Directory.
(** Only the content of an existing file [p], a clean path, changed. *)
Definition only_data (p : string) (fs fs' : FS) : Prop :=
  fs' = fs ∨ ∃ d d' m, fs !! p = Some (File d m) ∧ fs' = <[p := File d' m]> fs.

(** A call: what holds when it returned, what when it failed. *)
Definition fs_call {W A} (view : W → FS) (P : A → FS → FS → Prop) (E : FS → FS → Prop) (m : M W A) : Prop := ∀ w,
  wp m (λ o w', match o with
    | Ok a => P a (view w) (view w')
    | Err _ => E (view w) (view w')
    | Panicked _ => False
    end) w.

Class FsLaws (W : Type) `{!FsOps W} := {
  fs_view : W → FS;
  law_ReadFile p : fs_call fs_view (λ d fs fs', fs' = fs ∧ ∃ m, fs !! Clean p = Some (File d m)) (λ fs fs', fs' = fs) (os_ReadFile p);
  law_Open p : fs_call fs_view (λ _ fs fs', fs' = fs ∧ is_Some (fs !! Clean p)) (λ fs fs', fs' = fs) (os_Open p);
  law_MkdirAll p : fs_call fs_view (λ _, only_dirs) only_dirs (os_MkdirAll p);
  law_ReadDir p : fs_call fs_view (λ l fs fs', fs' = fs ∧ ∀ e, e ∈ l ↔ entry_of fs p e) (λ fs fs', fs' = fs) (os_ReadDir p);
  law_Remove p : fs_call fs_view (λ _ fs fs', fs' = delete (Clean p) fs) (λ fs fs', fs' = fs) (os_Remove p);
  law_Stat p w : wp (os_Stat p) (λ o w', fs_view w' = fs_view w ∧ match o with
    | Ok _ => is_Some (fs_view w !! Clean p)
    | Err e => os_IsNotExist e = true → fs_view w !! Clean p = None
    | Panicked _ => False
    end) w;
  law_OpenFile p perm : fs_call fs_view    (* O_WRONLY|O_CREATE|O_TRUNC; the umask may take bits from a new file *)
    (λ _ fs fs', ∃ m, fs' = <[Clean p := File "" m]> fs ∧
       match fs !! Clean p with Some nd => ∃ d, nd = File d m | None => Z.land m perm = m end)
    (λ fs fs', fs' = fs) (os_OpenFile p 577 perm);
  law_Create p : fs_call fs_view (λ _ fs fs', ∃ m, fs' = <[Clean p := File "" m]> fs) (λ fs fs', fs' = fs) (os_Create p);
  law_CreateTemp dir pat : fs_call fs_view
    (λ p fs fs', fs !! Clean p = None ∧ fs' = <[Clean p := File "" 384]> fs ∧ ∃ n, no_slash n ∧ Clean p = path_join dir (pat +:+ n))
    (λ fs fs', fs' = fs) (os_CreateTemp dir pat);
  law_Chmod p m : fs_call fs_view
    (λ _ fs fs', ∀ d m0, fs !! Clean p = Some (File d m0) → fs' = <[Clean p := File d m]> fs) (λ fs fs', fs' = fs) (f_Chmod p m);
  law_Write p data : fs_call fs_view
    (λ _ fs fs', ∀ d m, fs !! Clean p = Some (File d m) → fs' = <[Clean p := File (d +:+ data) m]> fs) (only_data (Clean p)) (f_Write p data);
  law_Sync p : fs_call fs_view (λ _ fs fs', fs' = fs) (λ fs fs', fs' = fs) (f_Sync p);
  law_Copy dst src : fs_call fs_view
    (λ _ fs fs', ∃ data m', fs !! Clean src = Some (File data m') ∧
       ∀ d m, fs !! Clean dst = Some (File d m) → fs' = <[Clean dst := File (d +:+ data) m]> fs) (only_data (Clean dst)) (io_Copy dst src);
  law_Rename p q : fs_call fs_view
    (λ _ fs fs', ∃ nd, fs !! Clean p = Some nd ∧ fs' = <[Clean q := nd]> (delete (Clean p) fs)) (λ fs fs', fs' = fs) (os_Rename p q) }.
