(* ===== verification/FakeFs.v ===== *)
(** * A concrete file system

    An executable instance of the interface of [Files.v], with a fault injected
    per operation and the random suffixes of temporary files given in advance;
    it discharges the interface's laws and runs the installer's witness. *)
From Stdlib Require Import Ascii.
From S2P Require Import Prelude GoStrings Files.

Record disk := mkDisk { dk_fs : FS; dk_faults : list bool; dk_random : list string }.

Definition disk_op {A} (op : FS → outcome (A * FS)) : M disk A := λ d,
  match dk_faults d with
  | true :: fl => (Err (ErrExternal "I/O error"), mkDisk (dk_fs d) fl (dk_random d))
  | _ => match op (dk_fs d) with
         | Ok (a, fs) => (Ok a, mkDisk fs (tail (dk_faults d)) (dk_random d))
         | Err e => (Err e, mkDisk (dk_fs d) (tail (dk_faults d)) (dk_random d))
         | Panicked m => (Panicked m, d)
         end
  end.

Definition enoent : error := ErrExternal "no such file or directory".
Definition on_file {A} (p : string) (k : string → Z → FS → A * FS) : M disk A := disk_op (λ fs,
  match fs !! Clean p with Some (File d m) => Ok (k d m fs) | _ => Err enoent end).

(** The names [k] may have in the directory: what some prefix leaves. *)
Fixpoint suffixes (k : string) : list string :=
  match k with EmptyString => [k] | String _ k' => k :: suffixes k' end.
Definition dir_entries (dir : string) (fs : FS) : list DirEntry := map_to_list fs ≫= λ '(k, nd),
  (λ n, mkDirEntry n (bool_decide (nd = Directory))) <$>
    filter (λ n, plain_name n ∧ path_join dir n = k) (suffixes k).

#[global] Instance disk_ops : FsOps disk := {
  os_ReadFile p := on_file p (λ d _ fs, (d, fs));
  os_Open p := disk_op (λ fs, match fs !! Clean p with Some _ => Ok (tt, fs) | None => Err enoent end);
  os_MkdirAll p := disk_op (λ fs, match fs !! Clean p with
    | Some Directory => Ok (tt, fs) | Some _ => Err (ErrExternal "not a directory") | None => Ok (tt, <[Clean p := Directory]> fs) end);
  os_ReadDir p := disk_op (λ fs, Ok (dir_entries p fs, fs));
  os_Remove p := on_file p (λ _ _ fs, (tt, delete (Clean p) fs));
  os_Stat p := disk_op (λ fs, match fs !! Clean p with Some _ => Ok (tt, fs) | None => Err enoent end);
  os_IsNotExist e := bool_decide (e = enoent);
  os_OpenFile p flags perm := disk_op (λ fs, match fs !! Clean p with
    | Some Directory => Err (ErrExternal "is a directory")
    | Some (File _ m) => Ok (tt, <[Clean p := File "" m]> fs) | None => Ok (tt, <[Clean p := File "" perm]> fs) end);
  os_Create p := disk_op (λ fs, match fs !! Clean p with
    | Some Directory => Err (ErrExternal "is a directory")
    | Some (File _ m) => Ok (tt, <[Clean p := File "" m]> fs) | None => Ok (tt, <[Clean p := File "" 420]> fs) end);
  os_CreateTemp dir pat := λ d,
    match dk_random d with
    | [] => (Err (ErrExternal "no randomness"), d)
    | n :: rs => disk_op (λ fs, let p := path_join dir (pat +:+ n) in
        if bool_decide (no_slash n ∧ fs !! p = None) then Ok (p, <[p := File "" 384]> fs) else Err (ErrExternal "file exists"))
        (mkDisk (dk_fs d) (dk_faults d) rs)
    end;
  f_Chmod p m := on_file p (λ d _ fs, (tt, <[Clean p := File d m]> fs));
  f_Write p data := on_file p (λ d m fs, (tt, <[Clean p := File (d +:+ data) m]> fs));
  f_Sync p := on_file p (λ _ _ fs, (tt, fs));
  io_Copy dst src := disk_op (λ fs, match fs !! Clean dst, fs !! Clean src with
    | Some (File d m), Some (File data _) => Ok (tt, <[Clean dst := File (d +:+ data) m]> fs)
    | _, _ => Err enoent end);
  os_Rename p q := disk_op (λ fs, match fs !! Clean p with
    | Some nd => Ok (tt, <[Clean q := nd]> (delete (Clean p) fs)) | None => Err enoent end) }.

Lemma elem_of_suffixes pre n : n ∈ suffixes (pre +:+ n).
Proof. induction pre as [|c pre IH]; [destruct n; left|]. rewrite str_app_cons. by right. Qed.

Lemma elem_of_dir_entries dir fs e : e ∈ dir_entries dir fs ↔ entry_of fs dir e.
Proof.
  unfold dir_entries, entry_of. rewrite list_elem_of_bind. split.
  - intros ([k nd] & (n & -> & [[Hn <-] _]%list_elem_of_filter)%list_elem_of_fmap & Hk%elem_of_map_to_list).
    split; [done|]. by exists nd.
  - destruct e as [n b]. simpl. intros (Hn & nd & Hnd & ->). exists (path_join dir n, nd).
    split; [|by apply elem_of_map_to_list]. apply list_elem_of_fmap. exists n. split; [done|].
    apply list_elem_of_filter. split; [done|]. destruct (filepath_Join_pre dir) as [pre Hpre].
    unfold path_join. rewrite filepath_Join_clean by apply Hn. rewrite Hpre by done. apply elem_of_suffixes.
Qed.

(** One fault-injected operation obeys a law its result obeys. *)
Lemma fs_call_disk {A} (op : FS → outcome (A * FS)) (P : A → FS → FS → Prop) (E : FS → FS → Prop) :
  (∀ fs, E fs fs) → (∀ fs, match op fs with Ok (a, fs') => P a fs fs' | Err _ => True | Panicked _ => False end) →
  fs_call dk_fs P E (disk_op op).
Proof.
  intros HE HP [fs fl rs]. unfold wp, disk_op. simpl. specialize (HP fs).
  destruct fl as [|[|] fl]; simpl; [|by apply HE|]; destruct (op fs) as [[a fs']|e|m]; simpl; auto.
Qed.

Lemma fs_call_on_file {A} p (k : string → Z → FS → A * FS) (P : A → FS → FS → Prop) (E : FS → FS → Prop) :
  (∀ fs, E fs fs) → (∀ fs d m, fs !! Clean p = Some (File d m) → P (k d m fs).1 fs (k d m fs).2) → fs_call dk_fs P E (on_file p k).
Proof.
  intros HE HP. apply fs_call_disk; [done|]. intros fs. destruct (fs !! Clean p) as [[d m|]|] eqn:Hp; [|done..].
  specialize (HP fs d m Hp). by destruct (k d m fs).
Qed.

Lemma only_dirs_refl fs : only_dirs fs fs.
Proof. intros k. by left. Qed.

#[global] Instance disk_laws : FsLaws disk.
Proof.
  refine {| fs_view := dk_fs |}; intros.
  - apply fs_call_on_file; [done|]. intros fs d m Hp. split; [done|]. by exists m.
  - apply fs_call_disk; [done|]. intros fs. by destruct (fs !! Clean p).
  - apply fs_call_disk; [apply only_dirs_refl|]. intros fs.
    destruct (fs !! Clean p) as [[]|] eqn:Hp; [done|apply only_dirs_refl|]. intros k. destruct (decide (k = Clean p)) as [->|].
    + right. by rewrite lookup_insert_eq.
    + left. by rewrite lookup_insert_ne.
  - apply fs_call_disk; [done|]. intros fs. split; [done|]. apply elem_of_dir_entries.
  - apply fs_call_on_file; [done|]. by intros.
  - destruct w as [fs fl rs]. unfold wp. simpl. unfold disk_op. simpl.
    by destruct fl as [|[|] fl], (fs !! Clean p) eqn:E; simpl; try rewrite E.
  - apply fs_call_disk; [done|]. intros fs. destruct (fs !! Clean p) as [[d m|]|] eqn:Hp; [|done|].
    + exists m. split; [done|]. by exists d.
    + exists perm. split; [done|]. apply Z.land_diag.
  - apply fs_call_disk; [done|]. intros fs. destruct (fs !! Clean p) as [[]|]; [|done|]; by eexists.
  - intros [fs fl [|n rs]]; [done|]. refine (fs_call_disk _
      (λ p fs fs', fs !! Clean p = None ∧ fs' = <[Clean p := File "" 384]> fs ∧ ∃ n, no_slash n ∧ Clean p = path_join dir (pat +:+ n))
      (λ fs fs', fs' = fs) _ _ (mkDisk fs fl rs)); [done|].
    intros fs'. cbv zeta. case_bool_decide as H; [|done]. destruct H. rewrite path_join_clean. split_and!; [done..|]. by exists n.
  - apply fs_call_on_file; [done|]. simpl. intros. by simplify_eq.
  - apply fs_call_on_file; [by left|]. simpl. intros. by simplify_eq.
  - by apply fs_call_on_file.
  - apply fs_call_disk; [by left|]. intros fs. destruct (fs !! Clean dst) as [[d m|]|] eqn:Hd; [|done..].
    destruct (fs !! Clean src) as [[data m'|]|] eqn:Hs; [|done..]. exists data, m'. split; [done|]. intros. by simplify_eq.
  - apply fs_call_disk; [done|]. intros fs. destruct (fs !! Clean p) as [nd|]; [|done]. by exists nd.
Defined.
