(* ===== verification/Installer.v ===== *)
(** * The installer ([cmd/egress-gw-installer/sub])

    Puts the CNI configuration and the plugin binary on a node. *)
From Stdlib Require Import Ascii.
From S2P Require Import Prelude GoStrings Files FakeFs.

Section installer.
Context {W : Type} `{!FsOps W}.

(** The loop that empties the configuration directory. *)
Definition removeFile (dir : string) (fi : DirEntry) : M W unit :=
  if de_IsDir fi then mret tt else os_Remove (filepath_Join [dir; de_Name fi]).

Definition installCniConf (cniConfName cniEtcDir cniNetConf cniNetConfFile : string) : M W unit :=
  data ← (if String.eqb cniNetConf "" then os_ReadFile cniNetConfFile else mret cniNetConf);
  _ ← os_MkdirAll cniEtcDir;
  files ← os_ReadDir cniEtcDir;
  _ ← for_each (removeFile cniEtcDir) files;
  let f := filepath_Join [cniEtcDir; cniConfName] in
  _ ← os_Create f;
  _ ← f_Chmod f 420;                                   (* 0644 *)
  _ ← f_Write f data;
  f_Sync f.

(** A deferred call runs however the function ends; its error is dropped. *)
Definition deferred (d m : M W unit) : M W unit := λ w, let (o, w') := m w in (o, (d w').2).

Definition installEgressGW (egressGWPath cniBinDir : string) : M W unit :=
  _ ← os_Open egressGWPath;
  _ ← os_MkdirAll cniBinDir;
  g ← os_CreateTemp cniBinDir ".tmp";
  deferred (os_Remove g) (
    _ ← io_Copy g egressGWPath;
    _ ← f_Chmod g 493;                                 (* 0755 *)
    _ ← f_Sync g;
    os_Rename g (filepath_Join [cniBinDir; "egress-gw-cni"])).

(** The command, on the settings viper gives; the final sleep is left out. *)
Definition RunE (viper : string → string) : M W unit :=
  _ ← installCniConf (viper "CNI_CONF_NAME") (viper "CNI_ETC_DIR") (viper "CNI_NETCONF") (viper "CNI_NETCONF_FILE");
  installEgressGW (viper "EGRESS_GW_PATH") (viper "CNI_BIN_DIR").
End installer.

Definition defaultCniConfName : string := "05-cilium-cni.conflist".
Definition defaultCniEtcDir : string := "/host/etc/cni/net.d".
Definition defaultCniBinDir : string := "/host/opt/cni/bin".
Definition defaultEgressGWPath : string := "/usr/local/egress-gw/egress-gw-cni".

(** The settings of [initConfig]: a variable that is set and not empty, else
    its default; two have none. *)
Definition initConfig (Getenv : string → string) (key : string) : string :=
  if negb (String.eqb (Getenv key) "") then Getenv key
  else if String.eqb key "CNI_CONF_NAME" then defaultCniConfName
  else if String.eqb key "CNI_ETC_DIR" then defaultCniEtcDir
  else if String.eqb key "CNI_BIN_DIR" then defaultCniBinDir
  else if String.eqb key "EGRESS_GW_PATH" then defaultEgressGWPath
  else "".

(** ** Paths *)
(** A regular file directly in the directory. *)
Definition plain_file (fs : FS) (dir n : string) : Prop :=
  plain_name n ∧ ∃ d m, fs !! path_join dir n = Some (File d m).

(** ** The configuration *)

(** While the directory is emptied: the names in [gone] are, nothing else is. *)
Definition emptied (dir : string) (gone : list DirEntry) (fs fs' : FS) : Prop := ∀ k,
  fs' !! k = if bool_decide (k ∈ (λ e, path_join dir (de_Name e)) <$> filter (λ e, de_IsDir e = false) gone) then None else fs !! k.

(** Apart from [p], only plain files of the directory went and directories came. *)
Definition conf_frame (dir p : string) (fs fs' : FS) : Prop := ∀ k, k ≠ p →
  fs' !! k = fs !! k ∨ (fs !! k = None ∧ fs' !! k = Some Directory) ∨
  ((∃ n, plain_file fs dir n ∧ k = path_join dir n) ∧ fs' !! k = None).

Lemma conf_frame_dirs dir p fs fs' : only_dirs fs fs' → conf_frame dir p fs fs'.
Proof. intros H k _. destruct (H k); auto. Qed.

Lemma conf_frame_emptied dir p fs fs1 fs2 files gone : only_dirs fs fs1 → (∀ e, e ∈ files ↔ entry_of fs1 dir e) →
  gone ⊆ files → emptied dir gone fs1 fs2 → conf_frame dir p fs fs2.
Proof.
  intros Hd Hfiles Hsub He k _. rewrite (He k). case_bool_decide as Hk; [|destruct (Hd k); auto].
  right; right. split; [|done]. apply list_elem_of_fmap in Hk as (e & -> & [Hf Hin]%list_elem_of_filter).
  apply Hsub, Hfiles in Hin as (Hns & nd & Hnd & Hdir). exists (de_Name e). split; [|done]. split; [done|].
  rewrite Hf in Hdir. symmetry in Hdir. apply bool_decide_eq_false in Hdir. destruct nd as [d m|]; [|done].
  destruct (Hd (path_join dir (de_Name e))) as [Heq|[_ Heq]]; [|congruence]. exists d, m. congruence.
Qed.

Lemma conf_frame_step dir p fs fs1 fs2 : conf_frame dir p fs fs1 → (∀ k, k ≠ p → fs2 !! k = fs1 !! k) → conf_frame dir p fs fs2.
Proof. intros H1 H2 k Hk. rewrite (H2 k Hk). by apply H1. Qed.

Lemma only_data_other p fs fs' k : only_data p fs fs' → k ≠ p → fs' !! k = fs !! k.
Proof. intros [->|(d & d' & m & _ & ->)] Hk; [done|]. by rewrite lookup_insert_ne. Qed.

(** An emptied directory has no plain file left. *)
Lemma emptied_no_plain dir fs1 fs2 files n : (∀ e, e ∈ files ↔ entry_of fs1 dir e) → emptied dir files fs1 fs2 → ¬ plain_file fs2 dir n.
Proof.
  intros Hfiles He (Hns & d & m & Hn). rewrite (He (path_join dir n)) in Hn. case_bool_decide as Hk; [done|]. apply Hk.
  apply list_elem_of_fmap. exists (mkDirEntry n false). split; [done|]. apply list_elem_of_filter. split; [done|].
  apply Hfiles. split; [done|]. by exists (File d m).
Qed.

(** What [installCniConf] has done when it returns nil. *)
Definition conf_done (dir name data : string) (fs fs' : FS) : Prop :=
  conf_frame dir (path_join dir name) fs fs' ∧ fs' !! path_join dir name = Some (File data 420) ∧
  ∀ n, plain_file fs' dir n → path_join dir n = path_join dir name.

Section conf.
#[local] Set Default Proof Using "Type*".
Context {W : Type} `{!FsOps W, !FsLaws W}.

Lemma wp_emptying dir files (w : W) : wp (for_each (removeFile dir) files) (λ o w',
  match o with
  | Ok _ => emptied dir files (fs_view w) (fs_view w')
  | Err _ => ∃ gone, gone ⊆ files ∧ emptied dir gone (fs_view w) (fs_view w')
  | Panicked _ => False
  end) w.
Proof.
  eapply (wp_for_each _ (λ l' w', ∃ pre, files = pre ++ l' ∧ emptied dir pre (fs_view w) (fs_view w'))).
  - exists []. by split.
  - intros fi l' w0 (pre & -> & He). unfold removeFile.
    assert (∀ fs', (∀ k, fs' !! k = if decide (de_IsDir fi = false ∧ k = path_join dir (de_Name fi)) then None else fs_view w0 !! k) →
      emptied dir (pre ++ [fi]) (fs_view w) fs') as Hstep.
    { intros fs' Hfs k. rewrite Hfs, (He k), filter_app, fmap_app, filter_cons, filter_nil.
      case_decide as Hd; repeat case_bool_decide; try done; repeat case_decide; set_solver. }
    destruct (de_IsDir fi) eqn:Ed.
    + apply wp_ret. exists (pre ++ [fi]). rewrite <-app_assoc. split; [done|]. apply Hstep. intros k. by rewrite decide_False by naive_solver.
    + eapply wp_mono; [apply law_Remove|]. fold (path_join dir (de_Name fi)). intros [[]|e|m] w1 H1; simpl; [| |done].
      * exists (pre ++ [fi]). rewrite <-app_assoc. split; [done|]. apply Hstep. intros k. rewrite H1.
        destruct (decide (k = path_join dir (de_Name fi))) as [->|Hne].
        -- by rewrite lookup_delete_eq, decide_True.
        -- rewrite lookup_delete_ne by done. by rewrite decide_False by naive_solver.
      * exists pre. rewrite H1. split; [set_solver|done].
  - intros w0 (pre & -> & He). by rewrite app_nil_r.
Qed.

Lemma wp_installCniConf name dir conf conf_file (w : W) : wp (installCniConf name dir conf conf_file) (λ o w',
  match o with
  | Ok _ => ∃ data, conf_done dir name data (fs_view w) (fs_view w') ∧
      (if String.eqb conf "" then ∃ m, fs_view w !! Clean conf_file = Some (File data m) else data = conf)
  | Err _ => conf_frame dir (path_join dir name) (fs_view w) (fs_view w')
  | Panicked _ => False
  end) w.
Proof.
  unfold installCniConf. set (p := path_join dir name). set (fs := fs_view w). apply wp_bind.
  apply (wp_mono _ (λ o w', fs_view w' = fs ∧ match o with
    | Ok data => if String.eqb conf "" then ∃ m, fs !! Clean conf_file = Some (File data m) else data = conf
    | Err _ => True | Panicked _ => False end)).
  { destruct (String.eqb conf ""); [|by apply wp_ret]. eapply wp_mono; [apply law_ReadFile|].
    intros [d|e|m] w1 H1; [|done..]. destruct H1 as [-> [m ?]]. split; [done|]. by exists m. }
  intros [data|e|m] w1 [Hv1 Hdata]; simpl in *; [|rewrite Hv1; by apply conf_frame_dirs; left|done].
  wp_steps. eapply wp_mono; [apply law_MkdirAll|]. rewrite Hv1.
  intros [[]|e|m] w2 H2; simpl in *; [|by apply conf_frame_dirs|done].
  wp_steps. eapply wp_mono; [apply law_ReadDir|]. intros [files|e|m] w3 H3; simpl in *; [|rewrite H3; by apply conf_frame_dirs|done].
  destruct H3 as [Hv3 Hfiles]. wp_steps. eapply wp_mono; [apply wp_emptying|]. rewrite Hv3.
  intros [[]|e|m] w4 H4; simpl in *; [|destruct H4 as (gone & ? & ?); by eapply conf_frame_emptied|done].
  assert (conf_frame dir p fs (fs_view w4)) as F4 by by eapply conf_frame_emptied.
  wp_steps. eapply wp_mono; [apply law_Create|]. fold (path_join dir name) p. intros [[]|e|m] w5 H5; simpl in *; [|by rewrite H5|done].
  destruct H5 as [m0 Hv5].
  assert (∀ d m fs', fs' = <[p := File d m]> (fs_view w5) → conf_frame dir p fs fs') as Hfr.
  { intros d m fs' ->. apply (conf_frame_step _ _ _ _ _ F4). intros k Hk. rewrite Hv5. by rewrite !lookup_insert_ne. }
  assert (conf_frame dir p fs (fs_view w5)) as F5 by (apply (Hfr "" m0); rewrite Hv5; by rewrite insert_insert_eq).
  wp_steps. eapply wp_mono; [apply law_Chmod|]. fold (path_join dir name) p. intros [[]|e|m] w6 H6; simpl in *; [|by rewrite H6|done].
  specialize (H6 "" m0 ltac:(rewrite Hv5; apply lookup_insert_eq)).
  wp_steps. eapply wp_mono; [apply law_Write|]. fold (path_join dir name) p. intros [[]|e|m] w7 H7; simpl in *; [| |done].
  2: { apply (conf_frame_step _ _ _ _ _ (Hfr _ _ _ H6)). intros k Hk. by apply (only_data_other p). }
  specialize (H7 "" 420 ltac:(rewrite H6; apply lookup_insert_eq)). rewrite H6, insert_insert_eq in H7.
  eapply wp_mono; [apply law_Sync|]. intros [[]|e|m] w8 H8; simpl in *; [|rewrite H8; by eapply Hfr|done].
  rewrite H8.
  exists data. split; [|done]. split; [by eapply Hfr|]. rewrite H7. split; [apply lookup_insert_eq|].
  intros n (Hns & d & m & Hn). destruct (decide (path_join dir n = p)) as [|Hne]; [done|]. exfalso.
  apply (emptied_no_plain dir _ _ files n Hfiles H4). split; [done|]. exists d, m.
  by rewrite Hv5, !lookup_insert_ne in Hn.
Qed.
End conf.

(** ** The binary *)
Lemma wp_deferred {W} (d m : M W unit) (Q : outcome unit → W → Prop) w :
  wp m (λ o w', wp d (λ _ w'', Q o w'') w') w → wp (deferred d m) Q w.
Proof. unfold wp, deferred. by destruct (m w). Qed.

Definition target (dir : string) : string := path_join dir "egress-gw-cni".

Lemma temp_plain n : no_slash n → plain_name (".tmp" +:+ n).
Proof. intros Hn. split; [|by rewrite !str_app_cons]. unfold no_slash in *. rewrite !str_app_cons. simpl. set_solver. Qed.
Lemma temp_not_target dir n : no_slash n → path_join dir (".tmp" +:+ n) ≠ target dir.
Proof.
  intros Hn H. apply path_join_inj in H; [by rewrite !str_app_cons in H|by apply temp_plain|by apply (bool_decide_unpack _)].
Qed.

(** From [fs] to [fs'] with the temporary file [tmp]: the target is the old one
    or the whole new one, and only directories came elsewhere. *)
Definition bin_frame (dir src tmp : string) (fs fs' : FS) : Prop :=
  (fs' !! target dir = fs !! target dir ∨ fs !! target dir = None ∧ fs' !! target dir = Some Directory ∨
   ∃ data m, fs !! Clean src = Some (File data m) ∧ fs' !! target dir = Some (File data 493)) ∧
  ∀ k, k ≠ target dir → k ≠ tmp → fs' !! k = fs !! k ∨ fs !! k = None ∧ fs' !! k = Some Directory.

(** While the temporary file is written. *)
Lemma bin_frame_writing dir src tmp fs fs1 fs' nd : tmp ≠ target dir → only_dirs fs fs1 →
  fs' = <[tmp := nd]> fs1 ∨ fs' = delete tmp fs1 → bin_frame dir src tmp fs fs'.
Proof.
  intros Hne Hd Hfs'. assert (∀ k, k ≠ tmp → fs' !! k = fs1 !! k) as He.
  { intros k Hk. destruct Hfs' as [-> | ->]; [by rewrite lookup_insert_ne|by rewrite lookup_delete_ne]. }
  split; [rewrite He by done; destruct (Hd (target dir)); auto|]. intros k _ Hk. rewrite He by done. apply Hd.
Qed.

Section bin.
#[local] Set Default Proof Using "Type*".
Context {W : Type} `{!FsOps W, !FsLaws W}.

(** The part after the temporary file [g] was made in [fs1]. *)
Lemma wp_filling dir src g fs fs1 (w : W) : Clean g ≠ target dir → only_dirs fs fs1 → is_Some (fs !! Clean src) → fs !! Clean g = None →
  fs_view w = <[Clean g := File "" 384]> fs1 → fs1 !! Clean g = None →
  wp (_ ← io_Copy g src; _ ← f_Chmod g 493; _ ← f_Sync g; os_Rename g (filepath_Join [dir; "egress-gw-cni"])) (λ o w',
    match o with
    | Ok _ => ∃ data m, fs !! Clean src = Some (File data m) ∧ fs_view w' = <[target dir := File data 493]> fs1
    | Err _ => ∃ nd, fs_view w' = <[Clean g := nd]> fs1
    | Panicked _ => False
    end) w.
Proof.
  intros Hne Hd [ns Hsrc] Htmp Hv Htmp1. assert (Clean src ≠ Clean g) as Hst by (intros E; rewrite E in Hsrc; congruence).
  assert (fs1 !! Clean src = fs !! Clean src) as Hs1 by (destruct (Hd (Clean src)) as [?|[? _]]; [done|congruence]).
  wp_steps. eapply wp_mono; [apply law_Copy|]. rewrite Hv. intros [[]|e|m] w1 H1; simpl in *; [| |done].
  2: { destruct H1 as [->|(d & d' & m & Hd1 & ->)]; [by eexists|]. rewrite insert_insert_eq. by eexists. }
  destruct H1 as (data & m' & Hsd & H1). rewrite lookup_insert_ne, Hs1 in Hsd by done.
  specialize (H1 "" 384 (lookup_insert_eq _ _ _)). rewrite insert_insert_eq in H1.
  wp_steps. eapply wp_mono; [apply law_Chmod|]. rewrite H1. intros [[]|e|m] w2 H2; simpl in *; [|by eexists|done].
  specialize (H2 _ _ (lookup_insert_eq _ _ _)). rewrite insert_insert_eq in H2.
  wp_steps. eapply wp_mono; [apply law_Sync|]. rewrite H2. intros [[]|e|m] w3 H3; simpl in *; [|by eexists|done].
  eapply wp_mono; [apply law_Rename|]. rewrite H3. intros [[]|e|m] w4 H4; simpl in *; [|by eexists|done].
  destruct H4 as (nd & Hnd & ->). rewrite lookup_insert_eq in Hnd. injection Hnd as <-. exists data, m'. split; [done|].
  rewrite str_app_nil_l. by rewrite delete_insert_id.
Qed.

Lemma wp_installEgressGW src dir (w : W) : wp (installEgressGW src dir) (λ o w',
  ∃ tmp, (∃ n, no_slash n ∧ tmp = path_join dir (".tmp" +:+ n)) ∧ bin_frame dir src tmp (fs_view w) (fs_view w') ∧
    match o with
    | Ok _ => fs_view w' !! tmp = None ∧ ∃ data m, fs_view w !! Clean src = Some (File data m) ∧
                fs_view w' !! target dir = Some (File data 493)
    | Err _ => True
    | Panicked _ => False
    end) w.
Proof.
  unfold installEgressGW. set (fs := fs_view w). 
  assert (∀ fs', only_dirs fs fs' → ∃ tmp, (∃ n, no_slash n ∧ tmp = path_join dir (".tmp" +:+ n)) ∧ bin_frame dir src tmp fs fs' ∧ True) as Hearly.
  { intros fs' Hd. exists (path_join dir (".tmp" +:+ "")). split; [by exists ""; split; [apply (bool_decide_unpack _)|]|]. split; [|done].
    split; [destruct (Hd (target dir)); auto|]. intros k _ _. apply Hd. }
  wp_steps. eapply wp_mono; [apply law_Open|]. intros [[]|e|m] w1 H1; simpl in *; [|apply Hearly; rewrite H1; by left|done].
  destruct H1 as [Hv1 Hsrc]. wp_steps. eapply wp_mono; [apply law_MkdirAll|]. rewrite Hv1.
  intros [[]|e|m] w2 Hd; simpl in *; [|by apply Hearly|done].
  wp_steps. eapply wp_mono; [apply law_CreateTemp|]. intros [g|e|m] w3 H3; simpl in *; [|rewrite H3; by apply Hearly|done].
  destruct H3 as (Htmp1 & Hv3 & n & Hn & Hg). set (tmp := Clean g) in *.
  assert (Hne : tmp ≠ target dir) by (rewrite Hg; by apply temp_not_target).
  assert (Htmp : fs !! tmp = None) by (destruct (Hd tmp) as [Heq|[? _]]; [by etrans; [symmetry; exact Heq|]|done]).
  apply wp_deferred. eapply wp_mono; [by apply (wp_filling dir src g fs (fs_view w2))|].
  intros [[]|e|m] w4 H4; simpl in *; [| |done].
  - destruct H4 as (data & m & Hdata & Hv4).
    eapply (wp_mono _ (λ o w', fs_view w' = fs_view w4)).
    + eapply wp_mono; [apply law_Remove|]. intros [[]|e|m'] w5 H5; simpl in *; [|done..].
      rewrite H5. apply delete_id. by rewrite Hv4, lookup_insert_ne.
    + intros o w5 Hv5. exists tmp. split; [by exists n|]. rewrite Hv5, Hv4. split; [|split].
      * split; [right; right; exists data, m; by rewrite lookup_insert_eq|]. intros k Hk Hk'. rewrite lookup_insert_ne by done. apply Hd.
      * by rewrite lookup_insert_ne.
      * exists data, m. by rewrite lookup_insert_eq.
  - destruct H4 as [nd Hv4]. eapply wp_mono; [apply law_Remove|]. intros o w5 H5. exists tmp. split; [by exists n|]. split; [|done].
    destruct o as [[]|e'|m]; simpl in *; [| |done].
    + apply (bin_frame_writing _ _ _ _ (fs_view w2) _ nd); [done..|]. right. by rewrite H5, Hv4, delete_insert_eq.
    + apply (bin_frame_writing _ _ _ _ (fs_view w2) _ nd); [done..|]. left. by rewrite H5, Hv4.
Qed.
End bin.

(** ** The command *)

(** The binary is never half written: it is the old one, the whole new one, or
    a path where there was nothing became a directory. *)
Definition never_partial (t src : string) (fs fs' : FS) : Prop :=
  fs' !! t = fs !! t ∨ fs !! t = None ∧ fs' !! t = Some Directory ∨
  ∃ data m, fs !! src = Some (File data m) ∧ fs' !! t = Some (File data 493).

(** The paths the configuration's part may write or remove: the plain names of the
    directory and the configuration itself. *)
Definition conf_path (dir name k : string) : Prop := k = path_join dir name ∨ ∃ n, plain_name n ∧ k = path_join dir n.

(** The settings keep the files of the binary directory and the plugin's source
    away from those. *)
Definition apart (viper : string → string) : Prop :=
  let conf := conf_path (viper "CNI_ETC_DIR") (viper "CNI_CONF_NAME") in
  (∀ n, plain_name n → ¬ conf (path_join (viper "CNI_BIN_DIR") n)) ∧ ¬ conf (Clean (viper "EGRESS_GW_PATH")).

(** A path outside the configuration directory keeps what it had. *)
Lemma conf_frame_outside dir name fs fs' k : conf_frame dir (path_join dir name) fs fs' → ¬ conf_path dir name k →
  fs' !! k = fs !! k ∨ fs !! k = None ∧ fs' !! k = Some Directory.
Proof.
  intros H Hk. destruct (H k) as [?|[?|[(n & [Hn _] & ->) _]]]; [intros ->; apply Hk; by left|by left|by right|].
  destruct Hk. right. by exists n.
Qed.

Lemma never_partial_after t src fs fs1 fs2 : (fs1 !! t = fs !! t ∨ fs !! t = None ∧ fs1 !! t = Some Directory) →
  (fs1 !! src = fs !! src ∨ fs !! src = None ∧ fs1 !! src = Some Directory) →
  never_partial t src fs1 fs2 → never_partial t src fs fs2.
Proof.
  unfold never_partial. intros Ht Hsrc H.
  destruct H as [H|[[? H]|(data & m & Hd & H)]]; destruct Ht as [Ht|[? Ht]]; destruct Hsrc as [Hs|[? Hs]];
    rewrite H; (try rewrite Hs in Hd); try rewrite Ht in *; first [by eauto 8|by eauto 8 using eq_trans|congruence|idtac].
Qed.

Section run.
#[local] Set Default Proof Using "Type*".
Context {W : Type} `{!FsOps W, !FsLaws W}.

(** C38: the settings keep the plugin's source and the binary directory away from
    the configuration directory ([apart], as the defaults do).  Then the installer
    never panics.  When it returns nil the configuration
    directory holds no plain file but the configuration, with the settings'
    content (or that of the file they name) and mode 0644, and the plugin of the
    settings is in the binary directory with mode 0755.  On every failure the
    plugin there is still the old one or the complete new one. *)
Theorem RunE_installs viper (w : W) : apart viper → wp (RunE viper) (λ o w',
  let fs := fs_view w in let fs' := fs_view w' in
  let etc := viper "CNI_ETC_DIR" in let src := Clean (viper "EGRESS_GW_PATH") in
  let t := path_join (viper "CNI_BIN_DIR") "egress-gw-cni" in
  match o with
  | Ok _ => ∃ data bin m, fs !! src = Some (File bin m) ∧ fs' !! t = Some (File bin 493) ∧
      fs' !! path_join etc (viper "CNI_CONF_NAME") = Some (File data 420) ∧
      (if String.eqb (viper "CNI_NETCONF") "" then ∃ m', fs !! Clean (viper "CNI_NETCONF_FILE") = Some (File data m')
       else data = viper "CNI_NETCONF") ∧
      ∀ n, plain_file fs' etc n → path_join etc n = path_join etc (viper "CNI_CONF_NAME")
  | Err _ => never_partial t src fs fs'
  | Panicked _ => False
  end) w.
Proof.
  intros [Hbin Hsrc]. unfold RunE. fold (target (viper "CNI_BIN_DIR")). wp_steps. eapply wp_mono; [apply wp_installCniConf|].
  assert (plain_name "egress-gw-cni") as Hname by by apply (bool_decide_unpack _).
  intros [[]|e|m] w1 H1; simpl in *; [| |done].
  2: { pose proof (conf_frame_outside _ _ _ _ (target (viper "CNI_BIN_DIR")) H1 (Hbin _ Hname)) as [?|?]; unfold never_partial; auto. }
  destruct H1 as (data & (Hfr & Hconf & Hplain) & Hdata). eapply wp_mono; [apply wp_installEgressGW|].
  pose proof (conf_frame_outside _ _ _ _ (target (viper "CNI_BIN_DIR")) Hfr (Hbin _ Hname)) as Ht.
  pose proof (conf_frame_outside _ _ _ _ (Clean (viper "EGRESS_GW_PATH")) Hfr Hsrc) as Hs.
  intros [[]|e|m] w2 (tmp & (nt & Hnt & ->) & [Hb Hk] & H2); simpl in *; [| |done].
  2: { by eapply never_partial_after. }
  destruct H2 as (Htmp & bin & m & Hbin1 & Ht2). exists data, bin, m.
  assert (∀ k, conf_path (viper "CNI_ETC_DIR") (viper "CNI_CONF_NAME") k →
    fs_view w2 !! k = fs_view w1 !! k ∨ fs_view w1 !! k = None ∧ fs_view w2 !! k = Some Directory) as Hkeep.
  { intros k Hck. apply Hk; intros ->; [by apply (Hbin _ Hname)|by apply (Hbin _ (temp_plain nt Hnt))]. }
  split_and!; [destruct Hs as [<-|[? ?]]; congruence|done| |done|].
  - destruct (Hkeep (path_join (viper "CNI_ETC_DIR") (viper "CNI_CONF_NAME"))) as [->|[? _]]; [by left|done|congruence].
  - intros n (Hn & d & m' & Hd). apply Hplain. split; [done|]. exists d, m'.
    destruct (Hkeep (path_join (viper "CNI_ETC_DIR") n)) as [<-|[_ ?]]; [right; by exists n|done|congruence].
Qed.
End run.

(** The defaults, on a node with an older configuration and plugin. *)
Definition node_env (k : string) : string := if String.eqb k "CNI_NETCONF" then "{}" else "".
Definition node_disk : disk := mkDisk
  (list_to_map [(defaultEgressGWPath, File "ELF" 365); (path_join defaultCniEtcDir "10-old.conf", File "old" 420);
                (path_join defaultCniBinDir "egress-gw-cni", File "older" 493)]) [] ["123"].

Lemma defaults_apart : apart (initConfig node_env).
Proof.
  unfold apart, conf_path. change (initConfig node_env "CNI_ETC_DIR") with defaultCniEtcDir.
  assert (He : ∀ n, plain_name n → path_join defaultCniEtcDir n = defaultCniEtcDir +:+ "/" +:+ n) by (intros n Hn; by apply path_join_dir).
  assert (Hb : ∀ n, plain_name n → path_join defaultCniBinDir n = defaultCniBinDir +:+ "/" +:+ n) by (intros n Hn; by apply path_join_dir).
  split; [intros n Hn; change (initConfig node_env "CNI_BIN_DIR") with defaultCniBinDir; rewrite Hb by done|];
    (intros [E|(m & Hm & E)]; [by vm_compute in E|rewrite He in E by done; by vm_compute in E]).
Qed.

Lemma RunE_installs_witness :
  (∃ w', RunE (initConfig node_env) node_disk = (Ok tt, w') ∧
    fs_view w' !! path_join defaultCniEtcDir "10-old.conf" = None ∧
    fs_view w' !! path_join defaultCniEtcDir defaultCniConfName = Some (File "{}" 420) ∧
    fs_view w' !! path_join defaultCniBinDir "egress-gw-cni" = Some (File "ELF" 493)) ∧
  ∀ faults, wp (RunE (initConfig node_env)) (λ o w', match o with
    | Err _ => never_partial (path_join defaultCniBinDir "egress-gw-cni") defaultEgressGWPath (dk_fs node_disk) (dk_fs w')
    | _ => True end) (mkDisk (dk_fs node_disk) faults ["123"]).
Proof.
  split; [vm_compute; by eexists|]. intros faults. eapply wp_mono; [apply (RunE_installs _ _ defaults_apart)|].
  by intros [[]|e|m] w'.
Defined.
