(* ===== verification/Pem.v ===== *)
(** * Packages [encoding/base64] and [encoding/pem]

    The encoder the certificate generator uses, executable, and a reference
    decoder that reads back what it wrote. *)
From Stdlib Require Import Ascii.
From S2P Require Import Prelude GoStrings.

(** ** Bytes of a string *)
Definition byte_of (c : ascii) : Z := Z.of_nat (nat_of_ascii c).
Definition char_of (b : Z) : ascii := ascii_of_nat (Z.to_nat b).
Definition bytes_of (s : string) : list Z := byte_of <$> String.list_ascii_of_string s.
Definition string_of (l : list Z) : string := String.string_of_list_ascii (char_of <$> l).

Lemma byte_of_range c : is_byte (byte_of c).
Proof. unfold is_byte, byte_of. pose proof (nat_ascii_bounded c). lia. Qed.
Lemma bytes_of_range s : Forall is_byte (bytes_of s).
Proof. apply Forall_fmap, Forall_true. intros c. apply byte_of_range. Qed.
Lemma string_of_bytes_of s : string_of (bytes_of s) = s.
Proof.
  unfold string_of, bytes_of. rewrite <-list_fmap_compose. rewrite <-(String.string_of_list_ascii_of_string s) at 2. f_equal.
  rewrite <-(list_fmap_id (String.list_ascii_of_string s)) at 2. apply list_fmap_ext. intros _ c _.
  unfold compose, char_of, byte_of. by rewrite Nat2Z.id, ascii_nat_embedding.
Qed.

(** ** base64.StdEncoding *)
Definition alphabet : list ascii :=
  String.list_ascii_of_string "ABCDEFGHIJKLMNOPQRSTUVWXYZabcdefghijklmnopqrstuvwxyz0123456789+/".
Definition b64_char (n : Z) : ascii := nth (Z.to_nat n) alphabet "="%char.
Definition b64_val (c : ascii) : option Z := Z.of_nat ∘ fst <$> list_find (eq c) alphabet.

(** Three bytes make four characters; one or two left over are padded. *)
Fixpoint b64_encode (l : list Z) : list ascii :=
  match l with
  | a :: b :: c :: r =>
      b64_char (a / 4) :: b64_char (a mod 4 * 16 + b / 16) :: b64_char (b mod 16 * 4 + c / 64) ::
      b64_char (c mod 64) :: b64_encode r
  | [a; b] => [b64_char (a / 4); b64_char (a mod 4 * 16 + b / 16); b64_char (b mod 16 * 4); "="%char]
  | [a] => [b64_char (a / 4); b64_char (a mod 4 * 16); "="%char; "="%char]
  | [] => []
  end.

Definition padding (c : ascii) : bool := bool_decide (c = "="%char).
Fixpoint b64_decode (l : list ascii) : option (list Z) :=
  match l with
  | [] => Some []
  | c1 :: c2 :: c3 :: c4 :: r =>
      v1 ← b64_val c1;
      v2 ← b64_val c2;
      if padding c3
      then if padding c4 && bool_decide (r = []) then Some [v1 * 4 + v2 / 16] else None
      else
        v3 ← b64_val c3;
        if padding c4
        then if bool_decide (r = []) then Some [v1 * 4 + v2 / 16; v2 mod 16 * 16 + v3 / 4] else None
        else
          v4 ← b64_val c4;
          rest ← b64_decode r;
          Some (v1 * 4 + v2 / 16 :: v2 mod 16 * 16 + v3 / 4 :: v3 mod 4 * 64 + v4 :: rest)
  | _ => None
  end.

Definition newline : ascii := "010"%char.

(** The 64 characters: each stands for its position and is neither the padding
    nor a newline nor a hyphen. *)
Definition b64_char_ok (n : Z) : bool :=
  bool_decide (b64_val (b64_char n) = Some n ∧ b64_char n ≠ "="%char ∧ b64_char n ≠ newline ∧ b64_char n ≠ "-"%char).
Lemma b64_chars n : 0 ≤ n < 64 →
  b64_val (b64_char n) = Some n ∧ padding (b64_char n) = false ∧ b64_char n ≠ newline.
Proof.
  intros Hn. assert (H : forallb (λ k, b64_char_ok (Z.of_nat k)) (seq 0 64) = true) by by vm_compute.
  rewrite forallb_forall in H. specialize (H (Z.to_nat n)). rewrite Z2Nat.id in H by lia.
  apply bool_decide_eq_true in H as (H1 & H2 & H3 & _); [|apply in_seq; lia].
  split_and!; [done|by apply bool_decide_eq_false|done].
Qed.

(** Induction over a list three elements at a time. *)
Lemma list_ind3 {A} (P : list A → Prop) : P [] → (∀ a, P [a]) → (∀ a b, P [a; b]) →
  (∀ a b c l, P l → P (a :: b :: c :: l)) → ∀ l, P l.
Proof. intros H0 H1 H2 H3. fix IH 1. intros [|a [|b [|c l]]]; [done|done|done|]. apply H3, IH. Qed.


(** [lia] with division and remainder by constants. *)
Ltac dlia := Z.div_mod_to_equations; lia.

Lemma b64_roundtrip l : Forall is_byte l → b64_decode (b64_encode l) = Some l.
Proof.
  unfold is_byte. induction l as [|a|a b|a b c l IH] using list_ind3; intros Hl; [done|..]; rewrite !Forall_cons in Hl; cbn [b64_encode b64_decode].
  - destruct (b64_chars (a / 4)) as (-> & _); [dlia|]. destruct (b64_chars (a mod 4 * 16)) as (-> & _); [dlia|].
    simpl. do 2 f_equal. dlia.
  - destruct (b64_chars (a / 4)) as (-> & _); [dlia|]. destruct (b64_chars (a mod 4 * 16 + b / 16)) as (-> & _); [dlia|].
    destruct (b64_chars (b mod 16 * 4)) as (-> & -> & _); [dlia|]. simpl. f_equal. f_equal; [dlia|]. f_equal. dlia.
  - destruct (b64_chars (a / 4)) as (-> & _); [dlia|]. destruct (b64_chars (a mod 4 * 16 + b / 16)) as (-> & _); [dlia|].
    destruct (b64_chars (b mod 16 * 4 + c / 64)) as (-> & -> & _); [dlia|].
    destruct (b64_chars (c mod 64)) as (-> & -> & _); [dlia|]. simpl. rewrite IH by tauto. simpl.
    f_equal. f_equal; [dlia|]. f_equal; [dlia|]. f_equal. dlia.
Qed.

Lemma b64_no_newline l : Forall is_byte l → newline ∉ b64_encode l.
Proof.
  unfold is_byte. induction l as [|a|a b|a b c l IH] using list_ind3; intros Hl; [apply not_elem_of_nil|..];
    rewrite !Forall_cons in Hl; cbn [b64_encode]; rewrite ?not_elem_of_cons; split_and!;
    try (intros E; symmetry in E; revert E; apply b64_chars; dlia); try done; try apply not_elem_of_nil.
  apply IH. tauto.
Qed.

(** ** pem.Encode

    The text is written piece by piece: the body in lines of 64 characters. *)
Fixpoint lines64 (fuel : nat) (l : list ascii) : list string :=
  match fuel, l with
  | S n, _ :: _ => String.string_of_list_ascii (take 64 l) :: lines64 n (drop 64 l)
  | _, _ => []
  end.
Definition body_lines (bytes : string) : list string :=
  let l := b64_encode (bytes_of bytes) in lines64 (length l) l.

Definition eol (s : string) : string := s +:+ String newline "".
Definition pem_pieces (typ bytes : string) : list string :=
  ["-----BEGIN "; eol (typ +:+ "-----")] ++ (eol <$> body_lines bytes) ++ ["-----END "; eol (typ +:+ "-----")].
Definition pem_text (typ bytes : string) : string := foldr String.append "" (pem_pieces typ bytes).

(** ** Reading a block of the given type back *)
Definition pem_Decode (typ text : string) : option string :=
  match Split text newline with
  | first :: rest =>
      match rev rest with
      | "" :: last :: body =>
          if bool_decide (first = "-----BEGIN " +:+ typ +:+ "-----" ∧ last = "-----END " +:+ typ +:+ "-----")
          then string_of <$> b64_decode (concat (String.list_ascii_of_string <$> rev body)) else None
      | _ => None
      end
  | [] => None
  end.

Lemma lines64_concat n l : (length l ≤ n)%nat → concat (String.list_ascii_of_string <$> lines64 n l) = l.
Proof.
  revert l. induction n as [|n IH]; intros [|c l] Hl; try done; [simpl in Hl; lia|]. cbn [lines64 fmap list_fmap concat].
  rewrite IH, String.list_ascii_of_string_of_list_ascii, take_drop; [done|]. rewrite length_drop. simpl in *. lia.
Qed.

Lemma lines64_elem n l x c : x ∈ lines64 n l → c ∈ String.list_ascii_of_string x → c ∈ l.
Proof.
  revert l. induction n as [|n IH]; intros [|d l]; try by intros ?%elem_of_nil.
  intros [->|Hx]%elem_of_cons Hc.
  - rewrite String.list_ascii_of_string_of_list_ascii in Hc. by eapply elem_of_take in Hc as (i & ? & _); eapply list_elem_of_lookup_2.
  - eapply (subseteq_drop 64). by eapply IH.
Qed.

(** A text made of lines, each with its newline. *)
Definition unlines (l : list string) : string := foldr (λ x t, eol x +:+ t) "" l.

Lemma Split_line x sep t : sep ∉ String.list_ascii_of_string x → Split (x +:+ String sep t) sep = x :: Split t sep.
Proof.
  induction x as [|c x IH]; intros Hx.
  - simpl. by rewrite bool_decide_eq_true_2.
  - rewrite str_app_cons. cbn [Split]. simpl in Hx. rewrite not_elem_of_cons in Hx. destruct Hx as [Hc Hx].
    rewrite bool_decide_eq_false_2 by done. by rewrite IH.
Qed.

Lemma Split_unlines l : Forall (λ x, newline ∉ String.list_ascii_of_string x) l → Split (unlines l) newline = l ++ [""].
Proof.
  induction 1 as [|x l Hx _ IH]; [done|]. change (unlines (x :: l)) with ((x +:+ String newline "") +:+ unlines l).
  rewrite <-str_app_assoc, str_app_cons. change ("" +:+ unlines l) with (unlines l). by rewrite Split_line, IH.
Qed.

Lemma pem_text_lines typ bytes : pem_text typ bytes =
  unlines (["-----BEGIN " +:+ typ +:+ "-----"] ++ body_lines bytes ++ ["-----END " +:+ typ +:+ "-----"]).
Proof.
  unfold pem_text, pem_pieces, unlines, eol. rewrite !foldr_app. cbn [foldr].
  rewrite !str_app_nil_r, foldr_fmap, <-!str_app_assoc. done.
Qed.

(** What [pem.Encode] writes decodes to the bytes. *)
Lemma pem_roundtrip typ bytes : newline ∉ String.list_ascii_of_string typ → pem_Decode typ (pem_text typ bytes) = Some bytes.
Proof.
  intros Ht. unfold pem_Decode. rewrite pem_text_lines, Split_unlines.
  - cbn [app]. rewrite <-app_assoc, rev_app_distr. cbn [rev app].
    rewrite bool_decide_eq_true_2 by done. rewrite rev_involutive. unfold body_lines.
    rewrite lines64_concat by done. rewrite b64_roundtrip by apply bytes_of_range. simpl. by rewrite string_of_bytes_of.
  - assert (Hno : ∀ pre, newline ∉ String.list_ascii_of_string pre → newline ∉ String.list_ascii_of_string (pre +:+ typ +:+ "-----")).
    { intros pre Hpre. rewrite !list_ascii_app, !not_elem_of_app. split_and!; [done|done|]. by apply (bool_decide_unpack _). }
    rewrite !Forall_app, !Forall_singleton. split_and!.
    + apply Hno. by apply (bool_decide_unpack _).
    + apply Forall_forall. intros x Hx Hn. eapply b64_no_newline; [apply bytes_of_range|]. by eapply lines64_elem.
    + apply Hno. by apply (bool_decide_unpack _).
Qed.

Example pem_text_ex : pem_text "X" "Man is" =
  "-----BEGIN X-----" +:+ String newline ("TWFuIGlz" +:+ String newline ("-----END X-----" +:+ String newline "")).
Proof. by vm_compute. Qed.
