(* ===== verification/Gencert.v ===== *)
(** * The certificate generator ([cmd/gencert/main.go])

    Makes the webhook's key and certificate and writes them to two PEM files.
    RSA and X.509 (crypto/rsa, crypto/x509) are parameters: they make the values
    this tool only passes on. *)
From Stdlib Require Import Ascii.
From S2P Require Import Prelude GoStrings Files FakeFs Pem.

Definition dnsAliases (host : string) : list string :=
  let parts := Split host "."%char in
  (λ i, Join (take (length parts - i) parts) "."%char) <$> seq 0 (length parts).

(** [x509.Certificate], as far as the tool fills it; times and durations in
    nanoseconds. *)
Record Certificate := mkCertificate {
  SerialNumber : Z; CommonName : string; NotBefore : Z; NotAfter : Z;
  KeyUsage : Z; ExtKeyUsage : list Z; BasicConstraintsValid : bool; DNSNames : list string }.
Definition KeyUsageDigitalSignature : Z := 1.
Definition KeyUsageKeyEncipherment : Z := 4.
Definition ExtKeyUsageServerAuth : Z := 1.

Definition template (notBefore validFor : Z) (host : string) : Certificate :=
  mkCertificate 1 "egress-gw-webhook-service" notBefore (notBefore + validFor)
    (Z.lor KeyUsageDigitalSignature KeyUsageKeyEncipherment) [ExtKeyUsageServerAuth] true (dnsAliases host).

(** The flags' defaults. *)
Definition default_host : string := "egress-gw-webhook-service.kube-system.svc".
Definition default_validFor : Z := 36500 * 24 * (3600 * 1000000000).
Definition default_outDir : string := ".".

Section gencert.
Context {W : Type} `{!FsOps W}.

(** [if err != nil { log.Fatalf(msg, err) }]: the process ends with status 1. *)
Definition fatal {A} (msg : string) (m : M W A) : M W A := λ w,
  match m w with
  | (Err _, w') => (Err (ErrNew msg), w')
  | r => r
  end.

Definition pem_Encode (f typ bytes : string) : M W unit := for_each (f_Write f) (pem_pieces typ bytes).

Definition outputPEM (fname pemType data : string) : M W unit :=
  _ ← fatal "failed to open %s: %v" (os_OpenFile fname 577 384);      (* O_WRONLY|O_CREATE|O_TRUNC, 0600 *)
  _ ← fatal "failed to encode: %v" (pem_Encode fname pemType data);
  fatal "failed to fsync: %v" (f_Sync fname).

(** The [switch] on the error of [os.Stat]. *)
Definition makeOutDir (outDir : string) : M W unit :=
  r ← attempt (os_Stat outDir);
  match r with
  | inl _ => mret tt
  | inr err =>
      if os_IsNotExist err then fatal "failed to create output directory: %v" (os_MkdirAll outDir)   (* 0755 *)
      else throw (ErrNew "stat %s failed: %v")
  end.

Context {PrivateKey PublicKey : Type} (Public : PrivateKey → PublicKey).
Context (rsa_GenerateKey : Z → outcome PrivateKey).
Context (x509_CreateCertificate : Certificate → Certificate → PublicKey → PrivateKey → outcome string).
Context (x509_MarshalPKCS8PrivateKey : PrivateKey → outcome string).

Definition main (now : Z) (host : string) (validFor : Z) (outDir : string) : M W unit :=
  priv ← fatal "%v" (lift_outcome (rsa_GenerateKey 4096));
  let template := template now validFor host in
  certBytes ← fatal "failed to create certificate: %v"
    (lift_outcome (x509_CreateCertificate template template (Public priv) priv));
  _ ← makeOutDir outDir;
  privBytes ← fatal "failed to marshal private key: %v" (lift_outcome (x509_MarshalPKCS8PrivateKey priv));
  _ ← outputPEM (filepath_Join [outDir; "cert.pem"]) "CERTIFICATE" certBytes;
  outputPEM (filepath_Join [outDir; "key.pem"]) "PRIVATE KEY" privBytes.
End gencert.

(** The first [n + 1] parts of a split string, joined again. *)
Definition start (s : string) (sep : ascii) (n : nat) : string := Join (take (S n) (Split s sep)) sep.

Lemma start_sep s sep n : start (String sep s) sep n = match n with O => "" | S n => String sep (start s sep n) end.
Proof.
  unfold start. cbn [Split]. rewrite bool_decide_eq_true_2 by done. destruct n as [|n]; [done|].
  destruct (Split_cons s sep) as (x & l & ->). done.
Qed.

Lemma start_other s sep c n : c ≠ sep → start (String c s) sep n = String c (start s sep n).
Proof.
  intros Hc. unfold start. cbn [Split]. rewrite bool_decide_eq_false_2 by done.
  destruct (Split_cons s sep) as (x & l & ->). cbn [take]. by destruct (take n l).
Qed.

Lemma length_Split_cons s sep c : length (Split (String c s) sep) = ((if decide (c = sep) then 1 else 0) + length (Split s sep))%nat.
Proof.
  cbn [Split]. case_decide; [by rewrite bool_decide_eq_true_2|]. rewrite bool_decide_eq_false_2 by done.
  by destruct (Split_cons s sep) as (x & l & ->).
Qed.

(** They are the string and what comes before one of its separators. *)
Lemma start_spec s sep a : (∃ n, (n < length (Split s sep))%nat ∧ a = start s sep n) ↔
  a = s ∨ ∃ rest, s = a +:+ String sep rest.
Proof.
  revert a. induction s as [|c s IH]; intros a.
  - simpl. split.
    + intros (n & Hn & ->). left. by replace n with 0%nat by lia.
    + intros [->|[rest H]]; [by exists 0%nat; split; [lia|]|]. by destruct a.
  - rewrite length_Split_cons. case_decide as Hc.
    + subst c. split.
      * intros ([|n] & Hn & ->); rewrite start_sep; [by right; exists s|].
        destruct (proj1 (IH (start s sep n))) as [Heq|[rest Heq]]; [exists n; split; [lia|done]|left; congruence|].
        right. exists rest. by rewrite str_app_cons, <-Heq.
      * intros Ha. assert (a = "" ∨ ∃ b, a = String sep b ∧ (b = s ∨ ∃ rest, s = b +:+ String sep rest)) as [->|(b & -> & Hb)].
        { destruct Ha as [->|[rest Heq]]; [by right; exists s; auto|]. destruct a as [|d a]; [by left|right].
          rewrite str_app_cons in Heq. injection Heq as <- Heq. eauto. }
        -- exists 0%nat. rewrite start_sep. split; [lia|done].
        -- apply IH in Hb as (n & Hn & ->). exists (S n). rewrite start_sep. split; [lia|done].
    + split.
      * intros (n & Hn & ->). rewrite start_other by done.
        destruct (proj1 (IH (start s sep n))) as [Heq|[rest Heq]]; [exists n; split; [lia|done]|left; congruence|].
        right. exists rest. by rewrite str_app_cons, <-Heq.
      * intros Ha. assert (∃ b, a = String c b ∧ (b = s ∨ ∃ rest, s = b +:+ String sep rest)) as (b & -> & Hb).
        { destruct Ha as [->|[rest Heq]]; [by eauto|]. destruct a as [|d a]; [by injection Heq|].
          rewrite str_app_cons in Heq. injection Heq as <- Heq. eauto. }
        apply IH in Hb as (n & Hn & ->). exists n. rewrite start_other by done. split; [lia|done].
Qed.

(** The names are the host itself, first, and its starts up to a dot: one
    per label of the host, each label one shorter, and nothing else. *)
Theorem dnsAliases_spec host :
  dnsAliases host !! 0%nat = Some host ∧ length (dnsAliases host) = length (Split host "."%char) ∧
  ∀ a, a ∈ dnsAliases host ↔ a = host ∨ ∃ rest, host = a +:+ "." +:+ rest.
Proof.
  unfold dnsAliases. set (parts := Split host _). assert (0 < length parts)%nat as Hl.
  { unfold parts. destruct (Split_cons host "."%char) as (x & l & ->). simpl. lia. }
  rewrite length_fmap, length_seq. split_and!; [|done|].
  - rewrite list_lookup_fmap, lookup_seq_lt by lia. simpl. rewrite Nat.sub_0_r, firstn_all. f_equal. apply Join_Split.
  - intros a. change (∃ rest, host = a +:+ "." +:+ rest) with (∃ rest, host = a +:+ String "."%char rest).
    rewrite <-start_spec, list_elem_of_fmap. fold parts. unfold start. fold parts. split.
    + intros (i & -> & Hi%elem_of_seq). exists (length parts - S i)%nat. split; [lia|]. do 2 f_equal. lia.
    + intros (n & Hn & ->). exists (length parts - S n)%nat. split; [do 2 f_equal; lia|]. apply elem_of_seq. lia.
Qed.

Example dnsAliases_ex : dnsAliases "egress.kube-system.svc" = ["egress.kube-system.svc"; "egress.kube-system"; "egress"].
Proof. reflexivity. Qed.

(** The default duration is a valid one: it fits into 64 bits. *)
Example default_validFor_fits : default_validFor < 2 ^ 63.
Proof. by vm_compute. Qed.
Example filepath_Join_ex : filepath_Join [default_outDir; "cert.pem"] = "cert.pem" ∧ filepath_Join ["/a/./b/../"; "key.pem"] = "/a/key.pem".
Proof. by vm_compute. Qed.

(** ** The files *)

(** [p] holds the block; a new file is the owner's alone, an old one keeps its
    permissions. *)
Definition holds (typ bytes p : string) (fs fs' : FS) : Prop :=
  ∃ text m, fs' !! p = Some (File text m) ∧ pem_Decode typ text = Some bytes ∧
    match fs !! p with Some nd => ∃ d, nd = File d m | None => Z.land m 384 = m end.

Definition only_file (p : string) (fs fs' : FS) : Prop := ∀ k, k ≠ p → fs' !! k = fs !! k.

Section files.
#[local] Set Default Proof Using "Type*".
Context {W : Type} `{!FsOps W, !FsLaws W}.
Implicit Types w : W.

Lemma wp_fatal {A} msg (m : M W A) (Q : outcome A → W → Prop) w :
  wp m (λ o w', match o with Err _ => Q (Err (ErrNew msg)) w' | r => Q r w' end) w → wp (fatal msg m) Q w.
Proof. unfold wp, fatal. by destruct (m w) as [[]]. Qed.

Lemma wp_makeOutDir outDir w :
  wp (makeOutDir outDir) (λ o w', no_panic o ∧ only_dirs (fs_view w) (fs_view w')) w.
Proof.
  unfold makeOutDir. apply wp_bind, wp_attempt. eapply wp_mono; [apply law_Stat|]. intros r w1 [<- Hr].
  destruct r as [[]|e|s]; simpl; [apply wp_ret; split; [done|apply only_dirs_refl]| |done].
  destruct (os_IsNotExist e); [|apply wp_throw; split; [done|apply only_dirs_refl]].
  apply wp_fatal. eapply wp_mono; [apply law_MkdirAll|]. by intros [[]|e'|s] w2 H.
Qed.

(** Writing the pieces of a text one after the other. *)
Lemma wp_writes p pieces d m w : Clean p = p → fs_view w !! p = Some (File d m) →
  wp (for_each (f_Write p) pieces) (λ o w', only_file p (fs_view w) (fs_view w') ∧ match o with
    | Ok _ => fs_view w' !! p = Some (File (d +:+ foldr String.append "" pieces) m)
    | Err _ => True
    | Panicked _ => False
    end) w.
Proof.
  intros Hcl. revert d w. induction pieces as [|x pieces IH]; intros d w Hp; cbn [for_each foldr].
  - apply wp_ret. split; [done|]. by rewrite str_app_nil_r.
  - apply wp_bind. eapply wp_mono; [apply law_Write|]. rewrite Hcl. intros [[]|e|s] w1 H1; simpl; [| |done].
    + specialize (H1 d m Hp). eapply wp_mono; [apply (IH (d +:+ x)); rewrite H1; apply lookup_insert_eq|].
      intros o w2 [Hf Ho]. split; [|by rewrite str_app_assoc].
      intros k Hk. rewrite Hf, H1 by done. by rewrite lookup_insert_ne.
    + split; [|done]. intros k Hk. destruct H1 as [->|(d1 & d2 & m1 & _ & ->)]; [done|]. by rewrite lookup_insert_ne.
Qed.

Lemma wp_outputPEM p typ bytes w : Clean p = p → newline ∉ String.list_ascii_of_string typ →
  wp (outputPEM p typ bytes) (λ o w', only_file p (fs_view w) (fs_view w') ∧ match o with
    | Ok _ => holds typ bytes p (fs_view w) (fs_view w')
    | Err _ => True
    | Panicked _ => False
    end) w.
Proof.
  intros Hcl Ht. unfold outputPEM. apply wp_bind, wp_fatal. eapply wp_mono; [apply law_OpenFile|]. rewrite Hcl.
  intros [[]|e|s] w1 H1; simpl; [|by rewrite H1|done]. destruct H1 as (m & H1 & Hm).
  assert (H1f : only_file p (fs_view w) (fs_view w1)) by (intros k Hk; rewrite H1; by apply lookup_insert_ne).
  apply wp_bind, wp_fatal. eapply wp_mono; [apply (wp_writes p _ "" m _ Hcl); rewrite H1; apply lookup_insert_eq|].
  intros o w2 [H2 Ho]. assert (H2f : only_file p (fs_view w) (fs_view w2)) by (intros k Hk; by rewrite H2, H1f).
  destruct o as [[]|e|s]; simpl; [|done..]. apply wp_fatal. eapply wp_mono; [apply law_Sync|].
  intros [[]|e|s] w3 H3; simpl; rewrite ?H3; [|done..]. split; [done|].
  exists (pem_text typ bytes), m. split_and!; [exact Ho|by apply pem_roundtrip|done].
Qed.
End files.

(** Directories may come, [p] and [q] may change. *)
Definition two_files (p q : string) (fs fs' : FS) : Prop := ∀ k, k ≠ p → k ≠ q →
  fs' !! k = fs !! k ∨ fs !! k = None ∧ fs' !! k = Some Directory.

Lemma holds_dirs typ bytes p fs fs1 fs2 : only_dirs fs fs1 → holds typ bytes p fs1 fs2 → holds typ bytes p fs fs2.
Proof.
  intros Hd (text & m & H1 & H2 & H3). exists text, m. split_and!; [done..|].
  destruct (Hd p) as [<-|[H H']]; [done|]. rewrite H' in H3. by destruct H3.
Qed.

Definition cert_path (outDir : string) : string := filepath_Join [outDir; "cert.pem"].
Definition key_path (outDir : string) : string := filepath_Join [outDir; "key.pem"].
Lemma paths_differ outDir : cert_path outDir ≠ key_path outDir.
Proof.
  intros H. assert (plain_name "cert.pem" ∧ plain_name "key.pem") as [Hc Hk].
  { by split; apply (bool_decide_unpack _). }
  by apply (filepath_Join_inj outDir _ _ Hc Hk) in H.
Qed.

(** ** Properties *)
(** C40: when the tool ends normally, cert.pem holds a certificate for the host's
    names, made from the template and signed with the new key itself, and key.pem
    that key: each file decodes to exactly these bytes, whatever it held before.  A
    key file that is new is its owner's alone; one that existed keeps its
    permissions.  Nothing else changes but for new directories, and a failure to
    make key or certificate leaves both files as they were. *)
Theorem main_spec {W} `{!FsOps W, !FsLaws W} {PrivateKey PublicKey} (Public : PrivateKey → PublicKey)
    GenerateKey CreateCertificate MarshalPKCS8 now host validFor outDir (w : W) :
  no_panic (GenerateKey 4096) → (∀ t k, no_panic (CreateCertificate t t (Public k) k)) → (∀ k, no_panic (MarshalPKCS8 k)) →
  let tmpl := template now validFor host in
  let made priv cert der := GenerateKey 4096 = Ok priv ∧
    CreateCertificate tmpl tmpl (Public priv) priv = Ok cert ∧ MarshalPKCS8 priv = Ok der in
  wp (main Public GenerateKey CreateCertificate MarshalPKCS8 now host validFor outDir) (λ o w',
    two_files (cert_path outDir) (key_path outDir) (fs_view w) (fs_view w') ∧
    ((∀ priv cert der, ¬ made priv cert der) → only_dirs (fs_view w) (fs_view w')) ∧
    match o with
    | Ok _ => ∃ priv cert der, made priv cert der ∧
        holds "CERTIFICATE" cert (cert_path outDir) (fs_view w) (fs_view w') ∧
        holds "PRIVATE KEY" der (key_path outDir) (fs_view w) (fs_view w')
    | Err _ => True
    | Panicked _ => False
    end) w.
Proof.
  intros Hk Hc Hm tmpl made. set (cp := cert_path outDir). set (kp := key_path outDir).
  assert (Hfiles : ∀ fs fs', only_dirs fs fs' → two_files cp kp fs fs') by (intros fs fs' H k _ _; apply H).
  assert (Hstop : ∀ w', only_dirs (fs_view w) (fs_view w') → two_files cp kp (fs_view w) (fs_view w') ∧
    ((∀ priv cert der, ¬ made priv cert der) → only_dirs (fs_view w) (fs_view w')) ∧ True) by (intros w' H; auto).
  pose proof (only_dirs_refl (fs_view w)) as Hrefl. unfold main. fold tmpl. apply wp_bind, wp_fatal, wp_lift_outcome.
  destruct (GenerateKey 4096) as [priv|e|s] eqn:Ek; simpl; [|by apply Hstop|done].
  apply wp_bind, wp_fatal, wp_lift_outcome. specialize (Hc tmpl priv).
  destruct (CreateCertificate _ _ _ _) as [cert|e|s] eqn:Ec; simpl; [|by apply Hstop|done].
  apply wp_bind. eapply wp_mono; [apply wp_makeOutDir|]. intros [[]|e|s] w1 [Hnp Hd]; simpl; [|by apply Hstop|done].
  apply wp_bind, wp_fatal, wp_lift_outcome. specialize (Hm priv).
  destruct (MarshalPKCS8 priv) as [der|e|s] eqn:Em; simpl; [|by apply Hstop|done].
  assert (Hmade : made priv cert der) by done.
  assert (Hout : ∀ w', (∀ k, k ≠ cp → k ≠ kp → fs_view w' !! k = fs_view w1 !! k) → two_files cp kp (fs_view w) (fs_view w')).
  { intros w' H k H1 H2. rewrite H by done. apply Hd. }
  apply wp_bind. fold cp kp. eapply wp_mono; [apply wp_outputPEM; [by apply filepath_Join_clean|by apply (bool_decide_unpack _)]|].
  intros o w2 [H2f H2]. destruct o as [[]|e|s]; simpl; [| |done].
  2:{ split_and!; [by apply Hout; auto|by intros []%(λ H, H priv cert der)|done]. }
  eapply wp_mono; [apply wp_outputPEM; [by apply filepath_Join_clean|by apply (bool_decide_unpack _)]|]. intros o w3 [H3f H3].
  assert (H3o : two_files cp kp (fs_view w) (fs_view w3)) by (apply Hout; intros k H1 H1'; rewrite H3f, H2f; done).
  destruct o as [[]|e|s]; [| |done]; (split; [done|]); (split; [by intros []%(λ H, H priv cert der)|]); [|done].
  exists priv, cert, der. split; [done|]. split; eapply holds_dirs; try exact Hd.
  - destruct H2 as (text & m & Ht & ? & ?). exists text, m. rewrite H3f by apply paths_differ. done.
  - destruct H3 as (text & m & Ht & ? & Hm3). exists text, m. split_and!; [done..|]. rewrite H2f in Hm3; [done|].
    intros E. by apply (paths_differ outDir).
Qed.

(** ** Witness: a second run over an old pair, the key of which anyone may read *)
Definition sample_key (bits : Z) : outcome string := Ok "key".
Definition sample_cert (t parent : Certificate) (pub priv : string) : outcome string := Ok (Join (DNSNames t) ","%char).
Definition sample_der (priv : string) : outcome string := Ok ("der of " +:+ priv).
Definition old_pair : disk := mkDisk {[ ".":= Directory; "cert.pem" := File "old" 384; "key.pem" := File "a longer text that was there before" 420 ]} [] [].

Lemma main_spec_witness :
  let r := main (λ k : string, k) sample_key sample_cert sample_der 0 default_host default_validFor "." old_pair in
  r.1 = Ok tt ∧
  (∃ text, fs_view r.2 !! "key.pem" = Some (File text 420) ∧ pem_Decode "PRIVATE KEY" text = Some "der of key") ∧
  ∃ text m, fs_view r.2 !! "cert.pem" = Some (File text m) ∧
    pem_Decode "CERTIFICATE" text = Some "egress-gw-webhook-service.kube-system.svc,egress-gw-webhook-service.kube-system,egress-gw-webhook-service".
Proof.
  intros r. assert (Ho : r.1 = Ok tt) by (vm_compute; reflexivity). split; [exact Ho|].
  pose proof (main_spec (λ k : string, k) sample_key sample_cert sample_der 0 default_host default_validFor "." old_pair
    I (λ _ _, I) (λ _, I)) as (_ & _ & H). fold r in H. rewrite Ho in H.
  destruct H as (priv & cert & der & ([= <-] & [= <-] & [= <-]) & (ct & cm & H1 & H2 & _) & (kt & km & H3 & H4 & (d & [= <- <-]))).
  split; [exists kt; by split|]. exists ct, cm. by split.
Defined.
